(* ===== verification/_CoqProject ===== *)
-Q . S2P
Prelude.v
Effects.v
CxxString.v
Regex.v
UeKey.v
UeState.v
UeHash.v
Events.v
UeStateManager.v
UeStateManagerSpec.v
QodTypes.v
QodStateManager.v
QodStoreSpec.v
CTime.v
Json.v
JsonMembers.v
Comms.v
ServiceHelpers.v
PolicyManager.v
PolicySpec.v
RequestRouter.v
RestRouter.v
SubscriptionManager.v
SubscriptionSpec.v
QodNotificationManager.v
NotificationSpec.v
PccRuleManager.v
PccSpec.v
PcfHelpers.v
PcfGateway.v
QodPcfHandler.v
PcfRequestSpec.v
PcfHandler.v
PcfExamples.v
QodPcfSpec.v
FlowSpec.v
PcfHandlerSpec.v
QodSessionManager.v
QodSessionInvariant.v
QodSessionSpec.v
TransportSpec.v
SessionAgreement.v
QodHandler.v
Orchestrator.v
ApiSpec.v
ApiHandlers.v
ApiHandlersSpec.v
AdapterModels.v
QodClient.v
AdapterSessions.v
AdapterTests.v
AdapterSpec.v
QodClientSpec.v
AdapterTransport.v
HttpQodClient.v
HttpQodClientSpec.v
BundledRuntime.v
BundledRuntimeSpec.v
OrchestratorSetup.v
OrchestratorSetupSpec.v
PcfSetup.v
PcfSetupSpec.v
AdapterConfig.v
ApiAdapter.v
Programs.v
