(* ===== verification/Prelude.v ===== *)
(** * The phine.af application function: a verification development

    phine.af is an application function (AF) of a 5G core.  Its northbound side
    ([src/northbound/api_component]) offers an HTTP API; its core ([src/af_core]) offers the CAMARA
    Quality-on-Demand (QoD) API and keeps the state of UEs, QoD sessions, policies and subscriptions; its
    southbound side ([src/southbound/pcf_handler]) translates for the PCF; a bundle ([src/src]) runs core
    and southbound side in one process; a demonstration adapter ([src/adapters/demo-qod-adapter]) is a
    client of the QoD API.  This development models these parts in a shallow embedding and proves what
    their components promise, and where they do not keep it.

    ** The parts and their files

    The base:
    - [Prelude]: record update, strings, first-match operations on vectors, folds, automation.
    - [Effects]: the monad of the code: results ([Ok], [Throw], [Undefined]), the object a method runs
      on, clock readings, locks, pointers and iterators; weakest preconditions, invariance
      ([preserves], [yields]) and total correctness ([total]).
    - [CxxString], [Regex], [CTime]: [std::string], [std::stoi], the regular expressions of the
      validators with a verified matcher, [std::gmtime] and [std::strftime].
    - [Json]: the interface to the JSON library with its laws ([JsonDefined], [JsonLaws]) and trees as
      an instance, with readable texts ([digit_json]); [JsonMembers]: objects built member by member, and their readers.
    - [Comms], [ServiceHelpers]: messages, the orchestrator as the managers see it, identifiers; the
      helpers of request handlers.

    The UEs ([af_core/include/models], [af_core/src/ue_state_manager.cpp], [af_core/include/events]):
    - [UeKey], [UeState], [Events]: the classes [UeKey], [AfUeSubscriptionState] and the dispatcher.
    - [UeHash]: the hashes of keys and of the data of a UE.
    - [UeStateManager], [UeStateManagerSpec]: the store of UE states with its indices; its theorems.

    Quality on demand ([af_core/src/qod]):
    - [QodTypes]: the data of the QoD API.
    - [QodStateManager], [QodStoreSpec]: the store of QoD sessions, and its refinement of three maps.
    - [QodSessionManager], [QodSessionInvariant], [QodSessionSpec]: the life of sessions; what its
      operations do to invariants of the stored sessions; its theorems.
    - [QodNotificationManager], [NotificationSpec]: queues and workers that deliver notifications.
    - [QodHandler], [RequestRouter], [RestRouter], [Orchestrator], [ApiSpec]: the request handlers, the
      routers for messages and HTTP, the managers behind them, and what the API promises.

    The other managers of the core:
    - [PolicyManager], [PolicySpec] ([af_core/src/policy_manager.cpp]): policies applied at the PCF.
    - [SubscriptionManager], [SubscriptionSpec] ([af_core/src/subscription_manager.cpp]).

    The PCF handler ([southbound/pcf_handler/src]):
    - [PccRuleManager], [PccSpec]: rules for policy and charging control and their PCF format.
    - [PcfHelpers], [PcfRequestSpec]: the validators of [helpers.cpp] and which requests pass.
    - [PcfGateway]: the gateway interface as a class, and its implementation over HTTP.
    - [QodPcfHandler], [QodPcfSpec]: QoD sessions as application sessions of the PCF.
    - [PcfHandler], [PcfHandlerSpec], [PcfExamples]: the service itself, with concrete libraries.
    - [FlowSpec]: the unit tests of the flow descriptions, run on the model, and the flows that are sent.
    - [TransportSpec]: what arrives at the PCF handler of a session of the core.
    - [SessionAgreement]: core and PCF handler together, over all sequences of calls ([joined]).

    The processes around them:
    - [OrchestratorSetup], [OrchestratorSetupSpec]: configuration, creation, start and stop of the core.
    - [PcfSetup], [PcfSetupSpec]: the same for the PCF handler, and how core and handler find each other.
    - [BundledRuntime], [BundledRuntimeSpec] ([src/src/bundled_af_runtime.cpp]): the life cycle of the
      bundle with its threads.
    - [Programs]: the standalone programs ([main.cpp]) as processes with their signal handlers.

    The northbound API ([northbound/api_component]):
    - [ApiHandlers], [ApiHandlersSpec]: the handlers and routes; what clients can do with them.
    - [ApiAdapter]: configuration and start-up.

    The demonstration adapter ([adapters/demo-qod-adapter]):
    - [AdapterModels], [AdapterSessions], [AdapterSpec]: its data, its session manager over any client of
      the class [IQodClient], and what it tracks.
    - [QodClient], [QodClientSpec]: the gRPC client; [HttpQodClient], [HttpQodClientSpec]: the HTTP client.
    - [AdapterTransport]: what the core reads of the adapter's requests, and the adapter of its answers.
    - [AdapterConfig]: the configuration and the two programs.
    - [AdapterTests]: the unit tests of the session manager, with their mock client, and of the models.

    Every C++ class is a record with the members of the class, every method a definition of the same
    name in the monad on that record (overloads carry the type of their argument).  The session
    manager owns a UE state manager and a QoD state manager and calls them with [ue] and [qod]; the UE
    state manager runs the methods of its states with [at_key]; the orchestrator holds the managers in
    one record and its lambdas lift their methods to it ([through]); the PCF handler does the same
    with [on].  Core and PCF handler meet in messages: [build_pcf_request] writes what [parse_session]
    reads, and the policy manager sends what [process_message] of the PCF handler answers.  The managers
    see the orchestrator through a pointer: [OrchestratorSetup] renews what they see when it changes.
    [initialize] of [OrchestratorSetup] ends in the managers and the router of [Orchestrator].  The
    northbound handlers run on any core of the class [CoreComm], of which the core's [process_message]
    is an instance.

    ** What the theorems show

    - Keys and UE states: which strings the validators accept; keys are equal exactly when type and
      text are; the object invariant of all mutators; PDU sessions behave as a map.
    - UE state manager: store and indices stay consistent over all sequences of calls ([reached]); the
      functional behaviour of storing, lookup, removal, cleanup and associations; and the calls that
      block or miss an index.
    - QoD store: it refines three plain maps over all sequences of requests.
    - QoD sessions: every stored session is in a proper state of its life cycle over all sequences of
      API calls, PCF answers and cleanups ([running]), whatever the outside answers;
      isolation of consumers, creation, confirmation, extension, deletion and cleanup in detail; and
      the calls that block, read an empty optional or return a stale copy.
    - Notifications: a worker empties the queues, sends are bounded, delays are bounded, and no call
      reaches undefined behaviour.
    - The API: what passes the handlers satisfies every check; requests that are undefined behaviour;
      statuses of HTTP responses.
    - Policies and subscriptions: invariants over all sequences of requests, every branch of the
      operations, access control, and which events match.
    - PCF handler: rules survive their PCF format; the requests that pass validation, exactly; the
      sessions of the PCF over all sequences of operations; the flows sent, all of direction out.
    - Composition: core and PCF handler agree on the sessions of the PCF over all sequences of calls, so
      that a deletion at the core reaches the PCF for the session it means; what the PCF handler makes of
      a request of the core; policies are never applied as
      the PCF handler has no handler for them; application sessions cannot be found again; requests and
      answers between adapter and core; from one configuration core and PCF handler reach each other, or
      do not.
    - The northbound API: clients are not told apart; bodies of requests are undefined behaviour.
    - The adapter: it tracks exactly the sessions that are open at the service and closes them; both
      clients send boundedly often; the HTTP client finds the body in the bytes of a response.
    - Processes: the state after the initialization for every configuration; start and stop; the core
      as a process, from its arguments to the signal that ends it, and the signal that finds a destroyed
      orchestrator; a shutdown requested while the bundle runs completes, one requested during its start can be lost, and without
      requests of other threads the objects outlive the threads that use them.

    ** Idealisations

    - Outside [BundledRuntime] a run is one thread's; a mutex is the mode in which that thread owns it, and locking an owned
      mutex is undefined behaviour, as it is for [std::shared_mutex].  Interleavings of threads are
      sequences of whole calls, which the exclusive locks of the methods enforce; the workers of the
      notification manager interleave between [take_task] and [process_task].  [BundledRuntime] is a step
      function of all threads, whose steps are the scopes of the locks; executions are lists of actions in
      any order ([run]).
    - The system clock is a sequence of readings ([Clock]), in no particular order.  Time points are
      nanoseconds and durations seconds, as integers without overflow; a [double] is a rational.
    - The order in which unordered containers are traversed is arbitrary ([IterationOrder]).
    - Types of the common library (a submodule) that the code only stores are parameters
      ([CommonModels], [QodLibrary]); those it looks into are records of the members it uses.  The JSON
      library, Boost.URL, HTTP and communication services, the classes generated from the API of the
      PCF and the random generators are classes of operations; the answers of the outside may depend
      on everything sent.  Each class has an instance on which the examples run.
    - Logging is left out.  Fuel is used for identifiers, whose length bounds it; for the passes of
      [worker_thread], of which a theorem shows that some number is enough to empty the queues; for the
      lines of the header of a response ([read_headers]), bounded by its text; for the iterations of the
      adapter's monitor loop, which is unbounded if so configured; and for the attempts of
      [wait_for_ready], where the timeout in seconds and one more is enough ([wait_for_ready_fuel]).

    ** Not modelled

    Loggers, and that a signal interrupts a statement (in [Programs] signals come between statements).
    The polling of sockets, the HTTP/2 server, TLS and threads of the libraries are parameters.  The data declarations of
    [models/qos.h], [traffic_path.h] and [tsn.h] have no logic and nothing uses them; some files
    ([api_auth.cpp], [pcf_mapper.cpp]) are empty; the router of the PCF handler ([request_router.cpp]) is,
    but for names, that of the core.  Unused helpers are left out: [parse_sink_credential] of the PCF
    handler, [build_af_request_data], the helpers of [HttpNotificationClient].  The integration tests of
    the core, which need its services, the configuration and communication libraries of the common
    submodule, which is not part of the repository, and the deployment files are left out. *)

From Stdlib Require Export ZArith Lia Ascii String.
From stdpp Require Export base tactics.
From stdpp Require Export strings list list_numbers gmap fin_maps fin_sets sorting pretty.

#[global] Open Scope string_scope.
#[global] Open Scope list_scope.
#[global] Open Scope Z_scope.

(** ** Functional record update

    [r <| field := v |>] and [r <| field ::= f |>].  A record type declares once how it is rebuilt
    from its projections ([Settable]); the instance of [Setter] for one projection abstracts that
    projection in the rebuilt record. *)

Class Settable (R : Type) := rebuild : R → R.
Class Setter {R T : Type} (proj : R → T) := upd : (T → T) → R → R.
Arguments upd {R T} proj {_} _ _ / : simpl nomatch.
#[global] Hint Mode Settable ! : typeclass_instances.

Ltac solve_setter proj :=
  lazymatch type of proj with
  | ?R → ?T =>
    let inst := constr:(_ : Settable R) in
    let body := eval cbv delta [rebuild] in inst in
    let body := eval red in body in
    lazymatch eval pattern proj in body with
    | ?ctx _ => let s := eval cbv beta in (λ (f : T → T), ctx (λ r : R, f (proj r))) in exact s
    end
  end.

#[global] Hint Extern 1 (Setter ?proj) => solve_setter proj : typeclass_instances.

Notation "r <| proj ::= f |>" := (upd proj f r)
  (at level 1, proj at level 9, f at level 200, left associativity).
Notation "r <| proj := v |>" := (upd proj (λ _, v) r)
  (at level 1, proj at level 9, v at level 200, left associativity).

(** ** Concatenation of strings *)

Lemma app_nil_string s : "" +:+ s = s.
Proof. done. Qed.
Lemma app_cons_string c s t : String c s +:+ t = String c (s +:+ t).
Proof. done. Qed.
Lemma app_assoc_string s t u : (s +:+ t) +:+ u = s +:+ (t +:+ u).
Proof. induction s as [|c s IH]; [done|]. rewrite !app_cons_string. by f_equal. Qed.
Lemma app_nil_r_string s : s +:+ "" = s.
Proof. induction s as [|c s IH]; [done|]. rewrite app_cons_string. by f_equal. Qed.
Lemma app_inj_string s t u : s +:+ t = s +:+ u → t = u.
Proof. induction s as [|c s IH]; [done|]. rewrite !app_cons_string. intros [= ?]. auto. Qed.
Lemma app_length_string s t :
  String.length (s +:+ t) = (String.length s + String.length t)%nat.
Proof. induction s as [|c s IH]; [done|]. rewrite app_cons_string. simpl. by rewrite IH. Qed.

(** ** First-match operations on vectors

    [std::find_if] followed by a read, an assignment through the iterator or an [erase]. *)

Section FirstMatch.
Context {A : Type} (p : A → bool).

Fixpoint find_first (l : list A) : option A :=
  match l with
  | [] => None
  | x :: l => if p x then Some x else find_first l
  end.

Fixpoint update_first (f : A → A) (l : list A) : list A :=
  match l with
  | [] => []
  | x :: l => if p x then f x :: l else x :: update_first f l
  end.

Fixpoint erase_first (l : list A) : list A :=
  match l with
  | [] => []
  | x :: l => if p x then l else x :: erase_first l
  end.

Lemma find_first_Some l x : find_first l = Some x → x ∈ l ∧ p x = true.
Proof.
  induction l as [|y l IH]; simpl; [done|].
  destruct (p y) eqn:E; intros H; [simplify_eq; split; [left|done]|].
  destruct (IH H); split; [by right|done].
Qed.

Lemma find_first_None l : find_first l = None ↔ ∀ x, x ∈ l → p x = false.
Proof.
  induction l as [|y l IH]; simpl; [split; [intros _ x Hx; inversion Hx|done]|].
  destruct (p y) eqn:E.
  - split; [done|]. intros H. rewrite (H y) in E; [done|left].
  - rewrite IH. setoid_rewrite elem_of_cons. naive_solver.
Qed.

Lemma update_first_length f l : length (update_first f l) = length l.
Proof. induction l as [|y l IH]; simpl; [done|]. destruct (p y); simpl; congruence. Qed.

Lemma update_first_none f l : find_first l = None → update_first f l = l.
Proof. induction l as [|y l IH]; simpl; [done|]. destruct (p y); [done|]. intros. by rewrite IH. Qed.

Lemma erase_first_none l : find_first l = None → erase_first l = l.
Proof. induction l as [|y l IH]; simpl; [done|]. destruct (p y); [done|]. intros. by rewrite IH. Qed.

Lemma update_first_fmap {B} (g : A → B) f l :
  (∀ x, p x = true → g (f x) = g x) → g <$> update_first f l = g <$> l.
Proof.
  intros Hg. induction l as [|y l IH]; csimpl; [done|].
  destruct (p y) eqn:E; csimpl; [by rewrite Hg|by rewrite IH].
Qed.

Lemma elem_of_update_first f l x :
  x ∈ update_first f l → x ∈ l ∨ ∃ y, y ∈ l ∧ p y = true ∧ x = f y.
Proof.
  induction l as [|y l IH]; simpl; [by left|].
  destruct (p y) eqn:E; setoid_rewrite elem_of_cons; naive_solver.
Qed.

Lemma erase_first_sublist l : erase_first l `sublist_of` l.
Proof.
  induction l as [|y l IH]; simpl; [done|].
  destruct (p y); [by apply sublist_cons|by apply sublist_skip].
Qed.

(** Every other element survives an update or a removal of the first match. *)
Lemma update_first_keeps f l x y :
  find_first l = Some x → y ∈ l → y = x ∨ y ∈ update_first f l.
Proof.
  induction l as [|z l IH]; simpl; [done|]. destruct (p z) eqn:E; rewrite !elem_of_cons; naive_solver.
Qed.

Lemma update_first_has f l x : find_first l = Some x → f x ∈ update_first f l.
Proof.
  induction l as [|z l IH]; simpl; [done|]. destruct (p z) eqn:E; rewrite elem_of_cons; naive_solver.
Qed.

Lemma erase_first_keeps l x y : find_first l = Some x → y ∈ l → y = x ∨ y ∈ erase_first l.
Proof.
  induction l as [|z l IH]; simpl; [done|]. destruct (p z) eqn:E; rewrite !elem_of_cons; naive_solver.
Qed.

Lemma find_first_app l1 l2 :
  find_first (l1 ++ l2) = match find_first l1 with Some x => Some x | None => find_first l2 end.
Proof. induction l1 as [|y l IH]; simpl; [done|]. by destruct (p y). Qed.
End FirstMatch.

(** ** Left folds *)

Lemma foldl_inv {A B} (P : A → Prop) (f : A → B → A) (l : list B) (a : A) :
  P a → (∀ a b, b ∈ l → P a → P (f a b)) → P (foldl f a l).
Proof.
  revert a. induction l as [|b l IH]; simpl; intros a Ha Hf; [done|].
  apply IH; [apply Hf; [left|done]|]. intros a' b' Hb. apply Hf. by right.
Qed.

(** ** Booleans and options *)

Definition bool_of {P : Prop} (d : Decision P) : bool := bool_decide P.

Definition has_value {A} (o : option A) : bool := match o with Some _ => true | None => false end.

Definition value_or {A} (d : A) (o : option A) : A := match o with Some x => x | None => d end.

Lemma has_value_true {A} (o : option A) : has_value o = true ↔ is_Some o.
Proof. destruct o; simpl; split; naive_solver. Qed.
Lemma has_value_false {A} (o : option A) : has_value o = false ↔ o = None.
Proof. destruct o; simpl; naive_solver. Qed.

Lemma has_value_fmap {A B} (f : A → B) (o : option A) : has_value (f <$> o) = has_value o.
Proof. by destruct o. Qed.

(** Membership of a given name in a given list. *)
Ltac decide_names := apply (bool_decide_unpack _); vm_compute; exact I.

(** Case analysis on the first [match] or [if] of the goal, keeping the equation. *)
Ltac case_match_goal :=
  match goal with
  | |- context [ match ?x with _ => _ end ] => destruct x eqn:?
  end.

(** Decide the string comparisons of the goal and of the hypotheses. *)
Ltac string_cases :=
  repeat match goal with
  | |- context [String.eqb ?x ?y] => destruct (String.eqb_spec x y); subst
  | H : context [String.eqb ?x ?y] |- _ => destruct (String.eqb_spec x y); subst
  end.
