(* ===== verification/Effects.v ===== *)
(** * Effects of the C++ code

    Methods run in a monad whose computations read and write an object, read the system clock,
    may throw, and may reach undefined behaviour.  State is kept when an exception is thrown, as
    in C++.  A mutex is a field of the object holding the mode in which the running thread owns it;
    acquiring a mutex that the thread owns already is undefined behaviour ([std::shared_mutex] and
    [std::mutex] are not recursive). *)

From S2P Require Import Prelude.

(** ** Outcomes *)

(** The exceptions of the code, by dynamic type, with their [what()]. *)
Inductive exn :=
  | invalid_argument (what : string)
  | out_of_range (what : string)
  | runtime_error (what : string)
  | json_parse_error (what : string)
  | json_exception (what : string)
  | bad_optional_access.

#[global] Instance exn_eq_dec : EqDecision exn.
Proof. solve_decision. Defined.

(** [std::exception::what]. *)
Definition what (e : exn) : string :=
  match e with
  | invalid_argument s | out_of_range s | runtime_error s | json_parse_error s | json_exception s => s
  | bad_optional_access => "bad optional access"
  end.

(** The mode in which the current thread owns a mutex. *)
Inductive lock_state := Unlocked | Shared | Exclusive.

#[global] Instance lock_state_eq_dec : EqDecision lock_state.
Proof. solve_decision. Defined.

(** The kinds of undefined behaviour the code can reach. *)
Inductive ub :=
  | relock (held wanted : lock_state)   (* a thread locks a mutex it owns *)
  | dangling_reference                  (* use of a reference to an erased element *)
  | null_dereference                    (* [*p], [p->] on a null pointer or an end iterator *)
  | nullopt_dereference                 (* [*o], [o->] on a disengaged [std::optional] *)
  | indeterminate_value                 (* a read of an uninitialised member *)
  | missing_member                      (* [j[k]] on a constant JSON object without [k] *)
  | signed_overflow.                    (* a result of [int] arithmetic out of range *)

#[global] Instance ub_eq_dec : EqDecision ub.
Proof. solve_decision. Defined.

Inductive result (A : Type) :=
  | Ok (a : A)
  | Throw (e : exn)
  | Undefined (u : ub).
Arguments Ok {A} a.
Arguments Throw {A} e.
Arguments Undefined {A} u.

(** Pure fallible code: validation functions and constructors that may throw. *)
#[global] Instance result_ret : MRet result := @Ok.
#[global] Instance result_bind : MBind result := λ A B f r,
  match r with
  | Ok a => f a
  | Throw e => Throw e
  | Undefined u => Undefined u
  end.

Definition is_ok {A} (r : result A) : bool := match r with Ok _ => true | _ => false end.

(** ** Computations *)

(** The object a method runs on, and how many times the system clock was read. *)
Record world (S : Type) := World { ticks : nat; obj : S }.
Arguments World {S} ticks obj.
Arguments ticks {S} w.
Arguments obj {S} w.

Definition M (S A : Type) : Type := world S → result A * world S.

#[global] Instance M_ret S : MRet (M S) := λ A a w, (Ok a, w).
#[global] Instance M_bind S : MBind (M S) := λ A B f m w,
  match m w with
  | (Ok a, w') => f a w'
  | (Throw e, w') => (Throw e, w')
  | (Undefined u, w') => (Undefined u, w')
  end.

(** [std::chrono::system_clock]: the successive readings, in nanoseconds since the epoch. *)
Class Clock := clock : nat → Z.

Section Operations.
Context {S : Type}.

Definition get : M S S := λ w, (Ok (obj w), w).
Definition gets {A} (f : S → A) : M S A := λ w, (Ok (f (obj w)), w).
Definition modify (f : S → S) : M S () := λ w, (Ok (), World (ticks w) (f (obj w))).
Definition throw {A} (e : exn) : M S A := λ w, (Throw e, w).
Definition undefined {A} (u : ub) : M S A := λ w, (Undefined u, w).

(** [std::chrono::system_clock::now()] *)
Definition now `{Clock} : M S Z :=
  λ w, (Ok (clock (ticks w)), World (Datatypes.S (ticks w)) (obj w)).

(** A pure fallible computation as a step of a method. *)
Definition lift {A} (r : result A) : M S A := λ w, (r, w).

(** [*o] on a [std::optional]. *)
Definition deref {A} (o : option A) : M S A :=
  match o with Some a => mret a | None => undefined nullopt_dereference end.

(** [o.value()] on a [std::optional]. *)
Definition value_of {A} (o : option A) : M S A :=
  match o with Some a => mret a | None => throw bad_optional_access end.

(** [try { m } catch (const std::exception& e) { h }] *)
Definition try_catch {A} (m : M S A) (h : exn → M S A) : M S A := λ w,
  match m w with
  | (Throw e, w') => h e w'
  | rw => rw
  end.

(** [for (const auto& x : l) f(x);] *)
Fixpoint for_each {A} (l : list A) (f : A → M S ()) : M S () :=
  match l with
  | [] => mret ()
  | x :: l => f x ;; for_each l f
  end.

(** The result of an operation on [int]. *)
Definition int_result (z : Z) : M S Z :=
  if (-2 ^ 31 <=? z) && (z <? 2 ^ 31) then mret z else undefined signed_overflow.

Definition when (b : bool) (m : M S ()) : M S () := if b then m else mret ().

(** The scope of a lock guard on the mutex [mx]: the lock is released however the scope ends. *)
Definition with_lock (mx : S → lock_state) `{!Setter mx} {A}
    (mode : lock_state) (m : M S A) : M S A := λ w,
  match mx (obj w) with
  | Unlocked =>
    let '(r, w') := m (World (ticks w) (upd mx (λ _, mode) (obj w))) in
    (r, World (ticks w') (upd mx (λ _, Unlocked) (obj w')))
  | held => (Undefined (relock held mode), w)
  end.

(** A method of a local object [t]; the result comes with the object it leaves. *)
Definition local {T} (t : T) {A} (m : M T A) : M S (A * T) := λ w,
  match m (World (ticks w) t) with
  | (Ok a, w') => (Ok (a, obj w'), World (ticks w') (obj w))
  | (Throw e, w') => (Throw e, World (ticks w') (obj w))
  | (Undefined u, w') => (Undefined u, World (ticks w') (obj w))
  end.

(** A method of a sub-object. *)
Definition on {T} (field : S → T) `{!Setter field} {A} (m : M T A) : M S A := λ w,
  let '(r, w') := m (World (ticks w) (field (obj w))) in
  (r, World (ticks w') (upd field (λ _, obj w') (obj w))).

(** A method called through a pointer field; [None] is the null pointer. *)
Definition on_pointer {T} (field : S → option T) `{!Setter field} {A} (m : M T A) : M S A := λ w,
  match field (obj w) with
  | None => (Undefined null_dereference, w)
  | Some t =>
    let '(r, w') := m (World (ticks w) t) in
    (r, World (ticks w') (upd field (λ _, Some (obj w')) (obj w)))
  end.

(** A method of the value stored under [k] in an [std::unordered_map] field, through an iterator. *)
Definition at_key {T} (field : S → gmap string T) `{!Setter field} (k : string)
    {A} (m : M T A) : M S A := λ w,
  match field (obj w) !! k with
  | None => (Undefined null_dereference, w)
  | Some t =>
    let '(r, w') := m (World (ticks w) t) in
    (r, World (ticks w') (upd field (λ mp, <[k := obj w']> mp) (obj w)))
  end.
End Operations.

(** The order in which a range-based [for] visits an [std::unordered_map] is unspecified: any
    order of the entries. *)
Class IterationOrder := {
  visit : ∀ {V : Type}, gmap string V → list (string * V);
  visit_perm : ∀ {V : Type} (m : gmap string V), visit m ≡ₚ map_to_list m }.

(** One such order. *)
Definition tree_order : IterationOrder :=
  {| visit := λ V m, map_to_list m; visit_perm := λ V m, Permutation_refl _ |}.

(** ** Reasoning about computations *)

(** [wp m Q w]: run from [w], [m] ends with a result and a world related by [Q]. *)
Definition wp {S A} (m : M S A) (Q : result A → world S → Prop) (w : world S) : Prop :=
  Q (m w).1 (m w).2.

#[global] Instance wp_proper S A (m : M S A) :
  Proper (pointwise_relation _ (pointwise_relation _ impl) ==> pointwise_relation _ impl) (wp m).
Proof. intros Q Q' HQ w H. by apply HQ. Qed.

Lemma wp_mono {S A} (m : M S A) (Q Q' : result A → world S → Prop) w :
  wp m Q w → (∀ r w', Q r w' → Q' r w') → wp m Q' w.
Proof. unfold wp. auto. Qed.

Lemma wp_bind {S A B} (m : M S A) (f : A → M S B) (Q : result B → world S → Prop) w :
  wp m (λ r w', match r with
                | Ok a => wp (f a) Q w'
                | Throw e => Q (Throw e) w'
                | Undefined u => Q (Undefined u) w'
                end) w →
  wp (m ≫= f) Q w.
Proof.
  unfold wp. unfold mbind, M_bind. destruct (m w) as [[a|e|u] w']; simpl; auto.
Qed.

Lemma modify_option_run {S A} (o : option A) (f : A → S → S) (w : world S) :
  (match o with Some a => modify (f a) | None => mret () end) w =
  (Ok (), World (ticks w) (match o with Some a => f a (obj w) | None => obj w end)).
Proof. by destruct o, w. Qed.

(** Steps whose effect is known. *)
Lemma bind_run {S A B} (m : M S A) (f : A → M S B) w a w' :
  m w = (Ok a, w') → (m ≫= f) w = f a w'.
Proof. intros E. unfold mbind, M_bind. by rewrite E. Qed.

Lemma bind_undefined {S A B} (m : M S A) (f : A → M S B) w u w' :
  m w = (Undefined u, w') → (m ≫= f) w = (Undefined u, w').
Proof. intros E. unfold mbind, M_bind. by rewrite E. Qed.

Lemma bind_get {S A} (f : S → M S A) w : (get ≫= f) w = f (obj w) w.
Proof. done. Qed.

Lemma bind_now {S A} `{Clock} (f : Z → M S A) w :
  (now ≫= f) w = f (clock (ticks w)) (World (Datatypes.S (ticks w)) (obj w)).
Proof. done. Qed.

Lemma wp_get {S A} (f : S → M S A) (Q : result A → world S → Prop) w :
  wp (f (obj w)) Q w → wp (get ≫= f) Q w.
Proof. done. Qed.

Lemma wp_now {S A} `{Clock} (f : Z → M S A) (Q : result A → world S → Prop) w :
  wp (f (clock (ticks w))) Q (World (Datatypes.S (ticks w)) (obj w)) → wp (now ≫= f) Q w.
Proof. done. Qed.

Lemma wp_modify {S A} (f : S → S) (m : M S A) (Q : result A → world S → Prop) w :
  wp m Q (World (ticks w) (f (obj w))) → wp (modify f ;; m) Q w.
Proof. done. Qed.

Lemma wp_at_modify {S T A} (field : S → gmap string T) `{!Setter field} k (f : T → T) (m : M S A)
    (Q : result A → world S → Prop) w t :
  field (obj w) !! k = Some t →
  wp m Q (World (ticks w) (upd field (λ mp, <[k := f t]> mp) (obj w))) →
  wp (at_key field k (modify f) ;; m) Q w.
Proof. intros E H. unfold wp, at_key, mbind, M_bind in *. by rewrite E. Qed.

(** A run without undefined behaviour. *)
Definition defined {A} (r : result A) : Prop := match r with Undefined _ => False | _ => True end.

Lemma defined_bind {A B} (r : result A) (f : A → result B) :
  defined r → (∀ a, r = Ok a → defined (f a)) → defined (r ≫= f).
Proof. destruct r; simpl; auto. Qed.

(** [preserves I m]: however [m] ends, returning or throwing, it keeps the invariant [I] of its
    object. *)
Definition preserves {S A} (I : S → Prop) (m : M S A) : Prop :=
  ∀ w, I (obj w) → wp m (λ r w', defined r → I (obj w')) w.

Section Preserves.
Context {S : Type} (I : S → Prop).

(** The rest of a run, from a state where the invariant holds. *)
Lemma preserves_from {A} (m : M S A) n s :
  preserves I m → I s → wp m (λ r w', defined r → I (obj w')) (World n s).
Proof. intros Hm Hs. by apply Hm. Qed.

Lemma preserves_ret {A} (a : A) : preserves I (mret a).
Proof. by intros w Hw _. Qed.

Lemma preserves_bind {A B} (m : M S A) (f : A → M S B) :
  preserves I m → (∀ a, preserves I (f a)) → preserves I (m ≫= f).
Proof.
  intros Hm Hf w Hw. apply wp_bind. apply (wp_mono _ _ _ _ (Hm w Hw)).
  intros [a|e|u] w' Hw'; [apply Hf; by apply Hw'|done|done].
Qed.

(** Besides keeping the invariant, the values returned satisfy [P]. *)
Definition yields {A} (m : M S A) (P : A → Prop) : Prop :=
  ∀ w, I (obj w) →
    wp m (λ r w', defined r → I (obj w') ∧ match r with Ok a => P a | _ => True end) w.

Lemma preserves_bind_yields {A B} (m : M S A) (P : A → Prop) (f : A → M S B) :
  yields m P → (∀ a, P a → preserves I (f a)) → preserves I (m ≫= f).
Proof.
  intros Hm Hf w Hw. apply wp_bind. apply (wp_mono _ _ _ _ (Hm w Hw)).
  intros [a|e|u] w' Hw'; [destruct (Hw' Logic.I); by apply Hf|intros _; by apply Hw'|done].
Qed.

Lemma yields_preserves {A} (m : M S A) P : yields m P → preserves I m.
Proof. intros Hm w Hw. apply (wp_mono _ _ _ _ (Hm w Hw)). intros r w' Hr Hd. by apply Hr. Qed.

Lemma yields_bind {A B} (m : M S A) (P : A → Prop) (f : A → M S B) (Q : B → Prop) :
  yields m P → (∀ a, P a → yields (f a) Q) → yields (m ≫= f) Q.
Proof.
  intros Hm Hf w Hw. apply wp_bind. apply (wp_mono _ _ _ _ (Hm w Hw)).
  intros [a|e|u] w' Hw'; [destruct (Hw' Logic.I); by apply Hf|intros _; split; [by apply Hw'|done]|done].
Qed.

Lemma yields_any {A} (m : M S A) : preserves I m → yields m (λ _, True).
Proof.
  intros Hm w Hw. apply (wp_mono _ _ _ _ (Hm w Hw)). intros [] w' Hw' Hd; split; auto.
Qed.

Lemma yields_ret {A} (a : A) (P : A → Prop) : P a → yields (mret a) P.
Proof. by intros Ha w Hw _. Qed.

(** The value read is the object itself, so the rest may use the invariant of that value. *)
Lemma preserves_get {A} (f : S → M S A) :
  (∀ w, I (obj w) → wp (f (obj w)) (λ r w', defined r → I (obj w')) w) → preserves I (get ≫= f).
Proof. intros H w Hw. by apply H. Qed.

Lemma preserves_gets {A} (f : S → A) : preserves I (gets f).
Proof. by intros w Hw _. Qed.

Lemma preserves_read : preserves I get.
Proof. by intros w Hw _. Qed.

Lemma preserves_modify f : (∀ s, I s → I (f s)) → preserves I (modify f).
Proof. intros H w Hw _. by apply H. Qed.

Lemma preserves_now `{Clock} : preserves I now.
Proof. by intros w Hw _. Qed.

Lemma preserves_lift {A} (r : result A) : preserves I (lift r).
Proof. by intros w Hw _. Qed.

Lemma preserves_throw {A} e : preserves I (throw (A:=A) e).
Proof. by intros w Hw _. Qed.

Lemma preserves_undefined {A} u : preserves I (undefined (A:=A) u).
Proof. by intros w Hw _. Qed.

Lemma preserves_deref {A} (o : option A) : preserves I (deref o).
Proof. destruct o; [apply preserves_ret|apply preserves_undefined]. Qed.

Lemma preserves_value_of {A} (o : option A) : preserves I (value_of o).
Proof. destruct o; [apply preserves_ret|apply preserves_throw]. Qed.

Lemma preserves_when b m : preserves I m → preserves I (when b m).
Proof. destruct b; [done|intros; apply preserves_ret]. Qed.

Lemma preserves_if {A} (b : bool) (m m' : M S A) :
  preserves I m → preserves I m' → preserves I (if b then m else m').
Proof. by destruct b. Qed.

Lemma preserves_for_each {A} (l : list A) (f : A → M S ()) :
  (∀ x, preserves I (f x)) → preserves I (for_each l f).
Proof.
  intros Hf. induction l as [|x l IH]; simpl; [apply preserves_ret|].
  by apply preserves_bind.
Qed.

Lemma preserves_try {A} (m : M S A) h :
  preserves I m → (∀ e, preserves I (h e)) → preserves I (try_catch m h).
Proof.
  intros Hm Hh w Hw. specialize (Hm w Hw). unfold wp, try_catch in *.
  destruct (m w) as [[a|e|u] w']; simpl in *; [done|apply Hh; by apply Hm|done].
Qed.

Lemma preserves_local {T} (t : T) {A} (m : M T A) : preserves I (local t m).
Proof. intros w Hw. unfold wp, local. by destruct (m _) as [[a|e|u] w']. Qed.

Lemma preserves_with_lock (mx : S → lock_state) `{!Setter mx} {A} mode (m : M S A) :
  (∀ s l, I s → I (upd mx (λ _, l) s)) → preserves I m → preserves I (with_lock mx mode m).
Proof.
  intros Hl Hm w Hw. unfold wp, with_lock. destruct (mx (obj w)); [|done|done].
  specialize (Hm (World (ticks w) (upd mx (λ _, mode) (obj w))) (Hl _ _ Hw)). unfold wp in Hm.
  destruct (m _) as [r w']; simpl in *. intros Hr. apply Hl. by apply Hm.
Qed.

(** The same, with the mutex free before and after. *)
Lemma preserves_with_lock_free (mx : S → lock_state) `{!Setter mx} {A} mode (m : M S A) :
  (∀ s l, I s → I (upd mx (λ _, l) s)) → (∀ s l, mx (upd mx (λ _, l) s) = l) → preserves I m →
  preserves (λ s, I s ∧ mx s = Unlocked) (with_lock mx mode m).
Proof.
  intros Hl Hmx Hm w [Hw Hu]. unfold wp, with_lock. rewrite Hu.
  specialize (Hm (World (ticks w) (upd mx (λ _, mode) (obj w))) (Hl _ _ Hw)). unfold wp in Hm.
  destruct (m _) as [r w']; simpl in *. intros Hr. split; [by apply Hl, Hm|by apply Hmx].
Qed.

Lemma preserves_on {T} (field : S → T) `{!Setter field} {A} (J : T → Prop) (m : M T A) :
  (∀ s, I s → J (field s)) → (∀ s t, I s → J t → I (upd field (λ _, t) s)) →
  preserves J m → preserves I (on field m).
Proof.
  intros HJ HI Hm w Hw. unfold wp, on.
  specialize (Hm (World (ticks w) (field (obj w))) (HJ _ Hw)). unfold wp in Hm.
  destruct (m _) as [r w']; simpl in *. intros Hr. apply HI; [done|by apply Hm].
Qed.

Lemma preserves_on_pointer {T} (field : S → option T) `{!Setter field} {A} (m : M T A) :
  (∀ s t, I s → I (upd field (λ _, Some t) s)) → preserves I (on_pointer field m).
Proof.
  intros HI w Hw. unfold wp, on_pointer. destruct (field (obj w)); [|by intros []].
  destruct (m _) as [r w']; simpl. intros _. by apply HI.
Qed.

Lemma yields_on {T} (field : S → T) `{!Setter field} {A} (J : T → Prop) (P : A → Prop) (m : M T A) :
  (∀ s, I s → J (field s)) → (∀ s t, I s → J t → I (upd field (λ _, t) s)) →
  (∀ w, J (obj w) →
     wp m (λ r w', defined r → J (obj w') ∧ match r with Ok a => P a | _ => True end) w) →
  yields (on field m) P.
Proof.
  intros HJ HI Hm w Hw. unfold wp, on.
  specialize (Hm (World (ticks w) (field (obj w))) (HJ _ Hw)). unfold wp in Hm.
  destruct (m _) as [r w']; simpl in *. intros Hr. destruct (Hm Hr). split; [by apply HI|done].
Qed.

Lemma yields_get : yields get I.
Proof. by intros w Hw _. Qed.

Lemma preserves_at_key {T} (field : S → gmap string T) `{!Setter field} {A}
    (J : T → Prop) k (m : M T A) :
  (∀ s t, I s → field s !! k = Some t → J t) →
  (∀ s t t', I s → field s !! k = Some t → J t' → I (upd field (λ mp, <[k := t']> mp) s)) →
  preserves J m → preserves I (at_key field k m).
Proof.
  intros HJ HI Hm w Hw. unfold wp, at_key.
  destruct (field (obj w) !! k) as [t|] eqn:E; [|done].
  specialize (Hm (World (ticks w) t) (HJ _ _ Hw E)). unfold wp in Hm.
  destruct (m _) as [r w']; simpl in *. intros Hr. eapply HI; [done..|]. by apply Hm.
Qed.
End Preserves.

(** The scope of a lock whose body ends without touching the mutex. *)
Lemma with_lock_run {S A} (mx : S → lock_state) `{!Setter mx} mode (f : M S A) n s r n' s' :
  mx s = Unlocked →
  f (World n (upd mx (λ _, mode) s)) = (r, World n' (upd mx (λ _, mode) s')) →
  upd mx (λ _, Unlocked) (upd mx (λ _, mode) s') = s' →
  with_lock mx mode f (World n s) = (r, World n' s').
Proof. intros Hs E Hs'. unfold with_lock. cbn [obj ticks]. rewrite Hs, E. cbn [obj ticks]. by rewrite Hs'. Qed.

(** ** Total correctness

    [total I m P]: from the invariant, [m] reaches no undefined behaviour, keeps the invariant, and
    a value it returns satisfies [P]. *)

Definition total {S A} (I : S → Prop) (m : M S A) (P : A → Prop) : Prop :=
  ∀ w, I (obj w) →
    wp m (λ r w', I (obj w') ∧ match r with Ok a => P a | Throw _ => True | Undefined _ => False end) w.

Section Total.
Context {S : Type} (I : S → Prop).

Lemma total_mono {A} (m : M S A) (P Q : A → Prop) :
  total I m P → (∀ a, P a → Q a) → total I m Q.
Proof.
  intros Hm HPQ w Hw. apply (wp_mono _ _ _ _ (Hm w Hw)). intros [a|e|u] w' [? ?]; auto.
Qed.

Lemma total_iff (J : S → Prop) {A} (m : M S A) (P : A → Prop) :
  (∀ s, I s ↔ J s) → total I m P → total J m P.
Proof.
  intros HIJ Hm w Hw. apply (wp_mono _ _ _ _ (Hm w (proj2 (HIJ _) Hw))).
  intros r w' [Hw' Hr]. split; [by apply HIJ|done].
Qed.

Lemma total_ret {A} (a : A) (P : A → Prop) : P a → total I (mret a) P.
Proof. by intros Ha w Hw. Qed.

Lemma total_throw {A} e (P : A → Prop) : total I (throw e) P.
Proof. by intros w Hw. Qed.

Lemma total_lift {A} (r : result A) (P : A → Prop) :
  defined r → (∀ a, r = Ok a → P a) → total I (lift r) P.
Proof. intros Hr HP w Hw. unfold wp, lift. simpl. destruct r; naive_solver. Qed.

Lemma total_bind {A B} (m : M S A) (P : A → Prop) (f : A → M S B) (Q : B → Prop) :
  total I m P → (∀ a, P a → total I (f a) Q) → total I (m ≫= f) Q.
Proof.
  intros Hm Hf w Hw. apply wp_bind. apply (wp_mono _ _ _ _ (Hm w Hw)).
  intros [a|e|u] w' [Hw' Ha]; [by apply Hf|done|done].
Qed.

Lemma total_get : total I get I.
Proof. by intros w Hw. Qed.

Lemma total_modify f (P : () → Prop) : (∀ s, I s → I (f s)) → P () → total I (modify f) P.
Proof. intros H HP w Hw. split; [by apply H|done]. Qed.

Lemma total_try {A} (m : M S A) h (P : A → Prop) :
  total I m P → (∀ e, total I (h e) P) → total I (try_catch m h) P.
Proof.
  intros Hm Hh w Hw. specialize (Hm w Hw). unfold wp, try_catch in *.
  destruct (m w) as [[a|e|u] w']; simpl in *; [done|apply Hh; by apply Hm|by destruct Hm].
Qed.

Lemma total_now `{Clock} : total I now (λ _, True).
Proof. by intros w Hw. Qed.

Lemma total_when b (m : M S ()) : total I m (λ _, True) → total I (when b m) (λ _, True).
Proof. destruct b; [done|by intros; apply total_ret]. Qed.

Lemma total_for_each {A} (l : list A) (f : A → M S ()) :
  (∀ x, total I (f x) (λ _, True)) → total I (for_each l f) (λ _, True).
Proof.
  intros Hf. induction l as [|x l IH]; simpl; [by apply total_ret|].
  eapply total_bind; [apply Hf|done].
Qed.

(** A computation on a local object, with an invariant of that object. *)
Lemma total_local {T} (J : T → Prop) (t : T) {A} (m : M T A) (P : A → Prop) :
  J t → total J m P → total I (local t m) (λ x, P x.1 ∧ J x.2).
Proof.
  intros Ht Hm w Hw. unfold wp, local. specialize (Hm (World (ticks w) t) Ht). unfold wp in Hm.
  destruct (m _) as [[a|e|u] w']; simpl in *; naive_solver.
Qed.

(** The scope of a lock: the body may rely on the invariant without the mutex. *)
Lemma total_with_lock (mx : S → lock_state) `{!Setter mx} {A} mode (m : M S A) (P : A → Prop) :
  (∀ s l, I s → I (upd mx (λ _, l) s)) → (∀ s l, mx (upd mx (λ _, l) s) = l) →
  total I m P → total (λ s, I s ∧ mx s = Unlocked) (with_lock mx mode m) P.
Proof.
  intros Hl Hmx Hm w [Hw Hu]. unfold wp, with_lock. rewrite Hu.
  specialize (Hm (World (ticks w) (upd mx (λ _, mode) (obj w))) (Hl _ _ Hw)). unfold wp in Hm.
  destruct (m _) as [r w']; simpl in *. naive_solver.
Qed.
End Total.

Create HintDb preserves discriminated.
#[export] Hint Resolve preserves_ret preserves_bind preserves_gets preserves_read preserves_modify
  preserves_now preserves_lift preserves_throw preserves_undefined preserves_deref
  preserves_value_of preserves_when preserves_if preserves_for_each preserves_try : preserves.

(** Reduce the run of a computation whose world is given by its two parts. *)
Ltac run_steps :=
  cbv [mbind M_bind mret M_ret get gets modify now lift throw undefined deref value_of when
       result_bind result_ret]; cbn [ticks obj fst snd].

(** Split an invariance goal along the structure of the computation.  Named computations are left
    for their own lemmas. *)
Ltac preserves_step :=
  lazymatch goal with
  | |- preserves _ (mret _) => apply preserves_ret
  | |- preserves _ (gets _) => apply preserves_gets
  | |- preserves _ get => apply preserves_read
  | |- preserves _ now => apply preserves_now
  | |- preserves _ (lift _) => apply preserves_lift
  | |- preserves _ (throw _) => apply preserves_throw
  | |- preserves _ (undefined _) => apply preserves_undefined
  | |- preserves _ (deref _) => apply preserves_deref
  | |- preserves _ (value_of _) => apply preserves_value_of
  | |- preserves _ (local _ _) => apply preserves_local
  | |- preserves _ (when _ _) => apply preserves_when
  | |- preserves _ (for_each _ _) => apply preserves_for_each; intros ?
  | |- preserves _ (try_catch _ _) => apply preserves_try; [|intros ?]
  | |- preserves _ (modify _) => apply preserves_modify; intros ? ?
  | |- preserves _ (mbind _ _) => apply preserves_bind; [|intros ?]
  | |- preserves _ (let x := _ in _) => cbv zeta
  | |- preserves _ (if ?b then _ else _) => destruct b eqn:?
  | |- preserves _ (match ?x with _ => _ end) => destruct x eqn:?
  end.
Ltac preserves_steps := repeat (preserves_step || (progress eauto with preserves)).
