(* ===== verification/CxxString.v ===== *)
(** * [std::string] and its conversions

    The operations of [std::string], [std::stoi] and the classification functions of [<cctype>]
    that the code calls, on Rocq's [string] (a [char] is an [ascii]). *)

From S2P Require Import Prelude Effects.

(** [s.find(pat)]: where [pat] first occurs; [None] is [npos]. *)
Definition find (pat s : string) : option nat := String.index 0 pat s.

(** [s.find(pat) == 0] *)
Definition starts_with (pat s : string) : bool := bool_decide (find pat s = Some 0%nat).

(** [s.substr(pos)] and [s.substr(pos, n)] for [pos <= s.size()] (the only uses). *)
Definition substr (pos : nat) (s : string) : string := String.substring pos (String.length s - pos) s.
Definition substr_n (pos n : nat) (s : string) : string := String.substring pos n s.

(** [s.empty()] *)
Definition empty (s : string) : bool := match s with EmptyString => true | _ => false end.

Definition in_range (lo hi c : ascii) : bool :=
  (nat_of_ascii lo <=? nat_of_ascii c)%nat && (nat_of_ascii c <=? nat_of_ascii hi)%nat.

Definition isdigit : ascii → bool := in_range "0" "9".

(** [isspace] of the C locale: space, and tab to carriage return. *)
Definition isspace (c : ascii) : bool :=
  Ascii.eqb c " " || (9 <=? nat_of_ascii c)%nat && (nat_of_ascii c <=? 13)%nat.

(** [std::all_of(s.begin(), s.end(), p)] *)
Fixpoint all_of (p : ascii → bool) (s : string) : bool :=
  match s with
  | EmptyString => true
  | String c s => p c && all_of p s
  end.

Fixpoint skip_while (p : ascii → bool) (s : string) : string :=
  match s with
  | EmptyString => EmptyString
  | String c s' => if p c then skip_while p s' else s
  end.

Fixpoint take_while (p : ascii → bool) (s : string) : string :=
  match s with
  | EmptyString => EmptyString
  | String c s' => if p c then String c (take_while p s') else EmptyString
  end.

Definition digit_value (c : ascii) : Z := Z.of_nat (nat_of_ascii c) - 48.

Fixpoint digits_value (acc : Z) (s : string) : Z :=
  match s with
  | EmptyString => acc
  | String c s => digits_value (10 * acc + digit_value c) s
  end.

Definition INT_MIN : Z := - 2 ^ 31.
Definition INT_MAX : Z := 2 ^ 31 - 1.

(** [std::stoi(s)]: leading white space, an optional sign, then the longest run of digits; what
    follows the digits is ignored. *)
Definition stoi (s : string) : result Z :=
  let s := skip_while isspace s in
  let '(sign, s) :=
    match s with
    | String c s' => if Ascii.eqb c "-" then (-1, s') else if Ascii.eqb c "+" then (1, s') else (1, s)
    | EmptyString => (1, s)
    end in
  let ds := take_while isdigit s in
  if empty ds then Throw (invalid_argument "stoi")
  else let v := sign * digits_value 0 ds in
       if (v <? INT_MIN) || (INT_MAX <? v) then Throw (out_of_range "stoi") else Ok v.

(** ** Lemmas *)

Lemma substring_all s : String.substring 0 (String.length s) s = s.
Proof. induction s as [|c s IH]; simpl; [done|by f_equal]. Qed.

Lemma prefix_app p t : String.prefix p (p +:+ t) = true.
Proof. induction p as [|c p IH]; simpl; [by destruct t|]. by destruct (ascii_dec c c). Qed.

Lemma prefix_inv p s : String.prefix p s = true → ∃ t, s = p +:+ t.
Proof.
  revert s. induction p as [|c p IH]; intros s H; [by exists s|].
  destruct s as [|d s]; simpl in H; [done|].
  destruct (ascii_dec c d) as [->|]; [|done]. destruct (IH _ H) as [t ->]. by exists t.
Qed.

Lemma find_0_prefix pat s : find pat s = Some 0%nat ↔ String.prefix pat s = true.
Proof.
  unfold find. destruct s as [|c s].
  - destruct pat; simpl; done.
  - cbn [index]. destruct (String.prefix pat (String c s)) eqn:E; [done|].
    destruct (index 0 pat s); done.
Qed.

Lemma starts_with_spec pat s : starts_with pat s = true ↔ ∃ t, s = pat +:+ t.
Proof.
  unfold starts_with. rewrite bool_decide_eq_true, find_0_prefix. split; [apply prefix_inv|].
  intros [t ->]. apply prefix_app.
Qed.

Lemma empty_spec s : empty s = true ↔ s = "".
Proof. destruct s; simpl; naive_solver. Qed.

Lemma all_of_spec p s : all_of p s = true ↔ Forall (λ c, p c = true) (list_ascii_of_string s).
Proof.
  induction s as [|c s IH]; simpl; [split; constructor|].
  rewrite andb_true_iff, IH, Forall_cons. done.
Qed.

Lemma substr_app p t : substr (String.length p) (p +:+ t) = t.
Proof.
  unfold substr. induction p as [|c p IH]; simpl.
  - rewrite Nat.sub_0_r. induction t as [|c t IH]; simpl; [done|by f_equal].
  - apply IH.
Qed.

Lemma isdigit_value c : isdigit c = true → 0 <= digit_value c <= 9.
Proof.
  unfold isdigit, in_range, digit_value. rewrite andb_true_iff, !Nat.leb_le.
  change (nat_of_ascii "0") with 48%nat. change (nat_of_ascii "9") with 57%nat. lia.
Qed.

(** Decimal digits never denote a negative number. *)
Lemma digits_value_nonneg ds acc :
  all_of isdigit ds = true → 0 <= acc → 0 <= digits_value acc ds.
Proof.
  revert acc. induction ds as [|c ds IH]; simpl; intros acc Hd Ha; [done|].
  apply andb_true_iff in Hd as [Hc Hd]. apply IH; [done|].
  apply isdigit_value in Hc. lia.
Qed.

(** [std::to_string] of a number that is not negative is digits only, and [std::stoi] reads it back. *)
Lemma pretty_go_digits x s :
  digits_value 0 (pretty_N_go x s) = digits_value (Z.of_N x) s ∧
  all_of isdigit (pretty_N_go x s) = all_of isdigit s.
Proof.
  revert s. induction (N.lt_wf_0 x) as [x _ IH]. intros s. destruct (decide (0 < x)%N) as [Hx|Hx].
  - rewrite pretty_N_go_step by done.
    assert (Hlt : (x `div` 10 < x)%N) by (apply N.div_lt; lia).
    destruct (IH _ Hlt (String (pretty_N_char (x `mod` 10)) s)) as [-> ->]. simpl.
    assert (Hm : (x `mod` 10 < 10)%N) by (apply N.mod_lt; lia).
    assert (Hc : digit_value (pretty_N_char (x `mod` 10)) = Z.of_N (x `mod` 10) ∧
                 isdigit (pretty_N_char (x `mod` 10)) = true).
    { generalize dependent (x `mod` 10)%N. intros d Hd.
      assert (d ∈ (N.of_nat <$> seq 0 10)) as Hin
        by (apply list_elem_of_fmap; exists (N.to_nat d); rewrite elem_of_seq; lia).
      repeat (apply elem_of_cons in Hin as [->|Hin]; [by vm_compute|]). by apply elem_of_nil in Hin. }
    destruct Hc as [-> ->]. split; [|done]. f_equal.
    pose proof (N.div_mod x 10 ltac:(done)). lia.
  - assert (x = 0%N) as -> by lia. done.
Qed.

Lemma pretty_digits z :
  0 <= z → digits_value 0 (pretty z) = z ∧ all_of isdigit (pretty z) = true ∧ empty (pretty z) = false.
Proof.
  intros Hz. destruct z as [|p|p]; [done| |lia]. change (pretty (Zpos p)) with (pretty (Npos p)).
  change (pretty (Npos p)) with (pretty_N_go (Npos p) ""). destruct (pretty_go_digits (Npos p) "") as [E D].
  split_and!; [exact E|exact D|]. destruct (pretty_N_go (Npos p) "") eqn:Es; [|done].
  simpl in E. lia.
Qed.

Lemma take_digits s : all_of isdigit s = true → take_while isdigit s = s.
Proof. induction s as [|c s IH]; simpl; [done|]. intros [-> Hs]%andb_true_iff. by rewrite IH. Qed.

Lemma digit_not_space c : isdigit c = true → isspace c = false ∧ c ≠ "-"%char ∧ c ≠ "+"%char.
Proof. destruct c as [[] [] [] [] [] [] [] []]; vm_compute; done. Qed.

Lemma stoi_digits s z :
  all_of isdigit s = true → empty s = false → digits_value 0 s = z → z <= INT_MAX → stoi s = Ok z.
Proof.
  intros Hd He Hv Hz. unfold stoi. pose proof (digits_value_nonneg s 0 Hd ltac:(lia)).
  destruct s as [|c s]; [done|]. simpl in Hd. pose proof Hd as [Hc _]%andb_true_iff.
  destruct (digit_not_space c Hc) as (Hsp & Hm & Hp). cbn [skip_while]. rewrite Hsp.
  destruct (Ascii.eqb_spec c "-"%char); [done|]. destruct (Ascii.eqb_spec c "+"%char); [done|].
  rewrite (take_digits (String c s)) by done. cbn [empty]. rewrite Z.mul_1_l, Hv.
  unfold INT_MIN. destruct (Z.ltb_spec z (- 2 ^ 31)); [lia|]. by destruct (Z.ltb_spec INT_MAX z); [lia|].
Qed.

Lemma stoi_pretty z : 0 <= z <= INT_MAX → stoi (pretty z) = Ok z.
Proof.
  intros Hz. destruct (pretty_digits z ltac:(lia)) as (Hv & Hd & He). apply stoi_digits; [done..|lia].
Qed.

Lemma substr_n_app s t : substr_n 0 (String.length s) (s +:+ t) = s.
Proof. unfold substr_n. induction s as [|c s IH]; simpl; [by destruct t|by f_equal]. Qed.

(** A text that starts with a blank is first found right after digits. *)
Lemma find_after_digits s t :
  all_of isdigit s = true → find (String " " t) (s +:+ String " " t) = Some (String.length s).
Proof.
  unfold find. induction s as [|c s IH]; intros Hd.
  - pose proof (prefix_app (String " " t) "") as Hp. rewrite app_nil_r_string in Hp.
    change ("" +:+ String " " t) with (String " " t). cbn [index]. by rewrite Hp.
  - simpl in Hd. apply andb_true_iff in Hd as [Hc Hd]. rewrite app_cons_string. cbn [index String.prefix].
    destruct (ascii_dec " " c) as [<-|_]; [by apply digit_not_space in Hc as [? _]|].
    by rewrite (IH Hd).
Qed.
