(* ===== verification/Regex.v ===== *)
(** * [std::regex_match]

    Regular expressions over character classes, the language they denote, and an executable
    matcher by derivatives proved equal to it.  [std::regex_match] succeeds when the whole string
    is in the language, so the anchors [^] and [$] at the two ends of a pattern add nothing. *)

From S2P Require Import Prelude Effects CxxString.

Inductive regex :=
  | Empty
  | Eps
  | Chr (p : ascii → bool)
  | Cat (r1 r2 : regex)
  | Alt (r1 r2 : regex)
  | Star (r : regex).

Inductive matches : regex → string → Prop :=
  | matches_eps : matches Eps ""
  | matches_chr p c : p c = true → matches (Chr p) (String c "")
  | matches_cat r1 r2 s1 s2 : matches r1 s1 → matches r2 s2 → matches (Cat r1 r2) (s1 +:+ s2)
  | matches_alt_l r1 r2 s : matches r1 s → matches (Alt r1 r2) s
  | matches_alt_r r1 r2 s : matches r2 s → matches (Alt r1 r2) s
  | matches_star_nil r : matches (Star r) ""
  | matches_star_cons r c s1 s2 :
      matches r (String c s1) → matches (Star r) s2 → matches (Star r) (String c s1 +:+ s2).

Fixpoint nullable (r : regex) : bool :=
  match r with
  | Empty | Chr _ => false
  | Eps | Star _ => true
  | Cat r1 r2 => nullable r1 && nullable r2
  | Alt r1 r2 => nullable r1 || nullable r2
  end.

(** Constructors that drop the impossible and the empty parts, so that derivatives stay small. *)
Definition cat (r1 r2 : regex) : regex :=
  match r1, r2 with
  | Empty, _ | _, Empty => Empty
  | Eps, r => r
  | _, _ => Cat r1 r2
  end.

Definition alt (r1 r2 : regex) : regex :=
  match r1, r2 with
  | Empty, r | r, Empty => r
  | _, _ => Alt r1 r2
  end.

Fixpoint deriv (c : ascii) (r : regex) : regex :=
  match r with
  | Empty | Eps => Empty
  | Chr p => if p c then Eps else Empty
  | Cat r1 r2 =>
      if nullable r1 then alt (cat (deriv c r1) r2) (deriv c r2) else cat (deriv c r1) r2
  | Alt r1 r2 => alt (deriv c r1) (deriv c r2)
  | Star r1 => cat (deriv c r1) (Star r1)
  end.

(** [std::regex_match(s, r)] *)
Fixpoint regex_match (r : regex) (s : string) : bool :=
  match s with
  | EmptyString => nullable r
  | String c s => regex_match (deriv c r) s
  end.

(** ** Pattern syntax *)

Definition chr (c : ascii) : regex := Chr (Ascii.eqb c).
Definition range (lo hi : ascii) : regex := Chr (in_range lo hi).
Definition opt (r : regex) : regex := Alt Eps r.

Fixpoint lit (s : string) : regex :=
  match s with
  | EmptyString => Eps
  | String c s => Cat (chr c) (lit s)
  end.

(** [r{n}], [r{0,n}] and [r{lo,hi}] *)
Fixpoint rep (n : nat) (r : regex) : regex :=
  match n with O => Eps | S n => Cat r (rep n r) end.
Fixpoint rep_upto (n : nat) (r : regex) : regex :=
  match n with O => Eps | S n => opt (Cat r (rep_upto n r)) end.
Definition rep_between (lo hi : nat) (r : regex) : regex := Cat (rep lo r) (rep_upto (hi - lo) r).

(** ** The matcher decides the language *)

Lemma matches_cat_inv r1 r2 s :
  matches (Cat r1 r2) s → ∃ s1 s2, s = s1 +:+ s2 ∧ matches r1 s1 ∧ matches r2 s2.
Proof. inversion 1; subst; eauto. Qed.

Lemma matches_empty s : ¬ matches Empty s.
Proof. inversion 1. Qed.

Lemma matches_eps_iff s : matches Eps s ↔ s = "".
Proof. split; [by inversion 1|intros ->; constructor]. Qed.

Lemma matches_alt_iff r1 r2 s : matches (Alt r1 r2) s ↔ matches r1 s ∨ matches r2 s.
Proof. split; [inversion 1; auto|intros [?|?]; auto using matches]. Qed.

Lemma matches_cat_iff r1 r2 s :
  matches (Cat r1 r2) s ↔ ∃ s1 s2, s = s1 +:+ s2 ∧ matches r1 s1 ∧ matches r2 s2.
Proof.
  split; [apply matches_cat_inv|]. intros (s1 & s2 & -> & H1 & H2). by constructor.
Qed.

Lemma matches_smart_cat r1 r2 s : matches (cat r1 r2) s ↔ matches (Cat r1 r2) s.
Proof.
  rewrite matches_cat_iff. split.
  - destruct r1, r2; simpl; intros H;
      first [by apply matches_empty in H | by apply matches_cat_inv in H
            | exists "", s; split; [done|]; split; [constructor|done]].
  - intros (s1 & s2 & -> & H1 & H2).
    destruct r1, r2; simpl;
      first [by apply matches_empty in H1 | by apply matches_empty in H2 | by constructor
            | apply matches_eps_iff in H1; by subst].
Qed.

Lemma matches_smart_alt r1 r2 s : matches (alt r1 r2) s ↔ matches (Alt r1 r2) s.
Proof.
  rewrite matches_alt_iff. split.
  - destruct r1, r2; simpl; intros H; try (by left); try (by right); by apply matches_alt_iff in H.
  - intros H. destruct r1, r2; simpl; try by apply matches_alt_iff.
    all: destruct H as [H|H]; [try by apply matches_empty in H|try by apply matches_empty in H]; done.
Qed.

Lemma nullable_spec r : nullable r = true ↔ matches r "".
Proof.
  induction r as [| |p|r1 IH1 r2 IH2|r1 IH1 r2 IH2|r IH]; simpl.
  - split; [done|inversion 1].
  - split; [constructor|done].
  - split; [done|inversion 1].
  - rewrite andb_true_iff, IH1, IH2, matches_cat_iff. split.
    + intros [? ?]. by exists "", "".
    + intros (s1 & s2 & E & H1 & H2). destruct s1, s2; by simplify_eq.
  - by rewrite orb_true_iff, IH1, IH2, matches_alt_iff.
  - split; [constructor|done].
Qed.

Lemma matches_star_inv r c s :
  matches (Star r) (String c s) →
  ∃ s1 s2, s = s1 +:+ s2 ∧ matches r (String c s1) ∧ matches (Star r) s2.
Proof. inversion 1; subst; simplify_eq/=; eauto. Qed.

Lemma deriv_spec c r s : matches (deriv c r) s ↔ matches r (String c s).
Proof.
  revert s. induction r as [| |p|r1 IH1 r2 IH2|r1 IH1 r2 IH2|r IH]; intros s; simpl.
  - split; inversion 1.
  - split; inversion 1.
  - destruct (p c) eqn:E; [rewrite matches_eps_iff|].
    + split; [intros ->; by constructor|by inversion 1].
    + split; [inversion 1|inversion 1; congruence].
  - assert (Hl : matches (cat (deriv c r1) r2) s ↔
              ∃ s1 s2, s = s1 +:+ s2 ∧ matches r1 (String c s1) ∧ matches r2 s2).
    { rewrite matches_smart_cat, matches_cat_iff. by setoid_rewrite IH1. }
    assert (Hr : matches (Cat r1 r2) (String c s) ↔
              (∃ s1 s2, s = s1 +:+ s2 ∧ matches r1 (String c s1) ∧ matches r2 s2) ∨
              (matches r1 "" ∧ matches r2 (String c s))).
    { rewrite matches_cat_iff. split.
      - intros ([|c' s1] & s2 & E & H1 & H2).
        + rewrite app_nil_string in E. subst s2. by right.
        + rewrite app_cons_string in E. injection E as -> ->. left. by exists s1, s2.
      - intros [(s1 & s2 & -> & H1 & H2)|[H1 H2]]; [by exists (String c s1), s2|].
        by exists "", (String c s). }
    rewrite Hr. destruct (nullable r1) eqn:E.
    + rewrite matches_smart_alt, matches_alt_iff, Hl, IH2. apply nullable_spec in E. naive_solver.
    + rewrite Hl. split; [by left|]. intros [?|[H _]]; [done|].
      apply nullable_spec in H. congruence.
  - by rewrite matches_smart_alt, !matches_alt_iff, IH1, IH2.
  - rewrite matches_smart_cat, matches_cat_iff. setoid_rewrite IH. split.
    + intros (s1 & s2 & -> & H1 & H2). by apply (matches_star_cons r c s1 s2).
    + apply matches_star_inv.
Qed.

Lemma regex_match_spec r s : regex_match r s = true ↔ matches r s.
Proof.
  revert r. induction s as [|c s IH]; intros r; simpl; [apply nullable_spec|].
  by rewrite IH, deriv_spec.
Qed.

(** ** Enumeration of the language of a star-free expression *)

Definition all_ascii : list ascii := ascii_of_nat <$> seq 0 256.

Fixpoint enum (r : regex) : list string :=
  match r with
  | Empty | Star _ => []
  | Eps => [""]
  | Chr p => (λ c, String c "") <$> filter (λ c, p c = true) all_ascii
  | Cat r1 r2 => s1 ← enum r1; s2 ← enum r2; [s1 +:+ s2]
  | Alt r1 r2 => enum r1 ++ enum r2
  end.

Fixpoint star_free (r : regex) : bool :=
  match r with
  | Star _ => false
  | Cat r1 r2 | Alt r1 r2 => star_free r1 && star_free r2
  | _ => true
  end.

Lemma elem_of_all_ascii c : c ∈ all_ascii.
Proof.
  unfold all_ascii. apply list_elem_of_fmap. exists (nat_of_ascii c).
  rewrite ascii_nat_embedding. split; [done|]. apply elem_of_seq.
  pose proof (nat_ascii_bounded c). lia.
Qed.

Lemma enum_complete r s : star_free r = true → matches r s → s ∈ enum r.
Proof.
  intros Hr H. induction H; simpl in *; try apply andb_true_iff in Hr as [? ?]; try done.
  - left.
  - apply list_elem_of_fmap. exists c. split; [done|].
    apply list_elem_of_filter. split; [done|apply elem_of_all_ascii].
  - apply list_elem_of_bind. exists s1. split; [|by auto].
    apply list_elem_of_bind. exists s2. split; [left|by auto].
  - apply elem_of_app. auto.
  - apply elem_of_app. auto.
Qed.

(** A property of a star-free language, checked by running through its words. *)
Lemma forall_words r (P : string → bool) :
  star_free r = true → forallb P (enum r) = true → ∀ s, matches r s → P s = true.
Proof.
  intros Hr HP s Hs. rewrite forallb_forall in HP. apply HP, list_elem_of_In.
  by apply enum_complete.
Qed.
