(* ===== verification/UeKey.v ===== *)
(** * [UeKey]: the identifiers of a UE

    [af_core/include/models/ue_state.h] (class [UeKey]) and [af_core/src/models/ue_key.cpp].
    A key holds up to six identifiers and a type naming the one that is primary; its primary key
    string indexes the maps of the UE state manager.  Constructors validate the identifier and
    throw [std::invalid_argument]. *)

From S2P Require Import Prelude Effects CxxString Regex.

(** The identifier types are structures of the common library holding one string, [value]. *)
Record Supi := mkSupi { supi : string }.
Record Gpsi := mkGpsi { gpsi : string }.
Record Ipv4Addr := mkIpv4Addr { ipv4 : string }.
Record Ipv6Addr := mkIpv6Addr { ipv6 : string }.
Record Ipv6Prefix := mkIpv6Prefix { ipv6_prefix : string }.
Record MacAddr48 := mkMacAddr48 { mac : string }.

#[global] Instance Supi_eq_dec : EqDecision Supi. Proof. solve_decision. Defined.
#[global] Instance Gpsi_eq_dec : EqDecision Gpsi. Proof. solve_decision. Defined.
#[global] Instance Ipv4Addr_eq_dec : EqDecision Ipv4Addr. Proof. solve_decision. Defined.
#[global] Instance Ipv6Addr_eq_dec : EqDecision Ipv6Addr. Proof. solve_decision. Defined.
#[global] Instance Ipv6Prefix_eq_dec : EqDecision Ipv6Prefix. Proof. solve_decision. Defined.
#[global] Instance MacAddr48_eq_dec : EqDecision MacAddr48. Proof. solve_decision. Defined.

(** ** Validation *)

Definition validate_supi_format (value : string) : result () :=
  if empty value then Throw (invalid_argument "SUPI value cannot be empty")
  else if starts_with "imsi-" value then
    let imsi_digits := substr 5 value in
    if empty imsi_digits || (15 <? String.length imsi_digits)%nat then
      Throw (invalid_argument "Invalid IMSI format in SUPI: must be imsi-<5-15 digits>")
    else if negb (all_of isdigit imsi_digits) then
      Throw (invalid_argument "Invalid IMSI format in SUPI: digits only after imsi-")
    else Ok ()
  else if starts_with "nai-" value then
    let nai_part := substr 4 value in
    if empty nai_part || negb (has_value (find "@" nai_part)) then
      Throw (invalid_argument "Invalid NAI format in SUPI: must be nai-<username>@<domain>")
    else Ok ()
  else Throw (invalid_argument "Invalid SUPI format: must start with 'imsi-' or 'nai-'").

Definition validate_gpsi_format (value : string) : result () :=
  if empty value then Throw (invalid_argument "GPSI value cannot be empty")
  else if starts_with "+" value then
    let e164 := substr 1 value in
    if empty e164 || (15 <? String.length e164)%nat then
      Throw (invalid_argument "Invalid E.164 format in GPSI: must be +<digits>")
    else if negb (all_of isdigit e164) then
      Throw (invalid_argument "Invalid E.164 format in GPSI: digits only after +")
    else Ok ()
  else
    match find "@" value with
    | Some at_pos =>
      if (at_pos =? 0)%nat || (at_pos =? String.length value - 1)%nat then
        Throw (invalid_argument "Invalid user@domain format in GPSI: must be <user>@<domain>")
      else Ok ()
    | None =>
      Throw (invalid_argument
        "Invalid GPSI format: must start with 'e164-' or be in user@domain format")
    end.

(** [25[0-5]|2[0-4][0-9]|1[0-9]{2}|[1-9]?[0-9]] *)
Definition octet_pattern : regex :=
  Alt (Cat (lit "25") (range "0" "5"))
 (Alt (Cat (chr "2") (Cat (range "0" "4") (range "0" "9")))
 (Alt (Cat (chr "1") (rep 2 (range "0" "9")))
      (Cat (opt (range "1" "9")) (range "0" "9")))).

Definition ipv4_pattern : regex := Cat (rep 3 (Cat octet_pattern (chr "."))) octet_pattern.

Definition validate_ipv4_format (value : string) : result () :=
  if empty value then Throw (invalid_argument "IPv4 address cannot be empty")
  else if negb (regex_match ipv4_pattern value) then
    Throw (invalid_argument ("Invalid IPv4 address format: " +:+ value))
  else Ok ().

(** [[0-9a-fA-F]] *)
Definition hex_class : regex :=
  Chr (λ c, in_range "0" "9" c || in_range "a" "f" c || in_range "A" "F" c).

Definition ipv6_pattern : regex :=
  Cat (rep_between 2 7 (Cat (rep_upto 4 hex_class) (chr ":")))
      (Alt (rep_upto 4 hex_class) ipv4_pattern).

Definition validate_ipv6_format (value : string) : result () :=
  if empty value then Throw (invalid_argument "IPv6 address cannot be empty")
  else if negb (has_value (find ":" value)) then
    Throw (invalid_argument "Invalid IPv6 address format: must contain colons")
  else if negb (regex_match ipv6_pattern value) then
    Throw (invalid_argument ("Invalid IPv6 address format: " +:+ value))
  else Ok ().

Definition validate_ipv6_prefix_format (value : string) : result () :=
  if empty value then Throw (invalid_argument "IPv6 prefix cannot be empty")
  else match find "/" value with
  | None =>
    Throw (invalid_argument "Invalid IPv6 prefix format: must contain '/' for CIDR notation")
  | Some slash_pos =>
    let address_part := substr_n 0 slash_pos value in
    let prefix_length := substr (slash_pos + 1) value in
    if empty address_part || empty prefix_length then
      Throw (invalid_argument "Invalid IPv6 prefix format: empty address or prefix length")
    else
      match stoi prefix_length with
      | Ok length =>
        if (length <? 0) || (128 <? length) then
          Throw (invalid_argument ("Invalid IPv6 prefix length: " +:+ prefix_length))
        else validate_ipv6_format address_part
      | _ => Throw (invalid_argument ("Invalid IPv6 prefix length: " +:+ prefix_length))
      end
  end.

(** [([0-9A-Fa-f]{2}sep){5}[0-9A-Fa-f]{2}] *)
Definition mac_pattern (sep : ascii) : regex :=
  Cat (rep 5 (Cat (rep 2 hex_class) (chr sep))) (rep 2 hex_class).

Definition validate_mac_format (value : string) : result () :=
  if empty value then Throw (invalid_argument "MAC address cannot be empty")
  else if negb (regex_match (mac_pattern ":") value) && negb (regex_match (mac_pattern "-") value) then
    Throw (invalid_argument ("Invalid MAC address format: " +:+ value +:+
      " (expected XX:XX:XX:XX:XX:XX or XX-XX-XX-XX-XX-XX)"))
  else Ok ().

(** ** Keys *)

Inductive KeyType :=
  | SUPI_BASED | GPSI_BASED | IPV4_BASED | IPV6_BASED | IPV6_PREFIX_BASED | MAC_ADDR_BASED
  | COMPOSITE.

#[global] Instance KeyType_eq_dec : EqDecision KeyType.
Proof. solve_decision. Defined.

Record UeKey := mkUeKey {
  type_ : KeyType;
  supi_value_ : option string;
  gpsi_value_ : option string;
  ipv4_value_ : option string;
  ipv6_value_ : option string;
  ipv6_prefix_value_ : option string;
  mac_addr_value_ : option string }.

#[global] Instance UeKey_settable : Settable UeKey := λ k,
  mkUeKey (type_ k) (supi_value_ k) (gpsi_value_ k) (ipv4_value_ k) (ipv6_value_ k)
    (ipv6_prefix_value_ k) (mac_addr_value_ k).
#[global] Instance UeKey_eq_dec : EqDecision UeKey.
Proof. solve_decision. Defined.

(** The factories and the explicit constructors from an identifier validate, then store it. *)
Definition from_supi (s : Supi) : result UeKey :=
  validate_supi_format (supi s) ;;
  mret (mkUeKey SUPI_BASED (Some (supi s)) None None None None None).
Definition from_gpsi (g : Gpsi) : result UeKey :=
  validate_gpsi_format (gpsi g) ;;
  mret (mkUeKey GPSI_BASED None (Some (gpsi g)) None None None None).
Definition from_ipv4 (a : Ipv4Addr) : result UeKey :=
  validate_ipv4_format (ipv4 a) ;;
  mret (mkUeKey IPV4_BASED None None (Some (ipv4 a)) None None None).
Definition from_ipv6 (a : Ipv6Addr) : result UeKey :=
  validate_ipv6_format (ipv6 a) ;;
  mret (mkUeKey IPV6_BASED None None None (Some (ipv6 a)) None None).
Definition from_ipv6_prefix (p : Ipv6Prefix) : result UeKey :=
  validate_ipv6_prefix_format (ipv6_prefix p) ;;
  mret (mkUeKey IPV6_PREFIX_BASED None None None None (Some (ipv6_prefix p)) None).
Definition from_mac (m : MacAddr48) : result UeKey :=
  validate_mac_format (mac m) ;;
  mret (mkUeKey MAC_ADDR_BASED None None None None None (Some (mac m))).

(** The explicit constructors [UeKey(const Supi&)], ... *)
Definition UeKey_supi (s : Supi) : result UeKey :=
  let key := mkUeKey SUPI_BASED (Some (supi s)) None None None None None in
  validate_supi_format (supi s) ;; mret key.
Definition UeKey_gpsi (g : Gpsi) : result UeKey :=
  let key := mkUeKey GPSI_BASED None (Some (gpsi g)) None None None None in
  validate_gpsi_format (gpsi g) ;; mret key.
Definition UeKey_ipv4 (a : Ipv4Addr) : result UeKey :=
  let key := mkUeKey IPV4_BASED None None (Some (ipv4 a)) None None None in
  validate_ipv4_format (ipv4 a) ;; mret key.
Definition UeKey_ipv6 (a : Ipv6Addr) : result UeKey :=
  let key := mkUeKey IPV6_BASED None None None (Some (ipv6 a)) None None in
  validate_ipv6_format (ipv6 a) ;; mret key.
Definition UeKey_ipv6_prefix (p : Ipv6Prefix) : result UeKey :=
  let key := mkUeKey IPV6_PREFIX_BASED None None None None (Some (ipv6_prefix p)) None in
  validate_ipv6_prefix_format (ipv6_prefix p) ;; mret key.
Definition UeKey_mac (m : MacAddr48) : result UeKey :=
  let key := mkUeKey MAC_ADDR_BASED None None None None None (Some (mac m)) in
  validate_mac_format (mac m) ;; mret key.

(** The generic constructor [UeKey(const std::string& key, KeyType key_type)]. *)
Definition UeKey_of_string (key : string) (key_type : KeyType) : result UeKey :=
  let blank := mkUeKey key_type None None None None None None in
  match key_type with
  | SUPI_BASED => validate_supi_format key ;; mret (blank <| supi_value_ := Some key |>)
  | GPSI_BASED => validate_gpsi_format key ;; mret (blank <| gpsi_value_ := Some key |>)
  | IPV4_BASED => validate_ipv4_format key ;; mret (blank <| ipv4_value_ := Some key |>)
  | IPV6_BASED => validate_ipv6_format key ;; mret (blank <| ipv6_value_ := Some key |>)
  | IPV6_PREFIX_BASED =>
    validate_ipv6_prefix_format key ;; mret (blank <| ipv6_prefix_value_ := Some key |>)
  | MAC_ADDR_BASED => validate_mac_format key ;; mret (blank <| mac_addr_value_ := Some key |>)
  | COMPOSITE =>
    Throw (invalid_argument
      "COMPOSITE key type requires explicit construction with multiple identifiers")
  end.

Definition get_primary_key (k : UeKey) : string :=
  match type_ k with
  | SUPI_BASED => "supi:" +:+ value_or "" (supi_value_ k)
  | GPSI_BASED => "gpsi:" +:+ value_or "" (gpsi_value_ k)
  | IPV4_BASED => "ipv4:" +:+ value_or "" (ipv4_value_ k)
  | IPV6_BASED => "ipv6:" +:+ value_or "" (ipv6_value_ k)
  | IPV6_PREFIX_BASED => "ipv6_prefix:" +:+ value_or "" (ipv6_prefix_value_ k)
  | MAC_ADDR_BASED => "mac:" +:+ value_or "" (mac_addr_value_ k)
  | COMPOSITE =>
    match supi_value_ k with Some v => "supi:" +:+ v | None =>
    match gpsi_value_ k with Some v => "gpsi:" +:+ v | None =>
    match ipv4_value_ k with Some v => "ipv4:" +:+ v | None =>
    match ipv6_value_ k with Some v => "ipv6:" +:+ v | None =>
    match ipv6_prefix_value_ k with Some v => "ipv6_prefix:" +:+ v | None =>
    match mac_addr_value_ k with Some v => "mac:" +:+ v | None => "unknown"
    end end end end end end
  end.

(** State queries *)
Definition can_promote_to_supi (k : UeKey) : bool :=
  bool_decide (type_ k ≠ SUPI_BASED) && has_value (supi_value_ k).
Definition is_provisional (k : UeKey) : bool := bool_decide (type_ k ≠ SUPI_BASED).
Definition is_resolved (k : UeKey) : bool := bool_decide (type_ k = SUPI_BASED).

(** Mutations, on the key they return *)
Definition promote_to_supi (k : UeKey) : UeKey :=
  if can_promote_to_supi k then k <| type_ := SUPI_BASED |> else k.
Definition demote_to_composite (k : UeKey) : UeKey :=
  if bool_decide (type_ k ≠ COMPOSITE) then k <| type_ := COMPOSITE |> else k.
Definition with_supi_promotion (k : UeKey) : UeKey :=
  if can_promote_to_supi k
  then mkUeKey SUPI_BASED (supi_value_ k) (gpsi_value_ k) (ipv4_value_ k) (ipv6_value_ k)
         (ipv6_prefix_value_ k) (mac_addr_value_ k)
  else k.
Definition as_composite (k : UeKey) : UeKey :=
  if bool_decide (type_ k = COMPOSITE) then k
  else mkUeKey COMPOSITE (supi_value_ k) (gpsi_value_ k) (ipv4_value_ k) (ipv6_value_ k)
         (ipv6_prefix_value_ k) (mac_addr_value_ k).

(** [operator==] *)
Definition ue_key_eqb (k k' : UeKey) : bool := String.eqb (get_primary_key k) (get_primary_key k').

(** [operator<] *)
Definition ue_key_ltb (k k' : UeKey) : bool := String.ltb (get_primary_key k) (get_primary_key k').

(** ** What validation accepts *)

(** Dotted decimal notation of four octets. *)
Definition dotted (a b c d : N) : string :=
  pretty a +:+ "." +:+ pretty b +:+ "." +:+ pretty c +:+ "." +:+ pretty d.

Definition octets : list N := N.of_nat <$> seq 0 256.

Lemma elem_of_octets n : n ∈ octets ↔ (n < 256)%N.
Proof.
  unfold octets. rewrite list_elem_of_fmap. setoid_rewrite elem_of_seq. split.
  - intros (i & -> & Hi). lia.
  - intros Hn. exists (N.to_nat n). lia.
Qed.

Lemma octet_spec s : matches octet_pattern s ↔ ∃ n : N, (n < 256)%N ∧ s = pretty n.
Proof.
  split.
  - intros H.
    assert (E : existsb (λ n : N, String.eqb s (pretty n)) octets = true).
    { revert s H. apply (forall_words octet_pattern
        (λ s, existsb (λ n : N, String.eqb s (pretty n)) octets)); by vm_compute. }
    apply existsb_exists in E as (n & Hn & E%String.eqb_eq). exists n. split; [|done].
    apply elem_of_octets. by apply list_elem_of_In.
  - intros (n & Hn & ->). apply regex_match_spec.
    assert (E : forallb (λ n : N, regex_match octet_pattern (pretty n)) octets = true)
      by (vm_compute; done).
    rewrite forallb_forall in E. apply E, list_elem_of_In. by apply elem_of_octets.
Qed.

Lemma matches_chr_iff c s : matches (chr c) s ↔ s = String c "".
Proof.
  split.
  - inversion 1; subst. match goal with H : Ascii.eqb _ _ = true |- _ => apply Ascii.eqb_eq in H end.
    by subst.
  - intros ->. constructor. apply Ascii.eqb_refl.
Qed.

Lemma octet_dot_spec s :
  matches (Cat octet_pattern (chr ".")) s ↔ ∃ n : N, (n < 256)%N ∧ s = pretty n +:+ ".".
Proof.
  rewrite matches_cat_iff. setoid_rewrite octet_spec. setoid_rewrite matches_chr_iff. naive_solver.
Qed.

Lemma ipv4_pattern_spec s :
  matches ipv4_pattern s ↔
  ∃ a b c d : N, (a < 256 ∧ b < 256 ∧ c < 256 ∧ d < 256)%N ∧ s = dotted a b c d.
Proof.
  unfold ipv4_pattern, dotted. cbn [rep].
  repeat setoid_rewrite matches_cat_iff. repeat setoid_rewrite matches_chr_iff.
  setoid_rewrite octet_spec. setoid_rewrite matches_eps_iff. split.
  - intros (? & ? & -> & (? & ? & -> & (? & ? & -> & (a & ? & ->) & ->) &
      (? & ? & -> & (? & ? & -> & (b & ? & ->) & ->) &
       (? & ? & -> & (? & ? & -> & (c & ? & ->) & ->) & ->))) & (d & ? & ->)).
    exists a, b, c, d. split; [done|]. by rewrite !app_assoc_string.
  - intros (a & b & c & d & (? & ? & ? & ?) & ->).
    eexists (((pretty a +:+ ".") +:+ ((pretty b +:+ ".") +:+ ((pretty c +:+ ".") +:+ "")))), (pretty d).
    split; [by rewrite !app_assoc_string|].
    split; [|by eauto]. eexists _, _. split; [done|]. split; [by eexists _, _; eauto|].
    eexists _, _. split; [done|]. split; [by eexists _, _; eauto|].
    eexists _, _. split; [done|]. split; [by eexists _, _; eauto|done].
Qed.

Lemma has_value_find_spec pat s : has_value (find pat s) = false ↔ find pat s = None.
Proof. apply has_value_false. Qed.

Lemma validate_ipv4_ok value :
  validate_ipv4_format value = Ok () ↔
  ∃ a b c d : N, (a < 256 ∧ b < 256 ∧ c < 256 ∧ d < 256)%N ∧ value = dotted a b c d.
Proof.
  rewrite <- ipv4_pattern_spec, <- regex_match_spec. unfold validate_ipv4_format.
  destruct (empty value) eqn:E.
  - apply empty_spec in E as ->. split; [done|]. by vm_compute.
  - by destruct (regex_match ipv4_pattern value).
Qed.

(** A non-empty run of at most fifteen digits. *)
Definition digits_1_15 (d : string) : Prop :=
  (1 <= String.length d <= 15)%nat ∧ all_of isdigit d = true.

Lemma digits_guard d :
  digits_1_15 d ↔
  empty d || (15 <? String.length d)%nat = false ∧ negb (all_of isdigit d) = false.
Proof.
  unfold digits_1_15. rewrite orb_false_iff, negb_false_iff, Nat.ltb_ge.
  destruct d; simpl; naive_solver lia.
Qed.

Lemma starts_with_app p t : starts_with p (p +:+ t) = true.
Proof. apply starts_with_spec. eauto. Qed.

Lemma validate_supi_ok value :
  validate_supi_format value = Ok () ↔
  (∃ d, value = "imsi-" +:+ d ∧ digits_1_15 d) ∨ (∃ n, value = "nai-" +:+ n ∧ is_Some (find "@" n)).
Proof.
  unfold validate_supi_format.
  destruct (empty value) eqn:E; [apply empty_spec in E as ->; naive_solver|].
  destruct (starts_with "imsi-" value) eqn:Ei.
  - apply starts_with_spec in Ei as [d ->].
    change (substr 5 ("imsi-" +:+ d)) with (substr (String.length "imsi-") ("imsi-" +:+ d)).
    rewrite substr_app. transitivity (digits_1_15 d).
    + rewrite digits_guard. destruct (_ || _), (negb _); naive_solver.
    + split; [naive_solver|]. intros [(d' & E' & Hd)|(n & E' & _)]; [|discriminate].
      apply app_inj_string in E'. by subst.
  - destruct (starts_with "nai-" value) eqn:En.
    + apply starts_with_spec in En as [n ->].
      change (substr 4 ("nai-" +:+ n)) with (substr (String.length "nai-") ("nai-" +:+ n)).
      rewrite substr_app. transitivity (is_Some (find "@" n)).
      * destruct n; [simpl; split; [done|by intros []]|]. cbn [empty orb].
        destruct (find "@" _); simpl; split; naive_solver.
      * split; [naive_solver|]. intros [(d' & E' & Hd)|(n' & E' & ?)]; [discriminate|].
        apply app_inj_string in E'. by subst.
    + split; [done|]. intros [(d & -> & _)|(n & -> & _)]; by rewrite starts_with_app in *.
Qed.

(** [user@domain]: the first [@] has something on both sides. *)
Definition user_at_domain (value : string) : Prop :=
  ∃ at_pos, find "@" value = Some at_pos ∧ at_pos ≠ 0%nat ∧ at_pos ≠ (String.length value - 1)%nat.

Lemma validate_gpsi_ok value :
  validate_gpsi_format value = Ok () ↔
  (∃ d, value = "+" +:+ d ∧ digits_1_15 d) ∨ (starts_with "+" value = false ∧ user_at_domain value).
Proof.
  unfold validate_gpsi_format, user_at_domain.
  destruct (empty value) eqn:E; [apply empty_spec in E as ->; naive_solver|].
  destruct (starts_with "+" value) eqn:Ep.
  - apply starts_with_spec in Ep as [d ->].
    change (substr 1 ("+" +:+ d)) with (substr (String.length "+") ("+" +:+ d)).
    rewrite substr_app. transitivity (digits_1_15 d).
    + rewrite digits_guard. destruct (_ || _), (negb _); naive_solver.
    + split; [naive_solver|]. intros [(d' & E' & Hd)|[? _]]; [|done].
      apply app_inj_string in E'. by subst.
  - assert (Hp : ¬ ∃ d, value = "+" +:+ d ∧ digits_1_15 d).
    { intros (d & -> & _). by rewrite starts_with_app in Ep. }
    destruct (find "@" value) as [p|]; [|naive_solver].
    destruct ((p =? 0)%nat || (p =? String.length value - 1)%nat) eqn:E'.
    + apply orb_true_iff in E'. rewrite !Nat.eqb_eq in E'. naive_solver.
    + apply orb_false_iff in E'. rewrite !Nat.eqb_neq in E'. naive_solver.
Qed.

(** What a validator of prefixes accepts: the text up to the first slash is an accepted IPv6
    address and [stoi] reads a length between 0 and 128 after it. *)
Lemma validate_ipv6_prefix_ok value :
  validate_ipv6_prefix_format value = Ok () ↔
  ∃ slash_pos length,
    find "/" value = Some slash_pos ∧
    validate_ipv6_format (substr_n 0 slash_pos value) = Ok () ∧
    stoi (substr (slash_pos + 1) value) = Ok length ∧ 0 <= length <= 128.
Proof.
  unfold validate_ipv6_prefix_format.
  destruct (empty value) eqn:E; [apply empty_spec in E as ->; naive_solver|].
  destruct (find "/" value) as [p|]; [|naive_solver].
  destruct (empty (substr_n 0 p value) || empty (substr (p + 1) value)) eqn:E'.
  - split; [done|]. intros (? & l & [= <-] & H1 & H2 & _).
    apply orb_true_iff in E' as [E'|E']; apply empty_spec in E';
      [rewrite E' in H1; by vm_compute in H1|rewrite E' in H2; by vm_compute in H2].
  - destruct (stoi (substr (p + 1) value)) as [l|e|u] eqn:Es; cycle 1.
    1-2: split; [done|]; intros (? & ? & [= <-] & _ & Hl & _); congruence.
    destruct ((l <? 0) || (128 <? l)) eqn:El.
    + apply orb_true_iff in El. rewrite !Z.ltb_lt in El. split; [done|].
      intros (? & ? & [= <-] & _ & Hl & ?). rewrite Es in Hl. simplify_eq. lia.
    + apply orb_false_iff in El. rewrite !Z.ltb_ge in El. split.
      * intros H. exists p, l. naive_solver lia.
      * intros (? & ? & [= <-] & ? & _). done.
Qed.

Lemma validate_mac_ok value :
  validate_mac_format value = Ok () ↔ matches (mac_pattern ":") value ∨ matches (mac_pattern "-") value.
Proof.
  rewrite <- !regex_match_spec. unfold validate_mac_format.
  destruct (empty value) eqn:E.
  - apply empty_spec in E as ->. split; [done|]. by vm_compute; intros [|].
  - destruct (regex_match (mac_pattern ":") value), (regex_match (mac_pattern "-") value); naive_solver.
Qed.

(** ** Keys built from one identifier *)

(** The tag that names the identifier of each type in the primary key string. *)
Definition tag (t : KeyType) : string :=
  match t with
  | SUPI_BASED => "supi:" | GPSI_BASED => "gpsi:" | IPV4_BASED => "ipv4:" | IPV6_BASED => "ipv6:"
  | IPV6_PREFIX_BASED => "ipv6_prefix:" | MAC_ADDR_BASED => "mac:" | COMPOSITE => "unknown"
  end.

(** The validation each type of identifier has to pass. *)
Definition validate (t : KeyType) (v : string) : result () :=
  match t with
  | SUPI_BASED => validate_supi_format v
  | GPSI_BASED => validate_gpsi_format v
  | IPV4_BASED => validate_ipv4_format v
  | IPV6_BASED => validate_ipv6_format v
  | IPV6_PREFIX_BASED => validate_ipv6_prefix_format v
  | MAC_ADDR_BASED => validate_mac_format v
  | COMPOSITE => Throw (invalid_argument
      "COMPOSITE key type requires explicit construction with multiple identifiers")
  end.

(** The key of type [t] whose only identifier is [v]. *)
Definition single (t : KeyType) (v : string) : UeKey :=
  let blank := mkUeKey t None None None None None None in
  match t with
  | SUPI_BASED => blank <| supi_value_ := Some v |>
  | GPSI_BASED => blank <| gpsi_value_ := Some v |>
  | IPV4_BASED => blank <| ipv4_value_ := Some v |>
  | IPV6_BASED => blank <| ipv6_value_ := Some v |>
  | IPV6_PREFIX_BASED => blank <| ipv6_prefix_value_ := Some v |>
  | MAC_ADDR_BASED => blank <| mac_addr_value_ := Some v |>
  | COMPOSITE => blank
  end.

Lemma result_bind_ok {A B} (r : result A) (f : A → result B) b :
  (r ≫= f) = Ok b ↔ ∃ a, r = Ok a ∧ f a = Ok b.
Proof.
  destruct r as [a|e|u]; simpl.
  - split; [by exists a|]. by intros (? & [= ->] & ?).
  - split; [done|]. by intros (? & ? & _).
  - split; [done|]. by intros (? & ? & _).
Qed.

Lemma result_unit_ok (r : result ()) {A} (a b : A) : (r ;; mret a) = Ok b ↔ r = Ok () ∧ b = a.
Proof.
  destruct r as [[]|e|u]; (split; [intros H|intros [H ->]]); try done. by injection H as ->.
Qed.

(** The generic constructor makes exactly the validated one-identifier keys, and each factory and
    each explicit constructor is the generic one at its type. *)
Lemma UeKey_of_string_spec v t : UeKey_of_string v t = (validate t v ;; mret (single t v)).
Proof. by destruct t. Qed.

Lemma factories_agree :
  (∀ x, from_supi x = UeKey_of_string (supi x) SUPI_BASED ∧ UeKey_supi x = from_supi x) ∧
  (∀ x, from_gpsi x = UeKey_of_string (gpsi x) GPSI_BASED ∧ UeKey_gpsi x = from_gpsi x) ∧
  (∀ x, from_ipv4 x = UeKey_of_string (ipv4 x) IPV4_BASED ∧ UeKey_ipv4 x = from_ipv4 x) ∧
  (∀ x, from_ipv6 x = UeKey_of_string (ipv6 x) IPV6_BASED ∧ UeKey_ipv6 x = from_ipv6 x) ∧
  (∀ x, from_ipv6_prefix x = UeKey_of_string (ipv6_prefix x) IPV6_PREFIX_BASED ∧
        UeKey_ipv6_prefix x = from_ipv6_prefix x) ∧
  (∀ x, from_mac x = UeKey_of_string (mac x) MAC_ADDR_BASED ∧ UeKey_mac x = from_mac x).
Proof. done. Qed.

Lemma UeKey_of_string_ok v t k :
  UeKey_of_string v t = Ok k ↔ validate t v = Ok () ∧ k = single t v.
Proof. rewrite UeKey_of_string_spec. apply result_unit_ok. Qed.

Lemma single_primary_key t v : t ≠ COMPOSITE → get_primary_key (single t v) = tag t +:+ v.
Proof. by destruct t. Qed.

Lemma tag_inj t t' v v' :
  t ≠ COMPOSITE → t' ≠ COMPOSITE → tag t +:+ v = tag t' +:+ v' → t = t' ∧ v = v'.
Proof.
  destruct t, t'; try done; intros _ _ E; try discriminate E; split; try done;
    by apply app_inj_string in E.
Qed.

(** *** Key invariant *)

(** The identifier of type [t] that a key holds. *)
Definition identifier (k : UeKey) (t : KeyType) : option string :=
  match t with
  | SUPI_BASED => supi_value_ k
  | GPSI_BASED => gpsi_value_ k
  | IPV4_BASED => ipv4_value_ k
  | IPV6_BASED => ipv6_value_ k
  | IPV6_PREFIX_BASED => ipv6_prefix_value_ k
  | MAC_ADDR_BASED => mac_addr_value_ k
  | COMPOSITE => None
  end.

(** The type that decides the primary key: the key's own, or for a composite key the first in the
    order of the fallback. *)
Definition primary_type (k : UeKey) : KeyType :=
  match type_ k with
  | COMPOSITE =>
    value_or COMPOSITE (head (filter (λ t, is_Some (identifier k t))
      [SUPI_BASED; GPSI_BASED; IPV4_BASED; IPV6_BASED; IPV6_PREFIX_BASED; MAC_ADDR_BASED]))
  | t => t
  end.

(** A well-formed key: every identifier passed its validation, and the primary one is there. *)
Definition key_wf (k : UeKey) : Prop :=
  (∀ t v, identifier k t = Some v → validate t v = Ok ()) ∧
  is_Some (identifier k (primary_type k)).

Lemma get_primary_key_spec k v :
  identifier k (primary_type k) = Some v →
  primary_type k ≠ COMPOSITE ∧ get_primary_key k = tag (primary_type k) +:+ v.
Proof.
  destruct k as [t s g i4 i6 pfx m]. unfold primary_type, get_primary_key; simpl.
  destruct t; simpl; intros H;
    try (split; [done|by rewrite H]).
  destruct s, g, i4, i6, pfx, m; simpl in *; simplify_eq; done.
Qed.

(** The primary key of a well-formed key is the tag and the text of one of its identifiers, one
    that passed its validation. *)
Lemma key_wf_primary k :
  key_wf k →
  ∃ v, identifier k (primary_type k) = Some v ∧ validate (primary_type k) v = Ok () ∧
       primary_type k ≠ COMPOSITE ∧ get_primary_key k = tag (primary_type k) +:+ v.
Proof.
  intros [Hv [v Hp]]. exists v. destruct (get_primary_key_spec _ _ Hp). naive_solver.
Qed.

Lemma single_identifier t t' v :
  t ≠ COMPOSITE → identifier (single t v) t' = if decide (t = t') then Some v else None.
Proof. by destruct t, t'. Qed.

Lemma single_primary_type t v : primary_type (single t v) = t.
Proof. by destruct t. Qed.

Lemma single_wf t v : validate t v = Ok () → key_wf (single t v).
Proof.
  intros H. assert (t ≠ COMPOSITE) by by intros ->. split.
  - intros t' v'. rewrite single_identifier by done. case_decide; naive_solver.
  - rewrite single_primary_type, single_identifier, decide_True by done. eauto.
Qed.

Lemma retype_identifier k t t' : identifier (k <| type_ := t |>) t' = identifier k t'.
Proof. by destruct t'. Qed.

(** Demotion to composite keeps a well-formed key well formed.  Its primary key may move to an
    identifier of higher rank; a key with a single identifier keeps its primary key. *)
Lemma demote_to_composite_wf k : key_wf k → key_wf (demote_to_composite k).
Proof.
  intros Hk. unfold demote_to_composite. destruct (bool_decide _); [|done].
  destruct Hk as [Hv [v Hp]]. split; [intros t v'; rewrite retype_identifier; apply Hv|].
  destruct k as [t s g i4 i6 pfx m]. unfold primary_type in *; simpl in *.
  destruct s, g, i4, i6, pfx, m; simpl; try by eauto. destruct t; simplify_eq/=.
Qed.

Lemma demote_single_primary_key t v :
  t ≠ COMPOSITE → get_primary_key (demote_to_composite (single t v)) = get_primary_key (single t v).
Proof. by destruct t. Qed.

Lemma promote_to_supi_wf k : key_wf k → key_wf (promote_to_supi k).
Proof.
  intros Hk. unfold promote_to_supi. destruct (can_promote_to_supi k) eqn:E; [|done].
  destruct Hk as [Hv _]. split; [intros t v; rewrite retype_identifier; apply Hv|].
  apply andb_true_iff in E as [_ E]. unfold primary_type. simpl. by apply has_value_true.
Qed.

(** The mutating and the immutable variants agree. *)
Lemma with_supi_promotion_spec k : with_supi_promotion k = promote_to_supi k.
Proof. done. Qed.

Lemma as_composite_spec k : as_composite k = demote_to_composite k.
Proof. unfold as_composite, demote_to_composite. by repeat case_bool_decide. Qed.

(** The keys the program can hold: built by a constructor, then promoted and demoted. *)
Inductive program_key : UeKey → Prop :=
  | key_made v t k : UeKey_of_string v t = Ok k → program_key k
  | key_promoted k : program_key k → program_key (promote_to_supi k)
  | key_demoted k : program_key k → program_key (demote_to_composite k).

Lemma program_key_inv k :
  program_key k →
  ∃ t v, validate t v = Ok () ∧ t ≠ COMPOSITE ∧
         (k = single t v ∨ k = (single t v) <| type_ := COMPOSITE |>).
Proof.
  induction 1 as [v t k Hk|k _ (t & v & Hv & Ht & [-> | ->])|k _ (t & v & Hv & Ht & [-> | ->])].
  - apply UeKey_of_string_ok in Hk as [Hv ->]. exists t, v. split; [done|]. split; [by intros ->|].
    by left.
  - exists t, v. destruct t; naive_solver.
  - exists t, v. destruct t; naive_solver.
  - exists t, v. destruct t; naive_solver.
  - exists t, v. destruct t; naive_solver.
Qed.

Lemma program_key_wf k : program_key k → key_wf k.
Proof.
  induction 1; [|by apply promote_to_supi_wf|by apply demote_to_composite_wf].
  match goal with Hk : UeKey_of_string _ _ = _ |- _ => apply UeKey_of_string_ok in Hk as [Hv ->] end.
  by apply single_wf.
Qed.

Lemma program_key_promote k : program_key k → get_primary_key (promote_to_supi k) = get_primary_key k.
Proof. intros (t & v & _ & Ht & [-> | ->])%program_key_inv; by destruct t. Qed.
Lemma program_key_demote k :
  program_key k → get_primary_key (demote_to_composite k) = get_primary_key k.
Proof. intros (t & v & _ & Ht & [-> | ->])%program_key_inv; by destruct t. Qed.

Lemma from_supi_program_key x k : from_supi x = Ok k → program_key k.
Proof. apply (key_made (supi x) SUPI_BASED). Qed.

Lemma from_supi_primary x k : from_supi x = Ok k → get_primary_key k = "supi:" +:+ supi x.
Proof.
  intros Hk. change (UeKey_of_string (supi x) SUPI_BASED = Ok k) in Hk.
  apply UeKey_of_string_ok in Hk as [_ ->]. done.
Qed.

(** ** Properties *)

(** An IPv4 key is built exactly from the dotted decimal notation of four octets (no leading
    zeros, no value above 255), and then holds that string and nothing else; any other string makes
    the factory throw. *)
Theorem from_ipv4_spec s k :
  from_ipv4 (mkIpv4Addr s) = Ok k ↔
  (∃ a b c d : N, (a < 256 ∧ b < 256 ∧ c < 256 ∧ d < 256)%N ∧ s = dotted a b c d) ∧
  k = single IPV4_BASED s.
Proof. unfold from_ipv4. rewrite result_unit_ok. simpl. by rewrite validate_ipv4_ok. Qed.

(** SUPI keys are built exactly from "imsi-" with one to fifteen digits or "nai-" with a text
    holding an [@]; GPSI keys exactly from "+" with one to fifteen digits or a text without leading
    "+" whose first [@] has something on both sides. *)
Theorem from_supi_gpsi_spec s k :
  (from_supi (mkSupi s) = Ok k ↔
     ((∃ d, s = "imsi-" +:+ d ∧ digits_1_15 d) ∨ (∃ n, s = "nai-" +:+ n ∧ is_Some (find "@" n))) ∧
     k = single SUPI_BASED s) ∧
  (from_gpsi (mkGpsi s) = Ok k ↔
     ((∃ d, s = "+" +:+ d ∧ digits_1_15 d) ∨ (starts_with "+" s = false ∧ user_at_domain s)) ∧
     k = single GPSI_BASED s).
Proof.
  unfold from_supi, from_gpsi. rewrite !result_unit_ok. simpl.
  by rewrite validate_supi_ok, validate_gpsi_ok.
Qed.

(** Keys built from identifiers are equal ([operator==] compares the primary key strings, which
    index the maps of the state manager) exactly when they have the same type and the same text:
    no two identifiers share a map entry. *)
Theorem ue_key_eq_spec v v' t t' k k' :
  UeKey_of_string v t = Ok k → UeKey_of_string v' t' = Ok k' →
  ue_key_eqb k k' = true ↔ t = t' ∧ v = v'.
Proof.
  rewrite !UeKey_of_string_ok. intros [Hv ->] [Hv' ->].
  assert (t ≠ COMPOSITE ∧ t' ≠ COMPOSITE) as [? ?] by (split; by intros ->).
  unfold ue_key_eqb. rewrite String.eqb_eq, !single_primary_key by done. split; [by apply tag_inj|].
  by intros [-> ->].
Qed.

Lemma ue_key_eq_spec_witness :
  ∃ k k', UeKey_of_string "imsi-001010000000001" SUPI_BASED = Ok k ∧
          UeKey_of_string "+491701234567" GPSI_BASED = Ok k' ∧ ue_key_eqb k k' = false.
Proof.
  exists (single SUPI_BASED "imsi-001010000000001"), (single GPSI_BASED "+491701234567").
  split; [by vm_compute|]. split; [by vm_compute|].
  destruct (ue_key_eqb _ _) eqn:E; [|done].
  apply (ue_key_eq_spec "imsi-001010000000001" "+491701234567" SUPI_BASED GPSI_BASED) in E;
    [destruct E as [E _]; discriminate E|by vm_compute|by vm_compute].
Defined.

(** Over the life of a key, from a constructor through any promotions and demotions, its
    identifiers stay valid and the primary one present, and promotion to SUPI and demotion to
    composite change neither an identifier nor the primary key string the manager files the UE
    under; a promotable key becomes resolved, a demoted one composite. *)
Theorem key_life_cycle k :
  program_key k →
  key_wf k ∧
  (∃ t v, validate t v = Ok () ∧ get_primary_key k = tag t +:+ v) ∧
  get_primary_key (promote_to_supi k) = get_primary_key k ∧
  get_primary_key (demote_to_composite k) = get_primary_key k ∧
  (∀ t, identifier (promote_to_supi k) t = identifier k t ∧
        identifier (demote_to_composite k) t = identifier k t) ∧
  (can_promote_to_supi k = true → is_resolved (promote_to_supi k) = true) ∧
  type_ (demote_to_composite k) = COMPOSITE.
Proof.
  intros Hk. split; [by apply program_key_wf|].
  split; [destruct (program_key_inv _ Hk) as (t & v & Hv & Ht & [-> | ->]); exists t, v; by destruct t|].
  split; [by apply program_key_promote|]. split; [by apply program_key_demote|].
  split; [intros t; unfold promote_to_supi, demote_to_composite;
          by destruct (can_promote_to_supi k), (bool_decide _), t|].
  split; [intros E; unfold promote_to_supi; by rewrite E|].
  unfold demote_to_composite. case_bool_decide as E; [done|]. apply dec_stable. by intros E'.
Qed.

Lemma key_life_cycle_witness :
  get_primary_key (demote_to_composite (single IPV4_BASED "10.45.0.2")) = "ipv4:10.45.0.2".
Proof.
  destruct (key_life_cycle (single IPV4_BASED "10.45.0.2")) as (_ & _ & _ & E & _).
  - apply (key_made "10.45.0.2" IPV4_BASED). by vm_compute.
  - rewrite E. reflexivity.
Defined.

(** What validation lets through beyond its messages: a SUPI with a one-digit IMSI (the message
    asks for 5 to 15 digits), a prefix length followed by other text ([std::stoi] stops at the first
    character that is not a digit), and an IPv6 address with two "::" groups. *)
Theorem validation_leniency :
  validate_supi_format "imsi-1" = Ok () ∧
  validate_ipv6_prefix_format "2001:db8::/64 or so" = Ok () ∧
  validate_ipv6_format "1::2::3" = Ok ().
Proof. by vm_compute. Qed.
