(* ===== verification/UeState.v ===== *)
(** * [AfUeSubscriptionState]: what the AF knows about one UE

    [af_core/include/models/ue_state.h]: [PduSessionData], [UeAccessMobilityData] and the class
    [AfUeSubscriptionState] with its mutators.  Member functions run in the monad of [Effects] on
    the object; [touch] and the other uses of the clock read it once each. *)

From S2P Require Import Prelude Effects CxxString UeKey.

(** ** Types of the common library

    The structures and enumerations of the common library (a git submodule) that UE states hold
    and compare but never look into. *)
Class CommonModels := {
  Dnn : Type; Snssai : Type; DateTime : Type; RouteToLocation : Type; AccessType : Type;
  RatType : Type; PlmnIdNid : Type; UeLocationInfo : Type; PduidInformation : Type;
  ServiceAreaCoverageInfo : Type;
  Dnn_default : Dnn;
  #[global] Dnn_eq_dec :: EqDecision Dnn;
  #[global] Snssai_eq_dec :: EqDecision Snssai;
  #[global] DateTime_eq_dec :: EqDecision DateTime;
  #[global] RouteToLocation_eq_dec :: EqDecision RouteToLocation;
  #[global] AccessType_eq_dec :: EqDecision AccessType;
  #[global] RatType_eq_dec :: EqDecision RatType;
  #[global] PlmnIdNid_eq_dec :: EqDecision PlmnIdNid;
  #[global] UeLocationInfo_eq_dec :: EqDecision UeLocationInfo;
  #[global] PduidInformation_eq_dec :: EqDecision PduidInformation;
  #[global] ServiceAreaCoverageInfo_eq_dec :: EqDecision ServiceAreaCoverageInfo }.

Section Data.
Context `{CommonModels}.

Record PduSessionData := mkPduSessionData {
  pdu_session_id : string;
  dnn : Dnn;
  snssai : option Snssai;
  pdu_session_type : string;
  pdu_status : string;
  status_timestamp : option DateTime;
  ue_ipv4_address : option Ipv4Addr;
  ue_ipv6_prefixes : list Ipv6Prefix;
  ue_ipv6_addresses : list Ipv6Addr;
  ue_mac_address : option MacAddr48;
  ip_address_timestamp : option DateTime;
  public_port_number : option Z;
  dnai : option string;
  dnai_timestamp : option DateTime;
  n6_traffic_routing_info : list RouteToLocation;
  n6_traffic_routing_info_timestamp : option DateTime;
  active_qod_session_ids : gset string }.

(** [PduSessionData p;] *)
Definition PduSessionData_default : PduSessionData :=
  mkPduSessionData "" Dnn_default None "" "" None None [] [] None None None None None [] None ∅.

#[global] Instance PduSessionData_settable : Settable PduSessionData := λ p,
  mkPduSessionData (pdu_session_id p) (dnn p) (snssai p) (pdu_session_type p) (pdu_status p)
    (status_timestamp p) (ue_ipv4_address p) (ue_ipv6_prefixes p) (ue_ipv6_addresses p)
    (ue_mac_address p) (ip_address_timestamp p) (public_port_number p) (dnai p)
    (dnai_timestamp p) (n6_traffic_routing_info p) (n6_traffic_routing_info_timestamp p)
    (active_qod_session_ids p).

(** [PduSessionData::operator==] *)
Definition pdu_session_eqb (p q : PduSessionData) : bool :=
  String.eqb (pdu_session_id p) (pdu_session_id q) &&
  bool_decide (dnn p = dnn q) &&
  bool_decide (snssai p = snssai q) &&
  String.eqb (pdu_session_type p) (pdu_session_type q) &&
  String.eqb (pdu_status p) (pdu_status q) &&
  bool_decide (status_timestamp p = status_timestamp q) &&
  bool_decide (ue_ipv4_address p = ue_ipv4_address q) &&
  bool_decide (ue_ipv6_prefixes p = ue_ipv6_prefixes q) &&
  bool_decide (ue_ipv6_addresses p = ue_ipv6_addresses q) &&
  bool_decide (ue_mac_address p = ue_mac_address q) &&
  bool_decide (ip_address_timestamp p = ip_address_timestamp q) &&
  bool_decide (public_port_number p = public_port_number q) &&
  bool_decide (dnai p = dnai q) &&
  bool_decide (dnai_timestamp p = dnai_timestamp q) &&
  bool_decide (n6_traffic_routing_info p = n6_traffic_routing_info q) &&
  bool_decide (n6_traffic_routing_info_timestamp p = n6_traffic_routing_info_timestamp q).

Record UeAccessMobilityData := mkUeAccessMobilityData {
  access_type : option AccessType;
  access_types_list : list AccessType;
  rat_type : option RatType;
  rat_types_list : list RatType;
  serving_plmn : option PlmnIdNid;
  current_plmn_timestamp : option DateTime;
  roaming_status : option bool;
  roaming_status_timestamp : option DateTime;
  connectivity_management_state : option string;
  cm_state_timestamp : option DateTime;
  registration_management_state : option string;
  ue_reachability_status : option string;
  reachability_status_timestamp : option DateTime;
  sms_support : option string;
  sms_support_timestamp : option DateTime;
  satellite_backhaul_category : option string }.

#[global] Instance UeAccessMobilityData_eq_dec : EqDecision UeAccessMobilityData.
Proof. solve_decision. Defined.

(** [UeAccessMobilityData::operator==] *)
Definition access_mobility_eqb (a b : UeAccessMobilityData) : bool :=
  bool_decide (access_type a = access_type b) &&
  bool_decide (access_types_list a = access_types_list b) &&
  bool_decide (rat_type a = rat_type b) &&
  bool_decide (rat_types_list a = rat_types_list b) &&
  bool_decide (serving_plmn a = serving_plmn b) &&
  bool_decide (current_plmn_timestamp a = current_plmn_timestamp b) &&
  bool_decide (roaming_status a = roaming_status b) &&
  bool_decide (roaming_status_timestamp a = roaming_status_timestamp b) &&
  bool_decide (connectivity_management_state a = connectivity_management_state b) &&
  bool_decide (cm_state_timestamp a = cm_state_timestamp b) &&
  bool_decide (registration_management_state a = registration_management_state b) &&
  bool_decide (ue_reachability_status a = ue_reachability_status b) &&
  bool_decide (reachability_status_timestamp a = reachability_status_timestamp b) &&
  bool_decide (sms_support a = sms_support b) &&
  bool_decide (sms_support_timestamp a = sms_support_timestamp b) &&
  bool_decide (satellite_backhaul_category a = satellite_backhaul_category b).

Inductive ResolutionState := PROVISIONAL | PARTIAL | RESOLVED.

#[global] Instance ResolutionState_eq_dec : EqDecision ResolutionState.
Proof. solve_decision. Defined.

Record AfUeSubscriptionState := mkAfUeSubscriptionState {
  ue_key_ : UeKey;
  supi_ : option Supi;
  gpsi_ : option Gpsi;
  resolution_state_ : ResolutionState;
  supi_resolved_at_ : option Z;
  known_ipv4_addresses_ : list string;
  known_ipv6_addresses_ : list string;
  known_gpsi_values_ : list string;
  known_ipv6_prefixes_ : list string;
  known_mac_addresses_ : list string;
  location_info_ : option UeLocationInfo;
  location_timestamp_ : option Z;
  access_mobility_data_ : option UeAccessMobilityData;
  pdu_sessions_ : list PduSessionData;
  ue_policy_data_info_ : option string;
  prose_pduid_information_ : option PduidInformation;
  time_sync_service_available_and_capable_ : option bool;
  service_area_coverage_allowed_ : list ServiceAreaCoverageInfo;
  high_throughput_desired_for_ue_traffic_ : option bool;
  created_at_ : Z;
  last_updated_ : Z;
  last_activity_ : option Z }.

#[global] Instance AfUeSubscriptionState_settable : Settable AfUeSubscriptionState := λ s,
  mkAfUeSubscriptionState (ue_key_ s) (supi_ s) (gpsi_ s) (resolution_state_ s)
    (supi_resolved_at_ s) (known_ipv4_addresses_ s) (known_ipv6_addresses_ s)
    (known_gpsi_values_ s) (known_ipv6_prefixes_ s) (known_mac_addresses_ s)
    (location_info_ s) (location_timestamp_ s) (access_mobility_data_ s) (pdu_sessions_ s)
    (ue_policy_data_info_ s) (prose_pduid_information_ s)
    (time_sync_service_available_and_capable_ s) (service_area_coverage_allowed_ s)
    (high_throughput_desired_for_ue_traffic_ s) (created_at_ s) (last_updated_ s)
    (last_activity_ s).

(** [std::vector<PduSessionData>::operator==] *)
Fixpoint pdu_sessions_eqb (l l' : list PduSessionData) : bool :=
  match l, l' with
  | [], [] => true
  | p :: l, q :: l' => pdu_session_eqb p q && pdu_sessions_eqb l l'
  | _, _ => false
  end.

(** [operator==] of [std::optional] values *)
Definition option_eqb {A} (eqb : A → A → bool) (o o' : option A) : bool :=
  match o, o' with
  | None, None => true
  | Some a, Some b => eqb a b
  | _, _ => false
  end.

(** [AfUeSubscriptionState::operator==] *)
Definition ue_state_eqb (s t : AfUeSubscriptionState) : bool :=
  ue_key_eqb (ue_key_ s) (ue_key_ t) &&
  bool_decide (supi_ s = supi_ t) &&
  bool_decide (gpsi_ s = gpsi_ t) &&
  bool_decide (location_info_ s = location_info_ t) &&
  bool_decide (location_timestamp_ s = location_timestamp_ t) &&
  option_eqb access_mobility_eqb (access_mobility_data_ s) (access_mobility_data_ t) &&
  pdu_sessions_eqb (pdu_sessions_ s) (pdu_sessions_ t) &&
  bool_decide (ue_policy_data_info_ s = ue_policy_data_info_ t) &&
  bool_decide (prose_pduid_information_ s = prose_pduid_information_ t) &&
  bool_decide (time_sync_service_available_and_capable_ s =
               time_sync_service_available_and_capable_ t) &&
  bool_decide (service_area_coverage_allowed_ s = service_area_coverage_allowed_ t) &&
  bool_decide (high_throughput_desired_for_ue_traffic_ s =
               high_throughput_desired_for_ue_traffic_ t).
End Data.

(** ** Member functions *)

Section Methods.
Context `{CommonModels} `{Clock}.
Implicit Types s : AfUeSubscriptionState.

(** The state the constructors start from: members that are not initialised explicitly. *)
Definition blank (key : UeKey) (supi_val : option Supi) (r : ResolutionState)
    (resolved_at : option Z) (created updated : Z) : AfUeSubscriptionState :=
  mkAfUeSubscriptionState key supi_val None r resolved_at [] [] [] [] [] None None None [] None None
    None [] None created updated None.

(** [explicit AfUeSubscriptionState(const UeKey& key)] *)
Definition AfUeSubscriptionState_key {S} (key : UeKey) : M S AfUeSubscriptionState :=
  created ← now; updated ← now;
  mret (blank key None PROVISIONAL None created updated).

(** [explicit AfUeSubscriptionState(const Supi& supi_val)] *)
Definition AfUeSubscriptionState_supi {S} (supi_val : Supi) : M S AfUeSubscriptionState :=
  key ← lift (UeKey_supi supi_val);
  resolved ← now; created ← now; updated ← now;
  mret (blank key (Some supi_val) RESOLVED (Some resolved) created updated).

Definition touch : M AfUeSubscriptionState () :=
  t ← now; modify (λ s, s <| last_updated_ := t |>).

Definition set_gpsi (g : Gpsi) : M AfUeSubscriptionState () :=
  modify (λ s, s <| gpsi_ := Some g |>) ;; touch.
Definition set_location_info (info : UeLocationInfo) : M AfUeSubscriptionState () :=
  modify (λ s, s <| location_info_ := Some info |>) ;;
  t ← now;
  modify (λ s, s <| location_timestamp_ := Some t |>) ;;
  touch.
Definition set_access_mobility_data (data : UeAccessMobilityData) : M AfUeSubscriptionState () :=
  modify (λ s, s <| access_mobility_data_ := Some data |>) ;; touch.
Definition set_ue_policy_data_info (info : string) : M AfUeSubscriptionState () :=
  modify (λ s, s <| ue_policy_data_info_ := Some info |>) ;; touch.
Definition set_prose_pduid_information (info : PduidInformation) : M AfUeSubscriptionState () :=
  modify (λ s, s <| prose_pduid_information_ := Some info |>) ;; touch.
Definition set_time_sync_service_available_and_capable (available : bool)
    : M AfUeSubscriptionState () :=
  modify (λ s, s <| time_sync_service_available_and_capable_ := Some available |>) ;; touch.
Definition set_service_area_coverage_allowed (coverage : list ServiceAreaCoverageInfo)
    : M AfUeSubscriptionState () :=
  modify (λ s, s <| service_area_coverage_allowed_ := coverage |>) ;; touch.
Definition set_high_throughput_desired_for_ue_traffic (desired : bool)
    : M AfUeSubscriptionState () :=
  modify (λ s, s <| high_throughput_desired_for_ue_traffic_ := Some desired |>) ;; touch.
Definition record_activity : M AfUeSubscriptionState () :=
  t ← now; modify (λ s, s <| last_activity_ := Some t |>) ;; touch.

Definition resolve_supi (supi_val : Supi) : M AfUeSubscriptionState () :=
  s ← get;
  if has_value (supi_ s) then mret ()
  else
    modify (λ s, s <| supi_ := Some supi_val |> <| resolution_state_ := RESOLVED |>) ;;
    t ← now;
    modify (λ s, s <| supi_resolved_at_ := Some t |>) ;;
    (if can_promote_to_supi (ue_key_ s)
     then modify (λ s, s <| ue_key_ ::= promote_to_supi |>)
     else key ← lift (from_supi supi_val); modify (λ s, s <| ue_key_ := key |>)) ;;
    touch.

(** [std::find(l.begin(), l.end(), value) == l.end()] *)
Definition unknown (value : string) (l : list string) : bool := bool_decide (value ∉ l).

Definition add_known_identifier (type value : string) : M AfUeSubscriptionState bool :=
  s ← get;
  if String.eqb type "ipv4" && unknown value (known_ipv4_addresses_ s) then
    modify (λ s, s <| known_ipv4_addresses_ ::= λ l, l ++ [value] |>) ;; touch ;; mret true
  else if String.eqb type "ipv6" && unknown value (known_ipv6_addresses_ s) then
    modify (λ s, s <| known_ipv6_addresses_ ::= λ l, l ++ [value] |>) ;; touch ;; mret true
  else if String.eqb type "gpsi" && unknown value (known_gpsi_values_ s) then
    modify (λ s, s <| known_gpsi_values_ ::= λ l, l ++ [value] |>) ;; touch ;; mret true
  else if String.eqb type "ipv6_prefix" && unknown value (known_ipv6_prefixes_ s) then
    modify (λ s, s <| known_ipv6_prefixes_ ::= λ l, l ++ [value] |>) ;; touch ;; mret true
  else if String.eqb type "mac" && unknown value (known_mac_addresses_ s) then
    modify (λ s, s <| known_mac_addresses_ ::= λ l, l ++ [value] |>) ;; touch ;; mret true
  else mret false.

(** One branch of [remove_known_identifier]: erase [value] from the list, and demote the key when
    it is of the branch's type and the list is now empty. *)
Definition remove_from (known : AfUeSubscriptionState → list string) `{!Setter known}
    (key_type : KeyType) (value : string) : M AfUeSubscriptionState bool :=
  s ← get;
  if unknown value (known s) then mret false
  else
    modify (λ s, s <| known ::= erase_first (String.eqb value) |>) ;;
    s ← get;
    when (bool_decide (type_ (ue_key_ s) = key_type) && bool_decide (known s = []))
      (modify (λ s, s <| ue_key_ ::= demote_to_composite |>)) ;;
    touch ;;
    mret true.

Definition remove_known_identifier (identifier_type identifier_value : string)
    : M AfUeSubscriptionState bool :=
  if String.eqb identifier_type "ipv4" then
    remove_from known_ipv4_addresses_ IPV4_BASED identifier_value
  else if String.eqb identifier_type "ipv6" then
    remove_from known_ipv6_addresses_ IPV6_BASED identifier_value
  else if String.eqb identifier_type "gpsi" then
    remove_from known_gpsi_values_ GPSI_BASED identifier_value
  else if String.eqb identifier_type "ipv6_prefix" then
    remove_from known_ipv6_prefixes_ IPV6_PREFIX_BASED identifier_value
  else if String.eqb identifier_type "mac" then
    remove_from known_mac_addresses_ MAC_ADDR_BASED identifier_value
  else mret false.

(** The predicate of the searches by PDU session id. *)
Definition has_id (id : string) (p : PduSessionData) : bool := String.eqb (pdu_session_id p) id.

(** [*it = pdu_session] at the first session of the same id, or [push_back]. *)
Definition put_pdu_session (p : PduSessionData) (l : list PduSessionData) : list PduSessionData :=
  match find_first (has_id (pdu_session_id p)) l with
  | Some _ => update_first (has_id (pdu_session_id p)) (λ _, p) l
  | None => l ++ [p]
  end.

Definition add_or_update_pdu_session (pdu_session : PduSessionData) : M AfUeSubscriptionState () :=
  modify (λ s, s <| pdu_sessions_ ::= put_pdu_session pdu_session |>) ;; touch.

Definition remove_pdu_session (id : string) : M AfUeSubscriptionState bool :=
  s ← get;
  match find_first (has_id id) (pdu_sessions_ s) with
  | Some _ =>
    modify (λ s, s <| pdu_sessions_ ::= erase_first (has_id id) |>) ;; touch ;; mret true
  | None => mret false
  end.

(** *** The object invariant *)

(** PDU session ids are unique, known identifiers are not repeated, and a resolved UE (and only
    it) has its SUPI and the time of its resolution. *)
Record ue_state_ok (s : AfUeSubscriptionState) : Prop := {
  ok_pdu_ids : NoDup (pdu_session_id <$> pdu_sessions_ s);
  ok_ipv4 : NoDup (known_ipv4_addresses_ s);
  ok_ipv6 : NoDup (known_ipv6_addresses_ s);
  ok_gpsi : NoDup (known_gpsi_values_ s);
  ok_ipv6_prefix : NoDup (known_ipv6_prefixes_ s);
  ok_mac : NoDup (known_mac_addresses_ s);
  ok_resolved : resolution_state_ s = RESOLVED ↔ is_Some (supi_ s);
  ok_resolved_at : is_Some (supi_resolved_at_ s) ↔ is_Some (supi_ s);
  ok_key : program_key (ue_key_ s) }.
End Methods.

(** ** Lemmas *)

Section Lemmas.
Context `{CommonModels} `{Clock}.
Implicit Types (s : AfUeSubscriptionState) (p : PduSessionData).

(** *** The vector of PDU sessions as a map from ids *)

Lemma has_id_true id p : has_id id p = true ↔ pdu_session_id p = id.
Proof. apply String.eqb_eq. Qed.

Lemma find_pdu_eq id l p : find_first (has_id id) l = Some p → pdu_session_id p = id.
Proof. intros [_ E]%find_first_Some. by apply has_id_true. Qed.

Lemma find_pdu_ids id l : find_first (has_id id) l = None ↔ id ∉ pdu_session_id <$> l.
Proof.
  rewrite find_first_None, list_elem_of_fmap. setoid_rewrite <- not_true_iff_false.
  setoid_rewrite has_id_true. naive_solver.
Qed.

Lemma put_pdu_session_ids p l :
  pdu_session_id <$> put_pdu_session p l =
  match find_first (has_id (pdu_session_id p)) l with
  | Some _ => pdu_session_id <$> l
  | None => (pdu_session_id <$> l) ++ [pdu_session_id p]
  end.
Proof.
  unfold put_pdu_session. destruct (find_first _ l) eqn:E; [|by rewrite fmap_app].
  apply update_first_fmap. intros x Hx. by apply has_id_true in Hx.
Qed.

Lemma put_pdu_session_nodup p l :
  NoDup (pdu_session_id <$> l) → NoDup (pdu_session_id <$> put_pdu_session p l).
Proof.
  intros Hl. rewrite put_pdu_session_ids. destruct (find_first _ l) eqn:E; [done|].
  apply find_pdu_ids in E. apply NoDup_app. split; [done|].
  split; [intros x Hx Hx'|apply NoDup_singleton].
  apply list_elem_of_singleton in Hx'. by subst.
Qed.

Lemma update_first_other p l id :
  id ≠ pdu_session_id p →
  find_first (has_id id) (update_first (has_id (pdu_session_id p)) (λ _, p) l) =
  find_first (has_id id) l.
Proof.
  intros Hne. induction l as [|q l IH]; simpl; [done|].
  assert (Hp : has_id id p = false) by (apply not_true_iff_false; rewrite has_id_true; congruence).
  destruct (has_id (pdu_session_id p) q) eqn:E; simpl.
  - rewrite Hp. apply has_id_true in E.
    assert (has_id id q = false) as ->; [|done].
    apply not_true_iff_false. rewrite has_id_true. congruence.
  - by rewrite IH.
Qed.

Lemma update_first_same p l q :
  find_first (has_id (pdu_session_id p)) l = Some q →
  find_first (has_id (pdu_session_id p))
    (update_first (has_id (pdu_session_id p)) (λ _, p) l) = Some p.
Proof.
  induction l as [|r l IH]; simpl; [done|].
  destruct (has_id (pdu_session_id p) r) eqn:E; simpl; [|by rewrite E].
  by rewrite (proj2 (has_id_true _ _) eq_refl).
Qed.

Lemma find_put_pdu_session p l id :
  find_first (has_id id) (put_pdu_session p l) =
  if decide (id = pdu_session_id p) then Some p else find_first (has_id id) l.
Proof.
  unfold put_pdu_session. case_decide as E; [subst id|].
  - destruct (find_first _ l) eqn:Ef; [by eapply update_first_same|].
    rewrite find_first_app, Ef. simpl. by rewrite (proj2 (has_id_true _ _) eq_refl).
  - destruct (find_first (has_id (pdu_session_id p)) l) eqn:Ef; [by apply update_first_other|].
    rewrite find_first_app. destruct (find_first (has_id id) l); [done|]. simpl.
    assert (has_id id p = false) as ->; [|done].
    apply not_true_iff_false. rewrite has_id_true. congruence.
Qed.

Lemma erase_pdu_nodup id l :
  NoDup (pdu_session_id <$> l) → NoDup (pdu_session_id <$> erase_first (has_id id) l).
Proof. intros Hl. eapply sublist_NoDup; [exact Hl|]. apply fmap_sublist, erase_first_sublist. Qed.

Lemma find_erase_pdu id l id' :
  NoDup (pdu_session_id <$> l) →
  find_first (has_id id') (erase_first (has_id id) l) =
  if decide (id' = id) then None else find_first (has_id id') l.
Proof.
  induction l as [|q l IH]; csimpl; [by case_decide|].
  rewrite NoDup_cons. intros [Hq Hl]. destruct (has_id id q) eqn:E.
  - apply has_id_true in E. case_decide; [subst id'; by apply find_pdu_ids; subst id|].
    assert (has_id id' q = false) as ->; [|done].
    apply not_true_iff_false. rewrite has_id_true. congruence.
  - simpl. rewrite IH by done. case_decide as E'; [subst id'; by rewrite E|done].
Qed.

(** *** Known identifiers *)

Lemma unknown_true v l : unknown v l = true ↔ v ∉ l.
Proof. apply bool_decide_eq_true. Qed.

Lemma NoDup_snoc {A} (l : list A) x : x ∉ l → NoDup l → NoDup (l ++ [x]).
Proof.
  intros Hx Hl. apply NoDup_app. split; [done|]. split; [|apply NoDup_singleton].
  intros y Hy Hy'%list_elem_of_singleton. by subst.
Qed.

Lemma erase_snoc v l : v ∉ l → erase_first (String.eqb v) (l ++ [v]) = l.
Proof.
  induction l as [|x l IH]; simpl; [by rewrite String.eqb_refl|].
  rewrite not_elem_of_cons. intros [Hx Hl]. apply String.eqb_neq in Hx. by rewrite Hx, IH.
Qed.

(** *** The invariant *)

Ltac solve_ok :=
  intros; match goal with Hok : ue_state_ok _ |- _ => destruct Hok end; split; simpl; auto;
  try (by eauto using put_pdu_session_nodup, erase_pdu_nodup, key_demoted, key_promoted,
         NoDup_snoc, sublist_NoDup, erase_first_sublist).

Lemma touch_ok : preserves ue_state_ok touch.
Proof. unfold touch. preserves_steps. solve_ok. Qed.

Lemma add_branch_ok known `{!Setter known} v :
  (∀ s, ue_state_ok s → v ∉ known s →
     ue_state_ok (upd known (λ l, l ++ [v]) s)) →
  ∀ w, ue_state_ok (obj w) → unknown v (known (obj w)) = true →
  wp (modify (upd known (λ l, l ++ [v])) ;; touch ;; mret true)
     (λ (r : result bool) w', defined r → ue_state_ok (obj w')) w.
Proof.
  intros Hk [n s] Hs Hu. simpl in *. apply unknown_true in Hu.
  apply (preserves_bind _ touch (λ _, mret true) touch_ok (λ _, preserves_ret _ _)
           (World n (upd known (λ l, l ++ [v]) s))).
  by apply Hk.
Qed.

Lemma add_known_identifier_ok type v : preserves ue_state_ok (add_known_identifier type v).
Proof.
  apply preserves_get. intros w Hw.
  destruct (String.eqb type "ipv4" && unknown v (known_ipv4_addresses_ (obj w))) eqn:E1.
  { apply andb_true_iff in E1 as [_ E1].
    apply (add_branch_ok known_ipv4_addresses_); [|done..]. solve_ok. }
  destruct (String.eqb type "ipv6" && unknown v (known_ipv6_addresses_ (obj w))) eqn:E2.
  { apply andb_true_iff in E2 as [_ E2].
    apply (add_branch_ok known_ipv6_addresses_); [|done..]. solve_ok. }
  destruct (String.eqb type "gpsi" && unknown v (known_gpsi_values_ (obj w))) eqn:E3.
  { apply andb_true_iff in E3 as [_ E3].
    apply (add_branch_ok known_gpsi_values_); [|done..]. solve_ok. }
  destruct (String.eqb type "ipv6_prefix" && unknown v (known_ipv6_prefixes_ (obj w))) eqn:E4.
  { apply andb_true_iff in E4 as [_ E4].
    apply (add_branch_ok known_ipv6_prefixes_); [|done..]. solve_ok. }
  destruct (String.eqb type "mac" && unknown v (known_mac_addresses_ (obj w))) eqn:E5; [|by intros _].
  apply andb_true_iff in E5 as [_ E5].
  apply (add_branch_ok known_mac_addresses_); [|done..]. solve_ok.
Qed.

Lemma remove_from_ok known `{!Setter known} t v :
  (∀ s, ue_state_ok s → ue_state_ok (upd known (erase_first (String.eqb v)) s)) →
  preserves ue_state_ok (remove_from known t v).
Proof.
  intros Hk. apply preserves_get. intros w Hw. destruct (unknown _ _); [by intros _|].
  revert w Hw. change (preserves ue_state_ok
    (modify (upd known (erase_first (String.eqb v))) ;; s ← get;
     when (bool_decide (type_ (ue_key_ s) = t) && bool_decide (known s = []))
       (modify (λ s, s <| ue_key_ ::= demote_to_composite |>)) ;; touch ;; mret true)).
  preserves_steps; first [by apply Hk|apply touch_ok|solve_ok].
Qed.

Lemma remove_known_identifier_ok type v : preserves ue_state_ok (remove_known_identifier type v).
Proof.
  unfold remove_known_identifier. preserves_steps; apply remove_from_ok; solve_ok.
Qed.

Lemma resolve_supi_ok x : preserves ue_state_ok (resolve_supi x).
Proof.
  apply preserves_get. intros [n s] Hs. simpl in *.
  destruct (has_value (supi_ s)) eqn:E; [by intros _|]. apply has_value_false in E.
  unfold wp. run_steps. destruct (can_promote_to_supi (ue_key_ s)); simpl.
  - intros _. solve_ok; split; eauto.
  - destruct (from_supi x) as [k|e|u] eqn:Ek; simpl; intros []; solve_ok; try (by split; eauto).
    by eapply from_supi_program_key.
Qed.

Lemma remove_pdu_session_ok id : preserves ue_state_ok (remove_pdu_session id).
Proof.
  unfold remove_pdu_session. preserves_steps; try apply touch_ok. solve_ok.
Qed.

Lemma blank_ok key created updated :
  program_key key → ue_state_ok (blank key None PROVISIONAL None created updated).
Proof.
  intros Hk. split; simpl; try done; try apply NoDup_nil_2; (split; [done|by intros []]).
Qed.

Lemma key_constructor_ok {S} (key : UeKey) (w : world S) :
  program_key key → ∃ s, (AfUeSubscriptionState_key key w).1 = Ok s ∧ ue_state_ok s.
Proof. intros Hk. eexists. split; [done|]. by apply blank_ok. Qed.

Lemma supi_constructor_ok {S} x (w : world S) s :
  (AfUeSubscriptionState_supi x w).1 = Ok s → ue_state_ok s.
Proof.
  unfold AfUeSubscriptionState_supi. run_steps.
  destruct (UeKey_supi x) as [k|e|u] eqn:E; simpl; [|done|done].
  intros [= <-]. split; simpl; try apply NoDup_nil_2; try (by split; eauto).
  by eapply from_supi_program_key.
Qed.

Lemma setters_ok :
  (∀ g, preserves ue_state_ok (set_gpsi g)) ∧
  (∀ i, preserves ue_state_ok (set_location_info i)) ∧
  (∀ d, preserves ue_state_ok (set_access_mobility_data d)) ∧
  (∀ i, preserves ue_state_ok (set_ue_policy_data_info i)) ∧
  (∀ i, preserves ue_state_ok (set_prose_pduid_information i)) ∧
  (∀ b, preserves ue_state_ok (set_time_sync_service_available_and_capable b)) ∧
  (∀ c, preserves ue_state_ok (set_service_area_coverage_allowed c)) ∧
  (∀ b, preserves ue_state_ok (set_high_throughput_desired_for_ue_traffic b)) ∧
  preserves ue_state_ok record_activity ∧
  (∀ p, preserves ue_state_ok (add_or_update_pdu_session p)).
Proof.
  split_and!; intros; unfold set_gpsi, set_location_info, set_access_mobility_data,
    set_ue_policy_data_info, set_prose_pduid_information,
    set_time_sync_service_available_and_capable, set_service_area_coverage_allowed,
    set_high_throughput_desired_for_ue_traffic, record_activity, add_or_update_pdu_session;
    preserves_steps; try apply touch_ok; solve_ok.
Qed.

(** ** Properties *)


(** The effect of the searching mutators on the PDU sessions, the clock aside. *)
Lemma add_or_update_pdu_session_run p n s :
  add_or_update_pdu_session p (World n s) =
  (Ok (), World (S n) (s <| pdu_sessions_ ::= put_pdu_session p |> <| last_updated_ := clock n |>)).
Proof. done. Qed.

Lemma remove_pdu_session_run id n s :
  remove_pdu_session id (World n s) =
  match find_first (has_id id) (pdu_sessions_ s) with
  | Some _ =>
    (Ok true, World (S n)
      (s <| pdu_sessions_ ::= erase_first (has_id id) |> <| last_updated_ := clock n |>))
  | None => (Ok false, World n s)
  end.
Proof. unfold remove_pdu_session. run_steps. by destruct (find_first _ _). Qed.

(** The PDU sessions of a UE behave as a map from session ids: after [add_or_update_pdu_session]
    a search by id finds the new session under its id and what it found before under every other
    id; [remove_pdu_session] reports whether the id was there and afterwards nothing is found
    under it, with the other ids untouched. *)
Theorem pdu_sessions_as_map s n id :
  ue_state_ok s →
  (∀ p, ∃ w', add_or_update_pdu_session p (World n s) = (Ok (), w') ∧
     ∀ id', find_first (has_id id') (pdu_sessions_ (obj w')) =
            if decide (id' = pdu_session_id p) then Some p
            else find_first (has_id id') (pdu_sessions_ s)) ∧
  (∃ w', remove_pdu_session id (World n s) =
           (Ok (has_value (find_first (has_id id) (pdu_sessions_ s))), w') ∧
     ∀ id', find_first (has_id id') (pdu_sessions_ (obj w')) =
            if decide (id' = id) then None else find_first (has_id id') (pdu_sessions_ s)).
Proof.
  intros Hs. split.
  - intros p. eexists. split; [apply add_or_update_pdu_session_run|].
    intros id'. apply find_put_pdu_session.
  - rewrite remove_pdu_session_run. destruct (find_first (has_id id) _) eqn:E; eexists; (split; [done|]).
    + intros id'. apply find_erase_pdu, Hs.
    + intros id'. simpl. by case_decide; subst.
Qed.

(** C32: [resolve_supi] resolves once.  A UE that has a SUPI is left as it is; a UE without one
    gets the new SUPI, the resolved state, the time of resolution and, when its key holds no SUPI
    yet, the key of that SUPI.  With a malformed SUPI it throws, and the object is then already
    marked resolved while its key is still the provisional one. *)
Theorem resolve_supi_spec x n s :
  (is_Some (supi_ s) → resolve_supi x (World n s) = (Ok (), World n s)) ∧
  (supi_ s = None → supi_value_ (ue_key_ s) = None →
   ∃ w', (resolve_supi x (World n s)).2 = w' ∧
     supi_ (obj w') = Some x ∧ resolution_state_ (obj w') = RESOLVED ∧
     supi_resolved_at_ (obj w') = Some (clock n) ∧ pdu_sessions_ (obj w') = pdu_sessions_ s ∧
     match validate_supi_format (supi x) with
     | Ok _ => (resolve_supi x (World n s)).1 = Ok () ∧
               get_primary_key (ue_key_ (obj w')) = "supi:" +:+ supi x
     | Throw e => (resolve_supi x (World n s)).1 = Throw e ∧ ue_key_ (obj w') = ue_key_ s
     | Undefined _ => False
     end).
Proof.
  split.
  - intros [y Hy]. unfold resolve_supi. run_steps. by rewrite Hy.
  - intros Hn Hk. eexists. split; [done|].
    unfold resolve_supi. run_steps. rewrite Hn. unfold can_promote_to_supi. rewrite Hk.
    simpl. rewrite andb_false_r. unfold from_supi. cbv [mbind result_bind mret result_ret].
    destruct (validate_supi_format (supi x)) as [[]|e|u] eqn:E; simpl; try done.
    exfalso. revert E. unfold validate_supi_format. repeat case_match; discriminate.
Qed.

(** Removing the last known IPv4 address of a UE keyed by an IPv4 address demotes the key to
    composite, and leaves its primary key string, under which the state manager stores it, as it
    was; adding a new known identifier and removing it again restores the list. *)
Theorem remove_known_ipv4_spec a v n s :
  ue_key_ s = single IPV4_BASED a →
  (known_ipv4_addresses_ s = [v] →
   ∃ w', remove_known_identifier "ipv4" v (World n s) = (Ok true, w') ∧
     type_ (ue_key_ (obj w')) = COMPOSITE ∧ known_ipv4_addresses_ (obj w') = [] ∧
     get_primary_key (ue_key_ (obj w')) = get_primary_key (ue_key_ s)) ∧
  (v ∉ known_ipv4_addresses_ s → known_ipv4_addresses_ s ≠ [] →
   ∃ w' w'', add_known_identifier "ipv4" v (World n s) = (Ok true, w') ∧
     remove_known_identifier "ipv4" v w' = (Ok true, w'') ∧
     known_ipv4_addresses_ (obj w'') = known_ipv4_addresses_ s ∧ ue_key_ (obj w'') = ue_key_ s).
Proof.
  intros Hk. split.
  - intros Hl. unfold remove_known_identifier, remove_from. simpl. run_steps.
    assert (unknown v (known_ipv4_addresses_ s) = false) as ->.
    { rewrite Hl. apply bool_decide_eq_false. intros Hv. apply Hv. left. }
    simpl. rewrite Hl, Hk. simpl. rewrite String.eqb_refl. simpl. by eexists.
  - intros Hv Hl. unfold add_known_identifier. simpl. run_steps.
    assert (unknown v (known_ipv4_addresses_ s) = true) as -> by by apply bool_decide_eq_true.
    simpl. eexists _, _. split; [done|].
    unfold remove_known_identifier, remove_from. simpl. run_steps. simpl.
    assert (unknown v (known_ipv4_addresses_ s ++ [v]) = false) as ->.
    { apply bool_decide_eq_false. intros Hn. apply Hn. set_solver. }
    simpl. rewrite erase_snoc by done.
    rewrite (bool_decide_eq_false_2 _ Hl), andb_false_r. done.
Qed.
End Lemmas.

(** ** Witnesses *)

Section Witnesses.
Definition unit_models : CommonModels := {|
  Dnn := (); Snssai := (); DateTime := (); RouteToLocation := (); AccessType := (); RatType := ();
  PlmnIdNid := (); UeLocationInfo := (); PduidInformation := (); ServiceAreaCoverageInfo := ();
  Dnn_default := () |}.
Definition tick_clock : Clock := λ n, Z.of_nat n * 1000000000.
#[local] Existing Instances unit_models tick_clock.

(** The state of a UE known by its IPv4 address. *)
Definition example_state : AfUeSubscriptionState :=
  blank (single IPV4_BASED "10.45.0.2") None PROVISIONAL None 0 0.

Lemma pdu_sessions_as_map_witness :
  ∃ w', add_or_update_pdu_session (PduSessionData_default <| pdu_session_id := "5" |>)
          (World 0 example_state) = (Ok (), w') ∧
        find_first (has_id "5") (pdu_sessions_ (obj w')) ≠ None.
Proof.
  assert (Hs : ue_state_ok example_state).
  { apply blank_ok, (key_made "10.45.0.2" IPV4_BASED). by vm_compute. }
  destruct (pdu_sessions_as_map example_state 0 "5" Hs) as [Hp _].
  destruct (Hp (PduSessionData_default <| pdu_session_id := "5" |>)) as (w' & E & Hf).
  exists w'. split; [exact E|]. rewrite Hf. by rewrite decide_True.
Defined.

Lemma resolve_supi_spec_witness :
  (resolve_supi (mkSupi "imsi-001010000000001") (World 0 example_state)).1 = Ok ().
Proof.
  destruct (resolve_supi_spec (mkSupi "imsi-001010000000001") 0 example_state) as [_ H].
  destruct (H eq_refl eq_refl) as (w' & _ & _ & _ & _ & _ & Hv).
  assert (E : validate_supi_format (supi (mkSupi "imsi-001010000000001")) = Ok ())
    by (vm_compute; reflexivity).
  rewrite E in Hv. exact (proj1 Hv).
Defined.

Lemma remove_known_ipv4_spec_witness :
  ∃ w', remove_known_identifier "ipv4" "10.45.0.2"
    (World 0 (example_state <| known_ipv4_addresses_ := ["10.45.0.2"] |>)) = (Ok true, w').
Proof.
  assert (Hk : ue_key_ (example_state <| known_ipv4_addresses_ := ["10.45.0.2"] |>) =
               single IPV4_BASED "10.45.0.2") by (vm_compute; reflexivity).
  destruct (remove_known_ipv4_spec "10.45.0.2" "10.45.0.2" 0 _ Hk) as [H _].
  destruct (H eq_refl) as (w' & E & _). exists w'. exact E.
Defined.
End Witnesses.
