(* ===== verification/UeHash.v ===== *)
(** * Hashes of keys and of the data of a UE

    The specializations of [std::hash] at the end of [af_core/include/models/ue_state.h].  The hashes of the
    standard library, [hash_combine], [hash_optional] and the structures of the common library are parameters; an unordered
    container needs of a hash that it respects [operator==]. *)

From S2P Require Import Prelude Effects UeKey UeState.

(** The hashes of the standard library and of the common library's identifiers, with
    [hash_combine(h, v)] and [hash_optional(o)]. *)
Class Hashing `{CommonModels} := {
  hash_combine : Z → Z → Z;
  hash_optional : ∀ {T}, (T → Z) → option T → Z;
  hash_of_string : string → Z;
  hash_of_int : Z → Z;
  hash_of_bool : bool → Z;
  hash_Dnn : Dnn → Z;
  hash_DateTime : DateTime → Z;
  hash_AccessType : AccessType → Z;
  hash_RatType : RatType → Z;
  hash_Tac : string → Z;
  hash_Ipv4Addr : Ipv4Addr → Z;
  hash_Ipv6Addr : Ipv6Addr → Z;
  hash_Ipv6Prefix : Ipv6Prefix → Z;
  hash_MacAddr48 : MacAddr48 → Z }.

(** The members of the common library's structures that the hashes read. *)
Class HashedMembers `{CommonModels} := {
  sst : Snssai → Z; sd : Snssai → option string;
  PlmnId : Type; mcc : PlmnId → string; mnc : PlmnId → string;
  plmn_id : PlmnIdNid → PlmnId; nid : PlmnIdNid → option string;
  UserLocation : Type;
  location_area_5g : UserLocation → option string; tai_list : UserLocation → list string;
  geographical_area : UserLocation → option string;
  user_location : UeLocationInfo → UserLocation; time_zone : UeLocationInfo → option string;
  dnai_identifier : RouteToLocation → string;
  expiry : PduidInformation → DateTime; pduid : PduidInformation → string;
  tac_list : ServiceAreaCoverageInfo → list string;
  serving_network : ServiceAreaCoverageInfo → option PlmnIdNid }.

Section Definitions.
Context `{Hashing} `{!HashedMembers}.

(** [for (const auto& val : vec) hash_combine(h, hash(val));] *)
Definition combine_all {T} (hash : T → Z) (h : Z) (vec : list T) : Z := foldl (λ h val, hash_combine h (hash val)) h vec.
Definition hash_vector {T} (hash : T → Z) (vec : list T) : Z := combine_all hash 0 vec.

(** A chain of [hash_combine(h, v);]. *)
Definition hash_chain (h : Z) (vs : list Z) : Z := foldl hash_combine h vs.

Definition hash_UeKey (key : UeKey) : Z := hash_of_string (get_primary_key key).
Definition hash_Snssai (s : Snssai) : Z := hash_combine (hash_of_int (sst s)) (hash_optional hash_of_string (sd s)).
Definition hash_PlmnId (p : PlmnId) : Z := hash_combine (hash_of_string (mcc p)) (hash_of_string (mnc p)).
Definition hash_PlmnIdNid (pn : PlmnIdNid) : Z :=
  hash_combine (hash_PlmnId (plmn_id pn)) (hash_optional hash_of_string (nid pn)).
Definition hash_UserLocation (ul : UserLocation) : Z :=
  hash_combine (combine_all hash_Tac (hash_optional hash_of_string (location_area_5g ul)) (tai_list ul))
    (hash_optional hash_of_string (geographical_area ul)).
Definition hash_UeLocationInfo (uli : UeLocationInfo) : Z :=
  hash_combine (hash_UserLocation (user_location uli)) (hash_optional hash_of_string (time_zone uli)).
Definition hash_RouteToLocation (rtl : RouteToLocation) : Z := hash_of_string (dnai_identifier rtl).
Definition hash_PduidInformation (pi : PduidInformation) : Z :=
  hash_combine (hash_DateTime (expiry pi)) (hash_of_string (pduid pi)).
Definition hash_ServiceAreaCoverageInfo (saci : ServiceAreaCoverageInfo) : Z :=
  hash_combine (combine_all hash_Tac 0 (tac_list saci)) (hash_optional hash_PlmnIdNid (serving_network saci)).

(** The set of QoD sessions is not hashed, as [operator==] does not compare it. *)
Definition hash_PduSessionData (psd : PduSessionData) : Z :=
  hash_chain (hash_of_string (pdu_session_id psd))
    [hash_Dnn (dnn psd); hash_optional hash_Snssai (snssai psd); hash_of_string (pdu_session_type psd);
     hash_of_string (pdu_status psd); hash_optional hash_DateTime (status_timestamp psd);
     hash_optional hash_Ipv4Addr (ue_ipv4_address psd); hash_vector hash_Ipv6Prefix (ue_ipv6_prefixes psd);
     hash_vector hash_Ipv6Addr (ue_ipv6_addresses psd); hash_optional hash_MacAddr48 (ue_mac_address psd);
     hash_optional hash_DateTime (ip_address_timestamp psd); hash_optional hash_of_int (public_port_number psd);
     hash_optional hash_of_string (dnai psd); hash_optional hash_DateTime (dnai_timestamp psd);
     hash_vector hash_RouteToLocation (n6_traffic_routing_info psd);
     hash_optional hash_DateTime (n6_traffic_routing_info_timestamp psd)].

Definition hash_UeAccessMobilityData (uamd : UeAccessMobilityData) : Z :=
  hash_chain (hash_optional hash_AccessType (access_type uamd))
    [hash_vector hash_AccessType (access_types_list uamd); hash_optional hash_RatType (rat_type uamd);
     hash_vector hash_RatType (rat_types_list uamd); hash_optional hash_PlmnIdNid (serving_plmn uamd);
     hash_optional hash_DateTime (current_plmn_timestamp uamd); hash_optional hash_of_bool (roaming_status uamd);
     hash_optional hash_DateTime (roaming_status_timestamp uamd);
     hash_optional hash_of_string (connectivity_management_state uamd);
     hash_optional hash_DateTime (cm_state_timestamp uamd);
     hash_optional hash_of_string (registration_management_state uamd);
     hash_optional hash_of_string (ue_reachability_status uamd);
     hash_optional hash_DateTime (reachability_status_timestamp uamd);
     hash_optional hash_of_string (sms_support uamd); hash_optional hash_DateTime (sms_support_timestamp uamd);
     hash_optional hash_of_string (satellite_backhaul_category uamd)].

(** ** Hashes respect equality *)

Ltac by_members :=
  rewrite ?andb_true_iff, ?bool_decide_eq_true, ?String.eqb_eq; intros; destruct_and?; congruence.

Lemma hash_PduSessionData_eqb p q :
  pdu_session_eqb p q = true → hash_PduSessionData p = hash_PduSessionData q.
Proof. unfold pdu_session_eqb, hash_PduSessionData. by_members. Qed.

Lemma hash_UeAccessMobilityData_eqb a b :
  access_mobility_eqb a b = true → hash_UeAccessMobilityData a = hash_UeAccessMobilityData b.
Proof. unfold access_mobility_eqb, hash_UeAccessMobilityData. by_members. Qed.

(** What an unordered container needs: objects that [operator==] calls equal have the same hash, whatever the
    hashes of the libraries are; for keys the hash depends on the primary key alone. *)
Theorem hash_respects_equality :
  (∀ k k', ue_key_eqb k k' = true → hash_UeKey k = hash_UeKey k') ∧
  (∀ p q, pdu_session_eqb p q = true → hash_PduSessionData p = hash_PduSessionData q) ∧
  (∀ a b, access_mobility_eqb a b = true → hash_UeAccessMobilityData a = hash_UeAccessMobilityData b).
Proof.
  split_and!; [|apply hash_PduSessionData_eqb|apply hash_UeAccessMobilityData_eqb].
  intros k k' E%String.eqb_eq. unfold hash_UeKey. by rewrite E.
Qed.
End Definitions.
