(* ===== verification/Events.v ===== *)
(** * The event dispatcher

    [af_core/include/events/]: a list of subscribers per event type; [publish] runs the callbacks
    subscribed to the type of the event, in the order of subscription, outside the dispatcher's own
    mutex.  The model numbers the callbacks and records which were run on which event; no code of
    the program subscribes a callback. *)

From S2P Require Import Prelude Effects UeKey.

Record PduSessionTerminatedEvent := mkPduSessionTerminatedEvent {
  event_supi : Supi; event_pdu_session_id : string }.

Record EventDispatcher := mkEventDispatcher {
  subscribers_ : list nat;                          (* callbacks of PduSessionTerminatedEvent *)
  delivered : list (nat * PduSessionTerminatedEvent) (* the calls made so far *) }.

#[global] Instance EventDispatcher_settable : Settable EventDispatcher := λ d,
  mkEventDispatcher (subscribers_ d) (delivered d).

Definition subscribe (callback : nat) (d : EventDispatcher) : EventDispatcher :=
  d <| subscribers_ ::= λ l, l ++ [callback] |>.

Definition publish (event : PduSessionTerminatedEvent) (d : EventDispatcher) : EventDispatcher :=
  d <| delivered ::= λ l, l ++ ((λ callback, (callback, event)) <$> subscribers_ d) |>.
