(* ===== verification/UeStateManager.v ===== *)
(** * [UeStateManager]: the states of all UEs and the indices on them

    [af_core/include/ue_state_manager.h] and [af_core/src/ue_state_manager.cpp].  The states are
    stored by the primary key string of their key; five secondary indices map attributes to these
    strings.  Every public method takes the reader-writer mutex [rw_mtx_]; a method that calls
    another public method while it holds the mutex reaches undefined behaviour here as it does in
    the code. *)

From S2P Require Import Prelude Effects CxxString UeKey UeState Events.

Section Definitions.
Context `{CommonModels} `{Clock} `{IterationOrder}.

Record UeStateManager := mkUeStateManager {
  ue_states_by_key_ : gmap string AfUeSubscriptionState;
  key_by_supi_ : gmap string string;
  key_by_gpsi_ : gmap string string;
  key_by_ipv4_addr_ : gmap string string;
  key_by_ipv6_addr_ : gmap string string;
  key_by_ipv6_prefix_ : gmap string string;
  event_dispatcher_ : option EventDispatcher;   (* a pointer: [None] is null *)
  rw_mtx_ : lock_state }.

#[global] Instance UeStateManager_settable : Settable UeStateManager := λ m,
  mkUeStateManager (ue_states_by_key_ m) (key_by_supi_ m) (key_by_gpsi_ m)
    (key_by_ipv4_addr_ m) (key_by_ipv6_addr_ m) (key_by_ipv6_prefix_ m) (event_dispatcher_ m)
    (rw_mtx_ m).

(** The constructor from a dispatcher; the default constructor passes a null pointer. *)
Definition UeStateManager_new (dispatcher : option EventDispatcher) : UeStateManager :=
  mkUeStateManager ∅ ∅ ∅ ∅ ∅ ∅ dispatcher Unlocked.

Implicit Types (m : UeStateManager) (st : AfUeSubscriptionState) (p : PduSessionData).

(** ** Index maintenance (private helpers, called with the mutex held) *)

Definition add_pdu_session_indices (key_string : string) p m : UeStateManager :=
  let m := match ue_ipv4_address p with
           | Some a => m <| key_by_ipv4_addr_ ::= <[ipv4 a := key_string]> |>
           | None => m
           end in
  let m := foldl (λ m x, m <| key_by_ipv6_prefix_ ::= <[ipv6_prefix x := key_string]> |>) m
             (ue_ipv6_prefixes p) in
  foldl (λ m x, m <| key_by_ipv6_addr_ ::= <[ipv6 x := key_string]> |>) m (ue_ipv6_addresses p).

Definition add_ue_indices st m : UeStateManager :=
  let key_string := get_primary_key (ue_key_ st) in
  let m := match supi_ st with
           | Some x => m <| key_by_supi_ ::= <[supi x := key_string]> |>
           | None => m
           end in
  let m := match gpsi_ st with
           | Some g => m <| key_by_gpsi_ ::= <[gpsi g := key_string]> |>
           | None => m
           end in
  foldl (λ m p, add_pdu_session_indices key_string p m) m (pdu_sessions_ st).

(** The body of the loop of [remove_ue_indices]: entries are erased whatever they point to. *)
Definition erase_pdu_indices p m : UeStateManager :=
  let m := match ue_ipv4_address p with
           | Some a => m <| key_by_ipv4_addr_ ::= delete (ipv4 a) |>
           | None => m
           end in
  let m := foldl (λ m x, m <| key_by_ipv6_prefix_ ::= delete (ipv6_prefix x) |>) m
             (ue_ipv6_prefixes p) in
  foldl (λ m x, m <| key_by_ipv6_addr_ ::= delete (ipv6 x) |>) m (ue_ipv6_addresses p).

Definition remove_ue_indices st m : UeStateManager :=
  let m := match supi_ st with
           | Some x => m <| key_by_supi_ ::= delete (supi x) |>
           | None => m
           end in
  let m := match gpsi_ st with
           | Some g => m <| key_by_gpsi_ ::= delete (gpsi g) |>
           | None => m
           end in
  foldl (λ m p, erase_pdu_indices p m) m (pdu_sessions_ st).

(** [erase] of an entry, only if it points to [key_string]. *)
Definition erase_if_points_to (key_string x : string) (index : gmap string string)
    : gmap string string :=
  match index !! x with
  | Some k => if String.eqb k key_string then delete x index else index
  | None => index
  end.

Definition remove_pdu_session_indices (key_string : string) p m : UeStateManager :=
  let m := match ue_ipv4_address p with
           | Some a => m <| key_by_ipv4_addr_ ::= erase_if_points_to key_string (ipv4 a) |>
           | None => m
           end in
  let m := foldl
             (λ m x, m <| key_by_ipv6_prefix_ ::= erase_if_points_to key_string (ipv6_prefix x) |>)
             m (ue_ipv6_prefixes p) in
  foldl (λ m x, m <| key_by_ipv6_addr_ ::= erase_if_points_to key_string (ipv6 x) |>)
    m (ue_ipv6_addresses p).

(** [it->second = new_key] where the entry points to [old_key]. *)
Definition repoint (old_key new_key x : string) (index : gmap string string)
    : gmap string string :=
  match index !! x with
  | Some k => if String.eqb k old_key then <[x := new_key]> index else index
  | None => index
  end.

Definition update_indices_for_key_change (old_key new_key : string) st m : UeStateManager :=
  let m := match supi_ st with
           | Some x => m <| key_by_supi_ ::= repoint old_key new_key (supi x) |>
           | None => m
           end in
  let m := match gpsi_ st with
           | Some g => m <| key_by_gpsi_ ::= repoint old_key new_key (gpsi g) |>
           | None => m
           end in
  foldl (λ m p,
    let m := match ue_ipv4_address p with
             | Some a => m <| key_by_ipv4_addr_ ::= repoint old_key new_key (ipv4 a) |>
             | None => m
             end in
    let m := foldl (λ m x, m <| key_by_ipv6_addr_ ::= repoint old_key new_key (ipv6 x) |>) m
               (ue_ipv6_addresses p) in
    foldl (λ m x, m <| key_by_ipv6_prefix_ ::= repoint old_key new_key (ipv6_prefix x) |>) m
      (ue_ipv6_prefixes p)) m (pdu_sessions_ st).

(** [get_ue_state_internal], no lock *)
Definition get_ue_state_internal (key_string : string) m : option AfUeSubscriptionState :=
  ue_states_by_key_ m !! key_string.

Definition store (key_string : string) st : M UeStateManager () :=
  modify (λ m, m <| ue_states_by_key_ ::= <[key_string := st]> |>).

Definition update_ue_state_internal st : M UeStateManager () :=
  let key_string := get_primary_key (ue_key_ st) in
  m ← get;
  match ue_states_by_key_ m !! key_string with
  | Some old => modify (remove_ue_indices old) ;; store key_string st ;; modify (add_ue_indices st)
  | None => store key_string st ;; modify (add_ue_indices st)
  end.

(** ** Core state management *)

Definition update_ue_state st : M UeStateManager () :=
  with_lock rw_mtx_ Exclusive (update_ue_state_internal st).

(** The merge of [initial_data] into an existing state. *)
Definition merge_initial_data (data : AfUeSubscriptionState) : M AfUeSubscriptionState () :=
  match gpsi_ data with Some g => set_gpsi g | None => mret () end ;;
  match location_info_ data with Some i => set_location_info i | None => mret () end ;;
  match access_mobility_data_ data with
  | Some d => set_access_mobility_data d | None => mret () end ;;
  match ue_policy_data_info_ data with
  | Some i => set_ue_policy_data_info i | None => mret () end ;;
  for_each (pdu_sessions_ data) UeState.add_or_update_pdu_session.

(** Returns a reference to the entry; the model returns the state it refers to. *)
Definition create_or_update_provisional_ue_state (key : UeKey)
    (initial_data : option AfUeSubscriptionState) : M UeStateManager AfUeSubscriptionState :=
  with_lock rw_mtx_ Exclusive
    (let key_string := get_primary_key key in
     m ← get;
     match ue_states_by_key_ m !! key_string with
     | Some _ =>
       match initial_data with
       | Some data => at_key ue_states_by_key_ key_string (merge_initial_data data)
       | None => mret ()
       end ;;
       at_key ue_states_by_key_ key_string get
     | None =>
       new_state ← match initial_data with
                   | Some data => mret data
                   | None => AfUeSubscriptionState_key key
                   end;
       store key_string new_state ;;
       modify (add_ue_indices new_state) ;;
       mret new_state
     end).

(** [push_back] of the sessions of [l'] whose ids are not in [l]; whether there was one. *)
Definition merge_pdu_sessions (l l' : list PduSessionData) : list PduSessionData * bool :=
  foldl (λ '(l, modified) p,
    match find_first (has_id (pdu_session_id p)) l with
    | Some _ => (l, modified)
    | None => (l ++ [p], true)
    end) (l, false) l'.

Definition merge_ue_states (primary_key secondary_key : UeKey) : M UeStateManager bool :=
  with_lock rw_mtx_ Exclusive
    (let primary_key_string := get_primary_key primary_key in
     let secondary_key_string := get_primary_key secondary_key in
     let primary {A} : M AfUeSubscriptionState A → M UeStateManager A :=
       at_key ue_states_by_key_ primary_key_string in
     m ← get;
     match ue_states_by_key_ m !! primary_key_string,
           ue_states_by_key_ m !! secondary_key_string with
     | Some primary_state, Some secondary_state =>
       modify (remove_ue_indices primary_state) ;;
       modify (remove_ue_indices secondary_state) ;;
       for_each (known_ipv4_addresses_ secondary_state)
         (λ v, primary (add_known_identifier "ipv4" v) ;; mret ()) ;;
       for_each (known_ipv6_addresses_ secondary_state)
         (λ v, primary (add_known_identifier "ipv6" v) ;; mret ()) ;;
       for_each (known_gpsi_values_ secondary_state)
         (λ v, primary (add_known_identifier "gpsi" v) ;; mret ()) ;;
       let '(merged, pdu_sessions_modified) :=
         merge_pdu_sessions (pdu_sessions_ primary_state) (pdu_sessions_ secondary_state) in
       primary (modify (λ s, s <| pdu_sessions_ := merged |>)) ;;
       when pdu_sessions_modified (primary record_activity) ;;
       modify (λ m, m <| ue_states_by_key_ ::= delete secondary_key_string |>) ;;
       (* [primary_state] is a reference into the map: it dangles if it was just erased *)
       m ← get;
       match ue_states_by_key_ m !! primary_key_string with
       | Some merged_state => modify (add_ue_indices merged_state) ;; mret true
       | None => undefined dangling_reference
       end
     | _, _ => mret false
     end).

Definition promote_ue_state_to_resolved (current_key : UeKey) (x : Supi)
    : M UeStateManager bool :=
  with_lock rw_mtx_ Exclusive
    (let current_key_string := get_primary_key current_key in
     m ← get;
     match ue_states_by_key_ m !! current_key_string with
     | None => mret false
     | Some st =>
       supi_key ← lift (UeKey_supi x);
       let supi_key_string := get_primary_key supi_key in
       if String.eqb current_key_string supi_key_string then
         at_key ue_states_by_key_ current_key_string (resolve_supi x) ;; mret true
       else
         match ue_states_by_key_ m !! supi_key_string with
         | Some _ => merge_ue_states supi_key current_key
         | None =>
           modify (remove_ue_indices st) ;;
           '(_, promoted_state) ← local st (resolve_supi x);
           modify (λ m, m <| ue_states_by_key_ ::= delete current_key_string |>) ;;
           store supi_key_string promoted_state ;;
           modify (add_ue_indices promoted_state) ;;
           mret true
         end
     end).

Definition remove_ue_state (key : UeKey) : M UeStateManager bool :=
  with_lock rw_mtx_ Exclusive
    (let key_string := get_primary_key key in
     m ← get;
     match ue_states_by_key_ m !! key_string with
     | Some st =>
       modify (remove_ue_indices st) ;;
       modify (λ m, m <| ue_states_by_key_ ::= delete key_string |>) ;;
       mret true
     | None => mret false
     end).

(** The overloads that take a SUPI build its key first. *)
Definition with_supi_key {A} (f : UeKey → M UeStateManager A) (x : Supi) : M UeStateManager A :=
  key ← lift (UeKey_supi x); f key.

Definition remove_ue_state_supi (x : Supi) : M UeStateManager bool := with_supi_key remove_ue_state x.

(** ** Searches *)

Definition get_all_ue_states : M UeStateManager (list AfUeSubscriptionState) :=
  with_lock rw_mtx_ Shared (gets (λ m, (visit (ue_states_by_key_ m)).*2)).

Definition get_ue_state_by_key (key : UeKey) : M UeStateManager (option AfUeSubscriptionState) :=
  with_lock rw_mtx_ Shared
    (let key_string := get_primary_key key in gets (λ m, ue_states_by_key_ m !! key_string)).

Definition get_ue_state_by_supi (x : Supi) : M UeStateManager (option AfUeSubscriptionState) :=
  with_lock rw_mtx_ Shared
    (gets (λ m, key ← key_by_supi_ m !! supi x; ue_states_by_key_ m !! key)).

(** The next four hold the mutex while they call [get_ue_state_by_key], which takes it too. *)
Definition get_ue_state_by_gpsi (g : Gpsi) : M UeStateManager (option AfUeSubscriptionState) :=
  with_lock rw_mtx_ Shared
    (m ← get;
     match key_by_gpsi_ m !! gpsi g with
     | Some _ => key ← lift (UeKey_gpsi g); get_ue_state_by_key key
     | None => mret None
     end).
Definition get_ue_state_by_ipv4 (a : Ipv4Addr) : M UeStateManager (option AfUeSubscriptionState) :=
  with_lock rw_mtx_ Exclusive
    (m ← get;
     match key_by_ipv4_addr_ m !! ipv4 a with
     | Some _ => key ← lift (UeKey_ipv4 a); get_ue_state_by_key key
     | None => mret None
     end).
Definition get_ue_state_by_ipv6_addr (a : Ipv6Addr)
    : M UeStateManager (option AfUeSubscriptionState) :=
  with_lock rw_mtx_ Exclusive
    (m ← get;
     match key_by_ipv6_addr_ m !! ipv6 a with
     | Some _ => key ← lift (UeKey_ipv6 a); get_ue_state_by_key key
     | None => mret None
     end).
Definition get_ue_state_by_ipv6_prefix (x : Ipv6Prefix)
    : M UeStateManager (option AfUeSubscriptionState) :=
  with_lock rw_mtx_ Exclusive
    (m ← get;
     match key_by_ipv6_prefix_ m !! ipv6_prefix x with
     | Some _ => key ← lift (UeKey_ipv6_prefix x); get_ue_state_by_key key
     | None => mret None
     end).

(** The first state, in the order of the map, with a PDU session satisfying [q]. *)
Definition first_with_pdu_session (q : PduSessionData → bool) m : option AfUeSubscriptionState :=
  snd <$> find_first (λ '(_, st), existsb q (pdu_sessions_ st)) (visit (ue_states_by_key_ m)).

Definition get_ue_state_by_mac_addr (a : MacAddr48)
    : M UeStateManager (option AfUeSubscriptionState) :=
  with_lock rw_mtx_ Exclusive
    (gets (first_with_pdu_session (λ p,
       match ue_mac_address p with Some b => String.eqb (mac b) (mac a) | None => false end))).
Definition get_ue_state_by_pdu_session_id (id : string)
    : M UeStateManager (option AfUeSubscriptionState) :=
  with_lock rw_mtx_ Exclusive (gets (first_with_pdu_session (has_id id))).

(** ** Updates of one UE *)

(** Run [f] on the entry of [key] if there is one; report whether there was. *)
Definition update_entry (key : UeKey) (f : M AfUeSubscriptionState ()) : M UeStateManager bool :=
  with_lock rw_mtx_ Exclusive
    (let key_string := get_primary_key key in
     m ← get;
     match ue_states_by_key_ m !! key_string with
     | Some _ => at_key ue_states_by_key_ key_string f ;; mret true
     | None => mret false
     end).

Definition update_ue_gpsi (key : UeKey) (new_gpsi : Gpsi) : M UeStateManager bool :=
  with_lock rw_mtx_ Exclusive
    (let key_string := get_primary_key key in
     m ← get;
     match ue_states_by_key_ m !! key_string with
     | Some st =>
       match gpsi_ st with
       | Some old => modify (λ m, m <| key_by_gpsi_ ::= delete (gpsi old) |>)
       | None => mret ()
       end ;;
       at_key ue_states_by_key_ key_string (set_gpsi new_gpsi) ;;
       modify (λ m, m <| key_by_gpsi_ ::= <[gpsi new_gpsi := key_string]> |>) ;;
       mret true
     | None => mret false
     end).

(** The [timestamp] argument is not used. *)
Definition update_ue_location_info (key : UeKey) (info : UeLocationInfo) (timestamp : Z)
    : M UeStateManager bool :=
  update_entry key (set_location_info info).
Definition update_ue_access_mobility_data (key : UeKey) (data : UeAccessMobilityData)
    : M UeStateManager bool :=
  update_entry key (set_access_mobility_data data).
Definition update_ue_policy_data_info (key : UeKey) (data : string) : M UeStateManager bool :=
  update_entry key (set_ue_policy_data_info data).
Definition update_prose_pduid_information (key : UeKey) (info : PduidInformation)
    : M UeStateManager bool :=
  update_entry key (set_prose_pduid_information info).
Definition update_time_sync_service_availability (key : UeKey) (available : bool)
    : M UeStateManager bool :=
  update_entry key (set_time_sync_service_available_and_capable available).
Definition update_service_area_coverage_allowed (key : UeKey)
    (coverage : list ServiceAreaCoverageInfo) : M UeStateManager bool :=
  update_entry key (set_service_area_coverage_allowed coverage).
Definition update_high_throughput_desired (key : UeKey) (desired : bool) : M UeStateManager bool :=
  update_entry key (set_high_throughput_desired_for_ue_traffic desired).

(** ** PDU sessions of one UE *)

Definition add_or_update_pdu_session (key : UeKey) (data : PduSessionData)
    : M UeStateManager bool :=
  with_lock rw_mtx_ Exclusive
    (let key_string := get_primary_key key in
     let entry {A} : M AfUeSubscriptionState A → M UeStateManager A :=
       at_key ue_states_by_key_ key_string in
     m ← get;
     match ue_states_by_key_ m !! key_string with
     | Some st =>
       match find_first (has_id (pdu_session_id data)) (pdu_sessions_ st) with
       | Some old =>
         modify (remove_pdu_session_indices key_string old) ;;
         entry (modify (λ s,
           s <| pdu_sessions_ ::= update_first (has_id (pdu_session_id data)) (λ _, data) |>)) ;;
         modify (add_pdu_session_indices key_string data) ;;
         entry record_activity ;;
         mret true
       | None =>
         entry (modify (λ s, s <| pdu_sessions_ ::= λ l, l ++ [data] |>)) ;;
         modify (add_pdu_session_indices key_string data) ;;
         entry record_activity ;;
         mret true
       end
     | None => mret false
     end).

(** [event_dispatcher_->publish(event)] *)
Definition publish_event (event : PduSessionTerminatedEvent) : M UeStateManager () :=
  m ← get;
  match event_dispatcher_ m with
  | Some _ => modify (λ m, m <| event_dispatcher_ ::= fmap (publish event) |>)
  | None => undefined null_dereference
  end.

Definition remove_pdu_session (key : UeKey) (id : string) : M UeStateManager bool :=
  with_lock rw_mtx_ Exclusive
    (let key_string := get_primary_key key in
     m ← get;
     match ue_states_by_key_ m !! key_string with
     | Some st =>
       match find_first (has_id id) (pdu_sessions_ st) with
       | Some old =>
         modify (remove_pdu_session_indices key_string old) ;;
         at_key ue_states_by_key_ key_string
           (modify (λ s, s <| pdu_sessions_ ::= erase_first (has_id id) |>) ;; record_activity) ;;
         match supi_ st with
         | Some x => publish_event (mkPduSessionTerminatedEvent x id)
         | None => mret ()
         end ;;
         mret true
       | None => mret false
       end
     | None => mret false
     end).

(** ** QoD sessions of PDU sessions *)

(** Change the QoD session ids of the first PDU session with the given id. *)
Definition update_qod_ids (key : UeKey) (id : string) (f : gset string → gset string)
    : M UeStateManager bool :=
  with_lock rw_mtx_ Exclusive
    (let key_string := get_primary_key key in
     m ← get;
     match ue_states_by_key_ m !! key_string with
     | Some st =>
       match find_first (has_id id) (pdu_sessions_ st) with
       | Some _ =>
         at_key ue_states_by_key_ key_string
           (modify (λ s, s <| pdu_sessions_ ::=
              update_first (has_id id) (λ p, p <| active_qod_session_ids ::= f |>) |>) ;;
            record_activity) ;;
         mret true
       | None => mret false
       end
     | None => mret false
     end).

Definition add_qod_session_to_pdu_session (key : UeKey) (id qod_session_id : string)
    : M UeStateManager bool :=
  update_qod_ids key id (λ ids, {[qod_session_id]} ∪ ids).
Definition remove_qod_session_from_pdu_session (key : UeKey) (id qod_session_id : string)
    : M UeStateManager bool :=
  update_qod_ids key id (λ ids, ids ∖ {[qod_session_id]}).

(** The free function [remove_known_identifier] of the file. *)
Definition remove_known_identifier_of (identifier_type identifier_value : string)
    : M AfUeSubscriptionState bool :=
  s ← get;
  if String.eqb identifier_type "ipv4" then
    if unknown identifier_value (known_ipv4_addresses_ s) then mret false
    else remove_known_identifier "ipv4" identifier_value ;; mret true
  else if String.eqb identifier_type "ipv6" then
    if unknown identifier_value (known_ipv6_addresses_ s) then mret false
    else remove_known_identifier "ipv6" identifier_value ;; mret true
  else if String.eqb identifier_type "gpsi" then
    if unknown identifier_value (known_gpsi_values_ s) then mret false
    else remove_known_identifier "gpsi" identifier_value ;; mret true
  else mret false.

Definition remove_non_primary_ue_identifier (key : UeKey) (identifier_type identifier_value : string)
    : M UeStateManager bool :=
  with_lock rw_mtx_ Exclusive
    (let key_string := get_primary_key key in
     m ← get;
     match ue_states_by_key_ m !! key_string with
     | Some _ =>
       removed ← at_key ue_states_by_key_ key_string
                   (remove_known_identifier identifier_type identifier_value);
       if removed : bool then
         m ← get;
         match ue_states_by_key_ m !! key_string with
         | Some st => modify (remove_ue_indices st) ;; modify (add_ue_indices st) ;; mret true
         | None => undefined null_dereference
         end
       else mret false
     | None => mret false
     end).

Definition get_qod_sessions_for_pdu_session (key : UeKey) (id : string)
    : M UeStateManager (option (gset string)) :=
  with_lock rw_mtx_ Shared
    (let key_string := get_primary_key key in
     gets (λ m, st ← ue_states_by_key_ m !! key_string;
                active_qod_session_ids <$> find_first (has_id id) (pdu_sessions_ st))).

Definition get_pdu_sessions_for_qod_session (qod_session_id : string)
    : M UeStateManager (list string) :=
  with_lock rw_mtx_ Shared
    (gets (λ m,
       '(_, st) ← visit (ue_states_by_key_ m);
       pdu_session_id <$> filter (λ p, qod_session_id ∈ active_qod_session_ids p) (pdu_sessions_ st))).

(** The criterion of [find_ue_states]. *)
Definition has_sessions st : bool :=
  existsb (λ p, bool_decide (active_qod_session_ids p ≠ ∅)) (pdu_sessions_ st).
Definition matches_criteria (resolution_state : option ResolutionState)
    (has_active_sessions : option bool) st : bool :=
  match resolution_state with
  | Some r => bool_decide (resolution_state_ st = r)
  | None => true
  end &&
  match has_active_sessions with
  | Some b => Bool.eqb b (has_sessions st)
  | None => true
  end.

Definition find_ue_states (resolution_state : option ResolutionState)
    (has_active_sessions : option bool) : M UeStateManager (list AfUeSubscriptionState) :=
  with_lock rw_mtx_ Shared
    (gets (λ m, filter (λ st, matches_criteria resolution_state has_active_sessions st = true)
                  (visit (ue_states_by_key_ m)).*2)).

(** The PDU session created for a UE that has none. *)
Definition provisional_pdu_session (key_string : string) : PduSessionData :=
  PduSessionData_default <| pdu_session_id := "provisional-" +:+ key_string |>
                         <| pdu_status := "PROVISIONAL" |>.

Definition add_qod_session_to_ue (key : UeKey) (id : option string) (qod_session_id : string)
    : M UeStateManager bool :=
  match id with
  | Some id =>
    (* the lock is taken and released before the other method takes it *)
    with_lock rw_mtx_ Exclusive (mret ()) ;;
    add_qod_session_to_pdu_session key id qod_session_id
  | None =>
    with_lock rw_mtx_ Exclusive
      (let key_string := get_primary_key key in
       m ← get;
       match ue_states_by_key_ m !! key_string with
       | Some _ => mret ()
       | None =>
         new_state ← AfUeSubscriptionState_key key;
         store key_string new_state ;;
         modify (add_ue_indices new_state)
       end ;;
       at_key ue_states_by_key_ key_string
         (modify (λ s, s <| pdu_sessions_ ::= λ l,
            match l with [] => [provisional_pdu_session key_string] | _ => l end |>) ;;
          modify (λ s, s <| pdu_sessions_ ::= λ l,
            match l with
            | p :: l => p <| active_qod_session_ids ::= λ ids, {[qod_session_id]} ∪ ids |> :: l
            | [] => []
            end |>) ;;
          record_activity) ;;
       mret true)
  end.

Definition remove_qod_session_from_ue (key : UeKey) (qod_session_id : string)
    : M UeStateManager bool :=
  with_lock rw_mtx_ Exclusive
    (let key_string := get_primary_key key in
     m ← get;
     match ue_states_by_key_ m !! key_string with
     | None => mret false
     | Some st =>
       let removed :=
         existsb (λ p, bool_decide (qod_session_id ∈ active_qod_session_ids p)) (pdu_sessions_ st) in
       at_key ue_states_by_key_ key_string
         (modify (λ s, s <| pdu_sessions_ ::=
            fmap (λ p, p <| active_qod_session_ids ::= λ ids, ids ∖ {[qod_session_id]} |>) |>)) ;;
       when removed (at_key ue_states_by_key_ key_string record_activity) ;;
       mret removed
     end).

(** ** Housekeeping *)

Definition nanoseconds_per_second : Z := 1000000000.

(** [now - created_at] in whole seconds is more than [max_age], for a provisional state. *)
Definition expired_provisional (max_age now : Z) st : bool :=
  bool_decide (resolution_state_ st = PROVISIONAL) &&
  (max_age <? Z.quot (now - created_at_ st) nanoseconds_per_second).

Definition cleanup_expired_provisional_states (max_age : Z) : M UeStateManager () :=
  with_lock rw_mtx_ Exclusive
    (t ← now;
     m ← get;
     let to_remove :=
       (filter (λ '(_, st), expired_provisional max_age t st = true)
          (visit (ue_states_by_key_ m))).*1 in
     for_each to_remove (λ key,
       m ← get;
       match ue_states_by_key_ m !! key with
       | Some st =>
         modify (remove_ue_indices st) ;;
         modify (λ m, m <| ue_states_by_key_ ::= delete key |>)
       | None => mret ()
       end)).

(** [stats[name] += n] *)
Definition bump (name : string) (n : nat) (stats : gmap string nat) : gmap string nat :=
  <[name := (value_or 0 (stats !! name) + n)%nat]> stats.

Definition get_state_statistics : M UeStateManager (gmap string nat) :=
  with_lock rw_mtx_ Shared
    (gets (λ m,
       let stats := <["total_states" := size (ue_states_by_key_ m)]>
                   (<["resolved_count" := 0%nat]> (<["provisional_count" := 0%nat]>
                   (<["partial_count" := 0%nat]> (<["active_qod_sessions" := 0%nat]> ∅)))) in
       foldl (λ stats '(_, st),
         let stats := match resolution_state_ st with
                      | RESOLVED => bump "resolved_count" 1 stats
                      | PROVISIONAL => bump "provisional_count" 1 stats
                      | PARTIAL => bump "partial_count" 1 stats
                      end in
         foldl (λ stats p, bump "active_qod_sessions" (size (active_qod_session_ids p)) stats)
           stats (pdu_sessions_ st)) stats (visit (ue_states_by_key_ m)))).
End Definitions.

(** ** The indices, uniformly *)

Inductive attribute := BySupi | ByGpsi | ByIpv4 | ByIpv6 | ByIpv6Prefix.

Section Indices.
Context `{CommonModels}.
Implicit Types (m : UeStateManager) (st : AfUeSubscriptionState) (p : PduSessionData).

Definition index (a : attribute) m : gmap string string :=
  match a with
  | BySupi => key_by_supi_ m
  | ByGpsi => key_by_gpsi_ m
  | ByIpv4 => key_by_ipv4_addr_ m
  | ByIpv6 => key_by_ipv6_addr_ m
  | ByIpv6Prefix => key_by_ipv6_prefix_ m
  end.

(** The values of an attribute that a PDU session, or a whole UE state, has. *)
Definition pdu_values (a : attribute) p : list string :=
  match a with
  | BySupi | ByGpsi => []
  | ByIpv4 => option_list (ipv4 <$> ue_ipv4_address p)
  | ByIpv6 => ipv6 <$> ue_ipv6_addresses p
  | ByIpv6Prefix => ipv6_prefix <$> ue_ipv6_prefixes p
  end.
Definition values (a : attribute) st : list string :=
  match a with
  | BySupi => option_list (supi <$> supi_ st)
  | ByGpsi => option_list (gpsi <$> gpsi_ st)
  | _ => p ← pdu_sessions_ st; pdu_values a p
  end.

(** One update [f] of an index per value of an attribute: the shape all index maintenance has. *)
Definition update_values (f : string → gmap string string → gmap string string)
    (vs : list string) (i : gmap string string) : gmap string string :=
  foldl (λ i v, f v i) i vs.

Definition update_pdu_indices (f : string → gmap string string → gmap string string) p m
    : UeStateManager :=
  let m := match ue_ipv4_address p with
           | Some a => m <| key_by_ipv4_addr_ ::= f (ipv4 a) |>
           | None => m
           end in
  let m := foldl (λ m x, m <| key_by_ipv6_prefix_ ::= f (ipv6_prefix x) |>) m
             (ue_ipv6_prefixes p) in
  foldl (λ m x, m <| key_by_ipv6_addr_ ::= f (ipv6 x) |>) m (ue_ipv6_addresses p).

Definition update_ue_indices (f : string → gmap string string → gmap string string) st m
    : UeStateManager :=
  let m := match supi_ st with
           | Some x => m <| key_by_supi_ ::= f (supi x) |>
           | None => m
           end in
  let m := match gpsi_ st with
           | Some g => m <| key_by_gpsi_ ::= f (gpsi g) |>
           | None => m
           end in
  foldl (λ m p, update_pdu_indices f p m) m (pdu_sessions_ st).

Lemma add_pdu_session_indices_eq k p m :
  add_pdu_session_indices k p m = update_pdu_indices (λ v i, <[v := k]> i) p m.
Proof. done. Qed.
Lemma remove_pdu_session_indices_eq k p m :
  remove_pdu_session_indices k p m = update_pdu_indices (erase_if_points_to k) p m.
Proof. done. Qed.
Lemma add_ue_indices_eq st m :
  add_ue_indices st m = update_ue_indices (λ v i, <[v := get_primary_key (ue_key_ st)]> i) st m.
Proof. done. Qed.
Lemma remove_ue_indices_eq st m : remove_ue_indices st m = update_ue_indices (λ v i, delete v i) st m.
Proof. done. Qed.

Lemma foldl_fmap {A B C} (f : A → B → A) (g : C → B) (l : list C) (a : A) :
  foldl (λ a c, f a (g c)) a l = foldl f a (g <$> l).
Proof. revert a. induction l as [|c l IH]; intros a; csimpl; [done|]. apply IH. Qed.

(** A field that a step of a fold never changes is the same after the fold. *)
Lemma foldl_field {A T X} (field : A → T) (step : A → X → A) (l : list X) (a : A) :
  (∀ a x, field (step a x) = field a) → field (foldl step a l) = field a.
Proof.
  intros Hs. revert a. induction l as [|x l IH]; intros a; simpl; [done|]. by rewrite IH, Hs.
Qed.

(** A field that follows a step of a fold. *)
Lemma foldl_homo {A T X} (field : A → T) (step : A → X → A) (step' : T → X → T) (l : list X) (a : A) :
  (∀ a x, field (step a x) = step' (field a) x) → field (foldl step a l) = foldl step' (field a) l.
Proof.
  intros Hs. revert a. induction l as [|x l IH]; intros a; simpl; [done|]. by rewrite IH, Hs.
Qed.

Lemma foldl_bind {A B C} (f : A → B → A) (g : C → list B) (l : list C) (a : A) :
  foldl (λ a c, foldl f a (g c)) a l = foldl f a (c ← l; g c).
Proof.
  revert a. induction l as [|c l IH]; intros a; csimpl; [done|]. by rewrite IH, foldl_app.
Qed.

Lemma index_update_pdu a f p m :
  index a (update_pdu_indices f p m) = update_values f (pdu_values a p) (index a m).
Proof.
  unfold update_pdu_indices, update_values, pdu_values. destruct a; simpl.
  - rewrite !(foldl_field key_by_supi_) by done. by destruct (ue_ipv4_address p).
  - rewrite !(foldl_field key_by_gpsi_) by done. by destruct (ue_ipv4_address p).
  - rewrite !(foldl_field key_by_ipv4_addr_) by done. by destruct (ue_ipv4_address p).
  - rewrite (foldl_homo key_by_ipv6_addr_ _ (λ i x, f (ipv6 x) i)) by done.
    rewrite (foldl_field key_by_ipv6_addr_) by done. rewrite (foldl_fmap (λ i v, f v i)).
    by destruct (ue_ipv4_address p).
  - rewrite (foldl_field key_by_ipv6_prefix_) by done.
    rewrite (foldl_homo key_by_ipv6_prefix_ _ (λ i x, f (ipv6_prefix x) i)) by done.
    rewrite (foldl_fmap (λ i v, f v i)). by destruct (ue_ipv4_address p).
Qed.

Lemma index_update_ue a f st m :
  index a (update_ue_indices f st m) = update_values f (values a st) (index a m).
Proof.
  unfold update_ue_indices.
  rewrite (foldl_homo (index a) _ (λ i p, update_values f (pdu_values a p) i))
    by (intros; apply index_update_pdu).
  unfold update_values. rewrite (foldl_bind (λ i v, f v i)). unfold values.
  destruct a; simpl.
  1-2: assert (∀ l : list PduSessionData, (p ← l; pdu_values BySupi p) = []) as Hnil
    by (intros l; induction l as [|? l IH]; [done|by csimpl]).
  1-2: change (λ p, pdu_values ByGpsi p) with (λ p, pdu_values BySupi p) in *; rewrite Hnil; simpl.
  all: by destruct (supi_ st), (gpsi_ st).
Qed.

(** The fields that index maintenance leaves alone. *)
Lemma states_update_pdu f p m :
  ue_states_by_key_ (update_pdu_indices f p m) = ue_states_by_key_ m.
Proof.
  unfold update_pdu_indices. rewrite !(foldl_field ue_states_by_key_) by done.
  by destruct (ue_ipv4_address p).
Qed.
Lemma states_update_ue f st m : ue_states_by_key_ (update_ue_indices f st m) = ue_states_by_key_ m.
Proof.
  unfold update_ue_indices. rewrite (foldl_field ue_states_by_key_)
    by (intros; apply states_update_pdu).
  by destruct (supi_ st), (gpsi_ st).
Qed.

(** *** Lookups in an index after an update at a list of values *)

Lemma update_values_insert k (vs : list string) (i : gmap string string) v :
  update_values (λ v i, <[v := k]> i) vs i !! v = if decide (v ∈ vs) then Some k else i !! v.
Proof.
  unfold update_values. revert i. induction vs as [|x vs IH]; intros i.
  { by rewrite decide_False by apply not_elem_of_nil. }
  cbn [foldl]. rewrite IH, lookup_insert.
  repeat case_decide; try done; rewrite elem_of_cons in *; intuition congruence.
Qed.

Lemma update_values_delete (vs : list string) (i : gmap string string) v :
  update_values (λ v i, delete v i) vs i !! v = if decide (v ∈ vs) then None else i !! v.
Proof.
  unfold update_values. revert i. induction vs as [|x vs IH]; intros i.
  { by rewrite decide_False by apply not_elem_of_nil. }
  cbn [foldl]. rewrite IH, lookup_delete.
  repeat case_decide; try done; rewrite elem_of_cons in *; intuition congruence.
Qed.

Lemma erase_if_points_to_lookup k x (i : gmap string string) v :
  erase_if_points_to k x i !! v = if decide (v = x ∧ i !! v = Some k) then None else i !! v.
Proof.
  unfold erase_if_points_to. destruct (i !! x) as [k'|] eqn:E.
  - destruct (String.eqb_spec k' k) as [->|Hne].
    + rewrite lookup_delete. repeat case_decide; try done; [subst; tauto|destruct_and!; congruence].
    + case_decide as Hd; [destruct Hd; subst; congruence|done].
  - case_decide as Hd; [destruct Hd; subst; congruence|done].
Qed.

Lemma update_values_erase k (vs : list string) (i : gmap string string) v :
  update_values (erase_if_points_to k) vs i !! v =
  if decide (v ∈ vs ∧ i !! v = Some k) then None else i !! v.
Proof.
  unfold update_values. revert i. induction vs as [|x vs IH]; intros i.
  { by rewrite decide_False by (by intros [?%not_elem_of_nil ?]). }
  cbn [foldl]. rewrite IH, erase_if_points_to_lookup.
  repeat case_decide; try done; rewrite elem_of_cons in *; intuition congruence.
Qed.

(** *** Lookups after the index maintenance of the code *)

Lemma add_ue_indices_lookup a st m v :
  index a (add_ue_indices st m) !! v =
  if decide (v ∈ values a st) then Some (get_primary_key (ue_key_ st)) else index a m !! v.
Proof. by rewrite add_ue_indices_eq, index_update_ue, update_values_insert. Qed.

Lemma remove_ue_indices_lookup a st m v :
  index a (remove_ue_indices st m) !! v =
  if decide (v ∈ values a st) then None else index a m !! v.
Proof. by rewrite remove_ue_indices_eq, index_update_ue, update_values_delete. Qed.

Lemma add_pdu_session_indices_lookup a k p m v :
  index a (add_pdu_session_indices k p m) !! v =
  if decide (v ∈ pdu_values a p) then Some k else index a m !! v.
Proof. by rewrite add_pdu_session_indices_eq, index_update_pdu, update_values_insert. Qed.

Lemma remove_pdu_session_indices_lookup a k p m v :
  index a (remove_pdu_session_indices k p m) !! v =
  if decide (v ∈ pdu_values a p ∧ index a m !! v = Some k) then None else index a m !! v.
Proof. by rewrite remove_pdu_session_indices_eq, index_update_pdu, update_values_erase. Qed.

Lemma states_add_ue st m : ue_states_by_key_ (add_ue_indices st m) = ue_states_by_key_ m.
Proof. by rewrite add_ue_indices_eq, states_update_ue. Qed.
Lemma states_remove_ue st m : ue_states_by_key_ (remove_ue_indices st m) = ue_states_by_key_ m.
Proof. by rewrite remove_ue_indices_eq, states_update_ue. Qed.
Lemma states_add_pdu k p m :
  ue_states_by_key_ (add_pdu_session_indices k p m) = ue_states_by_key_ m.
Proof. by rewrite add_pdu_session_indices_eq, states_update_pdu. Qed.
Lemma states_remove_pdu k p m :
  ue_states_by_key_ (remove_pdu_session_indices k p m) = ue_states_by_key_ m.
Proof. by rewrite remove_pdu_session_indices_eq, states_update_pdu. Qed.
End Indices.

#[export] Hint Rewrite @states_add_ue @states_remove_ue @states_add_pdu @states_remove_pdu
  @add_ue_indices_lookup @remove_ue_indices_lookup @add_pdu_session_indices_lookup
  @remove_pdu_session_indices_lookup : indices.

(** ** Consistency of the store and its indices *)

Section Consistency.
Context `{CommonModels} `{Clock} `{IterationOrder}.
Implicit Types (m : UeStateManager) (st : AfUeSubscriptionState) (p : PduSessionData).

(** A state filed under [k]: well formed, its key has primary key [k], a known SUPI is the key's,
    and the key hides no SUPI it could be promoted to. *)
Record entry_ok (k : string) st : Prop := {
  eo_state : ue_state_ok st;
  eo_key : get_primary_key (ue_key_ st) = k;
  eo_supi : ∀ x, supi_ st = Some x → k = "supi:" +:+ supi x;
  eo_promoted : can_promote_to_supi (ue_key_ st) = false }.

(** Every state is filed under its key, and every index entry leads to a state that has the
    indexed value, except that no index entry leads to the keys in [K], which are being changed. *)
Record consistent_but (K : gset string) m : Prop := {
  cb_entry : ∀ k st, ue_states_by_key_ m !! k = Some st → entry_ok k st;
  cb_index : ∀ a v k, index a m !! v = Some k →
    k ∉ K ∧ ∃ st, ue_states_by_key_ m !! k = Some st ∧ v ∈ values a st }.

Abbreviation consistent := (consistent_but ∅).

Lemma consistent_new d : consistent (UeStateManager_new d).
Proof. split; [done|]. intros a v k. by destruct a. Qed.

Lemma consistent_lock K m l : consistent_but K m → consistent_but K (m <| rw_mtx_ := l |>).
Proof. intros [He Hi]. split; [done|]. intros a v k. specialize (Hi a v k). by destruct a. Qed.

Lemma consistent_dispatcher K m d :
  consistent_but K m → consistent_but K (m <| event_dispatcher_ ::= d |>).
Proof. intros [He Hi]. split; [done|]. intros a v k. specialize (Hi a v k). by destruct a. Qed.

(** Before an entry changes, its index entries go. *)
Lemma consistent_detach K m k st :
  consistent_but K m → ue_states_by_key_ m !! k = Some st →
  consistent_but ({[k]} ∪ K) (remove_ue_indices st m).
Proof.
  intros [He Hi] Hk. split; [by rewrite states_remove_ue|].
  intros a v k'. rewrite states_remove_ue, remove_ue_indices_lookup.
  case_decide as Hv; [done|]. intros Hk'. destruct (Hi _ _ _ Hk') as (? & st' & Hst' & Hv').
  split; [|eauto]. apply not_elem_of_union. split; [|done].
  intros ->%elem_of_singleton. congruence.
Qed.

(** No index entry leads to a key that has no state. *)
Lemma consistent_fresh K m k :
  consistent_but K m → ue_states_by_key_ m !! k = None → consistent_but ({[k]} ∪ K) m.
Proof.
  intros [He Hi] Hk. split; [done|]. intros a v k' Hk'.
  destruct (Hi _ _ _ Hk') as (? & st' & Hst' & Hv'). split; [|eauto].
  apply not_elem_of_union. split; [|done]. intros ->%elem_of_singleton. congruence.
Qed.

Lemma consistent_store K m k st :
  consistent_but K m → k ∈ K → entry_ok k st →
  consistent_but K (m <| ue_states_by_key_ ::= <[k := st]> |>).
Proof.
  intros [He Hi] Hk Hst. split.
  - intros k' st'. simpl. rewrite lookup_insert. case_decide; naive_solver.
  - intros a v k' Hk'. destruct (Hi a v k') as (? & st' & Hst' & Hv'); [by destruct a|].
    split; [done|]. exists st'. simpl. rewrite lookup_insert_ne by congruence. done.
Qed.

Lemma consistent_delete K m k :
  consistent_but K m → k ∈ K → consistent_but K (m <| ue_states_by_key_ ::= delete k |>).
Proof.
  intros [He Hi] Hk. split.
  - intros k' st'. simpl. rewrite lookup_delete. case_decide; naive_solver.
  - intros a v k' Hk'. destruct (Hi a v k') as (? & st' & Hst' & Hv'); [by destruct a|].
    split; [done|]. exists st'. simpl. rewrite lookup_delete_ne by congruence. done.
Qed.

(** After the change its index entries come back. *)
Lemma consistent_attach K m k st :
  consistent_but ({[k]} ∪ K) m → ue_states_by_key_ m !! k = Some st → k ∉ K →
  consistent_but K (add_ue_indices st m).
Proof.
  intros [He Hi] Hk HK. split; [by rewrite states_add_ue|].
  intros a v k'. rewrite states_add_ue, add_ue_indices_lookup.
  rewrite (eo_key _ _ (He _ _ Hk)). case_decide as Hv; [intros [= <-]; by eauto|].
  intros Hk'. destruct (Hi _ _ _ Hk') as (Hn & st' & Hst' & Hv'). split; [set_solver|eauto].
Qed.

Lemma consistent_forget K k m : consistent_but ({[k]} ∪ K) m → consistent_but K m.
Proof.
  intros [He Hi]. split; [done|]. intros a v k' Hk'. destruct (Hi _ _ _ Hk') as [Hn ?].
  split; [set_solver|done].
Qed.

(** An entry whose indexed values only grow can change in place. *)
Lemma consistent_grow K m k st st' :
  consistent_but K m → ue_states_by_key_ m !! k = Some st → entry_ok k st' →
  (∀ a v, v ∈ values a st → v ∈ values a st') →
  consistent_but K (m <| ue_states_by_key_ ::= <[k := st']> |>).
Proof.
  intros [He Hi] Hk Hst' Hv. split.
  - intros k' st''. simpl. rewrite lookup_insert. case_decide; naive_solver.
  - intros a v k' Hk'. destruct (Hi a v k') as (? & s & Hs & Hvs); [by destruct a|].
    split; [done|]. simpl. rewrite lookup_insert. case_decide as E; [|by eauto].
    subst k'. exists st'. naive_solver.
Qed.

(** *** Methods of an entry *)

(** A method that keeps the entry's key and SUPI keeps the entry well filed. *)
Lemma preserves_entry k {A} (f : M AfUeSubscriptionState A) :
  preserves ue_state_ok f →
  (∀ w, supi_ (obj (f w).2) = supi_ (obj w) ∧ ue_key_ (obj (f w).2) = ue_key_ (obj w)) →
  preserves (entry_ok k) f.
Proof.
  intros Hf Hs w [Hok Hk Hx Hp] Hd. destruct (Hs w) as [E1 E2].
  split; [by apply Hf|by rewrite E2|by rewrite E1|by rewrite E2].
Qed.

(** Besides, it keeps the values the indices are on. *)
Definition keeps_values {A} (f : M AfUeSubscriptionState A) : Prop :=
  ∀ w a v, v ∈ values a (obj w) → v ∈ values a (obj (f w).2).

Lemma preserves_consistent_at K k {A} (f : M AfUeSubscriptionState A) :
  preserves (entry_ok k) f → keeps_values f →
  preserves (consistent_but K) (at_key ue_states_by_key_ k f).
Proof.
  intros Hf Hv w Hw. unfold wp, at_key.
  destruct (ue_states_by_key_ (obj w) !! k) as [st|] eqn:E; [|by intros []].
  specialize (Hf (World (ticks w) st) (cb_entry _ _ Hw _ _ E)). unfold wp in Hf.
  specialize (Hv (World (ticks w) st)).
  destruct (f _) as [r w']; simpl in *. intros Hr.
  by apply (consistent_grow _ _ _ st); [..|apply Hf|].
Qed.

(** A method on an entry whose index entries are gone. *)
Lemma preserves_consistent_detached K k {A} (f : M AfUeSubscriptionState A) :
  k ∈ K → preserves (entry_ok k) f →
  preserves (consistent_but K) (at_key ue_states_by_key_ k f).
Proof.
  intros Hk Hf. apply (preserves_at_key _ _ (entry_ok k)); [..|done].
  - intros m st Hm Hst. by eapply cb_entry.
  - intros m st st' Hm Hst Hst'. by apply consistent_store.
Qed.

(** *** The operations keep the store consistent *)

Lemma consistent_replace m k old st :
  consistent m → ue_states_by_key_ m !! k = Some old → entry_ok k st →
  consistent (add_ue_indices st ((remove_ue_indices old m) <| ue_states_by_key_ ::= <[k := st]> |>)).
Proof.
  intros Hm Hk Hst. apply (consistent_attach _ _ k); [|simpl; by rewrite lookup_insert_eq|done].
  apply consistent_store; [by apply consistent_detach|set_solver|done].
Qed.

Lemma consistent_insert m k st :
  consistent m → ue_states_by_key_ m !! k = None → entry_ok k st →
  consistent (add_ue_indices st (m <| ue_states_by_key_ ::= <[k := st]> |>)).
Proof.
  intros Hm Hk Hst. apply (consistent_attach _ _ k); [|simpl; by rewrite lookup_insert_eq|done].
  apply consistent_store; [by apply consistent_fresh|set_solver|done].
Qed.

Lemma consistent_remove m k old :
  consistent m → ue_states_by_key_ m !! k = Some old →
  consistent ((remove_ue_indices old m) <| ue_states_by_key_ ::= delete k |>).
Proof.
  intros Hm Hk. apply (consistent_forget _ k), consistent_delete; [|set_solver].
  by apply consistent_detach.
Qed.

(** Each public method runs its body between taking and releasing the mutex. *)
Lemma locked_preserves {A} mode (f : M UeStateManager A) :
  preserves consistent f → preserves consistent (with_lock rw_mtx_ mode f).
Proof. apply preserves_with_lock. intros m l. apply consistent_lock. Qed.

Lemma update_ue_state_consistent st :
  entry_ok (get_primary_key (ue_key_ st)) st → preserves consistent (update_ue_state st).
Proof.
  intros Hst. apply locked_preserves. intros [n m] Hm. unfold wp, update_ue_state_internal, store.
  run_steps. simpl in Hm. destruct (ue_states_by_key_ m !! _) as [old|] eqn:E; intros _.
  - by apply consistent_replace.
  - by apply consistent_insert.
Qed.

Lemma remove_ue_state_consistent key : preserves consistent (remove_ue_state key).
Proof.
  apply locked_preserves. intros [n m] Hm. unfold wp. run_steps. simpl in Hm.
  destruct (ue_states_by_key_ m !! _) as [old|] eqn:E; intros _; [|done].
  by apply consistent_remove.
Qed.

Lemma new_entry_ok key n n' :
  program_key key → can_promote_to_supi key = false →
  entry_ok (get_primary_key key) (blank key None PROVISIONAL None n n').
Proof. intros Hk Hp. split; simpl; [by apply blank_ok|done|done|done]. Qed.

(** Read-only methods. *)
Lemma reads_preserve {A} mode (f : UeStateManager → A) :
  preserves consistent (with_lock rw_mtx_ mode (gets f)).
Proof. apply locked_preserves, preserves_gets. Qed.

(** Setters that leave the key, the SUPI and the indexed values alone. *)
Lemma update_entry_consistent key f :
  preserves ue_state_ok f →
  (∀ w, supi_ (obj (f w).2) = supi_ (obj w) ∧ ue_key_ (obj (f w).2) = ue_key_ (obj w)) →
  keeps_values f →
  preserves consistent (update_entry key f).
Proof.
  intros Hf Hs Hv. apply locked_preserves, preserves_get. intros w Hw.
  destruct (ue_states_by_key_ (obj w) !! _) as [st|] eqn:E; [|by intros _].
  apply wp_bind.
  apply (wp_mono _ _ _ _ (preserves_consistent_at ∅ _ f (preserves_entry _ f Hf Hs) Hv w Hw)).
  by intros [[]|e|u] w' Hw'.
Qed.

(** *** Changes of an entry together with its index entries *)

(** Index entries may go, and new ones may come that lead to a state having the value. *)
Lemma consistent_indices K m m' :
  ue_states_by_key_ m' = ue_states_by_key_ m →
  (∀ a v k, index a m' !! v = Some k →
     index a m !! v = Some k ∨
     k ∉ K ∧ ∃ st, ue_states_by_key_ m !! k = Some st ∧ v ∈ values a st) →
  consistent_but K m → consistent_but K m'.
Proof.
  intros Hs Hi [He Hi0]. split; [by rewrite Hs|]. intros a v k Hk. rewrite Hs.
  destruct (Hi a v k Hk) as [Hk'|Hk']; [by apply Hi0|done].
Qed.

(** An entry can change in place when its index entries still fit. *)
Lemma consistent_change K m k st' :
  consistent_but K m → entry_ok k st' →
  (∀ a v, index a m !! v = Some k → v ∈ values a st') →
  consistent_but K (m <| ue_states_by_key_ ::= <[k := st']> |>).
Proof.
  intros [He Hi] Hst' Hv. split.
  - intros k' st''. simpl. rewrite lookup_insert. case_decide; naive_solver.
  - intros a v k' Hk'. assert (Hk0 : index a m !! v = Some k') by (by destruct a).
    destruct (Hi a v k' Hk0) as (? & s & Hs & Hvs).
    split; [done|]. simpl. rewrite lookup_insert. case_decide as E; [|by eauto].
    subst k'. exists st'. split; [done|by apply Hv].
Qed.

Lemma at_key_run {A} k (f : M AfUeSubscriptionState A) n m st :
  ue_states_by_key_ m !! k = Some st →
  at_key ue_states_by_key_ k f (World n m) =
  ((f (World n st)).1,
   World (ticks (f (World n st)).2)
     (m <| ue_states_by_key_ ::= <[k := obj (f (World n st)).2]> |>)).
Proof. intros E. unfold at_key. simpl. rewrite E. by destruct (f _) as [[] ?]. Qed.

Lemma update_ue_gpsi_consistent key g : preserves consistent (update_ue_gpsi key g).
Proof.
  apply locked_preserves. intros [n m] Hm. unfold wp. cbv [mbind M_bind get]; cbn [obj]. simpl in Hm.
  destruct (ue_states_by_key_ m !! get_primary_key key) as [st|] eqn:E; [|by intros _].
  set (k := get_primary_key key) in *.
  set (m' := match gpsi_ st with
             | Some old => m <| key_by_gpsi_ ::= delete (gpsi old) |> | None => m end).
  assert (E' : ue_states_by_key_ m' !! k = Some st) by (unfold m'; by destruct (gpsi_ st)).
  set (st' := st <| gpsi_ := Some g |> <| last_updated_ := clock n |>).
  assert (Hst : entry_ok k st').
  { apply (preserves_entry k (set_gpsi g) (proj1 setters_ok g) (λ w, conj eq_refl eq_refl)
            (World n st)); [by eapply cb_entry|done]. }
  assert (Hm' : consistent m').
  { apply (consistent_indices ∅ m); [by unfold m'; destruct (gpsi_ st)|intros a v k' Hk'|done].
    left. unfold m' in Hk'. destruct (gpsi_ st), a; try done. simpl in Hk'.
    rewrite lookup_delete in Hk'. by case_decide. }
  assert (Hc : consistent (m' <| ue_states_by_key_ ::= <[k := st']> |>)).
  { apply consistent_change; [done..|]. intros a v Hv.
    destruct (cb_index _ _ Hm' _ _ _ Hv) as (_ & s & Hs & Hvs). simplify_eq.
    destruct a; try done. exfalso. unfold m' in Hv. simpl in *.
    destruct (gpsi_ st) as [old|]; simpl in *; [|by apply not_elem_of_nil in Hvs].
    apply list_elem_of_singleton in Hvs as ->. by rewrite lookup_delete_eq in Hv. }
  rewrite modify_option_run. cbn [ticks obj]. change (match gpsi_ st with Some old => _ | None => m end) with m'.
  rewrite (at_key_run k (set_gpsi g) n m' st E'). simpl. intros _.
  eapply consistent_indices; [| |exact Hc]; [done|]. intros a v k'.
  destruct a; simpl; try by left. rewrite lookup_insert. case_decide; [|by left].
  intros [= <-]. right. split; [done|]. exists st'. rewrite lookup_insert_eq. split; [done|].
  subst v. simpl. set_solver.
Qed.
Lemma entry_ok_pdu k st l :
  entry_ok k st → NoDup (pdu_session_id <$> l) → entry_ok k (st <| pdu_sessions_ := l |>).
Proof. intros [[] ? ? ?] Hl. split; [split|..]; done. Qed.

(** Changing the vector of PDU sessions, after dropping the index entries of the session that
    goes, if one does. *)
Lemma consistent_pdu_sessions m k st l (gone : option PduSessionData) :
  consistent m → ue_states_by_key_ m !! k = Some st → NoDup (pdu_session_id <$> l) →
  (∀ p, p ∈ pdu_sessions_ st → gone = Some p ∨ ∃ q, q ∈ l ∧ ∀ a, pdu_values a q = pdu_values a p) →
  let m' := match gone with Some p => remove_pdu_session_indices k p m | None => m end in
  ue_states_by_key_ m' !! k = Some st ∧
  consistent (m' <| ue_states_by_key_ ::= <[k := st <| pdu_sessions_ := l |>]> |>).
Proof.
  intros Hm Hk Hl Hp m'.
  assert (Hs : ue_states_by_key_ m' = ue_states_by_key_ m)
    by (unfold m'; destruct gone; [apply states_remove_pdu|done]).
  assert (Hi : ∀ a v k', index a m' !! v = Some k' →
            index a m !! v = Some k' ∧ ∀ p, gone = Some p → k' = k → v ∉ pdu_values a p).
  { intros a v k'. unfold m'. destruct gone as [p|]; [|done].
    rewrite remove_pdu_session_indices_lookup. case_decide as Hd; [done|]. intros Hi.
    split; [done|]. intros p' [= <-] -> Hv. by apply Hd. }
  split; [by rewrite Hs|]. apply consistent_change.
  - apply (consistent_indices _ m); [done| |done]. intros a v k' Hv. left. by apply Hi.
  - apply entry_ok_pdu; [by eapply cb_entry|done].
  - intros a v [Hv Hgone]%Hi. destruct (cb_index _ _ Hm _ _ _ Hv) as (_ & s & Hs' & Hvs).
    simplify_eq. destruct a; try done.
    all: apply list_elem_of_bind in Hvs as (p & Hvp & Hpl); apply list_elem_of_bind.
    all: destruct (Hp _ Hpl) as [->|(q & Hq & E)]; [by destruct (Hgone p)|].
    all: exists q; split; [by rewrite E|done].
Qed.

Lemma consistent_add_pdu_indices m k st p :
  consistent m → ue_states_by_key_ m !! k = Some st → p ∈ pdu_sessions_ st →
  consistent (add_pdu_session_indices k p m).
Proof.
  intros Hm Hk Hp. apply (consistent_indices _ m); [apply states_add_pdu| |done].
  intros a v k'. rewrite add_pdu_session_indices_lookup. case_decide as Hv; [|by left].
  intros [= <-]. right. split; [done|]. exists st. split; [done|].
  destruct a; simpl in *; try (by apply not_elem_of_nil in Hv); apply list_elem_of_bind; eauto.
Qed.

Lemma record_activity_entry k : preserves (entry_ok k) record_activity.
Proof. apply preserves_entry; [apply setters_ok|done]. Qed.

Lemma record_activity_consistent k :
  preserves consistent (at_key ue_states_by_key_ k record_activity).
Proof. apply preserves_consistent_at; [apply record_activity_entry|by intros w a v; destruct a]. Qed.
(** Two steps on an entry are a step on the entry after another. *)
Lemma wp_at_seq {A B C} k (f : M AfUeSubscriptionState A) (g : A → M AfUeSubscriptionState B)
    (rest : B → M UeStateManager C) Q w :
  wp (at_key ue_states_by_key_ k f ≫= λ a, at_key ue_states_by_key_ k (g a) ≫= rest) Q w →
  wp (at_key ue_states_by_key_ k (f ≫= g) ≫= rest) Q w.
Proof.
  unfold wp, at_key, mbind, M_bind. destruct w as [n m]. simpl.
  destruct (ue_states_by_key_ m !! k) as [st|]; [|done].
  destruct (f _) as [[a|e|u] [n' s']]; simpl; [|done|done].
  rewrite lookup_insert_eq. destruct (g a _) as [r [n'' s'']]. simpl. by rewrite insert_insert_eq.
Qed.

Lemma finish_consistent k {A} (r : A) n m :
  consistent m →
  wp (at_key ue_states_by_key_ k record_activity ;; mret r)
     (λ (r : result A) w', defined r → consistent (obj w')) (World n m).
Proof.
  intros Hm. apply preserves_from; [|done].
  apply preserves_bind; [apply record_activity_consistent|intros; apply preserves_ret].
Qed.

Lemma pdu_nodup m k st :
  consistent m → ue_states_by_key_ m !! k = Some st → NoDup (pdu_session_id <$> pdu_sessions_ st).
Proof. intros Hm Hk. apply (eo_state _ _ (cb_entry _ _ Hm _ _ Hk)). Qed.

Lemma update_first_pdu_nodup id f (l : list PduSessionData) :
  (∀ p, pdu_session_id p = id → pdu_session_id (f p) = id) →
  NoDup (pdu_session_id <$> l) → NoDup (pdu_session_id <$> update_first (has_id id) f l).
Proof.
  intros Hf Hl. rewrite update_first_fmap; [done|]. intros p Hp%has_id_true. by rewrite Hf.
Qed.

Lemma add_or_update_pdu_session_consistent key p :
  preserves consistent (add_or_update_pdu_session key p).
Proof.
  apply locked_preserves, preserves_get. intros [n m] Hm. cbn [obj] in *.
  set (k := get_primary_key key). destruct (ue_states_by_key_ m !! k) as [st|] eqn:E; [|by intros _].
  pose proof (pdu_nodup _ _ _ Hm E) as Hnd.
  destruct (find_first _ (pdu_sessions_ st)) as [old|] eqn:Ef; cbn zeta.
  - destruct (consistent_pdu_sessions m k st
      (update_first (has_id (pdu_session_id p)) (λ _, p) (pdu_sessions_ st)) (Some old))
      as [E' Hm']; [done|done|by apply update_first_pdu_nodup| |].
    { intros q Hq. destruct (update_first_keeps _ (λ _, p) _ _ _ Ef Hq) as [->|?]; eauto. }
    apply wp_modify, (wp_at_modify _ _ _ _ _ _ st); [done|].
    apply wp_modify, finish_consistent.
    eapply consistent_add_pdu_indices; [exact Hm'|simpl; apply lookup_insert_eq|].
    apply (update_first_has _ (λ _, p) _ _ Ef).
  - destruct (consistent_pdu_sessions m k st (pdu_sessions_ st ++ [p]) None) as [_ Hm'];
      [done|done| | |].
    { pose proof (put_pdu_session_nodup p _ Hnd) as Hput. unfold put_pdu_session in Hput.
      by rewrite Ef in Hput. }
    { intros q Hq. right. exists q. split; [by apply elem_of_app; left|done]. }
    apply (wp_at_modify _ _ _ _ _ _ st); [done|]. apply wp_modify, finish_consistent.
    eapply consistent_add_pdu_indices; [exact Hm'|simpl; apply lookup_insert_eq|].
    apply elem_of_app. right. apply list_elem_of_singleton. done.
Qed.

Lemma publish_consistent event : preserves consistent (publish_event event).
Proof.
  apply preserves_get. intros w Hw. destruct (event_dispatcher_ _); intros _; [|done].
  by apply (consistent_dispatcher ∅).
Qed.

Lemma remove_pdu_session_consistent key id : preserves consistent (remove_pdu_session key id).
Proof.
  apply locked_preserves, preserves_get. intros [n m] Hm. cbn [obj] in *.
  set (k := get_primary_key key). destruct (ue_states_by_key_ m !! k) as [st|] eqn:E; [|by intros _].
  pose proof (pdu_nodup _ _ _ Hm E) as Hnd.
  destruct (find_first _ (pdu_sessions_ st)) as [old|] eqn:Ef; [|by intros _].
  destruct (consistent_pdu_sessions m k st (erase_first (has_id id) (pdu_sessions_ st)) (Some old))
    as [E' Hm']; [done|done|by apply erase_pdu_nodup| |].
  { intros q Hq. destruct (erase_first_keeps _ _ _ _ Ef Hq) as [->|?]; eauto. }
  apply wp_modify, wp_at_seq, (wp_at_modify _ _ _ _ _ _ st); [done|].
  apply preserves_from; [|exact Hm'].
  apply preserves_bind; [apply record_activity_consistent|intros []].
  apply preserves_bind; [destruct (supi_ st); [apply publish_consistent|apply preserves_ret]|].
  intros. apply preserves_ret.
Qed.

Lemma update_qod_ids_consistent key id f : preserves consistent (update_qod_ids key id f).
Proof.
  apply locked_preserves, preserves_get. intros [n m] Hm. cbn [obj] in *.
  set (k := get_primary_key key). destruct (ue_states_by_key_ m !! k) as [st|] eqn:E; [|by intros _].
  pose proof (pdu_nodup _ _ _ Hm E) as Hnd.
  destruct (find_first _ (pdu_sessions_ st)) as [old|] eqn:Ef; [|by intros _].
  set (g := λ p, p <| active_qod_session_ids ::= f |>).
  destruct (consistent_pdu_sessions m k st (update_first (has_id id) g (pdu_sessions_ st)) None)
    as [_ Hm']; [done|done|by apply update_first_pdu_nodup| |].
  { intros q Hq. right. destruct (update_first_keeps _ g _ _ _ Ef Hq) as [->|?]; [|by eauto].
    exists (g old). split; [by apply update_first_has|by intros []]. }
  apply wp_at_seq, (wp_at_modify _ _ _ _ _ _ st); [done|]. by apply finish_consistent.
Qed.

Lemma remove_qod_session_from_ue_consistent key id :
  preserves consistent (remove_qod_session_from_ue key id).
Proof.
  apply locked_preserves, preserves_get. intros [n m] Hm. cbn [obj] in *.
  set (k := get_primary_key key). destruct (ue_states_by_key_ m !! k) as [st|] eqn:E; [|by intros _].
  pose proof (pdu_nodup _ _ _ Hm E) as Hnd. cbn zeta.
  set (g := λ p, p <| active_qod_session_ids ::= λ ids, ids ∖ {[id]} |>).
  destruct (consistent_pdu_sessions m k st (g <$> pdu_sessions_ st) None) as [_ Hm'];
    [done|done| | |].
  { rewrite <-list_fmap_compose. done. }
  { intros q Hq. right. exists (g q). split; [by apply list_elem_of_fmap_2|by intros []]. }
  apply (wp_at_modify _ _ _ _ _ _ st); [done|]. apply preserves_from; [|exact Hm'].
  apply preserves_bind; [|intros; apply preserves_ret].
  apply preserves_when, record_activity_consistent.
Qed.
Lemma cleanup_consistent max_age : preserves consistent (cleanup_expired_provisional_states max_age).
Proof.
  apply locked_preserves, preserves_bind; [apply preserves_now|intros t].
  apply preserves_bind; [apply preserves_read|intros m0]. apply preserves_for_each. intros k.
  apply preserves_get. intros [n m] Hm. cbn [obj] in *.
  destruct (ue_states_by_key_ m !! k) as [st|] eqn:E; intros _; [|done].
  by apply consistent_remove.
Qed.

(** What [remove_known_identifier] does to the members the store depends on. *)
Lemma remove_known_identifier_frame type v w :
  let s := obj w in
  let s' := obj (remove_known_identifier type v w).2 in
  supi_ s' = supi_ s ∧ gpsi_ s' = gpsi_ s ∧ pdu_sessions_ s' = pdu_sessions_ s ∧
  (ue_key_ s' = ue_key_ s ∨
   ue_key_ s' = demote_to_composite (ue_key_ s) ∧ type_ (ue_key_ s) ≠ SUPI_BASED).
Proof.
  unfold remove_known_identifier, remove_from.
  repeat match goal with |- context [if String.eqb type ?x then _ else _] =>
    destruct (String.eqb type x) end; run_steps; try (by auto).
  all: destruct (unknown _ _); simpl; [by auto|].
  all: case_bool_decide as Ht; simpl; [|by auto].
  all: case_bool_decide; simpl; [|by auto].
  all: split_and!; try done; right; split; [done|]; by rewrite Ht.
Qed.

Lemma demoted_entry k st :
  entry_ok k st → type_ (ue_key_ st) ≠ SUPI_BASED →
  get_primary_key (demote_to_composite (ue_key_ st)) = k ∧
  can_promote_to_supi (demote_to_composite (ue_key_ st)) = false.
Proof.
  intros [Hok Hk _ Hp] Ht. pose proof (ok_key _ Hok) as Hpk.
  split; [by rewrite program_key_demote|].
  apply andb_false_iff in Hp as [Hp|Hp]; [by rewrite bool_decide_eq_false in Hp|].
  unfold demote_to_composite. destruct (bool_decide _); apply andb_false_iff; right; done.
Qed.

Lemma remove_known_identifier_entry k type v :
  preserves (entry_ok k) (remove_known_identifier type v).
Proof.
  intros w Hw Hd. destruct (remove_known_identifier_frame type v w) as (E1 & _ & _ & E4).
  pose proof (remove_known_identifier_ok type v w (eo_state _ _ Hw) Hd) as Hok.
  pose proof (eo_supi _ _ Hw) as Hs. destruct E4 as [E4|[E4 Ht]].
  - split; [done|by rewrite E4; apply Hw|by rewrite E1|by rewrite E4; apply Hw].
  - destruct (demoted_entry _ _ Hw Ht) as [Hk Hp].
    split; [done|by rewrite E4|by rewrite E1|by rewrite E4].
Qed.

Lemma remove_non_primary_consistent key type v :
  preserves consistent (remove_non_primary_ue_identifier key type v).
Proof.
  apply locked_preserves, preserves_get. intros w0 Hw0.
  destruct (ue_states_by_key_ (obj w0) !! _) as [st0|]; [|by intros _]. revert w0 Hw0.
  match goal with |- ∀ w0, _ → wp ?m _ w0 => change (preserves consistent m) end.
  apply preserves_bind.
  { apply preserves_consistent_at; [apply remove_known_identifier_entry|]. intros w a x Hx.
    destruct (remove_known_identifier_frame type v w) as (E1 & E2 & E3 & _).
    by destruct a; simpl in *; rewrite ?E1, ?E2, ?E3. }
  intros []; [|apply preserves_ret]. apply preserves_get. intros [n m] Hm. cbn [obj] in *.
  destruct (ue_states_by_key_ m !! _) as [st|] eqn:E; [|done]. intros _.
  apply (consistent_attach ∅ _ (get_primary_key key) st); cbn [obj]; [|by rewrite states_remove_ue|done].
  by apply consistent_detach.
Qed.

(** The keys under which the program files a UE: a key in which no SUPI hides. *)
Definition filing_key (key : UeKey) : Prop := program_key key ∧ can_promote_to_supi key = false.

Lemma with_provisional_session_values (k : string) (l : list PduSessionData) :
  let l' := match l with [] => [provisional_pdu_session k] | _ => l end in
  (NoDup (pdu_session_id <$> l) → NoDup (pdu_session_id <$> l')) ∧
  ∀ p, p ∈ l → p ∈ l'.
Proof.
  destruct l as [|p l]; simpl; [|done].
  split; [intros _; apply NoDup_singleton|intros p Hp; by apply not_elem_of_nil in Hp].
Qed.

Lemma add_qod_session_to_ue_consistent key id qod :
  filing_key key → preserves consistent (add_qod_session_to_ue key id qod).
Proof.
  intros [Hk Hp]. destruct id as [id|]; simpl.
  { apply preserves_bind; [apply locked_preserves, preserves_ret|intros _].
    apply update_qod_ids_consistent. }
  apply locked_preserves, preserves_get. intros w Hw. cbn zeta.
  set (k := get_primary_key key). set (rest := at_key ue_states_by_key_ k _ ;; mret true).
  assert (Hrest : ∀ n m st, consistent m → ue_states_by_key_ m !! k = Some st →
    wp rest (λ (r : result bool) w', defined r → consistent (obj w')) (World n m)).
  { intros n m st Hm E. unfold rest.
    set (l := match pdu_sessions_ st with [] => [provisional_pdu_session k] | _ => pdu_sessions_ st end).
    set (g := λ p, p <| active_qod_session_ids ::= λ ids, {[qod]} ∪ ids |>).
    destruct (with_provisional_session_values k (pdu_sessions_ st)) as [Hnd Hl]. fold l in Hnd, Hl.
    destruct (consistent_pdu_sessions m k st l None) as [_ Hm1];
      [done|done|by apply Hnd, (pdu_nodup m k)|by eauto|].
    destruct (consistent_pdu_sessions _ k _
      (match l with p :: l => g p :: l | [] => [] end) None Hm1 (lookup_insert_eq _ _ _)) as [_ Hm2].
    { specialize (Hnd (pdu_nodup m k st Hm E)). by destruct l. }
    { intros q Hq. right. change (q ∈ l) in Hq. clear Hm1 Hnd Hl. clearbody l.
      destruct l as [|p l]; [by apply not_elem_of_nil in Hq|].
      apply elem_of_cons in Hq as [->|Hq]; [exists (g p)|exists q]; (split; [|by intros []]);
        [left|by right]. }
    apply wp_at_seq, (wp_at_modify _ _ _ _ _ _ st); [done|].
    apply wp_at_seq. eapply wp_at_modify; [simpl; apply lookup_insert_eq|].
    apply finish_consistent. exact Hm2. }
  destruct (ue_states_by_key_ (obj w) !! k) as [st0|] eqn:E0.
  { destruct w as [n m]. by apply (Hrest n m st0). }
  set (st := blank key None PROVISIONAL None (clock (ticks w)) (clock (S (ticks w)))).
  apply (Hrest (S (S (ticks w)))
    (add_ue_indices st ((obj w) <| ue_states_by_key_ ::= <[k := st]> |>)) st);
    [|rewrite states_add_ue; simpl; apply lookup_insert_eq].
  apply consistent_insert; [done|done|by apply new_entry_ok].
Qed.
(** A merge into an existing entry is harmless to the indices when it brings neither a GPSI nor
    PDU sessions. *)
Lemma create_or_update_consistent key data :
  filing_key key →
  match data with
  | Some d => entry_ok (get_primary_key key) d ∧ gpsi_ d = None ∧ pdu_sessions_ d = []
  | None => True
  end →
  preserves consistent (create_or_update_provisional_ue_state key data).
Proof.
  intros [Hk Hp] Hd. apply locked_preserves, preserves_get. intros w Hw. cbn zeta.
  set (k := get_primary_key key) in *. destruct (ue_states_by_key_ (obj w) !! k) as [st|] eqn:E.
  - revert w Hw E. intros w Hw _. apply (preserves_bind _ _ _); [|intros _|done].
    + destruct data as [d|]; [|apply preserves_ret]. destruct Hd as (_ & Hg & Hl).
      unfold merge_initial_data. rewrite Hg, Hl. apply preserves_consistent_at.
      * destruct setters_ok as (_ & H2 & H3 & H4 & _).
        apply preserves_entry; [cbn [for_each]; repeat preserves_step; auto|].
        intros w'. by destruct (location_info_ d), (access_mobility_data_ d), (ue_policy_data_info_ d).
      * intros w' a v Hv. destruct (location_info_ d), (access_mobility_data_ d),
          (ue_policy_data_info_ d), a; exact Hv.
    + apply preserves_consistent_at; [apply preserves_read|intros w' a v Hv; exact Hv].
  - destruct data as [d|]; intros _.
    + by apply consistent_insert; [| |apply Hd].
    + by apply consistent_insert; [| |apply new_entry_ok].
Qed.

Lemma add_known_entry k type v : preserves (entry_ok k) (add_known_identifier type v).
Proof.
  apply preserves_entry; [apply add_known_identifier_ok|]. intros w.
  unfold add_known_identifier. run_steps.
  repeat match goal with |- context [if ?b && unknown ?x ?l then _ else _] =>
    destruct (b && unknown x l); [done|] end. done.
Qed.

Lemma merge_pdu_sessions_nodup l l' :
  NoDup (pdu_session_id <$> l) → NoDup (pdu_session_id <$> (merge_pdu_sessions l l').1).
Proof.
  intros Hl. unfold merge_pdu_sessions.
  apply (foldl_inv (λ x : _ * bool, NoDup (pdu_session_id <$> x.1))); [done|].
  intros [l1 b] p _ Hl1. destruct (find_first _ l1) eqn:E; [done|]. simpl in *.
  pose proof (put_pdu_session_nodup p _ Hl1) as H'. unfold put_pdu_session in H'. by rewrite E in H'.
Qed.

(** A run that starts while the keys of [K] have no index entries and ends consistent. *)
Definition reattaches (K : gset string) {A} (f : M UeStateManager A) : Prop :=
  ∀ w, consistent_but K (obj w) → wp f (λ r w', defined r → consistent (obj w')) w.

Lemma consistent_weaken K m : consistent_but K m → consistent m.
Proof.
  intros [He Hi]. split; [done|]. intros a v k Hk. destruct (Hi _ _ _ Hk). by split.
Qed.

Lemma reattaches_bind K {A B} (f : M UeStateManager A) (g : A → M UeStateManager B) :
  preserves (consistent_but K) f → (∀ a, reattaches K (g a)) → reattaches K (f ≫= g).
Proof.
  intros Hf Hg w Hw. apply wp_bind, (wp_mono _ _ _ _ (Hf w Hw)).
  intros [a|e|u] w' Hw'; [by apply Hg, Hw'|intros _; by apply (consistent_weaken K), Hw'|by intros []].
Qed.

Lemma merge_consistent k1 k2 :
  get_primary_key k1 ≠ get_primary_key k2 → preserves consistent (merge_ue_states k1 k2).
Proof.
  intros Hne. apply locked_preserves, preserves_get. intros [n m] Hm. cbn [obj]. cbn zeta.
  set (p := get_primary_key k1) in *. set (s := get_primary_key k2) in *. cbn [obj] in Hm.
  destruct (ue_states_by_key_ m !! p) as [st1|] eqn:E1; [|by intros _].
  destruct (ue_states_by_key_ m !! s) as [st2|] eqn:E2; [|by intros _].
  apply wp_modify, wp_modify. set (K := {[s]} ∪ ({[p]} ∪ ∅) : gset string).
  assert (Hd : consistent_but K (remove_ue_indices st2 (remove_ue_indices st1 m))).
  { apply consistent_detach; [by apply consistent_detach|by rewrite states_remove_ue]. }
  assert (Hp : p ∈ K) by set_solver. assert (Hs : s ∈ K) by set_solver.
  pose proof (merge_pdu_sessions_nodup _ (pdu_sessions_ st2) (pdu_nodup _ _ _ Hm E1)) as Hnd.
  destruct (merge_pdu_sessions _ _) as [merged modified]. simpl in Hnd.
  match goal with |- wp ?f _ ?w => cut (reattaches K f); [intros Hf; by apply (Hf w)|] end.
  clear E1 E2 Hm.
  do 3 (apply reattaches_bind; [apply preserves_for_each; intros v;
    apply preserves_bind; [|intros; apply preserves_ret];
    apply preserves_consistent_detached; [done|apply add_known_entry]|intros _]).
  apply reattaches_bind; [apply preserves_consistent_detached; [done|]|intros _].
  { apply preserves_modify. intros st Hst. by apply entry_ok_pdu. }
  apply reattaches_bind; [|intros _].
  { apply preserves_when, preserves_consistent_detached; [done|apply record_activity_entry]. }
  apply reattaches_bind; [apply preserves_modify; intros; by apply consistent_delete|intros _].
  intros [n' m'] Hm'. apply wp_get. cbn [obj] in *.
  destruct (ue_states_by_key_ m' !! p) as [st|] eqn:E; [|by intros []]. intros _. simpl.
  apply (consistent_forget ∅ s), (consistent_attach _ _ p); [|done|set_solver].
  replace ({[p]} ∪ ({[s]} ∪ ∅)) with K by set_solver. done.
Qed.

Lemma resolved_entry x k st n :
  ue_state_ok st → supi_ st = None → can_promote_to_supi (ue_key_ st) = false → UeKey_supi x = Ok k →
  let w' := (resolve_supi x (World n st)).2 in
  (resolve_supi x (World n st)).1 = Ok () ∧ entry_ok ("supi:" +:+ supi x) (obj w').
Proof.
  intros Hok Hn Hp Hk w'. change (from_supi x = Ok k) in Hk.
  assert (Hr : (resolve_supi x (World n st)).1 = Ok () ∧ supi_ (obj w') = Some x ∧
               ue_key_ (obj w') = k).
  { unfold w', resolve_supi. run_steps. rewrite Hn, Hp, Hk. done. }
  destruct Hr as (Hr & Hx & Hkey). split; [done|].
  pose proof (resolve_supi_ok x (World n st) Hok) as Hok'. unfold wp in Hok'. rewrite Hr in Hok'.
  split; [by apply Hok'|rewrite Hkey; by apply from_supi_primary|by rewrite Hx; intros ? [= <-]|].
  rewrite Hkey. change (UeKey_of_string (supi x) SUPI_BASED = Ok k) in Hk.
  by apply UeKey_of_string_ok in Hk as [_ ->].
Qed.
Lemma locked_from {A} mode (f : M UeStateManager A) n m :
  consistent m →
  (consistent (m <| rw_mtx_ := mode |>) →
   wp f (λ r w', defined r → consistent (obj w')) (World n (m <| rw_mtx_ := mode |>))) →
  wp (with_lock rw_mtx_ mode f) (λ r w', defined r → consistent (obj w')) (World n m).
Proof.
  intros Hm Hf. specialize (Hf (consistent_lock _ _ _ Hm)). unfold wp, with_lock in *. simpl.
  destruct (rw_mtx_ m); [|done|done]. destruct (f _) as [r w']. simpl in *.
  intros Hr. by apply consistent_lock, Hf.
Qed.

(** With the mutex held, [merge_ue_states] gets nowhere. *)
Lemma merge_relock k1 k2 mode n m :
  rw_mtx_ m ≠ Unlocked →
  merge_ue_states k1 k2 (World n m) = (Undefined (relock (rw_mtx_ m) Exclusive), World n m) ∧
  with_lock rw_mtx_ mode (merge_ue_states k1 k2) (World n m) =
    (Undefined (relock (rw_mtx_ m) mode), World n m).
Proof. intros Hm. unfold merge_ue_states, with_lock. simpl. by destruct (rw_mtx_ m). Qed.

(** The states a promotion is meant for: those without SUPI. *)
Definition unresolved (key : UeKey) m : Prop :=
  ∀ st, ue_states_by_key_ m !! get_primary_key key = Some st → supi_ st = None.

Lemma promote_consistent key x n m :
  consistent m → unresolved key m →
  wp (promote_ue_state_to_resolved key x) (λ r w', defined r → consistent (obj w')) (World n m).
Proof.
  intros Hm0 Hu. apply locked_from; [done|]. intros Hm. set (m' := m <| _ := _ |>) in *.
  change (unresolved key m') in Hu. assert (Hlock : rw_mtx_ m' = Exclusive) by done.
  clearbody m'. clear Hm0 m. apply wp_get. cbn [obj]. cbn zeta. unfold unresolved in Hu.
  set (k := get_primary_key key) in *.
  destruct (ue_states_by_key_ m' !! k) as [st|] eqn:E; [|by intros _].
  pose proof (cb_entry _ _ Hm _ _ E) as [Hok _ _ Hp]. specialize (Hu _ eq_refl).
  apply wp_bind. unfold wp at 1, lift. simpl.
  destruct (UeKey_supi x) as [sk|e|u] eqn:Ek; [|by intros _|done].
  pose proof (from_supi_primary _ _ Ek) as Esk. rewrite Esk.
  destruct (String.eqb_spec k ("supi:" +:+ supi x)) as [Ekk|Hne].
  - destruct (resolved_entry x sk st n Hok Hu Hp Ek) as [Hr Hentry].
    apply wp_bind. unfold wp at 1. rewrite (at_key_run _ _ _ _ st) by done.
    cbn [fst snd]. rewrite Hr. intros _. simpl. rewrite Ekk in E |- *.
    apply (consistent_grow _ _ _ st); [done..|]. intros a v Hv.
    change (from_supi x = Ok sk) in Ek. unfold resolve_supi. run_steps. rewrite Hu, Hp, Ek. simpl.
    destruct a; simpl in *; rewrite ?Hu in Hv; try done. by apply not_elem_of_nil in Hv.
  - destruct (ue_states_by_key_ m' !! ("supi:" +:+ supi x)) as [st'|] eqn:E'.
    { destruct (merge_relock sk key Exclusive n m') as [Hrun _]; [by rewrite Hlock|].
      unfold wp. rewrite Hrun. by intros []. }
    apply wp_modify. cbn [ticks obj]. destruct (resolved_entry x sk st n Hok Hu Hp Ek) as [Hr Hentry].
    apply wp_bind. unfold wp at 1, local. cbn [ticks].
    destruct (resolve_supi x (World n st)) as [r [n' st']]. simpl in Hr, Hentry. subst r. simpl.
    apply wp_modify, wp_modify, wp_modify. intros _. simpl.
    apply (consistent_forget _ k), (consistent_attach _ _ ("supi:" +:+ supi x));
      [|simpl; apply lookup_insert_eq|set_solver].
    set (m2 := (remove_ue_indices st m') <| ue_states_by_key_ ::= delete k |>).
    set (K := {["supi:" +:+ supi x]} ∪ ({[k]} ∪ ∅) : gset string).
    change (consistent_but K (m2 <| ue_states_by_key_ ::= <["supi:" +:+ supi x := st']> |>)).
    apply consistent_store; [|set_solver|done].
    apply consistent_fresh.
    { apply consistent_delete; [|set_solver]. by apply consistent_detach. }
    simpl. rewrite lookup_delete_ne by done. by rewrite states_remove_ue.
Qed.
End Consistency.
