(* ===== verification/UeStateManagerSpec.v ===== *)
(** * What [UeStateManager] promises, and where it does not

    The consistency of the store and its indices over any sequence of calls, the functional
    behaviour of the calls, and the calls that block the calling thread or leave a stale index. *)

From S2P Require Import Prelude Effects CxxString UeKey UeState Events UeStateManager.

Abbreviation consistent := (consistent_but ∅).

(** ** Sequences of public calls *)

Section Reachability.
Context `{CommonModels} `{Clock} `{IterationOrder}.
Implicit Types (m : UeStateManager) (st : AfUeSubscriptionState) (p : PduSessionData).

(** What a provisional state may start from. *)
Definition initial_data_ok (key : UeKey) (data : option AfUeSubscriptionState) : Prop :=
  match data with
  | Some d => entry_ok (get_primary_key key) d ∧ gpsi_ d = None ∧ pdu_sessions_ d = []
  | None => True
  end.

(** [call m f]: on the manager [m], [f] is a public call with arguments it is meant for. *)
Inductive call m : ∀ {A}, M UeStateManager A → Prop :=
  | call_update st : entry_ok (get_primary_key (ue_key_ st)) st → call m (update_ue_state st)
  | call_create key data :
      filing_key key → initial_data_ok key data →
      call m (create_or_update_provisional_ue_state key data)
  | call_promote key x : unresolved key m → call m (promote_ue_state_to_resolved key x)
  | call_merge k1 k2 : get_primary_key k1 ≠ get_primary_key k2 → call m (merge_ue_states k1 k2)
  | call_remove key : call m (remove_ue_state key)
  | call_gpsi key g : call m (update_ue_gpsi key g)
  | call_location key i t : call m (update_ue_location_info key i t)
  | call_access key d : call m (update_ue_access_mobility_data key d)
  | call_policy key d : call m (update_ue_policy_data_info key d)
  | call_prose key i : call m (update_prose_pduid_information key i)
  | call_time_sync key b : call m (update_time_sync_service_availability key b)
  | call_coverage key c : call m (update_service_area_coverage_allowed key c)
  | call_throughput key b : call m (update_high_throughput_desired key b)
  | call_add_pdu key p : call m (add_or_update_pdu_session key p)
  | call_remove_pdu key id : call m (remove_pdu_session key id)
  | call_add_qod key id q : call m (add_qod_session_to_pdu_session key id q)
  | call_remove_qod key id q : call m (remove_qod_session_from_pdu_session key id q)
  | call_add_qod_ue key id q : filing_key key → call m (add_qod_session_to_ue key id q)
  | call_remove_qod_ue key q : call m (remove_qod_session_from_ue key q)
  | call_remove_identifier key t v : call m (remove_non_primary_ue_identifier key t v)
  | call_cleanup age : call m (cleanup_expired_provisional_states age)
  | call_all : call m get_all_ue_states
  | call_by_key key : call m (get_ue_state_by_key key)
  | call_by_supi x : call m (get_ue_state_by_supi x)
  | call_by_gpsi g : call m (get_ue_state_by_gpsi g)
  | call_by_ipv4 a : call m (get_ue_state_by_ipv4 a)
  | call_by_ipv6 a : call m (get_ue_state_by_ipv6_addr a)
  | call_by_ipv6_prefix x : call m (get_ue_state_by_ipv6_prefix x)
  | call_by_mac a : call m (get_ue_state_by_mac_addr a)
  | call_by_pdu id : call m (get_ue_state_by_pdu_session_id id)
  | call_qod_of_pdu key id : call m (get_qod_sessions_for_pdu_session key id)
  | call_pdu_of_qod q : call m (get_pdu_sessions_for_qod_session q)
  | call_find r b : call m (find_ue_states r b)
  | call_statistics : call m get_state_statistics
  | call_supi {A} (f : UeKey → M UeStateManager A) x :
      (∀ key, UeKey_supi x = Ok key → call m (f key)) → call m (with_supi_key f x).

Inductive reached : world UeStateManager → Prop :=
  | reached_new d n : reached (World n (UeStateManager_new d))
  | reached_call {A} w (f : M UeStateManager A) :
      reached w → call (obj w) f → defined (f w).1 → reached (f w).2.

(** *** The mutex *)

Lemma unlocked_after {A} mode (f : M UeStateManager A) w :
  rw_mtx_ (obj w) = Unlocked → rw_mtx_ (obj (with_lock rw_mtx_ mode f w).2) = Unlocked.
Proof. intros Hl. unfold with_lock. rewrite Hl. by destruct (f _) as [r w']. Qed.

Lemma unlocked_preserves {A} mode (f : M UeStateManager A) :
  preserves (λ m, rw_mtx_ m = Unlocked) (with_lock rw_mtx_ mode f).
Proof. intros w Hw _. by apply unlocked_after. Qed.

Lemma call_unlocks m {A} (f : M UeStateManager A) :
  call m f → preserves (λ m, rw_mtx_ m = Unlocked) f.
Proof.
  induction 1 as [| | | | | | | | | | | | | | | | |key [id|] q Hk| | | | | | | | | | | | | | | | |
    A f x _ IH]; try apply unlocked_preserves.
  - apply preserves_bind; intros; apply unlocked_preserves.
  - intros w Hw. unfold with_supi_key. apply wp_bind. unfold wp at 1, lift. simpl.
    destruct (UeKey_supi x) as [key|e|u] eqn:E; [|done..]. by apply IH.
Qed.

(** *** Consistency *)

Lemma setter_consistent key f :
  preserves ue_state_ok f →
  (∀ n st, supi_ (obj (f (World n st)).2) = supi_ st ∧ ue_key_ (obj (f (World n st)).2) = ue_key_ st ∧
           gpsi_ (obj (f (World n st)).2) = gpsi_ st ∧
           pdu_sessions_ (obj (f (World n st)).2) = pdu_sessions_ st) →
  preserves consistent (update_entry key f).
Proof.
  intros Hf Hs. apply update_entry_consistent; [done| |].
  - intros [n st]. destruct (Hs n st) as (? & ? & _). done.
  - intros [n st] a v Hv. destruct (Hs n st) as (E1 & _ & E2 & E3). simpl in Hv.
    destruct a; unfold values in *; by rewrite ?E1, ?E2, ?E3.
Qed.

Ltac simple_setter := apply setter_consistent; [done|by intros].

(** The lookups that go through another lookup. *)
Lemma nested_lookup_consistent {K} mode (i : UeStateManager → option string) (r : result K)
    (f : K → UeKey) :
  preserves consistent (with_lock rw_mtx_ mode
    (m ← get; match i m with Some _ => key ← lift r; get_ue_state_by_key (f key) | None => mret None end)).
Proof.
  apply locked_preserves. repeat preserves_step. apply reads_preserve.
Qed.

Lemma call_consistent {A} (f : M UeStateManager A) n m :
  call m f → consistent m → wp f (λ r w', defined r → consistent (obj w')) (World n m).
Proof.
  intros Hc Hm.
  destruct setters_ok as (_ & H2 & H3 & H4 & H5 & H6 & H7 & H8 & _).
  induction Hc as [st Hst|key data Hk Hd|key x Hu|k1 k2 Hne| | | | | | | | | | | | | |key id q Hk
    | | | | | | | | | | | | | | | | |A f x _ IH].
  all: lazymatch goal with
    | |- wp (promote_ue_state_to_resolved _ _) _ _ => idtac
    | |- wp (with_supi_key _ _) _ _ => idtac
    | _ => apply preserves_from; [|exact Hm]
    end.
  all: try lazymatch goal with
    | |- preserves _ (update_ue_state _) => by apply update_ue_state_consistent
    | |- preserves _ (create_or_update_provisional_ue_state _ _) =>
      by apply create_or_update_consistent
    | |- preserves _ (merge_ue_states _ _) => by apply merge_consistent
    | |- preserves _ (remove_ue_state _) => apply remove_ue_state_consistent
    | |- preserves _ (update_ue_gpsi _ _) => apply update_ue_gpsi_consistent
    | |- preserves _ (add_or_update_pdu_session _ _) => apply add_or_update_pdu_session_consistent
    | |- preserves _ (remove_pdu_session _ _) => apply remove_pdu_session_consistent
    | |- preserves _ (add_qod_session_to_pdu_session _ _ _) => apply update_qod_ids_consistent
    | |- preserves _ (remove_qod_session_from_pdu_session _ _ _) => apply update_qod_ids_consistent
    | |- preserves _ (add_qod_session_to_ue _ _ _) => by apply add_qod_session_to_ue_consistent
    | |- preserves _ (remove_qod_session_from_ue _ _) => apply remove_qod_session_from_ue_consistent
    | |- preserves _ (remove_non_primary_ue_identifier _ _ _) => apply remove_non_primary_consistent
    | |- preserves _ (cleanup_expired_provisional_states _) => apply cleanup_consistent
    | |- preserves _ (get_ue_state_by_gpsi _) => apply (nested_lookup_consistent _ _ _ id)
    | |- preserves _ (get_ue_state_by_ipv4 _) => apply (nested_lookup_consistent _ _ _ id)
    | |- preserves _ (get_ue_state_by_ipv6_addr _) => apply (nested_lookup_consistent _ _ _ id)
    | |- preserves _ (get_ue_state_by_ipv6_prefix _) => apply (nested_lookup_consistent _ _ _ id)
    | |- preserves _ (update_ue_location_info _ _ _) => simple_setter
    | |- preserves _ (update_ue_access_mobility_data _ _) => simple_setter
    | |- preserves _ (update_ue_policy_data_info _ _) => simple_setter
    | |- preserves _ (update_prose_pduid_information _ _) => simple_setter
    | |- preserves _ (update_time_sync_service_availability _ _) =>
      simple_setter
    | |- preserves _ (update_service_area_coverage_allowed _ _) =>
      simple_setter
    | |- preserves _ (update_high_throughput_desired _ _) => simple_setter
    | |- preserves _ _ => apply reads_preserve
    end.
  - by apply promote_consistent.
  - unfold with_supi_key. apply wp_bind. unfold wp at 1, lift. simpl.
    destruct (UeKey_supi x) as [key|e|u] eqn:E; [by apply IH|done|done].
Qed.

Lemma reached_consistent w : reached w → consistent (obj w) ∧ rw_mtx_ (obj w) = Unlocked.
Proof.
  induction 1 as [d n|A [n m] f _ [Hm Hl] Hc Hd]; [split; [apply consistent_new|done]|].
  split; [by apply call_consistent|by apply (call_unlocks m)].
Qed.

End Reachability.

(** ** Functional behaviour *)

Section Functional.
Context `{CommonModels} `{Clock} `{IterationOrder}.
Implicit Types (m : UeStateManager) (st : AfUeSubscriptionState) (p : PduSessionData).

Lemma unlock_again m mode :
  rw_mtx_ m = Unlocked → (m <| rw_mtx_ := mode |>) <| rw_mtx_ := Unlocked |> = m.
Proof. intros Hl. destruct m. simpl in *. by subst. Qed.

(** A read under the lock returns its value and leaves everything as it was. *)
Lemma read_run {A} mode (f : UeStateManager → A) n m :
  rw_mtx_ m = Unlocked → (∀ l, f (m <| rw_mtx_ := l |>) = f m) →
  with_lock rw_mtx_ mode (gets f) (World n m) = (Ok (f m), World n m).
Proof.
  intros Hl Hf. unfold with_lock. cbn [obj]. rewrite Hl.
  change ((Ok (f (m <| rw_mtx_ := mode |>)),
           World n ((m <| rw_mtx_ := mode |>) <| rw_mtx_ := Unlocked |>)) = (Ok (f m), World n m)).
  by rewrite Hf, unlock_again.
Qed.

Lemma get_by_key_run key n m :
  rw_mtx_ m = Unlocked →
  get_ue_state_by_key key (World n m) = (Ok (ue_states_by_key_ m !! get_primary_key key), World n m).
Proof. intros Hl. by apply (read_run Shared (λ m, ue_states_by_key_ m !! get_primary_key key)). Qed.

Lemma get_by_supi_run x n m :
  rw_mtx_ m = Unlocked →
  get_ue_state_by_supi x (World n m) =
    (Ok (key ← key_by_supi_ m !! supi x; ue_states_by_key_ m !! key), World n m).
Proof.
  intros Hl.
  by apply (read_run Shared (λ m, key ← key_by_supi_ m !! supi x; ue_states_by_key_ m !! key)).
Qed.

Lemma update_ue_state_run st n m :
  rw_mtx_ m = Unlocked →
  ∃ m', update_ue_state st (World n m) = (Ok (), World n m') ∧ rw_mtx_ m' = Unlocked ∧
    ue_states_by_key_ m' = <[get_primary_key (ue_key_ st) := st]> (ue_states_by_key_ m) ∧
    (∀ x, supi_ st = Some x → key_by_supi_ m' !! supi x = Some (get_primary_key (ue_key_ st))).
Proof.
  intros Hl. unfold update_ue_state, with_lock, update_ue_state_internal, store. run_steps.
  rewrite Hl. cbn [upd]. simpl.
  set (k := get_primary_key (ue_key_ st)).
  destruct (ue_states_by_key_ m !! k) as [old|]; eexists; (split; [done|]); simpl.
  all: rewrite states_add_ue; simpl; rewrite ?states_remove_ue; split_and!; try done.
  all: intros x Hx.
  all: match goal with |- key_by_supi_ ?m !! _ = _ => change (index BySupi m !! supi x = Some k) end.
  all: rewrite add_ue_indices_lookup, decide_True; [done|]; simpl; rewrite Hx; simpl; set_solver.
Qed.

Lemma remove_ue_state_run key n m :
  rw_mtx_ m = Unlocked →
  ∃ m', remove_ue_state key (World n m) =
          (Ok (has_value (ue_states_by_key_ m !! get_primary_key key)), World n m') ∧
    rw_mtx_ m' = Unlocked ∧
    ue_states_by_key_ m' = delete (get_primary_key key) (ue_states_by_key_ m).
Proof.
  intros Hl. unfold remove_ue_state, with_lock. run_steps. rewrite Hl. cbn [upd]. simpl.
  destruct (ue_states_by_key_ m !! _) as [old|] eqn:E; eexists; (split; [done|]); simpl.
  - by rewrite states_remove_ue.
  - split; [done|]. by rewrite delete_id.
Qed.

(** C37: storing a state and looking it up agree.  After [update_ue_state] (which always succeeds)
    the lookup by key finds the new state under its key and what was there before under every
    other key, and the lookup by SUPI finds a state with a SUPI; [remove_ue_state] reports whether
    there was a state, and only its key is then free. *)
Theorem update_get_remove st key n m :
  rw_mtx_ m = Unlocked →
  (∃ w', update_ue_state st (World n m) = (Ok (), w') ∧
     (∀ key', (get_ue_state_by_key key' w').1 =
        Ok (if ue_key_eqb (ue_key_ st) key' then Some st
            else ue_states_by_key_ m !! get_primary_key key')) ∧
     (∀ x, supi_ st = Some x → (get_ue_state_by_supi x w').1 = Ok (Some st))) ∧
  (∃ w', remove_ue_state key (World n m) =
           (Ok (has_value (ue_states_by_key_ m !! get_primary_key key)), w') ∧
     ∀ key', (get_ue_state_by_key key' w').1 =
        Ok (if ue_key_eqb key key' then None else ue_states_by_key_ m !! get_primary_key key')).
Proof.
  intros Hl. split.
  - destruct (update_ue_state_run st n m Hl) as (m' & Hrun & Hl' & Hs & Hx).
    eexists. split; [exact Hrun|]. split.
    + intros key'. rewrite get_by_key_run by done. rewrite Hs, lookup_insert. unfold ue_key_eqb.
      simpl. repeat case_decide; string_cases; by simplify_eq.
    + intros x Hsx. rewrite get_by_supi_run by done. rewrite (Hx x Hsx). simpl.
      by rewrite Hs, lookup_insert_eq.
  - destruct (remove_ue_state_run key n m Hl) as (m' & Hrun & Hl' & Hs).
    eexists. split; [exact Hrun|].
    intros key'. rewrite get_by_key_run by done. rewrite Hs, lookup_delete. unfold ue_key_eqb. simpl.
    repeat case_decide; string_cases; by simplify_eq.
Qed.

(** The lookup by SUPI is sound: what it returns has the SUPI asked for and is the state filed
    under it. *)
Theorem get_by_supi_sound x w st :
  reached w → (get_ue_state_by_supi x w).1 = Ok (Some st) →
  supi_ st = Some x ∧ ue_states_by_key_ (obj w) !! ("supi:" +:+ supi x) = Some st.
Proof.
  destruct w as [n m]. intros [Hm Hl]%reached_consistent. rewrite get_by_supi_run by done. simpl.
  destruct (key_by_supi_ m !! supi x) as [k|] eqn:E; simpl; [|done]. intros [= Hst].
  destruct (cb_index _ _ Hm BySupi _ _ E) as (_ & st' & Hst' & Hv). simpl in Hm, Hst'.
  assert (st' = st) as -> by congruence. simpl in Hv.
  destruct (supi_ st) as [[y]|] eqn:Es; simpl in Hv; [|by apply not_elem_of_nil in Hv].
  apply list_elem_of_singleton in Hv. destruct x as [x]. simpl in *. subst y. split; [done|].
  pose proof (eo_supi _ _ (cb_entry _ _ Hm _ _ Hst) _ Es) as Hk. simpl in Hk. by rewrite <-Hk.
Qed.
(** *** Cleanup *)

Lemma erase_all_run (keys : list string) n m :
  ∃ m', for_each keys (λ key,
      m ← get;
      match ue_states_by_key_ m !! key with
      | Some st =>
        modify (remove_ue_indices st) ;;
        modify (λ m, m <| ue_states_by_key_ ::= delete key |>)
      | None => mret ()
      end) (World n m) = (Ok (), World n m') ∧
    ∀ k, ue_states_by_key_ m' !! k = if decide (k ∈ keys) then None else ue_states_by_key_ m !! k.
Proof.
  revert m. induction keys as [|k keys IH]; intros m; cbn [for_each].
  { exists m. split; [done|]. intros k. by rewrite decide_False by apply not_elem_of_nil. }
  run_steps. destruct (ue_states_by_key_ m !! k) as [st|] eqn:E.
  - destruct (IH ((remove_ue_indices st m) <| ue_states_by_key_ ::= delete k |>)) as (m' & Hrun & Hs).
    exists m'. split; [exact Hrun|]. intros k'. rewrite Hs. simpl.
    rewrite lookup_delete, states_remove_ue.
    repeat case_decide; rewrite elem_of_cons in *; naive_solver.
  - destruct (IH m) as (m' & Hrun & Hs). exists m'. split; [exact Hrun|].
    intros k'. rewrite Hs. repeat case_decide; rewrite elem_of_cons in *; naive_solver.
Qed.

Lemma elem_of_visit {V} (mp : gmap string V) k v : (k, v) ∈ visit mp ↔ mp !! k = Some v.
Proof. by rewrite (visit_perm mp), elem_of_map_to_list. Qed.

Lemma expired_provisional_spec max_age t st :
  expired_provisional max_age t st =
    bool_decide (resolution_state_ st = PROVISIONAL ∧
                 max_age < Z.quot (t - created_at_ st) nanoseconds_per_second).
Proof.
  unfold expired_provisional. rewrite bool_decide_and. f_equal.
  apply eq_bool_prop_intro. rewrite Is_true_true, Z.ltb_lt. by rewrite bool_decide_spec.
Qed.

(** Cleanup removes exactly the provisional states older than the limit: afterwards a lookup by
    key finds what it found before, unless that was a provisional state created more than
    [max_age] whole seconds before the reading of the clock at the start. *)
Theorem cleanup_spec max_age n m :
  rw_mtx_ m = Unlocked →
  ∃ w', cleanup_expired_provisional_states max_age (World n m) = (Ok (), w') ∧
    ∀ key, (get_ue_state_by_key key w').1 =
      Ok (st ← ue_states_by_key_ m !! get_primary_key key;
          if decide (resolution_state_ st = PROVISIONAL ∧
                     max_age < Z.quot (clock n - created_at_ st) nanoseconds_per_second)
          then None else Some st).
Proof.
  intros Hl. unfold cleanup_expired_provisional_states, with_lock. cbn [obj ticks]. rewrite Hl.
  cbv [mbind M_bind now get]. cbn [obj ticks].
  match goal with |- context [for_each ?l _ (World ?n ?m)] =>
    destruct (erase_all_run l n m) as (m' & Hrun & Hs) end.
  cbv [mbind M_bind now get] in Hrun. cbn [obj ticks] in Hrun.
  rewrite Hrun. eexists. split; [done|]. intros key. rewrite get_by_key_run by done. simpl.
  rewrite Hs. simpl. f_equal.
  destruct (ue_states_by_key_ m !! get_primary_key key) as [st|] eqn:E; simpl.
  - case_decide as Hd.
    + apply list_elem_of_fmap in Hd as ([k st'] & Hk & Hd). simpl in Hk. subst k.
      apply list_elem_of_filter in Hd as [Hx Hd]. apply elem_of_visit in Hd. simpl in Hd.
      simplify_eq. rewrite expired_provisional_spec in Hx. apply bool_decide_eq_true in Hx.
      by rewrite decide_True.
    + case_decide as Hx; [|done]. exfalso. apply Hd.
      apply (bool_decide_eq_true_2 _) in Hx. rewrite <- expired_provisional_spec in Hx.
      apply list_elem_of_fmap. exists (get_primary_key key, st). split; [done|].
      apply list_elem_of_filter. split; [done|]. by apply elem_of_visit.
  - by case_decide.
Qed.

(** *** Searches over all states *)

(** [find_ue_states] returns exactly the stored states that meet the criteria, each once per
    key, [get_all_ue_states] all of them, and the searches by MAC address and by PDU session id
    return a stored state that has such a session, if there is one; whatever the order in which
    the unordered map is traversed. *)
Theorem searches_spec n m :
  rw_mtx_ m = Unlocked →
  (∀ r b, ∃ l, (find_ue_states r b (World n m)).1 = Ok l ∧
     l ≡ₚ filter (λ st, matches_criteria r b st = true) (map_to_list (ue_states_by_key_ m)).*2) ∧
  (∃ l, (get_all_ue_states (World n m)).1 = Ok l ∧ l ≡ₚ (map_to_list (ue_states_by_key_ m)).*2) ∧
  (∀ id, ∃ o, (get_ue_state_by_pdu_session_id id (World n m)).1 = Ok o ∧
     match o with
     | Some st => (∃ k, ue_states_by_key_ m !! k = Some st) ∧
                  id ∈ pdu_session_id <$> pdu_sessions_ st
     | None => ∀ k st, ue_states_by_key_ m !! k = Some st → id ∉ pdu_session_id <$> pdu_sessions_ st
     end).
Proof.
  intros Hl. unfold find_ue_states, get_all_ue_states, get_ue_state_by_pdu_session_id.
  split_and!; intros; rewrite (read_run _ _ n m Hl) by done; eexists; (split; [done|]); simpl.
  - apply filter_Permutation. by rewrite (visit_perm (ue_states_by_key_ m)).
  - by rewrite (visit_perm (ue_states_by_key_ m)).
  - unfold first_with_pdu_session.
    destruct (find_first _ (visit (ue_states_by_key_ m))) as [[k st]|] eqn:E; simpl.
    + apply find_first_Some in E as [Hk Hex]. apply elem_of_visit in Hk. split; [eauto|].
      apply existsb_exists in Hex as (p & Hp & Hid). apply list_elem_of_In in Hp.
      apply has_id_true in Hid as <-. by apply list_elem_of_fmap_2.
    + intros k st Hk Hid. apply find_pdu_ids in Hid; [done|]. clear Hid.
      rewrite find_first_None in E. specialize (E (k, st)). rewrite elem_of_visit in E.
      specialize (E Hk). simpl in E. apply find_first_None. intros p Hp.
      apply not_true_iff_false. intros Hid. apply not_true_iff_false in E. apply E.
      apply existsb_exists. exists p. split; [by apply list_elem_of_In|done].
Qed.
(** *** QoD sessions of PDU sessions *)

Lemma find_update_first id f (l : list PduSessionData) :
  (∀ p, pdu_session_id (f p) = pdu_session_id p) →
  find_first (has_id id) (update_first (has_id id) f l) = f <$> find_first (has_id id) l.
Proof.
  intros Hf. induction l as [|p l IH]; simpl; [done|].
  destruct (has_id id p) eqn:E; simpl; [|by rewrite E].
  unfold has_id in *. by rewrite Hf, E.
Qed.

Lemma update_qod_ids_run key id f n m :
  rw_mtx_ m = Unlocked →
  match st ← ue_states_by_key_ m !! get_primary_key key; find_first (has_id id) (pdu_sessions_ st) with
  | Some p =>
    ∃ n' m', update_qod_ids key id f (World n m) = (Ok true, World n' m') ∧ rw_mtx_ m' = Unlocked ∧
      (st ← ue_states_by_key_ m' !! get_primary_key key; find_first (has_id id) (pdu_sessions_ st)) =
      Some (p <| active_qod_session_ids ::= f |>)
  | None => update_qod_ids key id f (World n m) = (Ok false, World n m)
  end.
Proof.
  intros Hl. unfold update_qod_ids, with_lock. cbn [obj ticks]. rewrite Hl.
  cbv [mbind M_bind get]. cbn [obj ticks].
  change (ue_states_by_key_ (m <| rw_mtx_ := Exclusive |>)) with (ue_states_by_key_ m).
  destruct (ue_states_by_key_ m !! _) as [st|] eqn:E; simpl.
  - destruct (find_first (has_id id) (pdu_sessions_ st)) as [p|] eqn:Ef.
    + rewrite (at_key_run _ _ _ _ st) by done. eexists _, _. split; [done|]. split; [done|].
      simpl. rewrite lookup_insert_eq. simpl. by rewrite find_update_first, Ef.
    + destruct m. simpl in *. by subst.
  - destruct m. simpl in *. by subst.
Qed.

Lemma qod_sessions_run key id n m :
  rw_mtx_ m = Unlocked →
  get_qod_sessions_for_pdu_session key id (World n m) =
    (Ok (active_qod_session_ids <$>
         (st ← ue_states_by_key_ m !! get_primary_key key; find_first (has_id id) (pdu_sessions_ st))),
     World n m).
Proof.
  intros Hl. unfold get_qod_sessions_for_pdu_session. rewrite (read_run _ _ n m Hl) by done.
  by destruct (ue_states_by_key_ m !! _).
Qed.

(** Associating QoD sessions with a PDU session: adding one and asking for the sessions of the
    PDU session gives the old set and the new id, removing it again gives the old set without it,
    and for an unknown UE or PDU session both report failure and change nothing. *)
Theorem qod_association_spec key id q n m :
  rw_mtx_ m = Unlocked →
  match (get_qod_sessions_for_pdu_session key id (World n m)).1 with
  | Ok (Some ids) =>
    ∃ w' w'', add_qod_session_to_pdu_session key id q (World n m) = (Ok true, w') ∧
      (get_qod_sessions_for_pdu_session key id w').1 = Ok (Some ({[q]} ∪ ids)) ∧
      remove_qod_session_from_pdu_session key id q w' = (Ok true, w'') ∧
      (get_qod_sessions_for_pdu_session key id w'').1 = Ok (Some (ids ∖ {[q]}))
  | Ok None =>
    add_qod_session_to_pdu_session key id q (World n m) = (Ok false, World n m) ∧
    remove_qod_session_from_pdu_session key id q (World n m) = (Ok false, World n m)
  | _ => False
  end.
Proof.
  intros Hl. rewrite qod_sessions_run by done. cbn [fst].
  unfold add_qod_session_to_pdu_session, remove_qod_session_from_pdu_session.
  pose proof (update_qod_ids_run key id (λ ids, {[q]} ∪ ids) n m Hl) as Ha.
  pose proof (update_qod_ids_run key id (λ ids, ids ∖ {[q]}) n m Hl) as Hr.
  destruct (ue_states_by_key_ m !! _ ≫= _) as [p|]; [|done]. simpl. clear Hr.
  destruct Ha as (n' & m' & Ha & Hl' & Hf).
  pose proof (update_qod_ids_run key id (λ ids, ids ∖ {[q]}) n' m' Hl') as Hr.
  pose proof (qod_sessions_run key id n' m' Hl') as Hg. rewrite Hf in Hr, Hg.
  destruct Hr as (n'' & m'' & Hr & Hl'' & Hf').
  pose proof (qod_sessions_run key id n'' m'' Hl'') as Hg'. rewrite Hf' in Hg'.
  eexists _, _. split; [exact Ha|]. rewrite Hg, Hg'. split_and!; [done|exact Hr|].
  simpl. do 2 f_equal. set_solver.
Qed.

(** *** Termination events *)

(** Removing a PDU session announces it exactly when the SUPI of the UE is known: each
    subscriber of the dispatcher then gets one event with that SUPI and session id.  Without a
    dispatcher (the default constructor leaves it null) the call dereferences a null pointer. *)
Theorem remove_pdu_session_publishes key id n m st :
  rw_mtx_ m = Unlocked → ue_states_by_key_ m !! get_primary_key key = Some st →
  id ∈ pdu_session_id <$> pdu_sessions_ st →
  match supi_ st, event_dispatcher_ m with
  | None, _ =>
    ∃ w', remove_pdu_session key id (World n m) = (Ok true, w') ∧
      event_dispatcher_ (obj w') = event_dispatcher_ m
  | Some x, Some d =>
    ∃ w', remove_pdu_session key id (World n m) = (Ok true, w') ∧
      delivered <$> event_dispatcher_ (obj w') =
        Some (delivered d ++
          ((λ callback, (callback, mkPduSessionTerminatedEvent x id)) <$> subscribers_ d))
  | Some _, None =>
    (remove_pdu_session key id (World n m)).1 = Undefined null_dereference
  end.
Proof.
  intros Hl E Hid. unfold remove_pdu_session, with_lock. cbn [obj ticks]. rewrite Hl.
  cbv [mbind M_bind get modify]. cbn [obj ticks].
  change (ue_states_by_key_ (m <| rw_mtx_ := Exclusive |>)) with (ue_states_by_key_ m). rewrite E.
  destruct (find_first _ _) as [old|] eqn:Ef; [|by apply find_pdu_ids in Ef].
  rewrite (at_key_run _ _ _ _ st) by (by rewrite states_remove_pdu).
  assert (Hd : ∀ k p m, event_dispatcher_ (remove_pdu_session_indices k p m) = event_dispatcher_ m).
  { intros k p m'. rewrite remove_pdu_session_indices_eq. unfold update_pdu_indices.
    rewrite !(foldl_field event_dispatcher_) by done. by destruct (ue_ipv4_address p). }
  destruct (supi_ st) as [x|]; cbv [publish_event mbind M_bind get modify]; simpl; rewrite Hd; simpl.
  - destruct (event_dispatcher_ m) as [d|] eqn:Em; simpl; [|done]. eexists. split; [done|].
    simpl. by rewrite ?Hd; simpl; rewrite ?Em.
  - eexists. split; [done|]. simpl. by rewrite ?Hd.
Qed.
End Functional.

(** ** Statistics *)

Section Statistics.
Context `{CommonModels} `{Clock} `{IterationOrder}.
Implicit Types (m : UeStateManager) (st : AfUeSubscriptionState) (p : PduSessionData).

Definition resolution_counter (r : ResolutionState) : string :=
  match r with
  | RESOLVED => "resolved_count" | PROVISIONAL => "provisional_count" | PARTIAL => "partial_count"
  end.

(** The number of QoD sessions of a state's PDU sessions. *)
Definition qod_count st : nat :=
  sum_list ((λ p, size (active_qod_session_ids p)) <$> pdu_sessions_ st).

Lemma sum_list_permutation (l l' : list nat) : l ≡ₚ l' → sum_list l = sum_list l'.
Proof. induction 1; simpl; lia. Qed.

Lemma bump_lookup name n stats name' :
  bump name n stats !! name' =
  if decide (name = name') then Some (value_or 0 (stats !! name) + n)%nat else stats !! name'.
Proof. unfold bump. by rewrite lookup_insert. Qed.

Lemma bump_sessions (l : list PduSessionData) stats name :
  is_Some (stats !! "active_qod_sessions") →
  foldl (λ stats p, bump "active_qod_sessions" (size (active_qod_session_ids p)) stats) stats l !! name =
  if decide (name = "active_qod_sessions")
  then Some (value_or 0 (stats !! name) + sum_list ((λ p, size (active_qod_session_ids p)) <$> l))%nat
  else stats !! name.
Proof.
  revert stats. induction l as [|p l IH]; intros stats Hs; csimpl.
  - case_decide as E; [subst name|done]. destruct Hs as [x ->]. simpl. by rewrite Nat.add_0_r.
  - rewrite IH by (rewrite bump_lookup, decide_True by done; eauto). rewrite bump_lookup.
    case_decide as E; [subst name; rewrite decide_True by done; simpl; f_equal; lia|].
    by rewrite decide_False.
Qed.

(** The counters after the loop over the states [l]. *)
Lemma statistics_loop (l : list (string * AfUeSubscriptionState)) stats r :
  is_Some (stats !! "active_qod_sessions") → is_Some (stats !! resolution_counter r) →
  let stats' := foldl (λ stats '(_, st),
      let stats := match resolution_state_ st with
                   | RESOLVED => bump "resolved_count" 1 stats
                   | PROVISIONAL => bump "provisional_count" 1 stats
                   | PARTIAL => bump "partial_count" 1 stats
                   end in
      foldl (λ stats p, bump "active_qod_sessions" (size (active_qod_session_ids p)) stats)
        stats (pdu_sessions_ st)) stats l in
  stats' !! resolution_counter r =
    Some (value_or 0 (stats !! resolution_counter r) +
          length (filter (λ '(_, st), resolution_state_ st = r) l))%nat ∧
  stats' !! "active_qod_sessions" =
    Some (value_or 0 (stats !! "active_qod_sessions") + sum_list (qod_count <$> l.*2))%nat ∧
  stats' !! "total_states" = stats !! "total_states".
Proof.
  revert stats. induction l as [|[k st] l IH]; intros stats Hq Hr; cbn [foldl].
  { destruct Hq as [x Hx], Hr as [y Hy]. rewrite Hx, Hy. simpl. by rewrite !Nat.add_0_r. }
  set (stats1 := match resolution_state_ st with RESOLVED => _ | _ => _ end).
  assert (E1 : ∀ name, stats1 !! name =
    if decide (resolution_counter (resolution_state_ st) = name)
    then Some (value_or 0 (stats !! name) + 1)%nat else stats !! name).
  { intros name. unfold stats1. destruct (resolution_state_ st); rewrite bump_lookup; simpl;
      by case_decide; subst. }
  assert (Hq1 : stats1 !! "active_qod_sessions" = stats !! "active_qod_sessions")
    by (rewrite E1; destruct (resolution_state_ st); by rewrite decide_False).
  set (stats2 := foldl _ stats1 (pdu_sessions_ st)).
  assert (E2 : ∀ name, stats2 !! name =
    if decide (name = "active_qod_sessions")
    then Some (value_or 0 (stats !! name) + qod_count st)%nat else stats1 !! name).
  { intros name. unfold stats2. rewrite bump_sessions by by rewrite Hq1.
    case_decide as E; [subst name|done]. by rewrite Hq1. }
  assert (Hr2 : stats2 !! resolution_counter r = stats1 !! resolution_counter r)
    by (rewrite E2, decide_False; [done|by destruct r]).
  destruct (IH stats2) as (F1 & F2 & F3).
  - rewrite E2, decide_True by done. eauto.
  - rewrite Hr2, E1. case_decide; [by eauto|done].
  - cbv zeta in *. rewrite F1, F2, F3. rewrite Hr2, E1, !E2, filter_cons. csimpl.
    split_and!.
    + destruct (decide (resolution_state_ st = r)) as [E|E].
      * rewrite E, decide_True by done. simpl. f_equal. lia.
      * rewrite decide_False by (by destruct (resolution_state_ st), r). done.
    + f_equal. lia.
    + rewrite E1. by destruct (resolution_state_ st).
Qed.

(** The statistics count what they say: all states, the states in each resolution state, and
    the QoD sessions over all PDU sessions of all states; whatever the order of traversal. *)
Theorem statistics_spec n m :
  rw_mtx_ m = Unlocked →
  ∃ stats, get_state_statistics (World n m) = (Ok stats, World n m) ∧
    stats !! "total_states" = Some (size (ue_states_by_key_ m)) ∧
    (∀ r, stats !! resolution_counter r =
          Some (length (filter (λ '(_, st), resolution_state_ st = r)
                          (map_to_list (ue_states_by_key_ m))))) ∧
    stats !! "active_qod_sessions" =
      Some (sum_list (qod_count <$> (map_to_list (ue_states_by_key_ m)).*2)).
Proof.
  intros Hl. unfold get_state_statistics. rewrite (read_run _ _ n m Hl) by done.
  set (stats0 := <["total_states" := _]> _). eexists. split; [done|].
  pose proof (λ r, statistics_loop (visit (ue_states_by_key_ m)) stats0 r (ltac:(by eexists))) as Hloop.
  split_and!.
  - destruct (Hloop RESOLVED) as (_ & _ & Ht); [by eexists|]. cbv zeta in Ht. by rewrite Ht.
  - intros r. destruct (Hloop r) as (Hr & _); [by destruct r; eexists|]. cbv zeta in Hr. rewrite Hr.
    f_equal. transitivity (length (filter (λ '(_, st), resolution_state_ st = r)
      (visit (ue_states_by_key_ m)))); [by destruct r|].
    apply Permutation_length, filter_Permutation, visit_perm.
  - destruct (Hloop RESOLVED) as (_ & Hq & _); [by eexists|]. cbv zeta in Hq. rewrite Hq.
    f_equal. simpl. apply sum_list_permutation. by rewrite (visit_perm (ue_states_by_key_ m)).
Qed.
End Statistics.

(** ** Calls that block, and calls that leave an index stale *)

Section Defects.
Context `{CommonModels} `{Clock} `{IterationOrder}.
Implicit Types (m : UeStateManager) (st : AfUeSubscriptionState) (p : PduSessionData).

Lemma nested_lookup_run (i : UeStateManager → option string) (r : result UeKey) mode n m :
  rw_mtx_ m = Unlocked → mode ≠ Unlocked → (∀ l, i (m <| rw_mtx_ := l |>) = i m) →
  with_lock rw_mtx_ mode
    (m ← get; match i m with Some _ => key ← lift r; get_ue_state_by_key key | None => mret None end)
    (World n m) =
  (match i m, r with
   | None, _ => Ok None
   | Some _, Ok _ => Undefined (relock mode Shared)
   | Some _, Throw e => Throw e
   | Some _, Undefined u => Undefined u
   end, World n m).
Proof.
  intros Hl Hmode Hi. unfold with_lock at 1. cbn [obj ticks]. rewrite Hl.
  cbv [mbind M_bind get lift]. cbn [obj ticks]. rewrite Hi.
  assert (Hg : ∀ key, get_ue_state_by_key key (World n (m <| rw_mtx_ := mode |>)) =
            (Undefined (relock mode Shared), World n (m <| rw_mtx_ := mode |>))).
  { intros key. unfold get_ue_state_by_key, with_lock. by destruct mode. }
  assert (Hm : (m <| rw_mtx_ := mode |>) <| rw_mtx_ := Unlocked |> = m) by by apply unlock_again.
  destruct (i m) as [k|]; [destruct r as [key|e|u]; [rewrite Hg| |]|];
    cbv [mret M_ret]; cbn [obj ticks]; by rewrite Hm.
Qed.

Lemma gpsi_lookup_run n m g :
  rw_mtx_ m = Unlocked →
  (get_ue_state_by_gpsi g (World n m)).1 =
    match key_by_gpsi_ m !! gpsi g, UeKey_gpsi g with
    | None, _ => Ok None
    | Some _, Ok _ => Undefined (relock Shared Shared)
    | Some _, Throw e => Throw e | Some _, Undefined u => Undefined u
    end.
Proof.
  intros Hl. unfold get_ue_state_by_gpsi.
  by rewrite (nested_lookup_run (λ m, key_by_gpsi_ m !! gpsi g)) by done.
Qed.

(** The lookups by GPSI, IPv4 address, IPv6 address and IPv6 prefix never find a UE: on a free
    manager the call returns nothing when the index has no entry; when it has one, the call throws
    on a malformed value and otherwise takes the mutex it already holds. *)
Theorem secondary_lookups_block n m g a4 a6 x6 :
  rw_mtx_ m = Unlocked →
  (get_ue_state_by_gpsi g (World n m)).1 =
    match key_by_gpsi_ m !! gpsi g, UeKey_gpsi g with
    | None, _ => Ok None
    | Some _, Ok _ => Undefined (relock Shared Shared)
    | Some _, Throw e => Throw e | Some _, Undefined u => Undefined u
    end ∧
  (get_ue_state_by_ipv4 a4 (World n m)).1 =
    match key_by_ipv4_addr_ m !! ipv4 a4, UeKey_ipv4 a4 with
    | None, _ => Ok None
    | Some _, Ok _ => Undefined (relock Exclusive Shared)
    | Some _, Throw e => Throw e | Some _, Undefined u => Undefined u
    end ∧
  (get_ue_state_by_ipv6_addr a6 (World n m)).1 =
    match key_by_ipv6_addr_ m !! ipv6 a6, UeKey_ipv6 a6 with
    | None, _ => Ok None
    | Some _, Ok _ => Undefined (relock Exclusive Shared)
    | Some _, Throw e => Throw e | Some _, Undefined u => Undefined u
    end ∧
  (get_ue_state_by_ipv6_prefix x6 (World n m)).1 =
    match key_by_ipv6_prefix_ m !! ipv6_prefix x6, UeKey_ipv6_prefix x6 with
    | None, _ => Ok None
    | Some _, Ok _ => Undefined (relock Exclusive Shared)
    | Some _, Throw e => Throw e | Some _, Undefined u => Undefined u
    end.
Proof.
  intros Hl. rewrite gpsi_lookup_run by done.
  unfold get_ue_state_by_ipv4, get_ue_state_by_ipv6_addr, get_ue_state_by_ipv6_prefix.
  rewrite (nested_lookup_run (λ m, key_by_ipv4_addr_ m !! ipv4 a4)) by done.
  rewrite (nested_lookup_run (λ m, key_by_ipv6_addr_ m !! ipv6 a6)) by done.
  by rewrite (nested_lookup_run (λ m, key_by_ipv6_prefix_ m !! ipv6_prefix x6)) by done.
Qed.

(** Two states of one UE cannot be brought together by promotion: when a state is already
    filed under the SUPI, [promote_ue_state_to_resolved] calls [merge_ue_states], which takes the
    mutex the caller holds; and merging a state with itself uses a reference to the entry that the
    merge has just erased. *)
Theorem promote_and_merge_undefined key key' x sk n m st st' :
  rw_mtx_ m = Unlocked → ue_states_by_key_ m !! get_primary_key key = Some st →
  (UeKey_supi x = Ok sk → get_primary_key key ≠ get_primary_key sk →
   ue_states_by_key_ m !! get_primary_key sk = Some st' →
   (promote_ue_state_to_resolved key x (World n m)).1 = Undefined (relock Exclusive Exclusive)) ∧
  (get_primary_key key' = get_primary_key key →
   known_ipv4_addresses_ st = [] → known_ipv6_addresses_ st = [] → known_gpsi_values_ st = [] →
   (merge_ue_states key key' (World n m)).1 = Undefined dangling_reference).
Proof.
  intros Hl E. split.
  - intros Ek Hne E'. unfold promote_ue_state_to_resolved, with_lock at 1. cbn [obj ticks]. rewrite Hl.
    cbv [mbind M_bind get lift]. cbn [obj ticks]. simpl. rewrite E. rewrite Ek.
    destruct (String.eqb_spec (get_primary_key key) (get_primary_key sk)); [done|].
    simpl. rewrite E'. unfold merge_ue_states, with_lock. done.
  - intros Ekk H4 H6 Hg. unfold merge_ue_states, with_lock. cbn [obj ticks]. rewrite Hl.
    cbv [mbind M_bind get modify]. cbn [obj ticks]. rewrite Ekk. simpl. rewrite E.
    rewrite H4, H6, Hg. cbn [for_each]. cbv [mret M_ret].
    destruct (merge_pdu_sessions _ _) as [merged modified].
    rewrite (at_key_run _ _ _ _ st) by (simpl; by rewrite !states_remove_ue).
    cbn [fst snd]. destruct modified; cbv [when mret M_ret].
    + rewrite (at_key_run _ _ _ _ (st <| pdu_sessions_ := merged |>))
        by (simpl; by rewrite lookup_insert_eq).
      simpl. by rewrite lookup_delete_eq.
    + simpl. by rewrite lookup_delete_eq.
Qed.

(** Two updates the indices miss.  Updating an existing state with initial data that has a
    GPSI changes the GPSI of the state but not the index; and promoting a provisional state that
    is already filed under its SUPI gives the state its SUPI, but the lookup by SUPI still returns
    what it returned before. *)
Theorem unindexed_updates key x sk n m st d g :
  rw_mtx_ m = Unlocked → ue_states_by_key_ m !! get_primary_key key = Some st →
  (gpsi_ d = Some g →
   ∃ w' st', (create_or_update_provisional_ue_state key (Some d) (World n m)) = (Ok st', w') ∧
     gpsi_ st' = Some g ∧ ue_states_by_key_ (obj w') !! get_primary_key key = Some st' ∧
     key_by_gpsi_ (obj w') = key_by_gpsi_ m) ∧
  (UeKey_supi x = Ok sk → get_primary_key key = get_primary_key sk → supi_ st = None →
   key_by_supi_ m !! supi x = None →
   ∃ w' st', promote_ue_state_to_resolved key x (World n m) = (Ok true, w') ∧
     (get_ue_state_by_key key w').1 = Ok (Some st') ∧ supi_ st' = Some x ∧
     (get_ue_state_by_supi x w').1 = Ok None).
Proof.
  intros Hl E. split.
  - intros Hg. unfold create_or_update_provisional_ue_state, with_lock. cbn [obj ticks]. rewrite Hl.
    cbv [mbind M_bind get]. cbn [obj ticks]. simpl. rewrite E.
    rewrite (at_key_run _ _ _ _ st) by done.
    set (w1 := merge_initial_data d _).
    assert (Hw : w1.1 = Ok () ∧ gpsi_ (obj w1.2) = Some g).
    { unfold w1, merge_initial_data. rewrite Hg.
      assert (Hloop : ∀ l n s, ∃ n' s', for_each l UeState.add_or_update_pdu_session (World n s) =
                (Ok (), World n' s') ∧ gpsi_ s' = gpsi_ s).
      { induction l as [|p l IH]; intros n1 s; cbn [for_each]; [by eexists _, _|].
        cbv [mbind M_bind]. rewrite add_or_update_pdu_session_run.
        destruct (IH (S n1) (s <| pdu_sessions_ ::= put_pdu_session p |> <| last_updated_ := clock n1 |>))
          as (n' & s' & Hrun & Hs). rewrite Hrun. by eexists _, _. }
      cbv [mbind M_bind].
      destruct (location_info_ d), (access_mobility_data_ d), (ue_policy_data_info_ d); simpl;
        match goal with |- context [for_each ?l _ (World ?n ?s)] =>
          destruct (Hloop l n s) as (? & ? & Hrun & Hs); rewrite Hrun; simpl; by rewrite Hs end. }
    destruct w1 as [r [n1 s1]]. simpl in Hw. destruct Hw as [-> Hs]. cbn [fst snd].
    rewrite (at_key_run _ _ _ _ s1) by (simpl; by rewrite lookup_insert_eq).
    eexists _, s1. split; [done|]. split; [done|]. simpl. by rewrite lookup_insert_eq.
  - intros Ek Ekk Hn Hx. unfold promote_ue_state_to_resolved, with_lock at 1. cbn [obj ticks]. rewrite Hl.
    cbv [mbind M_bind get lift]. cbn [obj ticks]. simpl. rewrite E, Ek.
    rewrite <-Ekk, String.eqb_refl. rewrite (at_key_run _ _ _ _ st) by done.
    assert (Hr : (resolve_supi x (World n st)).1 = Ok () ∧
                 supi_ (obj (resolve_supi x (World n st)).2) = Some x).
    { unfold resolve_supi. run_steps. rewrite Hn. destruct (can_promote_to_supi _); [done|].
      change (from_supi x = Ok sk) in Ek. by rewrite Ek. }
    destruct (resolve_supi x (World n st)) as [r [n1 s1]]. simpl in Hr. destruct Hr as [-> Hs].
    cbn [fst snd obj ticks]. cbv [mret M_ret]. cbn [obj ticks].
    eexists (World _ _), s1. split; [done|]. rewrite get_by_key_run, get_by_supi_run by done. simpl.
    rewrite lookup_insert_eq, Hx. done.
Qed.
End Defects.

(** ** Witnesses *)

Section Witnesses.
#[local] Existing Instances unit_models tick_clock tree_order.

Definition example_key : UeKey := single IPV4_BASED "10.45.0.2".
Definition example_supi : Supi := mkSupi "imsi-001010000000001".
Definition example_pdu : PduSessionData :=
  PduSessionData_default <| pdu_session_id := "5" |>
                         <| ue_ipv4_address := Some (mkIpv4Addr "10.45.0.2") |>.
(** A UE known by its IPv4 address, with one PDU session and one GPSI. *)
Definition example_ue : AfUeSubscriptionState :=
  example_state <| pdu_sessions_ := [example_pdu] |> <| gpsi_ := Some (mkGpsi "+491701234567") |>.
Definition empty_manager : UeStateManager := UeStateManager_new (Some (mkEventDispatcher [7%nat] [])).
(** A manager holding that UE. *)
Definition example_manager : UeStateManager :=
  obj (update_ue_state example_ue (World 0 empty_manager)).2.

Lemma example_key_ok : program_key example_key.
Proof. apply (key_made "10.45.0.2" IPV4_BASED). by vm_compute. Qed.

Lemma example_entry : entry_ok (get_primary_key example_key) example_ue.
Proof.
  split; [|vm_compute; reflexivity|by intros|vm_compute; reflexivity].
  pose proof (blank_ok example_key 0 0 example_key_ok) as [].
  split; [apply NoDup_singleton|assumption..].
Qed.

Lemma example_reached : reached (World 0 example_manager).
Proof.
  change (World 0 example_manager) with (update_ue_state example_ue (World 0 empty_manager)).2.
  apply reached_call; [apply reached_new|by apply call_update, example_entry|done].
Qed.


Lemma update_get_remove_witness :
  ∃ w', update_ue_state example_ue (World 0 empty_manager) = (Ok (), w') ∧
        (get_ue_state_by_key example_key w').1 = Ok (Some example_ue).
Proof.
  destruct (update_get_remove example_ue example_key 0 empty_manager eq_refl) as [(w' & E & Hg & _) _].
  exists w'. split; [exact E|]. rewrite Hg. vm_compute. reflexivity.
Defined.

Lemma get_by_supi_sound_witness :
  ∃ w st, (get_ue_state_by_supi example_supi w).1 = Ok (Some st) ∧ supi_ st = Some example_supi.
Proof.
  set (st := obj (resolve_supi example_supi (World 0 example_ue)).2).
  assert (Hst : reached (update_ue_state st (World 0 empty_manager)).2).
  { apply reached_call; [apply reached_new| |done]. apply call_update.
    apply (resolved_entry example_supi (single SUPI_BASED "imsi-001010000000001") example_ue 0);
      [apply example_entry|done|vm_compute; reflexivity|vm_compute; reflexivity]. }
  exists (update_ue_state st (World 0 empty_manager)).2, st. split; [vm_compute; reflexivity|].
  refine (proj1 (get_by_supi_sound example_supi _ st Hst _)). vm_compute. reflexivity.
Defined.

Lemma cleanup_spec_witness :
  ∃ w', cleanup_expired_provisional_states 60 (World 100 example_manager) = (Ok (), w') ∧
        (get_ue_state_by_key example_key w').1 = Ok None.
Proof.
  destruct (cleanup_spec 60 100 example_manager eq_refl) as (w' & E & Hg).
  exists w'. split; [exact E|]. rewrite Hg. vm_compute. reflexivity.
Defined.

Lemma searches_spec_witness :
  ∃ l, (find_ue_states (Some PROVISIONAL) (Some false) (World 0 example_manager)).1 = Ok l ∧
       l ≡ₚ [example_ue].
Proof.
  destruct (searches_spec 0 example_manager eq_refl) as [Hf _].
  destruct (Hf (Some PROVISIONAL) (Some false)) as (l & E & Hl).
  exists l. split; [exact E|]. etransitivity; [exact Hl|]. vm_compute. reflexivity.
Defined.

Lemma qod_association_spec_witness :
  ∃ w', add_qod_session_to_pdu_session example_key "5" "q1" (World 0 example_manager) = (Ok true, w').
Proof.
  pose proof (qod_association_spec example_key "5" "q1" 0 example_manager eq_refl) as Hq.
  assert (E : (get_qod_sessions_for_pdu_session example_key "5" (World 0 example_manager)).1 =
              Ok (Some ∅)) by (vm_compute; reflexivity).
  rewrite E in Hq. destruct Hq as (w' & w'' & Ha & _). exists w'. exact Ha.
Defined.

Lemma remove_pdu_session_publishes_witness :
  ∃ w', remove_pdu_session example_key "5" (World 0 example_manager) = (Ok true, w').
Proof.
  assert (E : ue_states_by_key_ example_manager !! get_primary_key example_key = Some example_ue)
    by (vm_compute; reflexivity).
  assert (Hid : "5" ∈ pdu_session_id <$> pdu_sessions_ example_ue) by (simpl; set_solver).
  destruct (remove_pdu_session_publishes example_key "5" 0 example_manager example_ue eq_refl E Hid)
    as (w' & Hr & _).
  exists w'. exact Hr.
Defined.

Lemma statistics_spec_witness :
  ∃ stats, get_state_statistics (World 0 example_manager) = (Ok stats, World 0 example_manager) ∧
           stats !! "total_states" = Some 1%nat.
Proof.
  destruct (statistics_spec 0 example_manager eq_refl) as (stats & E & Ht & _).
  exists stats. split; [exact E|]. etransitivity; [exact Ht|]. vm_compute. reflexivity.
Defined.

Lemma secondary_lookups_block_witness :
  (get_ue_state_by_ipv4 (mkIpv4Addr "10.45.0.2") (World 0 example_manager)).1 =
  Undefined (relock Exclusive Shared).
Proof.
  destruct (secondary_lookups_block 0 example_manager (mkGpsi "") (mkIpv4Addr "10.45.0.2")
              (mkIpv6Addr "") (mkIpv6Prefix "") eq_refl) as (_ & E & _).
  etransitivity; [exact E|]. vm_compute. reflexivity.
Defined.

Lemma promote_and_merge_undefined_witness :
  (merge_ue_states example_key example_key (World 0 example_manager)).1 = Undefined dangling_reference.
Proof.
  assert (E : ue_states_by_key_ example_manager !! get_primary_key example_key = Some example_ue)
    by (vm_compute; reflexivity).
  destruct (promote_and_merge_undefined example_key example_key example_supi example_key 0
              example_manager example_ue example_ue eq_refl E) as [_ Hm].
  apply Hm; reflexivity.
Defined.

Lemma unindexed_updates_witness :
  ∃ w' st', create_or_update_provisional_ue_state example_key
      (Some (example_ue <| gpsi_ := Some (mkGpsi "a@b") |>)) (World 0 example_manager) = (Ok st', w') ∧
    gpsi_ st' = Some (mkGpsi "a@b") ∧ key_by_gpsi_ (obj w') !! "a@b" = None.
Proof.
  assert (E : ue_states_by_key_ example_manager !! get_primary_key example_key = Some example_ue)
    by (vm_compute; reflexivity).
  destruct (unindexed_updates example_key example_supi example_key 0 example_manager example_ue
              (example_ue <| gpsi_ := Some (mkGpsi "a@b") |>) (mkGpsi "a@b") eq_refl E) as [Hc _].
  destruct (Hc eq_refl) as (w' & st' & Hr & Hg & _ & Hi). exists w', st'.
  split; [exact Hr|]. split; [exact Hg|]. rewrite Hi. vm_compute. reflexivity.
Defined.
End Witnesses.
