(* ===== verification/QodTypes.v ===== *)
(** * Data of the QoD (Quality on Demand) API

    The structures of the QoD models.  They are declared in the common library (a git submodule);
    the records below have the members that the code of this repository reads and writes, in the
    types in which it uses them.  Durations are whole seconds ([std::chrono::seconds]), points in
    time nanoseconds; rates of a [double] are rationals. *)

From S2P Require Import Prelude Effects CxxString UeKey.
From Stdlib Require Export QArith.QArith.
#[global] Close Scope Q_scope.
#[global] Open Scope Z_scope.

Inductive QosStatus := REQUESTED | AVAILABLE | UNAVAILABLE.
Inductive StatusInfo := DURATION_EXPIRED | NETWORK_TERMINATED | DELETE_REQUESTED.

#[global] Instance QosStatus_eq_dec : EqDecision QosStatus. Proof. solve_decision. Defined.
#[global] Instance StatusInfo_eq_dec : EqDecision StatusInfo. Proof. solve_decision. Defined.

(** In the order of the aggregate initialisers of [initialize_default_mappings]. *)
Record QosProfileMapping := mkQosProfileMapping {
  fiveqi : Z;
  priority_level : option Z;
  packet_delay_budget : Z;
  packet_error_rate : Q;
  max_data_burst : option Z;
  is_gbr : bool;
  guaranteed_uplink_rate : option string;
  guaranteed_downlink_rate : option string;
  max_uplink_rate : option string;
  max_downlink_rate : option string }.

Record ApplicationServer := mkApplicationServer {
  server_ipv4_address : option string;
  server_ipv6_address : option string }.

Record DeviceIpv4Addr := mkDeviceIpv4Addr {
  public_address : Ipv4Addr;
  private_address : option Ipv4Addr;
  public_port : option Z }.

Record QodDevice := mkQodDevice {
  phone_number : option string;
  network_access_identifier : option string;
  device_ipv4_address : option DeviceIpv4Addr;
  device_ipv6_address : option Ipv6Addr }.

#[global] Instance QodDevice_settable : Settable QodDevice := λ d,
  mkQodDevice (phone_number d) (network_access_identifier d) (device_ipv4_address d) (device_ipv6_address d).

(** [QodDevice device;] *)
Definition QodDevice_default : QodDevice := mkQodDevice None None None None.

Record PortRange := mkPortRange { from : Z; to : Z }.
Record PortsSpec := mkPortsSpec { ranges : list PortRange; ports : list Z }.

Inductive CredentialType := ACCESSTOKEN | PLAIN | REFRESHTOKEN.

#[global] Instance CredentialType_eq_dec : EqDecision CredentialType. Proof. solve_decision. Defined.

Record SinkCredential := mkSinkCredential {
  credential_type : CredentialType;
  access_token : option string;
  access_token_expires_utc : option Z;
  access_token_type : string;
  identifier : option string;
  secret : option string;
  refresh_token : option string;
  refresh_token_endpoint : option string }.

#[global] Instance SinkCredential_settable : Settable SinkCredential := λ c,
  mkSinkCredential (credential_type c) (access_token c) (access_token_expires_utc c)
    (access_token_type c) (identifier c) (secret c) (refresh_token c) (refresh_token_endpoint c).

(** What the code uses of the common library without looking inside. *)
Class QodLibrary := {
  CloudEvent : Type;
  (** [QodEventBuilder::create_qos_status_changed_event(id, status, info, base_url)] *)
  create_qos_status_changed_event : string → QosStatus → option StatusInfo → string → CloudEvent;
  (** [QodDevice::is_empty()] *)
  device_is_empty : QodDevice → bool }.

Section Sessions.
Context `{QodLibrary}.

Record QodSession := mkQodSession {
  session_id : string;
  api_consumer_id : string;
  device : option QodDevice;
  application_server : ApplicationServer;
  device_ports : option PortsSpec;
  application_server_ports : option PortsSpec;
  qos_profile : string;
  qos_profile_mapping : option QosProfileMapping;
  duration : Z;
  sink : option string;
  sink_credential : option SinkCredential;
  created_at : option Z;
  started_at : option Z;
  expires_at : option Z;
  qos_status : QosStatus;
  status_info : option StatusInfo;
  ue_supi : option Supi;
  session_pdu_session_id : option string;
  pcf_session_id : option string;
  pcf_transaction_id : option string;
  error_message : option string;
  device_response : option QodDevice }.

#[global] Instance QodSession_settable : Settable QodSession := λ s,
  mkQodSession (session_id s) (api_consumer_id s) (device s) (application_server s)
    (device_ports s) (application_server_ports s) (qos_profile s) (qos_profile_mapping s)
    (duration s) (sink s) (sink_credential s) (created_at s) (started_at s) (expires_at s)
    (qos_status s) (status_info s) (ue_supi s) (session_pdu_session_id s) (pcf_session_id s)
    (pcf_transaction_id s) (error_message s) (device_response s).

Record CreateSessionRequest := mkCreateSessionRequest {
  req_api_consumer_id : string;
  req_device : option QodDevice;
  req_application_server : ApplicationServer;
  req_device_ports : option PortsSpec;
  req_application_server_ports : option PortsSpec;
  req_qos_profile : string;
  req_duration : Z;
  req_sink : option string;
  req_sink_credential : option SinkCredential }.

Record ExtendSessionDurationRequest := mkExtendSessionDurationRequest {
  ext_session_id : string;
  requested_additional_duration : Z }.

Record RetrieveSessionsRequest := mkRetrieveSessionsRequest {
  ret_device : option QodDevice;
  ret_api_consumer_id : string }.
End Sessions.

(** [std::chrono::seconds] added to a point in time. *)
Definition seconds (s : Z) : Z := s * 1000000000.
