(* ===== verification/QodStateManager.v ===== *)
(** * [QodStateManager]: the store of QoD sessions

    [af_core/include/qod/qod_state_manager.h] and [af_core/src/qod/qod_state_manager.cpp]: sessions by
    id, an index from SUPIs to session ids, the map from PCF session ids, and the QoS profiles; each
    group under its own mutex. *)

From S2P Require Import Prelude Effects CxxString UeKey QodTypes.

Section Definitions.
Context `{QodLibrary} `{IterationOrder}.

Record QodStateManager := mkQodStateManager {
  mtx_ : lock_state;
  sessions_by_id_ : gmap string QodSession;
  sessions_by_supi_ : gmap string (gset string);
  pcf_mapping_mutex_ : lock_state;
  pcf_session_mapping_ : gmap string string;
  mappings_mutex_ : lock_state;
  qos_profile_mappings_ : gmap string QosProfileMapping }.

#[global] Instance QodStateManager_settable : Settable QodStateManager := λ m,
  mkQodStateManager (mtx_ m) (sessions_by_id_ m) (sessions_by_supi_ m) (pcf_mapping_mutex_ m)
    (pcf_session_mapping_ m) (mappings_mutex_ m) (qos_profile_mappings_ m).

Implicit Types (m : QodStateManager) (s : QodSession).

(** [initialize_default_mappings]: the assignments in their order. *)
Definition default_profiles : list (string * QosProfileMapping) :=
  [ ("QOS_E", mkQosProfileMapping 1 (Some 2) 100 (1 # 1000) None true
       (Some "64 Kbps") (Some "64 Kbps") (Some "128 Kbps") (Some "128 Kbps"));
    ("QOS_S", mkQosProfileMapping 2 (Some 4) 150 (1 # 1000) None true
       (Some "384 Kbps") (Some "384 Kbps") (Some "512 Kbps") (Some "512 Kbps"));
    ("QOS_M", mkQosProfileMapping 3 (Some 3) 50 (1 # 1000) None true
       (Some "512 Kbps") (Some "512 Kbps") (Some "1024 Kbps") (Some "1024 Kbps"));
    ("QOS_L", mkQosProfileMapping 4 (Some 5) 300 (1 # 1000000) None true
       (Some "256 Kbps") (Some "256 Kbps") (Some "512 Kbps") (Some "512 Kbps"));
    ("voice", mkQosProfileMapping 1 (Some 2) 100 (1 # 1000) None true
       (Some "64 Kbps") (Some "64 Kbps") (Some "128 Kbps") (Some "128 Kbps"));
    ("video", mkQosProfileMapping 2 (Some 4) 150 (1 # 1000) None true
       (Some "1024 Kbps") (Some "2048 Kbps") (Some "2048 Kbps") (Some "4096 Kbps"));
    ("game", mkQosProfileMapping 3 (Some 3) 50 (1 # 1000) None true
       (Some "512 Kbps") (Some "512 Kbps") (Some "1024 Kbps") (Some "1024 Kbps"));
    ("data", mkQosProfileMapping 9 (Some 9) 300 (1 # 1000000) None false None None None None);
    ("premium", mkQosProfileMapping 7 (Some 6) 100 (1 # 1000) None true
       (Some "5 Mbps") (Some "5 Mbps") (Some "10 Mbps") (Some "10 Mbps"));
    ("enterprise", mkQosProfileMapping 8 (Some 7) 300 (1 # 1000000) None true
       (Some "1 Gbps") (Some "1 Gbps") (Some "10 Gbps") (Some "10 Gbps")) ].

Definition initialize_default_mappings m : QodStateManager :=
  foldl (λ m '(name, mapping), m <| qos_profile_mappings_ ::= <[name := mapping]> |>) m
    default_profiles.

Definition QodStateManager_new : QodStateManager :=
  initialize_default_mappings (mkQodStateManager Unlocked ∅ ∅ Unlocked ∅ Unlocked ∅).

(** [sessions_by_supi_[supi].insert(id)] *)
Definition index_session (x id : string) (index : gmap string (gset string))
    : gmap string (gset string) :=
  <[x := {[id]} ∪ value_or ∅ (index !! x)]> index.

Definition add_session (session : QodSession) : M QodStateManager () :=
  with_lock mtx_ Exclusive
    (modify (λ m, m <| sessions_by_id_ ::= <[session_id session := session]> |>) ;;
     match ue_supi session with
     | Some x =>
       modify (λ m, m <| sessions_by_supi_ ::= index_session (supi x) (session_id session) |>)
     | None => mret ()
     end).

Definition get_session_by_id (id : string) : M QodStateManager (option QodSession) :=
  with_lock mtx_ Shared (gets (λ m, sessions_by_id_ m !! id)).

(** [erase(id)] from the set of a SUPI, and of the SUPI when its set is empty. *)
Definition unindex_session (x id : string) (index : gmap string (gset string))
    : gmap string (gset string) :=
  match index !! x with
  | Some ids =>
    let ids := ids ∖ {[id]} in
    if bool_decide (ids = ∅) then delete x index else <[x := ids]> index
  | None => index
  end.

Definition remove_session (id : string) : M QodStateManager bool :=
  with_lock mtx_ Exclusive
    (m ← get;
     match sessions_by_id_ m !! id with
     | None => mret false
     | Some session_to_remove =>
       match ue_supi session_to_remove with
       | Some x => modify (λ m, m <| sessions_by_supi_ ::= unindex_session (supi x) id |>)
       | None => mret ()
       end ;;
       modify (λ m, m <| sessions_by_id_ ::= delete id |>) ;;
       mret true
     end).

Definition update_session (session : QodSession) : M QodStateManager bool :=
  with_lock mtx_ Exclusive
    (m ← get;
     match sessions_by_id_ m !! session_id session with
     | Some _ =>
       modify (λ m, m <| sessions_by_id_ ::= <[session_id session := session]> |>) ;; mret true
     | None => mret false
     end).

(** The elements of an [std::unordered_set], in the order in which it is traversed. *)
Definition visit_set (X : gset string) : list string := (visit (gset_to_gmap () X)).*1.

Definition get_sessions_by_supi (x : string) : M QodStateManager (list string) :=
  with_lock mtx_ Shared
    (gets (λ m, match sessions_by_supi_ m !! x with Some ids => visit_set ids | None => [] end)).

Definition get_sessions_by_status (status : QosStatus) : M QodStateManager (list QodSession) :=
  with_lock mtx_ Shared
    (gets (λ m, filter (λ s, qos_status s = status) (visit (sessions_by_id_ m)).*2)).

Definition get_all_sessions : M QodStateManager (list QodSession) :=
  with_lock mtx_ Shared (gets (λ m, (visit (sessions_by_id_ m)).*2)).

Definition clear_all_sessions : M QodStateManager () :=
  with_lock mtx_ Exclusive
    (modify (λ m, m <| sessions_by_id_ := ∅ |>) ;; modify (λ m, m <| sessions_by_supi_ := ∅ |>)).

Definition update_session_status (id : string) (new_status : QosStatus) (info : option StatusInfo)
    : M QodStateManager bool :=
  with_lock mtx_ Exclusive
    (m ← get;
     match sessions_by_id_ m !! id with
     | Some _ =>
       at_key sessions_by_id_ id
         (modify (λ s, s <| qos_status := new_status |>) ;;
          match info with
          | Some _ => modify (λ s, s <| status_info := info |>)
          | None => mret ()
          end) ;;
       mret true
     | None => mret false
     end).

Definition has_pdu_session (id : string) s : bool :=
  match session_pdu_session_id s with Some id' => String.eqb id' id | None => false end.

Definition get_session_by_pdu_session (x : Supi) (id : string)
    : M QodStateManager (option QodSession) :=
  with_lock mtx_ Shared
    (gets (λ m,
       ids ← sessions_by_supi_ m !! supi x;
       find_first (has_pdu_session id) (omap (λ id, sessions_by_id_ m !! id) (visit_set ids)))).

(** [current_time >= *session.expires_at + grace_period] *)
Definition expired (current_time grace_period : Z) s : bool :=
  match expires_at s with
  | Some t => t + seconds grace_period <=? current_time
  | None => false
  end.

Definition get_expired_sessions (current_time grace_period : Z)
    : M QodStateManager (list QodSession) :=
  with_lock mtx_ Shared
    (gets (λ m, filter (λ s, expired current_time grace_period s = true)
                  (visit (sessions_by_id_ m)).*2)).

Definition update_pcf_session_map (pcf_id qod_id : string) : M QodStateManager () :=
  with_lock pcf_mapping_mutex_ Exclusive
    (modify (λ m, m <| pcf_session_mapping_ ::= <[pcf_id := qod_id]> |>)).

(** The two scopes of the two mutexes follow each other. *)
Definition get_session_by_pcf_session_id (pcf_id : string) : M QodStateManager (option QodSession) :=
  found ← with_lock pcf_mapping_mutex_ Shared (gets (λ m, pcf_session_mapping_ m !! pcf_id));
  match found with
  | None => mret None
  | Some qod_session_id => get_session_by_id qod_session_id
  end.

Definition remove_pcf_to_qod_session_mapping (pcf_id : string) : M QodStateManager bool :=
  with_lock pcf_mapping_mutex_ Exclusive
    (m ← get;
     match pcf_session_mapping_ m !! pcf_id with
     | None => mret false
     | Some _ => modify (λ m, m <| pcf_session_mapping_ ::= delete pcf_id |>) ;; mret true
     end).

Definition get_qos_profile_mapping (name : string) : M QodStateManager (option QosProfileMapping) :=
  with_lock mappings_mutex_ Shared (gets (λ m, qos_profile_mappings_ m !! name)).

Definition register_qos_profile (name : string) (mapping : QosProfileMapping)
    : M QodStateManager () :=
  with_lock mappings_mutex_ Exclusive
    (modify (λ m, m <| qos_profile_mappings_ ::= <[name := mapping]> |>)).
End Definitions.

(** ** Runs on a free manager *)

Section Runs.
Context `{QodLibrary} `{IterationOrder}.
Implicit Types (m : QodStateManager) (s : QodSession).

(** No mutex is held. *)
Record free m : Prop := {
  free_mtx : mtx_ m = Unlocked;
  free_pcf : pcf_mapping_mutex_ m = Unlocked;
  free_mappings : mappings_mutex_ m = Unlocked }.

Ltac solve_run :=
  let Hf := fresh in intros Hf; destruct Hf as [? ? ?];
  match goal with m : QodStateManager |- _ => destruct m; simpl in *; subst end; try done.

Definition index_if (o : option Supi) (f : string → gmap string (gset string) → gmap string (gset string))
    (index : gmap string (gset string)) : gmap string (gset string) :=
  match o with Some x => f (supi x) index | None => index end.

(** The manager after [add_session] and after [remove_session] of a stored session. *)
Definition added s m : QodStateManager :=
  m <| sessions_by_id_ ::= <[session_id s := s]> |>
    <| sessions_by_supi_ ::= index_if (ue_supi s) (λ x, index_session x (session_id s)) |>.
Definition removed (id : string) s m : QodStateManager :=
  m <| sessions_by_supi_ ::= index_if (ue_supi s) (λ x, unindex_session x id) |>
    <| sessions_by_id_ ::= delete id |>.
Definition replaced s m : QodStateManager := m <| sessions_by_id_ ::= <[session_id s := s]> |>.

Lemma add_session_run s n m : free m → add_session s (World n m) = (Ok (), World n (added s m)).
Proof. solve_run. unfold add_session, added, with_lock. by destruct (ue_supi s). Qed.

Lemma get_session_by_id_run id n m :
  free m → get_session_by_id id (World n m) = (Ok (sessions_by_id_ m !! id), World n m).
Proof. solve_run. Qed.

Lemma remove_session_run id n m :
  free m →
  remove_session id (World n m) =
    match sessions_by_id_ m !! id with
    | Some s => (Ok true, World n (removed id s m))
    | None => (Ok false, World n m)
    end.
Proof.
  solve_run. unfold remove_session, removed, with_lock. run_steps. simpl.
  destruct (sessions_by_id_0 !! id) as [s|]; [|done]. by destruct (ue_supi s).
Qed.

Lemma update_session_run s n m :
  free m →
  update_session s (World n m) =
    match sessions_by_id_ m !! session_id s with
    | Some _ => (Ok true, World n (replaced s m))
    | None => (Ok false, World n m)
    end.
Proof.
  solve_run. unfold update_session, with_lock. run_steps. simpl.
  by destruct (sessions_by_id_0 !! _).
Qed.

Definition with_status (st : QosStatus) (info : option StatusInfo) s : QodSession :=
  match info with
  | Some _ => s <| qos_status := st |> <| status_info := info |>
  | None => s <| qos_status := st |>
  end.

Lemma update_session_status_run id st info n m :
  free m →
  update_session_status id st info (World n m) =
    match sessions_by_id_ m !! id with
    | Some s =>
      (Ok true, World n (m <| sessions_by_id_ ::= <[id := with_status st info s]> |>))
    | None => (Ok false, World n m)
    end.
Proof.
  solve_run. unfold update_session_status, with_lock. run_steps. simpl.
  destruct (sessions_by_id_0 !! id) as [s|] eqn:E; [|done].
  unfold at_key. simpl. rewrite E. by destruct info.
Qed.

Lemma get_all_sessions_run n m :
  free m → get_all_sessions (World n m) = (Ok (visit (sessions_by_id_ m)).*2, World n m).
Proof. solve_run. Qed.

Lemma get_expired_sessions_run t g n m :
  free m →
  get_expired_sessions t g (World n m) =
    (Ok (filter (λ s, expired t g s = true) (visit (sessions_by_id_ m)).*2), World n m).
Proof. solve_run. Qed.

Lemma get_session_by_pdu_session_run x id n m :
  free m →
  get_session_by_pdu_session x id (World n m) =
    (Ok (ids ← sessions_by_supi_ m !! supi x;
         find_first (has_pdu_session id) (omap (λ id, sessions_by_id_ m !! id) (visit_set ids))),
     World n m).
Proof. solve_run. Qed.

Lemma clear_all_sessions_run n m :
  free m →
  clear_all_sessions (World n m) =
    (Ok (), World n (m <| sessions_by_id_ := ∅ |> <| sessions_by_supi_ := ∅ |>)).
Proof. solve_run. Qed.

Lemma update_pcf_session_map_run p q n m :
  free m →
  update_pcf_session_map p q (World n m) =
    (Ok (), World n (m <| pcf_session_mapping_ ::= <[p := q]> |>)).
Proof. solve_run. Qed.

Lemma get_session_by_pcf_session_id_run p n m :
  free m →
  get_session_by_pcf_session_id p (World n m) =
    (Ok (id ← pcf_session_mapping_ m !! p; sessions_by_id_ m !! id), World n m).
Proof.
  solve_run. unfold get_session_by_pcf_session_id, with_lock. run_steps. simpl.
  by destruct (pcf_session_mapping_0 !! p).
Qed.

Lemma remove_pcf_to_qod_session_mapping_run p n m :
  free m →
  remove_pcf_to_qod_session_mapping p (World n m) =
    (Ok (has_value (pcf_session_mapping_ m !! p)),
     World n (m <| pcf_session_mapping_ ::= delete p |>)).
Proof.
  solve_run. unfold remove_pcf_to_qod_session_mapping, with_lock. run_steps. simpl.
  destruct (pcf_session_mapping_0 !! p) eqn:E; [done|]. simpl. by rewrite delete_id.
Qed.

Lemma get_qos_profile_mapping_run p n m :
  free m →
  get_qos_profile_mapping p (World n m) = (Ok (qos_profile_mappings_ m !! p), World n m).
Proof. solve_run. Qed.

Lemma register_qos_profile_run p q n m :
  free m →
  register_qos_profile p q (World n m) =
    (Ok (), World n (m <| qos_profile_mappings_ ::= <[p := q]> |>)).
Proof. solve_run. Qed.

Lemma get_sessions_by_supi_run x n m :
  free m →
  get_sessions_by_supi x (World n m) =
    (Ok (match sessions_by_supi_ m !! x with Some ids => visit_set ids | None => [] end), World n m).
Proof. solve_run. Qed.

Lemma get_sessions_by_status_run st n m :
  free m →
  get_sessions_by_status st (World n m) =
    (Ok (filter (λ s, qos_status s = st) (visit (sessions_by_id_ m)).*2), World n m).
Proof. solve_run. Qed.

Lemma free_added s m : free m → free (added s m).
Proof. by intros [? ? ?]. Qed.
Lemma free_removed id s m : free m → free (removed id s m).
Proof. by intros [? ? ?]. Qed.
Lemma free_sessions m f : free m → free (m <| sessions_by_id_ ::= f |>).
Proof. by intros [? ? ?]. Qed.
Lemma free_replaced s m : free m → free (replaced s m).
Proof. apply free_sessions. Qed.
Lemma free_index m f : free m → free (m <| sessions_by_supi_ ::= f |>).
Proof. by intros [? ? ?]. Qed.
Lemma free_pcf_map m f : free m → free (m <| pcf_session_mapping_ ::= f |>).
Proof. by intros [? ? ?]. Qed.
Lemma free_profiles m f : free m → free (m <| qos_profile_mappings_ ::= f |>).
Proof. by intros [? ? ?]. Qed.
End Runs.

#[export] Hint Resolve free_added free_removed free_sessions free_replaced free_index free_pcf_map
  free_profiles : free.

(** ** The SUPI index *)

Section Index.
Context `{QodLibrary} `{IterationOrder}.
Implicit Types (m : QodStateManager) (s : QodSession).

(** Sessions are stored under their id; the index has exactly the sessions with a SUPI, under it,
    and no empty set. *)
Record indexed m : Prop := {
  ix_id : ∀ id s, sessions_by_id_ m !! id = Some s → session_id s = id;
  ix_nonempty : ∀ x ids, sessions_by_supi_ m !! x = Some ids → ids ≠ ∅;
  ix_exact : ∀ x id, id ∈ value_or ∅ (sessions_by_supi_ m !! x) ↔
                     ∃ s, sessions_by_id_ m !! id = Some s ∧ supi <$> ue_supi s = Some x }.

Lemma index_session_lookup x id index x' id' :
  id' ∈ value_or ∅ (index_session x id index !! x') ↔
  (x' = x ∧ id' = id) ∨ id' ∈ value_or ∅ (index !! x').
Proof.
  unfold index_session. rewrite lookup_insert. case_decide; simpl; set_solver.
Qed.

Lemma unindex_session_lookup x id index x' id' :
  id' ∈ value_or ∅ (unindex_session x id index !! x') ↔
  ¬ (x' = x ∧ id' = id) ∧ id' ∈ value_or ∅ (index !! x').
Proof.
  unfold unindex_session. destruct (index !! x) as [ids|] eqn:E.
  - case_bool_decide as Hids.
    + rewrite lookup_delete. case_decide as Hx; [subst x'; rewrite E; simpl; set_solver|set_solver].
    + rewrite lookup_insert. case_decide as Hx; [subst x'; rewrite E; simpl; set_solver|set_solver].
  - destruct (decide (x' = x)) as [->|]; [rewrite E; simpl; set_solver|set_solver].
Qed.

Lemma unindex_session_nonempty x id index x' ids :
  (∀ x ids, index !! x = Some ids → ids ≠ ∅) →
  unindex_session x id index !! x' = Some ids → ids ≠ ∅.
Proof.
  intros Hn. unfold unindex_session. destruct (index !! x) as [ids'|] eqn:E; [|by apply Hn].
  case_bool_decide as Hids.
  - rewrite lookup_delete. case_decide; [done|by apply Hn].
  - rewrite lookup_insert. case_decide; [by intros [= <-]|by apply Hn].
Qed.

Lemma indexed_added s m :
  indexed m → sessions_by_id_ m !! session_id s = None → indexed (added s m).
Proof.
  intros [Hid Hn Hx] Hs. split; simpl.
  - intros id s'. rewrite lookup_insert. case_decide; [by intros [= <-]|by apply Hid].
  - intros x ids. unfold index_if. destruct (ue_supi s); [|by apply Hn].
    unfold index_session. rewrite lookup_insert. case_decide; [|by apply Hn].
    intros [= <-]. set_solver.
  - intros x id. unfold index_if.
    assert (Hix : id ∈ value_or ∅ (match ue_supi s with
        | Some x => index_session (supi x) (session_id s) (sessions_by_supi_ m)
        | None => sessions_by_supi_ m end !! x) ↔
      (supi <$> ue_supi s = Some x ∧ id = session_id s) ∨ id ∈ value_or ∅ (sessions_by_supi_ m !! x)).
    { destruct (ue_supi s) as [y|]; simpl; [rewrite index_session_lookup|]; naive_solver. }
    rewrite Hix, Hx, lookup_insert. clear Hix.
    destruct (decide (session_id s = id)) as [<-|Hne]; [|naive_solver].
    rewrite Hs. naive_solver.
Qed.

Lemma indexed_removed id s m :
  indexed m → sessions_by_id_ m !! id = Some s → indexed (removed id s m).
Proof.
  intros [Hid Hn Hx] Hs. split; simpl.
  - intros id' s'. rewrite lookup_delete. case_decide; [done|by apply Hid].
  - intros x ids. unfold index_if. destruct (ue_supi s); [|by apply Hn].
    by apply unindex_session_nonempty.
  - intros x id'. unfold index_if.
    assert (Hix : id' ∈ value_or ∅ (match ue_supi s with
        | Some x => unindex_session (supi x) id (sessions_by_supi_ m)
        | None => sessions_by_supi_ m end !! x) ↔
      ¬ (supi <$> ue_supi s = Some x ∧ id' = id) ∧ id' ∈ value_or ∅ (sessions_by_supi_ m !! x)).
    { destruct (ue_supi s) as [y|]; simpl; [rewrite unindex_session_lookup|]; naive_solver. }
    rewrite Hix, Hx, lookup_delete. clear Hix.
    destruct (decide (id = id')) as [<-|Hne]; [rewrite Hs|]; naive_solver.
Qed.

Lemma indexed_replaced id s s' m :
  indexed m → sessions_by_id_ m !! id = Some s → session_id s' = id → ue_supi s' = ue_supi s →
  indexed (m <| sessions_by_id_ ::= <[id := s']> |>).
Proof.
  intros [Hid Hn Hx] Hs Hid' Hsupi. split; simpl; [|done|].
  - intros id'' s''. rewrite lookup_insert. case_decide; [by intros [= <-]; subst|by apply Hid].
  - intros x id''. rewrite Hx, lookup_insert. destruct (decide (id = id'')) as [<-|]; [|done].
    rewrite Hs. split; intros (s0 & [= <-] & Hs0); eexists; (split; [done|]); congruence.
Qed.

Lemma indexed_new : indexed QodStateManager_new.
Proof.
  assert (E1 : sessions_by_id_ QodStateManager_new = ∅) by reflexivity.
  assert (E2 : sessions_by_supi_ QodStateManager_new = ∅) by reflexivity.
  split; [intros id s; by rewrite E1|intros x ids; by rewrite E2|].
  intros x id. rewrite E1, E2, !lookup_empty. simpl.
  split; [set_solver|naive_solver].
Qed.

Lemma indexed_cleared m : indexed (m <| sessions_by_id_ := ∅ |> <| sessions_by_supi_ := ∅ |>).
Proof.
  split; simpl; [done|done|]. intros x id. rewrite !lookup_empty. simpl. split; [set_solver|naive_solver].
Qed.

(** *** Sequences of calls *)

(** The state-changing calls; a session is added under a new id, and updated without changing its
    SUPI (as the comment of [update_session] assumes). *)
Inductive change m : ∀ {A}, M QodStateManager A → Prop :=
  | change_add s : sessions_by_id_ m !! session_id s = None → change m (add_session s)
  | change_remove id : change m (remove_session id)
  | change_update s :
      (∀ s', sessions_by_id_ m !! session_id s = Some s' → ue_supi s' = ue_supi s) →
      change m (update_session s)
  | change_status id st info : change m (update_session_status id st info)
  | change_clear : change m clear_all_sessions
  | change_pcf_map p q : change m (update_pcf_session_map p q)
  | change_pcf_unmap p : change m (remove_pcf_to_qod_session_mapping p)
  | change_profile p q : change m (register_qos_profile p q).

Inductive stored : world QodStateManager → Prop :=
  | stored_new n : stored (World n QodStateManager_new)
  | stored_change {A} w (f : M QodStateManager A) : stored w → change (obj w) f → stored (f w).2.

Lemma change_indexed {A} (f : M QodStateManager A) n m :
  free m → indexed m → change m f → defined (f (World n m)).1 ∧
  free (obj (f (World n m)).2) ∧ indexed (obj (f (World n m)).2).
Proof.
  intros Hf Hi Hc.
  destruct Hc as [s Hs|id|s Hs|id st info| |p q|p|p q].
  - rewrite add_session_run by done. split_and!; [done|by apply free_added|by apply indexed_added].
  - rewrite remove_session_run by done. destruct (sessions_by_id_ m !! id) eqn:E; [|done].
    split_and!; [done|by apply free_removed|by apply indexed_removed].
  - rewrite update_session_run by done. destruct (sessions_by_id_ m !! _) as [s'|] eqn:E; [|done].
    split_and!; [done|by apply free_replaced|]. apply (indexed_replaced _ s'); [done..|].
    symmetry. by apply Hs.
  - rewrite update_session_status_run by done. destruct (sessions_by_id_ m !! id) as [s'|] eqn:E; [|done].
    split_and!; [done|by apply free_sessions|]. apply (indexed_replaced _ s'); [done..| |by destruct info].
    rewrite <-(ix_id _ Hi _ _ E). by destruct info.
  - rewrite clear_all_sessions_run by done. split_and!; [done|by destruct Hf|apply indexed_cleared].
  - rewrite update_pcf_session_map_run by done. split_and!; [done|by apply free_pcf_map|by destruct Hi].
  - rewrite remove_pcf_to_qod_session_mapping_run by done.
    split_and!; [done|by apply free_pcf_map|by destruct Hi].
  - rewrite register_qos_profile_run by done. split_and!; [done|by apply free_profiles|by destruct Hi].
Qed.

(** Over any sequence of changes of the store of QoD sessions, every session is filed under its
    id and the index of SUPIs holds exactly the stored sessions that have a SUPI, each under it,
    with no empty set left behind; no call fails and no mutex stays locked.  So the lookup by SUPI
    returns exactly the ids of the stored sessions of that SUPI. *)
Theorem qod_index_exact w :
  stored w →
  indexed (obj w) ∧ free (obj w) ∧
  ∀ x, ∃ l, get_sessions_by_supi x w = (Ok l, w) ∧
    ∀ id, id ∈ l ↔ ∃ s, sessions_by_id_ (obj w) !! id = Some s ∧ supi <$> ue_supi s = Some x.
Proof.
  intros Hw. assert (Hfi : free (obj w) ∧ indexed (obj w)).
  { induction Hw as [n|A [n m] f _ [Hf Hi] Hc]; [split; [done|apply indexed_new]|].
    by destruct (change_indexed f n m Hf Hi Hc) as (_ & ? & ?). }
  destruct w as [n m], Hfi as [Hf Hi]. simpl in *. split_and!; [done|done|].
  intros x. eexists. split; [by apply get_sessions_by_supi_run|]. intros id.
  rewrite <-(ix_exact _ Hi). destruct (sessions_by_supi_ m !! x) as [ids|]; simpl; [|set_solver].
  unfold visit_set. rewrite list_elem_of_fmap. split.
  - intros ([id' []] & -> & Hv). rewrite (visit_perm _), elem_of_map_to_list in Hv.
    by apply lookup_gset_to_gmap_Some in Hv as [? _].
  - intros Hid. exists (id, ()). split; [done|].
    rewrite (visit_perm _), elem_of_map_to_list. by apply lookup_gset_to_gmap_Some.
Qed.

(** The default profiles keep to the standard's ranges: ten names, each with a 5QI from 1 to 9
    and a reservation priority from 1 to 16, and exactly the guaranteed-bit-rate ones carry the
    four rates. *)
Theorem default_profiles_sane :
  NoDup default_profiles.*1 ∧
  (∀ name mapping, qos_profile_mappings_ QodStateManager_new !! name = Some mapping ↔
                   (name, mapping) ∈ default_profiles) ∧
  ∀ name mapping, (name, mapping) ∈ default_profiles →
    1 <= fiveqi mapping <= 9 ∧ (∃ p, priority_level mapping = Some p ∧ 1 <= p <= 16) ∧
    (is_gbr mapping = true ↔
     is_Some (guaranteed_uplink_rate mapping) ∧ is_Some (guaranteed_downlink_rate mapping) ∧
     is_Some (max_uplink_rate mapping) ∧ is_Some (max_downlink_rate mapping)).
Proof.
  assert (Hnd : NoDup default_profiles.*1) by (apply (bool_decide_unpack _); vm_compute; exact I).
  split; [done|]. split.
  - intros name mapping.
    transitivity ((list_to_map default_profiles : gmap string QosProfileMapping) !! name = Some mapping).
    + change (qos_profile_mappings_ QodStateManager_new)
        with (foldl (λ i '(k, v), <[k := v]> i) (∅ : gmap string QosProfileMapping) default_profiles).
      assert (foldl (λ i '(k, v), <[k := v]> i) (∅ : gmap string QosProfileMapping) default_profiles
              = list_to_map default_profiles) as -> by (vm_compute; reflexivity). done.
    + symmetry. by apply elem_of_list_to_map.
  - intros name mapping Hm. unfold default_profiles in Hm.
    repeat (apply elem_of_cons in Hm as [[= -> ->]|Hm]; [simpl; split_and!;
      first [lia|by eexists; split; [reflexivity|lia]|naive_solver]|]).
    by apply not_elem_of_nil in Hm.
Qed.

(** Expiry is exact: the expired sessions at a time, with a grace period, are the stored sessions
    that have an expiry time at least the grace period in the past; a session without an expiry
    time (one that never became available and was never deleted) never expires. *)
Theorem expired_sessions_exact t g n m s :
  free m →
  ∃ l, get_expired_sessions t g (World n m) = (Ok l, World n m) ∧
    (s ∈ l ↔ ∃ id e, sessions_by_id_ m !! id = Some s ∧ expires_at s = Some e ∧ e + seconds g <= t).
Proof.
  intros Hf. eexists. split; [by apply get_expired_sessions_run|].
  rewrite list_elem_of_filter, list_elem_of_fmap. unfold expired. split.
  - intros [He ([id s'] & Hs & Hv)]. rewrite (visit_perm _), elem_of_map_to_list in Hv.
    simpl in Hs. subst s'. destruct (expires_at s) as [e|]; [|done]. apply Z.leb_le in He. eauto.
  - intros (id & e & Hs & -> & He). split; [by apply Z.leb_le|]. exists (id, s). split; [done|].
    by rewrite (visit_perm _), elem_of_map_to_list.
Qed.
End Index.

(** ** Witnesses *)

Section Witnesses.
(** A library whose events are the arguments they are built from. *)
Definition plain_library : QodLibrary := {|
  CloudEvent := string * QosStatus * option StatusInfo * string;
  create_qos_status_changed_event := λ id st info url, (id, st, info, url);
  device_is_empty := λ d,
    negb (has_value (phone_number d) || has_value (device_ipv4_address d) ||
          has_value (device_ipv6_address d)) |}.
#[local] Existing Instances plain_library tree_order.

Definition example_session : QodSession :=
  mkQodSession "s1" "consumer" None (mkApplicationServer (Some "10.0.0.1") None) None None "QOS_E" None
    3600 None None (Some 0) None (Some 5000000000) AVAILABLE None
    (Some (mkSupi "imsi-001010000000001")) None None None None None.
Definition example_store : QodStateManager := added example_session QodStateManager_new.

Lemma qod_index_exact_witness :
  ∃ l, get_sessions_by_supi "imsi-001010000000001" (World 0 example_store) = (Ok l, World 0 example_store) ∧
       "s1" ∈ l.
Proof.
  assert (Hw : stored (World 0 example_store)).
  { change (World 0 example_store) with (add_session example_session (World 0 QodStateManager_new)).2.
    apply stored_change; [apply stored_new|by apply change_add]. }
  destruct (qod_index_exact (World 0 example_store) Hw) as (_ & _ & Hx).
  destruct (Hx "imsi-001010000000001") as (l & E & Hl). exists l. split; [exact E|].
  apply Hl. exists example_session. split; vm_compute; reflexivity.
Defined.

Lemma expired_sessions_exact_witness :
  ∃ l, get_expired_sessions 365000000000 360 (World 0 example_store) = (Ok l, World 0 example_store) ∧
       example_session ∈ l.
Proof.
  assert (Hf : free example_store) by (split; vm_compute; reflexivity).
  destruct (expired_sessions_exact 365000000000 360 0 example_store example_session Hf) as (l & E & Hl).
  exists l. split; [exact E|]. apply Hl. exists "s1", 5000000000.
  split; [vm_compute; reflexivity|]. split; [reflexivity|]. vm_compute. discriminate.
Defined.
End Witnesses.
