(* ===== verification/QodStoreSpec.v ===== *)
(** * The store of QoD sessions, as its clients see it

    The abstract store is three maps, without index and without locks; a lookup may answer with the
    sessions in any order.  [QodStateManager] refines it: whatever sequence of requests it serves,
    its answers are answers of the abstract store. *)

From S2P Require Import Prelude Effects UeKey UeState QodTypes QodStateManager.

Section Specification.
Context `{QodLibrary} `{IterationOrder}.
Implicit Types (m : QodStateManager) (s : QodSession).

(** ** The abstract store *)

Record AbstractStore := mkAbstractStore {
  sessions : gmap string QodSession;
  pcf_sessions : gmap string string;
  profiles : gmap string QosProfileMapping }.

Inductive request :=
  | Add (s : QodSession)
  | Remove (id : string)
  | Replace (s : QodSession)
  | SetStatus (id : string) (st : QosStatus) (info : option StatusInfo)
  | Clear
  | MapPcf (p id : string)
  | UnmapPcf (p : string)
  | Register (name : string) (mapping : QosProfileMapping)
  | ById (id : string)
  | ByPcfId (p : string)
  | BySupi (x : string)
  | ByStatus (st : QosStatus)
  | ByPduSession (x : Supi) (pdu : string)
  | Expired (t grace : Z)
  | All
  | Profile (name : string).

Inductive answer :=
  | Done
  | Success (b : bool)
  | Session (o : option QodSession)
  | Sessions (l : list QodSession)
  | Ids (l : list string)
  | Mapping (o : option QosProfileMapping).

Implicit Types (a : AbstractStore).

Definition with_sessions (f : gmap string QodSession → gmap string QodSession) a : AbstractStore :=
  mkAbstractStore (f (sessions a)) (pcf_sessions a) (profiles a).

Definition of_supi (x : string) s : Prop := supi <$> ue_supi s = Some x.

(** The stored sessions with a property, in any order. *)
Definition exactly a (P : QodSession → Prop) (l : list QodSession) : Prop :=
  ∃ ids, NoDup ids ∧ Forall2 (λ id s, sessions a !! id = Some s) ids l ∧
    ∀ id s, sessions a !! id = Some s → (P s ↔ id ∈ ids).

Inductive allows a : request → answer → AbstractStore → Prop :=
  | allows_add s : allows a (Add s) Done (with_sessions <[session_id s := s]> a)
  | allows_remove id :
    allows a (Remove id) (Success (has_value (sessions a !! id))) (with_sessions (delete id) a)
  | allows_replace s :
    allows a (Replace s) (Success (has_value (sessions a !! session_id s)))
      (with_sessions (alter (λ _, s) (session_id s)) a)
  | allows_status id st info :
    allows a (SetStatus id st info) (Success (has_value (sessions a !! id)))
      (with_sessions (alter (with_status st info) id) a)
  | allows_clear : allows a Clear Done (with_sessions (λ _, ∅) a)
  | allows_map p id :
    allows a (MapPcf p id) Done (mkAbstractStore (sessions a) (<[p := id]> (pcf_sessions a)) (profiles a))
  | allows_unmap p :
    allows a (UnmapPcf p) (Success (has_value (pcf_sessions a !! p)))
      (mkAbstractStore (sessions a) (delete p (pcf_sessions a)) (profiles a))
  | allows_register name mapping :
    allows a (Register name mapping) Done
      (mkAbstractStore (sessions a) (pcf_sessions a) (<[name := mapping]> (profiles a)))
  | allows_by_id id : allows a (ById id) (Session (sessions a !! id)) a
  | allows_by_pcf p : allows a (ByPcfId p) (Session (id ← pcf_sessions a !! p; sessions a !! id)) a
  | allows_by_supi x l :
    NoDup l → (∀ id, id ∈ l ↔ ∃ s, sessions a !! id = Some s ∧ of_supi x s) →
    allows a (BySupi x) (Ids l) a
  | allows_by_status st l : exactly a (λ s, qos_status s = st) l → allows a (ByStatus st) (Sessions l) a
  | allows_by_pdu x pdu o :
    match o with
    | Some s => (∃ id, sessions a !! id = Some s) ∧ of_supi (supi x) s ∧ session_pdu_session_id s = Some pdu
    | None => ∀ id s, sessions a !! id = Some s → of_supi (supi x) s → session_pdu_session_id s ≠ Some pdu
    end → allows a (ByPduSession x pdu) (Session o) a
  | allows_expired t grace l :
    exactly a (λ s, ∃ e, expires_at s = Some e ∧ e + seconds grace <= t) l →
    allows a (Expired t grace) (Sessions l) a
  | allows_all l : exactly a (λ _, True) l → allows a All (Sessions l) a
  | allows_profile name : allows a (Profile name) (Mapping (profiles a !! name)) a.

(** A session is added under a new id, and replaced by one with the same SUPI. *)
Definition legal a (r : request) : Prop :=
  match r with
  | Add s => sessions a !! session_id s = None
  | Replace s => ∀ s', sessions a !! session_id s = Some s' → ue_supi s' = ue_supi s
  | _ => True
  end.

(** A run of the abstract store, and the sequences of requests that are legal at every step. *)
Inductive history : AbstractStore → list request → list answer → AbstractStore → Prop :=
  | history_nil a : history a [] [] a
  | history_cons a r x a' rs xs a'' :
    allows a r x a' → history a' rs xs a'' → history a (r :: rs) (x :: xs) a''.

Fixpoint legal_all a (rs : list request) : Prop :=
  match rs with
  | [] => True
  | r :: rs => legal a r ∧ ∀ x a', allows a r x a' → legal_all a' rs
  end.

(** ** The manager as a store *)

Definition serve (r : request) : M QodStateManager answer :=
  match r with
  | Add s => add_session s ;; mret Done
  | Remove id => x ← remove_session id; mret (Success x)
  | Replace s => x ← update_session s; mret (Success x)
  | SetStatus id st info => x ← update_session_status id st info; mret (Success x)
  | Clear => clear_all_sessions ;; mret Done
  | MapPcf p id => update_pcf_session_map p id ;; mret Done
  | UnmapPcf p => x ← remove_pcf_to_qod_session_mapping p; mret (Success x)
  | Register name mapping => register_qos_profile name mapping ;; mret Done
  | ById id => x ← get_session_by_id id; mret (Session x)
  | ByPcfId p => x ← get_session_by_pcf_session_id p; mret (Session x)
  | BySupi x => x ← get_sessions_by_supi x; mret (Ids x)
  | ByStatus st => x ← get_sessions_by_status st; mret (Sessions x)
  | ByPduSession x pdu => x ← get_session_by_pdu_session x pdu; mret (Session x)
  | Expired t grace => x ← get_expired_sessions t grace; mret (Sessions x)
  | All => x ← get_all_sessions; mret (Sessions x)
  | Profile name => x ← get_qos_profile_mapping name; mret (Mapping x)
  end.

(** What the manager stores, without its index and its locks. *)
Definition abstraction m : AbstractStore :=
  mkAbstractStore (sessions_by_id_ m) (pcf_session_mapping_ m) (qos_profile_mappings_ m).

Definition sound m : Prop := free m ∧ indexed m.

(** ** Refinement *)

Lemma alter_cases {A} (f : A → A) k (t : gmap string A) :
  alter f k t = match t !! k with Some x => <[k := f x]> t | None => t end.
Proof.
  apply map_eq. intros k'. destruct (decide (k = k')) as [<-|Hne].
  - rewrite lookup_alter_eq. destruct (t !! k) eqn:E; simpl; [by rewrite lookup_insert_eq|by rewrite E].
  - rewrite lookup_alter_ne by done. by destruct (t !! k); [rewrite lookup_insert_ne|].
Qed.

Lemma visit_lookup {A} (t : gmap string A) k x : (k, x) ∈ visit t ↔ t !! k = Some x.
Proof. by rewrite (visit_perm t), elem_of_map_to_list. Qed.

Lemma visit_NoDup {A} (t : gmap string A) : NoDup (visit t).*1.
Proof. rewrite (visit_perm t). apply NoDup_fst_map_to_list. Qed.

Lemma filter_values {A} (P : A → Prop) `{!∀ x, Decision (P x)} (l : list (string * A)) :
  filter P l.*2 = (filter (P ∘ snd) l).*2.
Proof.
  induction l as [|[k x] l IH]; [done|]. rewrite fmap_cons, !filter_cons, IH. simpl.
  by destruct (decide (P x)).
Qed.

Lemma filter_all {A} (P : A → Prop) `{!∀ x, Decision (P x)} (l : list A) : (∀ x, P x) → filter P l = l.
Proof.
  intros HP. induction l as [|x l IH]; [done|]. rewrite filter_cons, IH. by destruct (decide (P x)) as [|[]].
Qed.

Lemma filter_exactly a (P : QodSession → Prop) `{!∀ s, Decision (P s)} :
  exactly a P (filter P (visit (sessions a)).*2).
Proof.
  set (l := filter (P ∘ snd) (visit (sessions a))). exists l.*1. split_and!.
  - apply (sublist_NoDup _ (visit (sessions a)).*1); [apply visit_NoDup|apply fmap_sublist, sublist_filter].
  - rewrite filter_values. apply Forall2_fmap, Forall_Forall2_diag, Forall_forall.
    intros [id s] [_ Hs]%list_elem_of_filter. by apply visit_lookup.
  - intros id s Hs. rewrite list_elem_of_fmap. split.
    + intros HP. exists (id, s). split; [done|]. apply list_elem_of_filter. by rewrite visit_lookup.
    + intros ([id' s'] & -> & [HP Hs']%list_elem_of_filter). apply visit_lookup in Hs'. simpl in *.
      by simplify_eq.
Qed.

Lemma exactly_iff a (P Q : QodSession → Prop) l : (∀ s, P s ↔ Q s) → exactly a P l → exactly a Q l.
Proof.
  intros HPQ (ids & Hnd & Hl & Hids). exists ids. split_and!; [done..|].
  intros id s Hs. by rewrite <-HPQ, Hids.
Qed.

Lemma all_exactly a : exactly a (λ _, True) (visit (sessions a)).*2.
Proof.
  pose proof (filter_exactly a (λ _, True)) as Hf. rewrite filter_values in Hf.
  by rewrite filter_all in Hf by done.
Qed.

Lemma visit_set_spec (X : gset string) : NoDup (visit_set X) ∧ ∀ id, id ∈ visit_set X ↔ id ∈ X.
Proof.
  split; [apply visit_NoDup|]. intros id. unfold visit_set. rewrite list_elem_of_fmap. split.
  - intros ([id' []] & -> & Hv). by apply visit_lookup, lookup_gset_to_gmap_Some in Hv as [? _].
  - intros Hid. exists (id, ()). split; [done|]. by apply visit_lookup, lookup_gset_to_gmap_Some.
Qed.

(** The ids the index has for a SUPI. *)
Lemma index_spec m x :
  indexed m →
  let l := match sessions_by_supi_ m !! x with Some ids => visit_set ids | None => [] end in
  NoDup l ∧ ∀ id, id ∈ l ↔ ∃ s, sessions_by_id_ m !! id = Some s ∧ of_supi x s.
Proof.
  intros Hi l. assert (Hx := ix_exact _ Hi x). unfold l, of_supi.
  destruct (sessions_by_supi_ m !! x) as [ids|]; simpl in Hx.
  - destruct (visit_set_spec ids) as [? Hv]. split; [done|]. intros id. by rewrite Hv, Hx.
  - split; [constructor|]. intros id. rewrite <-Hx. set_solver.
Qed.

Lemma has_pdu_session_true pdu s : has_pdu_session pdu s = true ↔ session_pdu_session_id s = Some pdu.
Proof.
  unfold has_pdu_session. destruct (session_pdu_session_id s) as [id|]; [|done].
  rewrite String.eqb_eq. naive_solver.
Qed.

(** What the search among the sessions of a SUPI finds. *)
Lemma pdu_session_spec m x pdu :
  indexed m →
  match ids ← sessions_by_supi_ m !! supi x;
        find_first (has_pdu_session pdu) (omap (λ id, sessions_by_id_ m !! id) (visit_set ids)) with
  | Some s =>
    (∃ id, sessions_by_id_ m !! id = Some s) ∧ of_supi (supi x) s ∧ session_pdu_session_id s = Some pdu
  | None =>
    ∀ id s, sessions_by_id_ m !! id = Some s → of_supi (supi x) s → session_pdu_session_id s ≠ Some pdu
  end.
Proof.
  intros Hi. pose proof (index_spec m (supi x) Hi) as [_ Hl].
  destruct (sessions_by_supi_ m !! supi x) as [ids|]; simpl.
  2:{ intros id s Hs Hx _. assert (Hid : id ∈ ([] : list string)) by (apply Hl; eauto). by inversion Hid. }
  destruct (find_first _ _) as [s|] eqn:E.
  - apply find_first_Some in E as [(id & Hid & Hs)%list_elem_of_omap Hp].
    apply has_pdu_session_true in Hp. apply Hl in Hid as (s' & Hs' & Hx). simplify_eq. eauto.
  - intros id s Hs Hx Hp. pose proof (proj1 (find_first_None _ _) E s) as Hf.
    rewrite (proj2 (has_pdu_session_true pdu s) Hp) in Hf. discriminate Hf.
    apply list_elem_of_omap. exists id. split; [apply Hl; eauto|done].
Qed.

(** A request that an operation [f] of known run serves. *)
Lemma served {A} (f : M QodStateManager A) (k : A → answer) x n m m' r :
  f (World n m) = (Ok x, World n m') → allows (abstraction m) r (k x) (abstraction m') → sound m' →
  ∃ y m'', (a ← f; mret (k a)) (World n m) = (Ok y, World n m'') ∧
    allows (abstraction m) r y (abstraction m'') ∧ sound m''.
Proof. intros E Ha Hm. exists (k x), m'. by rewrite (bind_run _ _ _ _ _ E). Qed.

(** The changes of the stored sessions. *)
Lemma change_refines r n m :
  sound m → legal (abstraction m) r →
  match r with Add _ | Remove _ | Replace _ | SetStatus _ _ _ | Clear => True | _ => False end →
  ∃ x m', serve r (World n m) = (Ok x, World n m') ∧ allows (abstraction m) r x (abstraction m') ∧ sound m'.
Proof.
  intros [Hf Hi] Hl Hr. destruct r as [s|id|s|id st info| |p id|p|name mapping|id|p|x|st|x pdu|t grace| |name];
    try done; simpl in *; clear Hr.
  - apply (served _ (λ _, Done) _ _ _ _ _ (add_session_run s n m Hf)); [apply (allows_add (abstraction m))|].
    split; [by apply free_added|by apply indexed_added].
  - pose proof (allows_remove (abstraction m) id) as Ha. simpl in Ha.
    pose proof (remove_session_run id n m Hf) as E. destruct (sessions_by_id_ m !! id) as [s|] eqn:Es.
    + apply (served _ _ _ _ _ _ _ E); [exact Ha|]. split; [by apply free_removed|by apply indexed_removed].
    + apply (served _ _ _ _ _ _ _ E); [|done]. unfold with_sessions in Ha. simpl in Ha.
      by rewrite delete_id in Ha.
  - pose proof (allows_replace (abstraction m) s) as Ha. unfold with_sessions in Ha.
    rewrite alter_cases in Ha. simpl in Ha. pose proof (update_session_run s n m Hf) as E.
    destruct (sessions_by_id_ m !! session_id s) as [s'|] eqn:Es; apply (served _ _ _ _ _ _ _ E); try done.
    split; [by apply free_replaced|]. apply (indexed_replaced _ s'); [done..|]. symmetry. by apply Hl.
  - pose proof (allows_status (abstraction m) id st info) as Ha. unfold with_sessions in Ha.
    rewrite alter_cases in Ha. simpl in Ha. pose proof (update_session_status_run id st info n m Hf) as E.
    destruct (sessions_by_id_ m !! id) as [s|] eqn:Es; apply (served _ _ _ _ _ _ _ E); try done.
    split; [by apply free_sessions|]. apply (indexed_replaced _ s); [done..| |by destruct info].
    rewrite <-(ix_id _ Hi _ _ Es). by destruct info.
  - apply (served _ (λ _, Done) _ _ _ _ _ (clear_all_sessions_run n m Hf)); [apply (allows_clear (abstraction m))|].
    split; [by destruct Hf|apply indexed_cleared].
Qed.

Lemma serve_refines r n m :
  sound m → legal (abstraction m) r →
  ∃ x m', serve r (World n m) = (Ok x, World n m') ∧ allows (abstraction m) r x (abstraction m') ∧ sound m'.
Proof.
  intros Hm Hl. destruct r as [s|id|s|id st info| |p id|p|name mapping|id|p|x|st|x pdu|t grace| |name];
    try by apply change_refines.
  all: destruct Hm as [Hf Hi]; clear Hl; simpl.
  - apply (served _ (λ _, Done) _ _ _ _ _ (update_pcf_session_map_run p id n m Hf));
      [apply (allows_map (abstraction m))|split; [by apply free_pcf_map|by destruct Hi]].
  - apply (served _ _ _ _ _ _ _ (remove_pcf_to_qod_session_mapping_run p n m Hf));
      [apply (allows_unmap (abstraction m))|split; [by apply free_pcf_map|by destruct Hi]].
  - apply (served _ (λ _, Done) _ _ _ _ _ (register_qos_profile_run name mapping n m Hf));
      [apply (allows_register (abstraction m))|split; [by apply free_profiles|by destruct Hi]].
  - apply (served _ _ _ _ _ _ _ (get_session_by_id_run id n m Hf)); [apply (allows_by_id (abstraction m))|done].
  - apply (served _ _ _ _ _ _ _ (get_session_by_pcf_session_id_run p n m Hf));
      [apply (allows_by_pcf (abstraction m))|done].
  - apply (served _ _ _ _ _ _ _ (get_sessions_by_supi_run x n m Hf)); [|done].
    destruct (index_spec m x Hi). by constructor.
  - apply (served _ _ _ _ _ _ _ (get_sessions_by_status_run st n m Hf)); [|done].
    constructor. apply (filter_exactly (abstraction m) (λ s, qos_status s = st)).
  - apply (served _ _ _ _ _ _ _ (get_session_by_pdu_session_run x pdu n m Hf)); [|done].
    constructor. by apply pdu_session_spec.
  - apply (served _ _ _ _ _ _ _ (get_expired_sessions_run t grace n m Hf)); [|done]. constructor.
    refine (exactly_iff _ _ _ _ _ (filter_exactly (abstraction m) (λ s, expired t grace s = true))).
    intros s. unfold expired. destruct (expires_at s) as [e|]; [|naive_solver].
    rewrite Z.leb_le. naive_solver.
  - apply (served _ _ _ _ _ _ _ (get_all_sessions_run n m Hf)); [|done].
    constructor. apply (all_exactly (abstraction m)).
  - apply (served _ _ _ _ _ _ _ (get_qos_profile_mapping_run name n m Hf));
      [apply (allows_profile (abstraction m))|done].
Qed.

Fixpoint serve_all (rs : list request) : M QodStateManager (list answer) :=
  match rs with
  | [] => mret []
  | r :: rs => x ← serve r; xs ← serve_all rs; mret (x :: xs)
  end.

(** C3: the store of QoD sessions refines three plain maps.  Every legal sequence of requests on a
    sound manager (a new one is) is served without failure, with the answers of the abstract store
    whose maps are what the manager stores; the manager stays sound.  In particular the lookups by
    SUPI and by PDU session, which go through the index, answer from the stored sessions alone. *)
Theorem store_refines rs n m :
  sound m → legal_all (abstraction m) rs →
  ∃ xs m', serve_all rs (World n m) = (Ok xs, World n m') ∧
    history (abstraction m) rs xs (abstraction m') ∧ sound m'.
Proof.
  revert m. induction rs as [|r rs IH]; intros m Hm; simpl.
  { intros _. exists [], m. split_and!; [done|constructor|done..]. }
  intros [Hl Hrs]. destruct (serve_refines r n m Hm Hl) as (x & m1 & E & Ha & Hm1).
  destruct (IH m1 Hm1 (Hrs _ _ Ha)) as (xs & m' & E' & Hh & Hm').
  exists (x :: xs), m'. rewrite (bind_run _ _ _ _ _ E), (bind_run _ _ _ _ _ E').
  split_and!; [done| |done]. by econstructor.
Qed.
End Specification.

(** ** Witness *)

Section Witness.
#[local] Existing Instances plain_library tree_order.

Definition example_requests : list request :=
  [Add example_session; ByPduSession (mkSupi "imsi-001010000000001") "5"; Remove "s1"; All].

Lemma store_refines_witness :
  ∃ xs m', serve_all example_requests (World 0 QodStateManager_new) = (Ok xs, World 0 m') ∧
    history (abstraction QodStateManager_new) example_requests xs (abstraction m').
Proof.
  destruct (store_refines example_requests 0 QodStateManager_new) as (xs & m' & E & Hh & _).
  - split; [split; reflexivity|apply indexed_new].
  - repeat (split; [done|]; intros ? ? _). exact I.
  - exists xs, m'. split; [exact E|exact Hh].
Defined.
End Witness.
