(* ===== verification/CTime.v ===== *)
(** * [std::gmtime] and [std::strftime]

    Time points are nanoseconds since 1970-01-01T00:00:00Z.  The calendar is the proleptic Gregorian
    one; [civil_of_days] is proved to invert the usual count of days. *)

From S2P Require Import Prelude Effects.

(** The day number of a date, counted from 1970-01-01.  A year starts in March here, so that the leap
    day is its last day. *)
Definition days_of_civil (y m d : Z) : Z :=
  let y := if m <=? 2 then y - 1 else y in
  let era := y / 400 in
  let yoe := y mod 400 in
  let mp := (m + 9) mod 12 in
  let doy := (153 * mp + 2) / 5 + d - 1 in
  let doe := yoe * 365 + yoe / 4 - yoe / 100 + doy in
  era * 146097 + doe - 719468.

(** The date of a day number. *)
Definition civil_of_days (z : Z) : Z * Z * Z :=
  let z := z + 719468 in
  let era := z / 146097 in
  let doe := z mod 146097 in
  let yoe := (doe - doe / 1460 + doe / 36524 - doe / 146096) / 365 in
  let doy := doe - (365 * yoe + yoe / 4 - yoe / 100) in
  let mp := (5 * doy + 2) / 153 in
  let d := doy - (153 * mp + 2) / 5 + 1 in
  let m := if mp <? 10 then mp + 3 else mp - 9 in
  let y := yoe + era * 400 in
  (if m <=? 2 then y + 1 else y, m, d).

(** The year of an era of 400 years that a day of the era falls in. *)
Lemma year_of_era doe :
  0 <= doe < 146097 →
  let yoe := (doe - doe / 1460 + doe / 36524 - doe / 146096) / 365 in
  0 <= yoe < 400 ∧ 0 <= doe - (365 * yoe + yoe / 4 - yoe / 100) <= 365.
Proof. intros H yoe. subst yoe. Z.to_euclidean_division_equations. lia. Qed.

Lemma civil_of_days_spec z :
  let '(y, m, d) := civil_of_days z in
  1 <= m <= 12 ∧ 1 <= d <= 31 ∧ days_of_civil y m d = z.
Proof.
  unfold civil_of_days, days_of_civil.
  set (era := (z + 719468) / 146097). set (doe := (z + 719468) mod 146097).
  assert (Hz : z + 719468 = 146097 * era + doe) by (apply Z.div_mod; lia).
  assert (Hd : 0 <= doe < 146097) by (apply Z.mod_pos_bound; lia).
  destruct (year_of_era doe Hd) as [Hy Hdoy]. cbv zeta in Hy, Hdoy.
  set (yoe := (doe - doe / 1460 + doe / 36524 - doe / 146096) / 365) in *.
  set (doy := doe - (365 * yoe + yoe / 4 - yoe / 100)) in *.
  set (mp := (5 * doy + 2) / 153).
  assert (Hmp : 0 <= mp <= 11) by (subst mp; Z.to_euclidean_division_equations; lia).
  assert (Hdd : 0 <= doy - (153 * mp + 2) / 5 <= 30)
    by (subst mp; Z.to_euclidean_division_equations; lia).
  assert (Hm : 1 <= (if mp <? 10 then mp + 3 else mp - 9) <= 12)
    by (destruct (Z.ltb_spec mp 10); lia).
  split; [exact Hm|]. split; [lia|].
  set (m := if mp <? 10 then mp + 3 else mp - 9) in *.
  assert (Hmp' : (m + 9) mod 12 = mp).
  { subst m. destruct (Z.ltb_spec mp 10); Z.to_euclidean_division_equations; lia. }
  rewrite Hmp'.
  assert (Hyy : (if m <=? 2 then (if m <=? 2 then yoe + era * 400 + 1 else yoe + era * 400) - 1
                 else if m <=? 2 then yoe + era * 400 + 1 else yoe + era * 400) = yoe + era * 400)
    by (destruct (m <=? 2); lia).
  rewrite Hyy, Z.div_add, Z.mod_add by lia.
  rewrite (Z.div_small yoe), (Z.mod_small yoe) by lia. lia.
Qed.

(** A number with at least two digits. *)
Definition two_digits (z : Z) : string := if z <? 10 then "0" +:+ pretty z else pretty z.

(** [to_time_t], which drops the fraction of a second, [gmtime] and [strftime] with the format
    "%Y-%m-%dT%H:%M:%SZ". *)
Definition utc_text (time_point : Z) : string :=
  let t := Z.quot time_point 1000000000 in
  let '(y, m, d) := civil_of_days (t / 86400) in
  let s := t mod 86400 in
  pretty y +:+ "-" +:+ two_digits m +:+ "-" +:+ two_digits d +:+ "T" +:+
  two_digits (s / 3600) +:+ ":" +:+ two_digits (s / 60 mod 60) +:+ ":" +:+ two_digits (s mod 60) +:+ "Z".

Example utc_text_epoch : utc_text 0 = "1970-01-01T00:00:00Z".
Proof. reflexivity. Qed.
Example utc_text_leap : utc_text 1709210096789000000 = "2024-02-29T12:34:56Z".
Proof. reflexivity. Qed.
