(* ===== verification/Json.v ===== *)
(** * The interface to the JSON library

    The code uses nlohmann::json.  The class states the operations it calls: construction, the
    member access of [operator[]] and [value], [parse] and [dump]. *)

From S2P Require Import Prelude Effects.
From Stdlib Require Export QArith.QArith.
#[global] Close Scope Q_scope.
#[global] Open Scope Z_scope.

Class Json := {
  json : Type;
  jnull : json;
  jstring : string → json;
  jint : Z → json;
  jbool : bool → json;
  jdouble : Q → json;
  jarray : list json → json;
  jobject : list (string * json) → json;
  (** [j[k]] on a null value or an object: the member, null if there is none. *)
  jindex : string → json → result json;
  (** [j[k] = v] on a null value (which becomes an object) or an object. *)
  jassign : string → json → json → result json;
  (** [j.contains(k)] *)
  jcontains : string → json → bool;
  (** [j.is_null()], [j.is_object()], [j.is_array()], [j.is_string()], [j.is_number_integer()] *)
  is_null : json → bool;
  is_object : json → bool;
  is_array : json → bool;
  is_string : json → bool;
  is_number_integer : json → bool;
  (** [j.empty()]: null, or an array or an object without elements. *)
  jempty : json → bool;
  (** [j.items()] on an object, and the elements of an array. *)
  jitems : json → list (string * json);
  jelements : json → list json;
  (** [j.get<std::string>()] and [j.get<int>()], implicit conversions included. *)
  get_string : json → result string;
  get_int : json → result Z;
  (** [j.value(k, d)] at a string and at an integer. *)
  value_string : string → string → json → result string;
  value_int : string → Z → json → result Z;
  parse : string → result json;
  dump : json → result string }.

(** The operations return or throw: none reaches undefined behaviour. *)
Class JsonDefined `{Json} : Prop := {
  jindex_defined : ∀ k j, defined (jindex k j);
  jassign_defined : ∀ k v j, defined (jassign k v j);
  get_string_defined : ∀ j, defined (get_string j);
  get_int_defined : ∀ j, defined (get_int j);
  value_string_defined : ∀ k d j, defined (value_string k d j);
  parse_defined : ∀ s, defined (parse s);
  dump_defined : ∀ j, defined (dump j) }.

Section Paths.
Context `{Json}.

(** [j[k1][k2]... = v] *)
Fixpoint assign_path (path : list string) (v j : json) : result json :=
  match path with
  | [] => mret v
  | k :: path => sub ← jindex k j; sub ← assign_path path v sub; jassign k sub j
  end.

(** The same for an optional value, when there is one. *)
Definition add_member (path : list string) (v : option json) (j : json) : result json :=
  match v with Some v => assign_path path v j | None => mret j end.

(** [j[k]] on a constant value: a missing member of an object must not be asked for. *)
Definition jindex_const (k : string) (j : json) : result json :=
  if jcontains k j then jindex k j
  else if is_object j then Undefined missing_member
  else Throw (json_exception "cannot use operator[] with a string argument").

(** [j.at(k)], and [j.value(k, d)] at a JSON value. *)
Definition jat (k : string) (j : json) : result json :=
  if jcontains k j then jindex k j else Throw (json_exception "key not found").
Definition value_json (k : string) (d j : json) : result json :=
  if is_object j then if jcontains k j then jindex k j else mret d
  else Throw (json_exception "cannot use value()").

(** [parse(s, nullptr, false)]: no value where [parse] throws. *)
Definition parse_or_discard (s : string) : result (option json) :=
  match parse s with
  | Ok j => Ok (Some j)
  | Throw _ => Ok None
  | Undefined u => Undefined u
  end.

(** [if (j.contains(k)) f(j[k]);] *)
Definition with_member {S} (k : string) (j : json) (f : json → M S ()) : M S () :=
  if jcontains k j then v ← lift (jindex k j); f v else mret ().

(** [if (j.contains(k)) f(j[k]); else d;] *)
Definition member_or {S} (k : string) (j : json) (f : json → M S ()) (d : M S ()) : M S () :=
  if jcontains k j then v ← lift (jindex k j); f v else d.

(** [if (j.contains(k)) x = f(j[k]);] for an optional [x]. *)
Definition optional_member {A} (k : string) (f : json → result A) (j : json) : result (option A) :=
  if jcontains k j then v ← jindex k j; a ← f v; mret (Some a) else mret None.

(** The elements of the array [j[k]], if it is one. *)
Definition array_member {A} (k : string) (f : json → result A) (j : json) : result (list A) :=
  if jcontains k j then
    v ← jindex k j;
    if is_array v then mapM f (jelements v) else mret []
  else mret [].

(** [j[k1] = v1; j[k2] = v2; ...] *)
Definition assign_members (members : list (string * json)) (j : json) : result json :=
  foldl (λ r '(k, v), j ← r; jassign k v j) (mret j) members.

(** The assignment [j[k] = v] of an optional value. *)
Definition optional_assignment (k : string) (v : option json) : list (string * json) :=
  match v with Some v => [(k, v)] | None => [] end.

(** [j.is_string() ? j.get<std::string>() : j.dump()] *)
Definition text_of (j : json) : result string := if is_string j then get_string j else dump j.

Context `{!JsonDefined}.

Lemma text_of_defined j : defined (text_of j).
Proof. unfold text_of. destruct (is_string j); [apply get_string_defined|apply dump_defined]. Qed.

Lemma total_with_member {S} (I : S → Prop) k j f :
  (∀ v, total I (f v) (λ _, True)) → total I (with_member k j f) (λ _, True).
Proof.
  intros Hf. unfold with_member. destruct (jcontains k j); [|by apply total_ret].
  apply (total_bind _ _ (λ _, True)); [by apply total_lift; [apply jindex_defined|]|auto].
Qed.

Lemma total_member_or {S} (I : S → Prop) k j f d :
  (∀ v, total I (f v) (λ _, True)) → total I d (λ _, True) →
  total I (member_or k j f d) (λ _, True).
Proof.
  intros Hf Hd. unfold member_or. destruct (jcontains k j); [|done].
  apply (total_bind _ _ (λ _, True)); [by apply total_lift; [apply jindex_defined|]|auto].
Qed.
End Paths.

(** ** Laws

    What a value is, and what the operations do to it. *)

Inductive view (J : Type) :=
  | VNull
  | VBool (b : bool)
  | VInt (z : Z)
  | VDouble (q : Q)
  | VString (s : string)
  | VArray (l : list J)
  | VObject (m : gmap string J).
Arguments VNull {J}.
Arguments VBool {J} b.
Arguments VInt {J} z.
Arguments VDouble {J} q.
Arguments VString {J} s.
Arguments VArray {J} l.
Arguments VObject {J} m.

Class JsonLaws `{Json} := {
  view_of : json → view json;
  view_null : view_of jnull = VNull;
  view_string s : view_of (jstring s) = VString s;
  view_int z : view_of (jint z) = VInt z;
  view_bool b : view_of (jbool b) = VBool b;
  view_double q : view_of (jdouble q) = VDouble q;
  view_array l : view_of (jarray l) = VArray l;
  (** The first member of a name counts. *)
  view_object l : view_of (jobject l) = VObject (list_to_map l);
  contains_view k j :
    jcontains k j = match view_of j with VObject m => has_value (m !! k) | _ => false end;
  index_view k j m v : view_of j = VObject m → m !! k = Some v → jindex k j = Ok v;
  index_missing k j m :
    view_of j = VObject m ∨ view_of j = VNull ∧ m = ∅ → m !! k = None → jindex k j = Ok jnull;
  assign_view k v j m :
    view_of j = VObject m ∨ view_of j = VNull ∧ m = ∅ →
    ∃ j', jassign k v j = Ok j' ∧ view_of j' = VObject (<[k := v]> m);
  null_view j : is_null j = match view_of j with VNull => true | _ => false end;
  object_view j : is_object j = match view_of j with VObject _ => true | _ => false end;
  array_view j : is_array j = match view_of j with VArray _ => true | _ => false end;
  is_string_view j : is_string j = match view_of j with VString _ => true | _ => false end;
  integer_view j : is_number_integer j = match view_of j with VInt _ => true | _ => false end;
  empty_view j m : view_of j = VObject m → jempty j = bool_decide (m = ∅);
  items_view j m : view_of j = VObject m → jitems j ≡ₚ map_to_list m;
  elements_view j l : view_of j = VArray l → jelements j = l;
  get_string_view j s : view_of j = VString s → get_string j = Ok s;
  get_int_view j z : view_of j = VInt z → get_int j = Ok z;
  value_string_view k d j m :
    view_of j = VObject m → m !! k = None → value_string k d j = Ok d }.

Section Laws.
Context `{JsonLaws}.

(** [r] returns a value with [P]. *)
Definition gives {A} (r : result A) (P : A → Prop) : Prop := ∃ a, r = Ok a ∧ P a.

Lemma gives_bind {A B} (r : result A) (P : A → Prop) (f : A → result B) (Q : B → Prop) :
  gives r P → (∀ a, P a → gives (f a) Q) → gives (r ≫= f) Q.
Proof. intros (a & -> & Ha) Hf. by apply Hf. Qed.

Lemma gives_mono {A} (r : result A) (P Q : A → Prop) : gives r P → (∀ a, P a → Q a) → gives r Q.
Proof. intros (a & E & Ha) HPQ. exists a. auto. Qed.

(** [r] gives the object with the members [m]. *)
Definition builds (r : result json) (m : gmap string json) : Prop :=
  gives r (λ j, view_of j = VObject m).

Lemma builds_ret j m : view_of j = VObject m → builds (mret j) m.
Proof. intros Hj. by exists j. Qed.

Lemma builds_null k v : builds (jassign k v jnull) {[k := v]}.
Proof.
  destruct (assign_view k v jnull ∅) as (j & E & Hj); [right; split; [apply view_null|done]|].
  exists j. by rewrite Hj, insert_empty.
Qed.

Lemma builds_assign k v j m : view_of j = VObject m → builds (jassign k v j) (<[k := v]> m).
Proof. intros Hj. apply assign_view. by left. Qed.

Lemma builds_bind r m (f : json → result json) m' :
  builds r m → (∀ j, view_of j = VObject m → builds (f j) m') → builds (r ≫= f) m'.
Proof. apply gives_bind. Qed.

Lemma builds_if (b : bool) r r' m m' :
  builds r m → builds r' m' → builds (if b then r else r') (if b then m else m').
Proof. by destruct b. Qed.

(** The value assigned last to a member. *)
Definition assigned (k : string) (l : list (string * json)) : option json :=
  foldl (λ o '(k', v), if String.eqb k' k then Some v else o) None l.

Lemma assigned_from k l o :
  foldl (λ o '(k', v), if String.eqb k' k then Some v else o) o l =
  match assigned k l with Some v => Some v | None => o end.
Proof.
  unfold assigned. revert o. induction l as [|[k' v] l IH]; intros o; simpl; [done|].
  rewrite (IH (if String.eqb k' k then Some v else o)), (IH (if String.eqb k' k then Some v else None)).
  destruct (foldl _ None l); [done|]. by destruct (String.eqb k' k).
Qed.

Lemma assigned_app k l l' :
  assigned k (l ++ l') = match assigned k l' with Some v => Some v | None => assigned k l end.
Proof. unfold assigned. rewrite foldl_app. apply assigned_from. Qed.

Lemma assigned_optional k k' o :
  assigned k (optional_assignment k' o) = if String.eqb k' k then o else None.
Proof. destruct o; simpl; [done|by destruct (String.eqb k' k)]. Qed.

Lemma assigned_cons k k' v l :
  assigned k ((k', v) :: l) =
  match assigned k l with Some v => Some v | None => if String.eqb k' k then Some v else None end.
Proof. apply (assigned_from k l). Qed.

(** The assignments of a list of members: a member is what was assigned last, or what it was. *)
Lemma builds_members (l : list (string * json)) j m :
  view_of j = VObject m →
  ∃ m', builds (assign_members l j) m' ∧
    ∀ k, m' !! k = match assigned k l with Some v => Some v | None => m !! k end.
Proof.
  revert j m. induction l as [|[k v] l IH]; intros j m Hj; [by exists m; split; [exists j|]|].
  destruct (builds_assign k v j m Hj) as (j1 & E & Hj1).
  destruct (IH j1 _ Hj1) as (m' & Hm' & Hk). exists m'. split.
  - unfold assign_members. simpl. change (mret j ≫= λ j0, jassign k v j0) with (jassign k v j). by rewrite E.
  - intros k'. rewrite Hk, assigned_cons. destruct (assigned k' l); [done|].
    destruct (String.eqb_spec k k') as [->|]; [apply lookup_insert_eq|by apply lookup_insert_ne].
Qed.

(** The same from null. *)
Lemma builds_new k v (l : list (string * json)) :
  ∃ m, builds (assign_members ((k, v) :: l) jnull) m ∧ ∀ k', m !! k' = assigned k' ((k, v) :: l).
Proof.
  destruct (builds_null k v) as (j & E & Hj). destruct (builds_members l j _ Hj) as (m & Hm & Hk).
  exists m. split.
  - unfold assign_members. simpl. change (mret jnull ≫= λ j0, jassign k v j0) with (jassign k v jnull).
    by rewrite E.
  - intros k'. rewrite Hk, assigned_cons. destruct (assigned k' l); [done|].
    destruct (String.eqb_spec k k') as [->|]; [apply lookup_singleton_eq|by apply lookup_singleton_ne].
Qed.

Lemma assigned_not k l : k ∉ l.*1 → assigned k l = None.
Proof.
  induction l as [|[k' v] l IH]; intros Hk; [done|]. rewrite assigned_cons, IH by set_solver.
  destruct (String.eqb_spec k' k) as [->|]; [set_solver|done].
Qed.

Lemma contains_some k j m v : view_of j = VObject m → m !! k = Some v → jcontains k j = true.
Proof. intros Hj Hk. by rewrite contains_view, Hj, Hk. Qed.

Lemma contains_none k j m : view_of j = VObject m → m !! k = None → jcontains k j = false.
Proof. intros Hj Hk. by rewrite contains_view, Hj, Hk. Qed.

Lemma with_member_some {S} k j m v (f : json → M S ()) w :
  view_of j = VObject m → m !! k = Some v → with_member k j f w = f v w.
Proof.
  intros Hj Hk. unfold with_member. by rewrite (contains_some _ _ _ _ Hj Hk), (index_view _ _ _ _ Hj Hk).
Qed.

Lemma with_member_none {S} k j m (f : json → M S ()) w :
  view_of j = VObject m → m !! k = None → with_member k j f w = (Ok (), w).
Proof. intros Hj Hk. unfold with_member. by rewrite (contains_none _ _ _ Hj Hk). Qed.

(** A value that can be assigned members, and the members it has. *)
Definition writable (j : json) (m : gmap string json) : Prop :=
  view_of j = VObject m ∨ view_of j = VNull ∧ m = ∅.

Lemma writable_null : writable jnull ∅.
Proof. right. split; [apply view_null|done]. Qed.

Lemma writable_assign k v j m :
  writable j m → gives (jassign k v j) (λ j', writable j' (<[k := v]> m)).
Proof. intros Hj. destruct (assign_view k v j m Hj) as (j' & E & Hj'). exists j'. by split; [|left]. Qed.

Lemma writable_contains k j m : writable j m → jcontains k j = has_value (m !! k).
Proof. intros [Hj|[Hj ->]]; rewrite contains_view, Hj; [done|by rewrite lookup_empty]. Qed.

Lemma writable_index k j m : writable j m → jindex k j = Ok (value_or jnull (m !! k)).
Proof.
  intros Hj. destruct (m !! k) as [v|] eqn:E; [|by rewrite (index_missing k j m)].
  destruct Hj as [Hj|[_ ->]]; [by rewrite (index_view k j m v)|by rewrite lookup_empty in E].
Qed.

(** An optional member that was assigned [c a] for an optional [a] is read as [a]. *)
Lemma optional_member_read {A} k (c : A → json) (f : json → result A) (o : option A) j m :
  writable j m → m !! k = c <$> o → (∀ a, o = Some a → f (c a) = Ok a) →
  optional_member k f j = Ok o.
Proof.
  intros Hj Hk Hf. unfold optional_member. rewrite (writable_contains k j m Hj), Hk.
  destruct o as [a|]; simpl; [|done].
  rewrite (writable_index k j m Hj), Hk. simpl. by rewrite (Hf a).
Qed.

Lemma jat_some k j m v : view_of j = VObject m → m !! k = Some v → jat k j = Ok v.
Proof.
  intros Hj Hk. unfold jat. by rewrite (contains_some _ _ _ _ Hj Hk), (index_view _ _ _ _ Hj Hk).
Qed.
End Laws.

(** ** A model of the interface

    JSON values as trees.  [dump] prints a tree without blanks (strings are quoted, their characters
    are not escaped, a double is printed as a fraction); the parser is an argument. *)

Inductive tree :=
  | TNull | TBool (b : bool) | TInt (z : Z) | TDouble (q : Q) | TString (s : string)
  | TArray (l : list tree) | TObject (l : list (string * tree)).

Definition type_error : exn := json_exception "type_error".

Fixpoint assoc (k : string) (l : list (string * tree)) : option tree :=
  match l with
  | [] => None
  | (k', v) :: l => if String.eqb k' k then Some v else assoc k l
  end.

Fixpoint assoc_set (k : string) (v : tree) (l : list (string * tree)) : list (string * tree) :=
  match l with
  | [] => [(k, v)]
  | (k', v') :: l => if String.eqb k' k then (k', v) :: l else (k', v') :: assoc_set k v l
  end.

(** The members, the first of each name. *)
Fixpoint first_members (seen : list string) (l : list (string * tree)) : list (string * tree) :=
  match l with
  | [] => []
  | (k, v) :: l => if bool_decide (k ∈ seen) then first_members seen l
                   else (k, v) :: first_members (k :: seen) l
  end.

(** The text between quotation marks. *)
Definition quote (s : string) : string := String "034"%char (s +:+ String "034"%char EmptyString).

Fixpoint join (l : list string) : string :=
  match l with
  | [] => ""
  | [s] => s
  | s :: l => s +:+ "," +:+ join l
  end.

Fixpoint print_tree (j : tree) : string :=
  match j with
  | TNull => "null"
  | TBool b => if b then "true" else "false"
  | TInt z => pretty z
  | TDouble q => pretty (Qnum q) +:+ "/" +:+ pretty (Zpos (Qden q))
  | TString s => quote s
  | TArray l => "[" +:+ join (print_tree <$> l) +:+ "]"
  | TObject l => "{" +:+ join ((λ '(k, v), quote k +:+ ":" +:+ print_tree v) <$> l) +:+ "}"
  end.

(** Trees with a printer and a reader. *)
Definition tree_json_of (print : tree → string) (read : string → result tree) : Json := {|
  json := tree;
  jnull := TNull; jstring := TString; jint := TInt; jbool := TBool; jdouble := TDouble; jarray := TArray;
  jobject := TObject;
  jindex := λ k j, match j with
                   | TNull => Ok TNull
                   | TObject l => Ok (value_or TNull (assoc k l))
                   | _ => Throw type_error
                   end;
  jassign := λ k v j, match j with
                      | TNull => Ok (TObject [(k, v)])
                      | TObject l => Ok (TObject (assoc_set k v l))
                      | _ => Throw type_error
                      end;
  jcontains := λ k j, match j with TObject l => has_value (assoc k l) | _ => false end;
  is_null := λ j, match j with TNull => true | _ => false end;
  is_object := λ j, match j with TObject _ => true | _ => false end;
  is_array := λ j, match j with TArray _ => true | _ => false end;
  is_string := λ j, match j with TString _ => true | _ => false end;
  is_number_integer := λ j, match j with TInt _ => true | _ => false end;
  jempty := λ j, match j with TNull | TArray [] | TObject [] => true | _ => false end;
  jitems := λ j, match j with TObject l => first_members [] l | _ => [] end;
  jelements := λ j, match j with TArray l => l | _ => [] end;
  get_string := λ j, match j with TString s => Ok s | _ => Throw type_error end;
  get_int := λ j, match j with
                   | TInt z => Ok z
                   | TBool b => Ok (if b then 1 else 0)
                   | TDouble q => Ok (Z.quot (Qnum q) (Zpos (Qden q)))
                   | _ => Throw type_error
                   end;
  value_string := λ k d j, match j with
                           | TObject l => match assoc k l with
                                          | Some (TString s) => Ok s
                                          | Some _ => Throw type_error
                                          | None => Ok d
                                          end
                           | _ => Throw type_error
                           end;
  value_int := λ k d j, match j with
                        | TObject l => match assoc k l with
                                       | Some (TInt z) => Ok z
                                       | Some _ => Throw type_error
                                       | None => Ok d
                                       end
                        | _ => Throw type_error
                        end;
  parse := read;
  dump := λ j, Ok (print j) |}.

Definition tree_json_with (read : string → result tree) : Json := tree_json_of print_tree read.

(** The parser that reads any text as an object whose only member holds the text. *)
Definition tree_json : Json :=
  tree_json_with (λ s, Ok (TObject [("pcf_session_id", TString s)])).

Lemma tree_json_of_defined print read : (∀ s, defined (read s)) → @JsonDefined (tree_json_of print read).
Proof. intros Hr. split; simpl; intros; try done; repeat case_match; done. Qed.

Lemma tree_json_defined read : (∀ s, defined (read s)) → @JsonDefined (tree_json_with read).
Proof. apply tree_json_of_defined. Qed.

(** The laws hold of trees. *)
Definition tree_view (j : tree) : view tree :=
  match j with
  | TNull => VNull
  | TBool b => VBool b
  | TInt z => VInt z
  | TDouble q => VDouble q
  | TString s => VString s
  | TArray l => VArray l
  | TObject l => VObject (list_to_map l)
  end.

Lemma assoc_list_to_map k l : assoc k l = (list_to_map l : gmap string tree) !! k.
Proof.
  induction l as [|[k' v] l IH]; simpl; [by rewrite lookup_empty|].
  destruct (String.eqb_spec k' k) as [->|]; [by rewrite lookup_insert_eq|by rewrite lookup_insert_ne].
Qed.

Lemma assoc_set_list_to_map k v l :
  list_to_map (assoc_set k v l) = <[k := v]> (list_to_map l : gmap string tree).
Proof.
  induction l as [|[k' v'] l IH]; simpl; [done|].
  destruct (String.eqb_spec k' k) as [->|]; simpl; [by rewrite insert_insert_eq|].
  by rewrite IH, insert_insert_ne.
Qed.

Lemma first_members_spec seen l k v :
  (k, v) ∈ first_members seen l ↔ k ∉ seen ∧ (list_to_map l : gmap string tree) !! k = Some v.
Proof.
  revert seen. induction l as [|[k' v'] l IH]; intros seen; simpl.
  { rewrite elem_of_nil, lookup_empty. naive_solver. }
  rewrite lookup_insert_Some. case_bool_decide as Hk'.
  - rewrite IH. set_solver.
  - rewrite elem_of_cons, IH, elem_of_cons. naive_solver.
Qed.

Lemma first_members_NoDup seen l : NoDup (first_members seen l).*1.
Proof.
  revert seen. induction l as [|[k' v'] l IH]; intros seen; simpl; [constructor|].
  case_bool_decide; [done|]. simpl. constructor; [|done].
  intros ([k v] & -> & Hin)%list_elem_of_fmap. apply first_members_spec in Hin. set_solver.
Qed.

Lemma tree_items l : first_members [] l ≡ₚ map_to_list (list_to_map l : gmap string tree).
Proof.
  apply NoDup_Permutation; [apply NoDup_fmap_1 with fst, first_members_NoDup|apply NoDup_map_to_list|].
  intros [k v]. rewrite first_members_spec, elem_of_map_to_list. set_solver.
Qed.

Definition tree_laws_of print read : @JsonLaws (tree_json_of print read).
Proof.
  apply (Build_JsonLaws (tree_json_of print read) tree_view); simpl.
  all: try (intros; by repeat case_match).
  - intros k [] ; simpl; try done. by rewrite assoc_list_to_map.
  - intros k [] m v [= <-] Hk. by rewrite assoc_list_to_map, Hk.
  - intros k [] m; simpl; intros [Hj|[Hj ->]] Hk; simplify_eq; [done|].
    by rewrite assoc_list_to_map, Hk.
  - intros k v [] m; simpl; intros [[= <-]|[[=] ->]]; eexists; split; try reflexivity.
    simpl. by rewrite assoc_set_list_to_map.
  - intros [] m [= <-]. destruct l as [|[k v] l']; [done|].
    by rewrite bool_decide_eq_false_2 by apply insert_non_empty.
  - intros [] m [= <-]. apply tree_items.
  - by intros [] xs [= <-].
  - by intros [] t [= <-].
  - by intros [] z' [= <-].
  - intros k d [] m [= <-] Hk. by rewrite assoc_list_to_map, Hk.
Defined.

#[global] Instance tree_laws read : @JsonLaws (tree_json_with read) := tree_laws_of print_tree read.

(** *** Texts that are read back

    A tree as a generic tree of the standard library of finite types, its number, and the binary
    digits of the number as a text: every tree is read as it was printed. *)

Definition leaf : Type := string + (Z + (bool + positive)).

Fixpoint tree_code (j : tree) : gen_tree leaf :=
  match j with
  | TNull => GenNode 0 []
  | TBool b => GenNode 1 [GenLeaf (inr (inr (inl b)))]
  | TInt z => GenNode 2 [GenLeaf (inr (inl z))]
  | TDouble q => GenNode 3 [GenLeaf (inr (inl (Qnum q))); GenLeaf (inr (inr (inr (Qden q))))]
  | TString s => GenNode 4 [GenLeaf (inl s)]
  | TArray l => GenNode 5 (tree_code <$> l)
  | TObject l => GenNode 6 ((λ '(k, v), GenNode 7 [GenLeaf (inl k); tree_code v]) <$> l)
  end.

Fixpoint tree_of_code (t : gen_tree leaf) : tree :=
  match t with
  | GenNode 1 [GenLeaf (inr (inr (inl b)))] => TBool b
  | GenNode 2 [GenLeaf (inr (inl z))] => TInt z
  | GenNode 3 [GenLeaf (inr (inl n)); GenLeaf (inr (inr (inr d)))] => TDouble (Qmake n d)
  | GenNode 4 [GenLeaf (inl s)] => TString s
  | GenNode 5 l => TArray (tree_of_code <$> l)
  | GenNode 6 l =>
    TObject ((λ t, match t with
                   | GenNode 7 [GenLeaf (inl k); v] => (k, tree_of_code v)
                   | _ => (EmptyString, TNull)
                   end) <$> l)
  | _ => TNull
  end.

Lemma tree_of_code_of : ∀ j, tree_of_code (tree_code j) = j.
Proof.
  fix FIX 1. intros [|b|z|[n d]|s|l|l]; simpl; try done; f_equal.
  - induction l as [|j l IH]; [done|]. simpl. f_equal; [apply FIX|exact IH].
  - induction l as [|[k j] l IH]; [done|]. simpl. f_equal; [f_equal; apply FIX|exact IH].
Qed.

Fixpoint digits (p : positive) : string :=
  match p with
  | xH => EmptyString
  | xO p => String "0"%char (digits p)
  | xI p => String "1"%char (digits p)
  end.
Fixpoint of_digits (s : string) : positive :=
  match s with
  | EmptyString => xH
  | String c s => if Ascii.eqb c "1"%char then xI (of_digits s) else xO (of_digits s)
  end.

Lemma of_digits_of p : of_digits (digits p) = p.
Proof. induction p as [p IH|p IH|]; simpl; by rewrite ?IH. Qed.

Definition print_digits (j : tree) : string := digits (encode (tree_code j)).
Definition read_digits (text : string) : result tree :=
  match decode (of_digits text) with
  | Some t => Ok (tree_of_code t)
  | None => Throw (json_parse_error "parse error")
  end.

Lemma read_digits_defined text : defined (read_digits text).
Proof. unfold read_digits. by destruct (decode _). Qed.

Lemma read_print_digits j : read_digits (print_digits j) = Ok j.
Proof. unfold read_digits, print_digits. by rewrite of_digits_of, decode_encode, tree_of_code_of. Qed.

Definition digit_json : Json := tree_json_of print_digits read_digits.
Definition digit_laws : @JsonLaws digit_json := tree_laws_of print_digits read_digits.
Definition digit_defined : @JsonDefined digit_json :=
  tree_json_of_defined print_digits read_digits read_digits_defined.
