(* ===== verification/JsonMembers.v ===== *)
(** * Members of JSON objects

    Objects that are built member by member, and what their readers find.  Shared by the properties
    that follow a message from its writer to its reader. *)

From S2P Require Import Prelude Effects Json.

Section Members.
Context `{JsonLaws}.

(** The members after the assignment of an optional value. *)
Definition insert_optional (k : string) (o : option json) (m : gmap string json) : gmap string json :=
  match o with Some v => <[k := v]> m | None => m end.

Lemma lookup_insert_optional k k' o m :
  insert_optional k o m !! k' =
  if String.eqb k k' then match o with Some v => Some v | None => m !! k' end else m !! k'.
Proof.
  destruct o as [v|]; simpl; [|by destruct (String.eqb k k')].
  destruct (String.eqb_spec k k') as [->|]; [apply lookup_insert_eq|by apply lookup_insert_ne].
Qed.

Lemma assign_member k v j m :
  writable j m → gives (assign_path [k] v j) (λ j', writable j' (<[k := v]> m)).
Proof. intros Hj. simpl. rewrite (writable_index k j m Hj). simpl. by apply writable_assign. Qed.

Lemma add_member_gives k o j m :
  writable j m → gives (add_member [k] o j) (λ j', writable j' (insert_optional k o m)).
Proof. intros Hj. destruct o as [v|]; [by apply assign_member|by exists j]. Qed.

(** [j] has the members [m], and its member [k] the members [sub]. *)
Definition holds (k : string) (sub : gmap string json) (j : json) (m : gmap string json) : Prop :=
  writable j m ∧ writable (value_or jnull (m !! k)) sub.

(** The change of [m] by assignments below the member [k]. *)
Definition below (k : string) (assigned : bool) (m m' : gmap string json) : Prop :=
  (∀ k', k' ≠ k → m' !! k' = m !! k') ∧ has_value (m' !! k) = has_value (m !! k) || assigned.

Lemma add_below k k' o j m sub :
  holds k sub j m →
  gives (add_member [k; k'] o j)
    (λ j', ∃ m', holds k (insert_optional k' o sub) j' m' ∧ below k (has_value o) m m').
Proof.
  intros [Hj Hs]. destruct o as [v|]; simpl.
  2:{ exists j. split; [done|]. exists m. split; [done|]. split; [done|]. by rewrite orb_false_r. }
  rewrite (writable_index k j m Hj). simpl.
  destruct (assign_member k' v _ _ Hs) as (s & E & Hs').
  change (sub0 ← jindex k' (value_or jnull (m !! k)); jassign k' v (value_or jnull (m !! k)))
    with (assign_path [k'] v (value_or jnull (m !! k))).
  rewrite E. simpl. destruct (writable_assign k s j m Hj) as (j' & -> & Hj'). exists j'. split; [done|].
  eexists. split; [split; [exact Hj'|by rewrite lookup_insert_eq]|].
  split; [intros; by apply lookup_insert_ne|]. rewrite lookup_insert_eq. simpl. by rewrite orb_true_r.
Qed.

Lemma below_insert k v m : below k true m (<[k := v]> m).
Proof.
  split; [intros; by apply lookup_insert_ne|]. rewrite lookup_insert_eq. simpl. by rewrite orb_true_r.
Qed.

Lemma below_trans k b b' m m' m'' : below k b m m' → below k b' m' m'' → below k (b || b') m m''.
Proof.
  intros [Hm Hk] [Hm' Hk']. split; [intros k' Hne; by rewrite Hm', Hm|].
  by rewrite Hk', Hk, orb_assoc.
Qed.
(** ** Reading *)

Lemma text_read s : get_string (jstring s) = Ok s.
Proof. apply get_string_view, view_string. Qed.

Lemma mapM_read {A} (c : A → json) (f : json → result A) (l : list A) :
  Forall (λ a, f (c a) = Ok a) l → mapM f (c <$> l) = Ok l.
Proof.
  induction 1 as [|a l Ha Hl IH]; [done|].
  change (mapM f (c <$> a :: l)) with (y ← f (c a); k ← mapM f (c <$> l); mret (y :: k) : result (list A)).
  by rewrite Ha, IH.
Qed.

Lemma array_member_read {A} k (c : A → json) (f : json → result A) (l : list A) j m :
  writable j m → m !! k = (if bool_decide (l = []) then None else Some (jarray (c <$> l))) →
  Forall (λ a, f (c a) = Ok a) l → array_member k f j = Ok l.
Proof.
  intros Hj Hk Hl. unfold array_member. rewrite (writable_contains k j m Hj).
  case_bool_decide; rewrite Hk; [by subst|]. simpl. rewrite (writable_index k j m Hj), Hk. simpl.
  rewrite array_view, view_array, (elements_view _ _ (view_array _)).
  by apply mapM_read.
Qed.

Lemma writable_object j m k v : writable j m → m !! k = Some v → view_of j = VObject m.
Proof. intros [Hj|[_ ->]] Hk; [done|by rewrite lookup_empty in Hk]. Qed.

Lemma writable_not_null j m k v : writable j m → m !! k = Some v → is_null j = false.
Proof. intros Hj Hk. by rewrite null_view, (writable_object j m k v Hj Hk). Qed.

Lemma add_if (b : bool) path v j :
  (if b then mret j else assign_path path v j) = add_member path (if b then None else Some v) j.
Proof. by destruct b. Qed.

Lemma jat_missing k j m : writable j m → m !! k = None → jat k j = Throw (json_exception "key not found").
Proof. intros Hj Hk. unfold jat. by rewrite (writable_contains k j m Hj), Hk. Qed.
End Members.
#[global] Arguments insert_optional : simpl never.
