(* ===== verification/Comms.v ===== *)
(** * Messages, services and random identifiers

    What the managers of [af_core] share when they talk to other components: the messages they
    exchange, the orchestrator as they see it, responses with a JSON payload, and the digits of the identifiers they draw. *)

From S2P Require Import Prelude Effects Json.

(** [af::communication::Message], a structure of the common library.  Payloads are byte vectors the
    code converts from and to strings. *)
Record Message := mkMessage {
  message_type : string;
  correlation_id : string;
  payload : string;
  metadata : gmap string string }.

#[global] Instance Message_settable : Settable Message := λ m,
  mkMessage (message_type m) (correlation_id m) (payload m) (metadata m).

#[global] Instance Message_eq_dec : EqDecision Message.
Proof. solve_decision. Defined.

(** [std::make_shared<Message>()] *)
Definition Message_default : Message := mkMessage "" "" "" ∅.

(** A message without metadata. *)
Definition plain_message (type correlation text : string) : Message :=
  mkMessage type correlation text ∅.

(** ** Responses *)

Section Responses.
Context `{Json}.

(** A response whose payload is an object of strings. *)
Definition respond {S} (type : string) (message : Message) (members : list (string * string)) :
    M S Message :=
  text ← lift (dump (jobject (prod_map (λ s, s) jstring <$> members)));
  mret (plain_message type (correlation_id message) text).

Context `{!JsonDefined}.

Lemma respond_total {S} (I : S → Prop) type message members :
  total I (respond type message members) (λ _, True).
Proof.
  apply (total_bind _ _ (λ _, True)); [by apply total_lift; [apply dump_defined|]|].
  intros. by apply total_ret.
Qed.

End Responses.

(** ** The orchestrator *)

(** What the managers read of the orchestrator: which communication services it has (a name may be
    mapped to a null pointer), and the destination of requests to the PCF handler. *)
Record AfOrchestrator := mkAfOrchestrator {
  communication_services_ : gmap string bool;
  orchestrator_pcf_destination : string }.

(** A raw pointer member.  The constructors of the managers leave [orchestrator_] uninitialised:
    its value is indeterminate until [initialize]. *)
Inductive raw_pointer (A : Type) :=
  | indeterminate
  | null
  | pointer (a : A).
Arguments indeterminate {A}.
Arguments null {A}.
Arguments pointer {A} a.

(** Reading a pointer: an indeterminate value must not be read. *)
Definition read_pointer {S A} (p : raw_pointer A) : M S (option A) :=
  match p with
  | indeterminate => undefined indeterminate_value
  | null => mret None
  | pointer a => mret (Some a)
  end.

(** ** Identifiers *)

Definition hex_chars : string := "0123456789abcdef".
Definition hex_char (n : nat) : ascii := value_or "000"%char (String.get n hex_chars).

(** [count] digits, when [k] have been drawn before. *)
Fixpoint hex_digits (draw : nat → nat) (count k : nat) : string :=
  match count with
  | O => ""
  | S count => String (hex_char (draw k)) (hex_digits draw count (S k))
  end.

Definition is_hex (c : ascii) : Prop := c ∈ list_ascii_of_string hex_chars.

Lemma hex_char_hex n : (n < 16)%nat → is_hex (hex_char n).
Proof.
  intros Hn. unfold is_hex. do 16 (destruct n as [|n]; [vm_compute; set_solver|]). lia.
Qed.

Lemma hex_digits_spec draw count k :
  (∀ n, draw n < 16)%nat →
  String.length (hex_digits draw count k) = count ∧
  Forall is_hex (list_ascii_of_string (hex_digits draw count k)).
Proof.
  intros Hd. revert k. induction count as [|count IH]; intros k; simpl; [done|].
  destruct (IH (S k)) as [-> ?]. split; [done|]. constructor; [by apply hex_char_hex|done].
Qed.
