(* ===== verification/ServiceHelpers.v ===== *)
(** * The helpers of request handlers

    What the handlers of the QoD API and of the PCF use of the common library. *)

From S2P Require Import Prelude Effects QodTypes Json Comms.

(** The context [ServiceHandlerHelpers::extract_context] returns. *)
Record ServiceContext := mkServiceContext {
  service_consumer_id : string;
  service_correlation_id : string;
  service_three_legged : bool;
  service_device : option string }.

Class HandlerLibrary `{Json} := {
  (** [ServiceHandlerHelpers] *)
  helper_extract_context : Message → ServiceContext;
  helper_extract_path_param : Message → string → string;
  helper_create_error_response : Z → string → string → string → Message;
  helper_create_success_response : json → Z → string → result Message;
  (** [CommonErrorCode] *)
  INVALID_ARGUMENT : string;
  OUT_OF_RANGE : string;
  NOT_FOUND : string;
  MISSING_IDENTIFIER : string;
  UNNECESSARY_IDENTIFIER : string;
  INVALID_SINK : string;
  (** [QodTypeUtils] *)
  qos_status_to_string : QosStatus → string;
  status_info_to_string : StatusInfo → string;
  (** [j.get<Port>()], [ApplicationServer::is_empty()], [SinkCredential credential;] *)
  get_port : json → result Z;
  server_is_empty : ApplicationServer → bool;
  SinkCredential_default : SinkCredential;
  (** [std::get_time] with "%Y-%m-%dT%H:%M:%S", then [std::mktime], which reads the local time zone. *)
  local_time_point : string → Z }.

(** [Port] is a 16-bit unsigned integer; [j.get<Port>()] is taken to read the integers it
    can hold. *)
Definition is_port (z : Z) : Prop := 0 <= z < 65536.
