(* ===== verification/PolicyManager.v ===== *)
(** * [PolicyManager]: the QoS policies

    [af_core/include/policy_manager.h] and [af_core/src/policy_manager.cpp].  The manager keeps the
    policies it created, by id, and sends requests to the PCF handler through the communication
    service the orchestrator has under "pcf". *)

From S2P Require Import Prelude Effects CxxString Json Comms.

Record QoSPolicy := mkQoSPolicy {
  policy_id : string;
  app_id : string;
  ue_ipv4 : string;
  ue_ipv6 : string;
  flow_direction : string;
  qos_reference : Z;
  guaranteed_bandwidth : Z;
  maximum_bandwidth : Z;
  additional_params : gmap string string;
  state : string;
  error_reason : string;
  pcf_transaction_id : string }.

#[global] Instance QoSPolicy_settable : Settable QoSPolicy := λ p,
  mkQoSPolicy (policy_id p) (app_id p) (ue_ipv4 p) (ue_ipv6 p) (flow_direction p) (qos_reference p)
    (guaranteed_bandwidth p) (maximum_bandwidth p) (additional_params p) (state p) (error_reason p)
    (pcf_transaction_id p).

(** [QoSPolicy policy;]  The integers are uninitialised; every path assigns them before use. *)
Definition QoSPolicy_default : QoSPolicy := mkQoSPolicy "" "" "" "" "" 0 0 0 ∅ "" "" "".

(** The answers of the PCF service to the requests sent so far, the last one to be answered, and
    the draws of [uniform_int_distribution<>(0, 15)] for the ids. *)
Class PolicyEnvironment := {
  policy_pcf_answer : list (string * Message) → exn + option Message;
  policy_draw : nat → nat;
  policy_draw_bound : ∀ n, (policy_draw n < 16)%nat }.

Record PolicyManager := mkPolicyManager {
  orchestrator_ : raw_pointer AfOrchestrator;
  policies_ : gmap string QoSPolicy;
  policies_mutex_ : lock_state;
  policy_requests : list (string * Message);    (* sent to the PCF service so far *)
  policy_draws : nat                            (* drawn from the generator so far *) }.

#[global] Instance PolicyManager_settable : Settable PolicyManager := λ m,
  mkPolicyManager (orchestrator_ m) (policies_ m) (policies_mutex_ m) (policy_requests m)
    (policy_draws m).

Section Definitions.
Context `{Json} `{IterationOrder} `{!PolicyEnvironment}.
Implicit Types (m : PolicyManager) (policy : QoSPolicy).

(** The constructor leaves [orchestrator_] uninitialised. *)
Definition PolicyManager_new : PolicyManager := mkPolicyManager indeterminate ∅ Unlocked [] 0.

Definition initialize (orchestrator : raw_pointer AfOrchestrator) : M PolicyManager () :=
  modify (λ m, m <| orchestrator_ := orchestrator |>).

(** ** Validation *)

Definition validate_policy policy : bool :=
  negb (empty (app_id policy) && empty (ue_ipv4 policy) && empty (ue_ipv6 policy)) &&
  (String.eqb (flow_direction policy) "uplink" || String.eqb (flow_direction policy) "downlink" ||
   String.eqb (flow_direction policy) "bidirectional") &&
  negb ((qos_reference policy <? 1) || (79 <? qos_reference policy)) &&
  negb (guaranteed_bandwidth policy <? 0) &&
  negb (maximum_bandwidth policy <? 0) &&
  negb ((0 <? maximum_bandwidth policy) && (maximum_bandwidth policy <? guaranteed_bandwidth policy)).

(** ** Reading the data of a policy *)

(** [policy.additional_params[key] = ...] for every member of the object. *)
Definition read_additional_params (policy_data : json) : M QoSPolicy () :=
  with_member "additional_params" policy_data (λ params,
    when (is_object params)
      (for_each (jitems params) (λ '(key, value),
         text ← lift (text_of value);
         modify (λ p, p <| additional_params ::= <[key := text]> |>)))).

(** The members a policy takes from the data of a creation request, with their defaults. *)
Definition read_new_policy (policy_data : json) : M QoSPolicy () :=
  with_member "app_id" policy_data (λ v,
    s ← lift (get_string v); modify (λ p, p <| app_id := s |>)) ;;
  with_member "ue_ipv4" policy_data (λ v,
    s ← lift (get_string v); modify (λ p, p <| ue_ipv4 := s |>)) ;;
  with_member "ue_ipv6" policy_data (λ v,
    s ← lift (get_string v); modify (λ p, p <| ue_ipv6 := s |>)) ;;
  member_or "flow_direction" policy_data
    (λ v, s ← lift (get_string v); modify (λ p, p <| flow_direction := s |>))
    (modify (λ p, p <| flow_direction := "bidirectional" |>)) ;;
  member_or "qos_reference" policy_data
    (λ v, z ← lift (get_int v); modify (λ p, p <| qos_reference := z |>))
    (modify (λ p, p <| qos_reference := 9 |>)) ;;
  member_or "guaranteed_bandwidth" policy_data
    (λ v, z ← lift (get_int v); modify (λ p, p <| guaranteed_bandwidth := z |>))
    (modify (λ p, p <| guaranteed_bandwidth := 0 |>)) ;;
  member_or "maximum_bandwidth" policy_data
    (λ v, z ← lift (get_int v); modify (λ p, p <| maximum_bandwidth := z |>))
    (modify (λ p, p <| maximum_bandwidth := 0 |>)) ;;
  read_additional_params policy_data.

(** The members an update changes. *)
Definition update_fields (policy_data : json) : M QoSPolicy () :=
  with_member "app_id" policy_data (λ v,
    s ← lift (get_string v); modify (λ p, p <| app_id := s |>)) ;;
  with_member "ue_ipv4" policy_data (λ v,
    s ← lift (get_string v); modify (λ p, p <| ue_ipv4 := s |>)) ;;
  with_member "ue_ipv6" policy_data (λ v,
    s ← lift (get_string v); modify (λ p, p <| ue_ipv6 := s |>)) ;;
  with_member "flow_direction" policy_data (λ v,
    s ← lift (get_string v); modify (λ p, p <| flow_direction := s |>)) ;;
  with_member "qos_reference" policy_data (λ v,
    z ← lift (get_int v); modify (λ p, p <| qos_reference := z |>)) ;;
  with_member "guaranteed_bandwidth" policy_data (λ v,
    z ← lift (get_int v); modify (λ p, p <| guaranteed_bandwidth := z |>)) ;;
  with_member "maximum_bandwidth" policy_data (λ v,
    z ← lift (get_int v); modify (λ p, p <| maximum_bandwidth := z |>)) ;;
  read_additional_params policy_data.

(** ** The request to the PCF handler *)

Definition is_uplink policy : bool :=
  String.eqb (flow_direction policy) "uplink" || String.eqb (flow_direction policy) "bidirectional".
Definition is_downlink policy : bool :=
  String.eqb (flow_direction policy) "downlink" || String.eqb (flow_direction policy) "bidirectional".

(** [if (b) j[k] = v;] *)
Definition assign_if (b : bool) (k : string) (v j : json) : result json :=
  if b then jassign k v j else mret j.

Definition qos_info policy : result json :=
  let maximum := maximum_bandwidth policy in
  let guaranteed := guaranteed_bandwidth policy in
  j ← assign_if ((0 <? maximum) && is_uplink policy) "max_bw_ul" (jint maximum) jnull;
  j ← assign_if ((0 <? maximum) && is_downlink policy) "max_bw_dl" (jint maximum) j;
  j ← assign_if ((0 <? guaranteed) && is_uplink policy) "min_bw_ul" (jint guaranteed) j;
  j ← assign_if ((0 <? guaranteed) && is_downlink policy) "min_bw_dl" (jint guaranteed) j;
  jassign "5qi" (jint (qos_reference policy)) j.

(** The flow descriptions: JSON if the text parses, else an array of the one text. *)
Definition flow_descriptions_of (text : string) : result json :=
  match parse text with
  | Throw _ => mret (jarray [jstring text])
  | r => r
  end.

Definition media_component policy : result json :=
  info ← qos_info policy;
  j ← jassign "qos_info" info
        (jobject [("media_component_id", jstring "1"); ("media_type", jstring "APPLICATION")]);
  match additional_params policy !! "flow_descriptions" with
  | Some text =>
    flow_descriptions ← flow_descriptions_of text;
    jassign "flows"
      (jarray [jobject [("flow_id", jstring "1"); ("flow_descriptions", flow_descriptions)]]) j
  | None => mret j
  end.

(** The additional parameters but the flow descriptions, null if there are none. *)
Definition other_params policy : result json :=
  foldl (λ r '(key, value), j ← r;
           if String.eqb key "flow_descriptions" then mret j else jassign key (jstring value) j)
    (mret jnull) (visit (additional_params policy)).

Definition subscription_info : json :=
  jobject
    [("notification_uri", jstring "http://phine.af-core:50051/notifications");
     ("events", jarray [jobject [("event", jstring "QOS_NOTIF");
                                 ("notification_method", jstring "EVENT_DETECTION")]])].

Definition build_app_session_request policy : result json :=
  let name := if empty (app_id policy) then "default_app" else app_id policy in
  let j := jobject [("af_app_id", jstring name); ("operation", jstring "create")] in
  j ← assign_if (negb (empty (ue_ipv4 policy))) "ue_ipv4" (jstring (ue_ipv4 policy)) j;
  j ← assign_if (negb (empty (ue_ipv6 policy))) "ue_ipv6" (jstring (ue_ipv6 policy)) j;
  component ← media_component policy;
  j ← jassign "media_components" (jarray [component]) j;
  j ← jassign "subscription_info" subscription_info j;
  if bool_decide (additional_params policy = ∅) then mret j
  else params ← other_params policy;
       assign_if (negb (jempty params)) "additional_params" params j.

(** ** The PCF service *)

(** The guards before a request: the destination, if the orchestrator is set, has a service for the
    PCF and a destination. *)
Definition usable_destination : M PolicyManager (option string) :=
  m ← get;
  o ← read_pointer (orchestrator_ m);
  mret (match o with
        | None => None
        | Some orchestrator =>
          match communication_services_ orchestrator !! "pcf" with
          | Some true => let destination := orchestrator_pcf_destination orchestrator in
                         if empty destination then None else Some destination
          | _ => None
          end
        end).

(** [pcf_comm->send_request(pcf_destination, msg)] *)
Definition send_request (destination : string) (msg : Message) : M PolicyManager (option Message) :=
  m ← get;
  let rs := policy_requests m ++ [(destination, msg)] in
  modify (λ m, m <| policy_requests := rs |>) ;;
  match policy_pcf_answer rs with
  | inl e => throw e
  | inr response => mret response
  end.

Definition failed (reason : string) policy : QoSPolicy :=
  policy <| state := "error" |> <| error_reason := reason |>.

(** The "message" of an error payload. *)
Definition error_message_of (response : Message) : result string :=
  error_json ← parse (payload response);
  if jcontains "message" error_json then v ← jindex "message" error_json; get_string v
  else mret "Unknown error".

(** What the answer to a creation request makes of the policy. *)
Definition apply_response policy (response : option Message) : result (bool * QoSPolicy) :=
  match response with
  | None => mret (false, failed "No response from PCF Handler" policy)
  | Some response =>
    if String.eqb (message_type response) "pcf_app_session_created" then
      response_json ← parse (payload response);
      policy ← (if jcontains "app_session_id" response_json
                then v ← jindex "app_session_id" response_json;
                     s ← get_string v;
                     mret (policy <| pcf_transaction_id := s |>)
                else mret policy);
      mret (true, policy <| state := "active" |>)
    else if String.eqb (message_type response) "pcf_error" then
      error_message ← error_message_of response;
      mret (false, failed ("PCF error: " +:+ error_message) policy)
    else mret (false, failed "Unexpected response from PCF Handler" policy)
  end.

(** The reference parameter [policy] is returned. *)
Definition apply_policy policy : M PolicyManager (bool * QoSPolicy) :=
  destination ← usable_destination;
  match destination with
  | None => mret (false, policy)
  | Some destination =>
    try_catch
      (app_session_request ← lift (build_app_session_request policy);
       text ← lift (dump app_session_request);
       response ← send_request destination
                    (plain_message "pcf_create_app_session" (policy_id policy) text);
       lift (apply_response policy response))
      (λ e, mret (false, failed ("Exception: " +:+ what e) policy))
  end.

(** The answer to a deletion request. *)
Definition remove_response (response : option Message) : result bool :=
  match response with
  | None => mret false
  | Some response =>
    if String.eqb (message_type response) "pcf_app_session_deleted" then mret true
    else if String.eqb (message_type response) "pcf_error" then
      error_message ← error_message_of response; mret false
    else mret false
  end.

Definition remove_policy policy : M PolicyManager bool :=
  if empty (pcf_transaction_id policy) then mret true
  else
    destination ← usable_destination;
    match destination with
    | None => mret false
    | Some destination =>
      try_catch
        (let delete_request := jobject [("app_session_id", jstring (pcf_transaction_id policy))] in
         text ← lift (dump delete_request);
         response ← send_request destination
                      (plain_message "pcf_delete_app_session" (policy_id policy) text);
         lift (remove_response response))
        (λ _, mret false)
    end.

(** ** Operations *)

Definition generate_policy_id : M PolicyManager string :=
  m ← get;
  modify (λ m, m <| policy_draws ::= plus 16 |>) ;;
  mret ("policy-" +:+ hex_digits policy_draw 16 (policy_draws m)).

(** [policies_[policy.id] = policy], under the lock. *)
Definition store_policy policy : M PolicyManager () :=
  with_lock policies_mutex_ Exclusive
    (modify (λ m, m <| policies_ ::= <[policy_id policy := policy]> |>)).

Definition create_policy (policy_data : json) : M PolicyManager QoSPolicy :=
  id ← generate_policy_id;
  '(_, policy) ← try_catch
                   (local (QoSPolicy_default <| policy_id := id |>) (read_new_policy policy_data))
                   (λ e, throw (runtime_error ("Invalid policy data: " +:+ what e)));
  if negb (validate_policy policy) then throw (runtime_error "Invalid policy configuration")
  else
    let policy := policy <| state := "inactive" |> in
    '(applied, policy) ← apply_policy policy;
    if applied : bool then store_policy policy ;; mret policy
    else
      store_policy (failed "Failed to apply policy to network" policy) ;;
      throw (runtime_error "Failed to apply policy to network").

(** The assignment through the reference to the stored policy. *)
Definition assign_policy (id : string) policy : M PolicyManager () :=
  at_key policies_ id (modify (λ _, policy)).

(** [policy] is a reference to the stored policy: its fields change in place, also when reading the
    data fails. *)
Definition update_policy (id : string) (policy_data : json) : M PolicyManager bool :=
  with_lock policies_mutex_ Exclusive
    (m ← get;
     match policies_ m !! id with
     | None => mret false
     | Some old_policy =>
       read ← try_catch (at_key policies_ id (update_fields policy_data) ;; mret true)
                (λ _, mret false);
       if negb read then mret false
       else
         policy ← at_key policies_ id get;
         if negb (validate_policy policy) then assign_policy id old_policy ;; mret false
         else
           '(applied, policy) ← apply_policy policy;
           assign_policy id policy ;;
           if applied : bool then mret true else assign_policy id old_policy ;; mret false
     end).

Definition delete_policy (id : string) : M PolicyManager bool :=
  with_lock policies_mutex_ Exclusive
    (m ← get;
     match policies_ m !! id with
     | None => mret false
     | Some policy =>
       removed ← remove_policy policy;
       if removed : bool then modify (λ m, m <| policies_ ::= delete id |>) ;; mret true
       else mret false
     end).

Definition get_all_policies : M PolicyManager (list QoSPolicy) :=
  with_lock policies_mutex_ Exclusive (m ← get; mret (visit (policies_ m)).*2).

Definition get_policy (id : string) : M PolicyManager (option QoSPolicy) :=
  with_lock policies_mutex_ Exclusive (m ← get; mret (policies_ m !! id)).

(** ** The handler of "qos_request" messages *)

(** [policy_data[k]] as a string, for a member an operation requires. *)
Definition required_id (operation : string) (policy_data : json) : result string :=
  if jcontains "policy_id" policy_data then v ← jindex "policy_id" policy_data; get_string v
  else Throw (runtime_error ("Missing policy_id for " +:+ operation +:+ " operation")).

Definition requested_operation (policy_data : json) : result string :=
  if jcontains "operation" policy_data then v ← jindex "operation" policy_data; get_string v
  else mret "create".

Definition handle_operation (message : Message) (policy_data : json) (operation : string) :
    M PolicyManager Message :=
  if String.eqb operation "create" then
    policy ← create_policy policy_data;
    respond "qos_success" message [("policy_id", policy_id policy); ("state", state policy)]
  else if String.eqb operation "update" then
    id ← lift (required_id operation policy_data);
    success ← update_policy id policy_data;
    if success : bool then
      policy_opt ← get_policy id;
      respond "qos_success" message
        [("policy_id", id);
         ("state", match policy_opt with Some policy => state policy | None => "unknown" end)]
    else respond "qos_error" message
           [("error", "update_failed"); ("message", "Failed to update policy")]
  else if String.eqb operation "delete" then
    id ← lift (required_id operation policy_data);
    success ← delete_policy id;
    if success : bool then
      respond "qos_success" message [("policy_id", id); ("state", "deleted")]
    else respond "qos_error" message
           [("error", "delete_failed"); ("message", "Failed to delete policy")]
  else throw (runtime_error ("Unknown operation: " +:+ operation)).

Definition handle_qos_request (message : Message) : M PolicyManager Message :=
  try_catch
    (policy_data ← lift (parse (payload message));
     operation ← lift (requested_operation policy_data);
     handle_operation message policy_data operation)
    (λ e, respond "qos_error" message [("error", "bad_request"); ("message", what e)]).

End Definitions.
