(* ===== verification/PolicySpec.v ===== *)
(** * What [PolicyManager] promises

    Requests are handled without undefined behaviour once the manager is initialised, stored policies
    keep their ids and are active only when the PCF accepted them, and updates and deletions behave
    as stated on every branch. *)

From S2P Require Import Prelude Effects CxxString Json Comms PolicyManager.

Section Specification.
Context `{JsonDefined} `{IterationOrder} `{!PolicyEnvironment}.
Implicit Types (m : PolicyManager) (policy : QoSPolicy).

(** ** Applying a policy *)

(** The destination of requests, when there is one. *)
Definition destination_of m : option string :=
  match orchestrator_ m with
  | pointer orchestrator =>
    match communication_services_ orchestrator !! "pcf" with
    | Some true => let destination := orchestrator_pcf_destination orchestrator in
                   if empty destination then None else Some destination
    | _ => None
    end
  | _ => None
  end.

Definition creation_text policy : result string := j ← build_app_session_request policy; dump j.

(** The request that creates the application session of a policy. *)
Definition creation_request (d text : string) policy : string * Message :=
  (d, plain_message "pcf_create_app_session" (policy_id policy) text).

(** What applying a policy comes to: whether it is applied, the policy afterwards, and the requests
    sent. *)
Inductive outcome m policy : bool → QoSPolicy → list (string * Message) → Prop :=
  | unreachable :
    destination_of m = None → outcome m policy false policy []
  | unprintable d e :
    destination_of m = Some d → creation_text policy = Throw e →
    outcome m policy false (failed ("Exception: " +:+ what e) policy) []
  | unanswered d text e :
    destination_of m = Some d → creation_text policy = Ok text →
    policy_pcf_answer (policy_requests m ++ [creation_request d text policy]) = inl e →
    outcome m policy false (failed ("Exception: " +:+ what e) policy)
      [creation_request d text policy]
  | unreadable d text response e :
    destination_of m = Some d → creation_text policy = Ok text →
    policy_pcf_answer (policy_requests m ++ [creation_request d text policy]) = inr response →
    apply_response policy response = Throw e →
    outcome m policy false (failed ("Exception: " +:+ what e) policy)
      [creation_request d text policy]
  | rejected d text response reason :
    destination_of m = Some d → creation_text policy = Ok text →
    policy_pcf_answer (policy_requests m ++ [creation_request d text policy]) = inr response →
    apply_response policy response = Ok (false, failed reason policy) →
    outcome m policy false (failed reason policy) [creation_request d text policy]
  | accepted d text response t :
    destination_of m = Some d → creation_text policy = Ok text →
    policy_pcf_answer (policy_requests m ++ [creation_request d text policy]) = inr (Some response) →
    message_type response = "pcf_app_session_created" →
    outcome m policy true (policy <| pcf_transaction_id := t |> <| state := "active" |>)
      [creation_request d text policy].

(** Requests sent after those of [m]. *)
Definition sending (rs : list (string * Message)) m : PolicyManager :=
  m <| policy_requests ::= λ rs', rs' ++ rs |>.

Definition initialized m : Prop := orchestrator_ m ≠ indeterminate.

Lemma usable_destination_run n m :
  initialized m → usable_destination (World n m) = (Ok (destination_of m), World n m).
Proof.
  unfold initialized, usable_destination, destination_of. intros Hi. rewrite bind_get. cbn [obj].
  by destruct (orchestrator_ m).
Qed.

Lemma assign_if_defined b k v j : defined (assign_if b k v j).
Proof. destruct b; [apply jassign_defined|done]. Qed.

Lemma qos_info_defined policy : defined (qos_info policy).
Proof.
  unfold qos_info. repeat (apply defined_bind; [apply assign_if_defined|intros ? _]).
  apply jassign_defined.
Qed.

Lemma flow_descriptions_defined text : defined (flow_descriptions_of text).
Proof. unfold flow_descriptions_of. pose proof (parse_defined text). by destruct (parse text). Qed.

Lemma media_component_defined policy : defined (media_component policy).
Proof.
  unfold media_component. apply defined_bind; [apply qos_info_defined|intros ? _].
  apply defined_bind; [apply jassign_defined|intros ? _]. case_match; [|done].
  apply defined_bind; [apply flow_descriptions_defined|intros; apply jassign_defined].
Qed.

Lemma other_params_defined policy : defined (other_params policy).
Proof.
  unfold other_params. apply foldl_inv; [done|]. intros r [k v] _ Hr.
  apply defined_bind; [done|intros]. case_match; [done|apply jassign_defined].
Qed.

Lemma creation_text_defined policy : defined (creation_text policy).
Proof.
  apply defined_bind; [|intros; apply dump_defined]. unfold build_app_session_request. cbv zeta.
  repeat (apply defined_bind;
    [first [apply assign_if_defined|apply media_component_defined|apply jassign_defined]|intros ? _]).
  case_bool_decide; [done|].
  apply defined_bind; [apply other_params_defined|intros; apply assign_if_defined].
Qed.

Lemma error_message_defined response : defined (error_message_of response).
Proof.
  apply defined_bind; [apply parse_defined|intros]. case_match; [|done].
  apply defined_bind; [apply jindex_defined|intros; apply get_string_defined].
Qed.

(** What the code makes of an answer: an exception, a failure with its reason, or an activation. *)
Lemma apply_response_cases policy response :
  (∃ e, apply_response policy response = Throw e) ∨
  (∃ reason, apply_response policy response = Ok (false, failed reason policy)) ∨
  (∃ r t, response = Some r ∧ message_type r = "pcf_app_session_created" ∧
     apply_response policy response =
       Ok (true, policy <| pcf_transaction_id := t |> <| state := "active" |>)).
Proof.
  unfold apply_response. destruct response as [r|]; [|by right; left; eexists].
  destruct (String.eqb_spec (message_type r) "pcf_app_session_created") as [Ht|_].
  - pose proof (parse_defined (payload r)). destruct (parse (payload r)) as [j|e|u]; [|by left; eexists|done].
    simpl. destruct (jcontains _ j).
    + pose proof (jindex_defined "app_session_id" j).
      destruct (jindex _ j) as [v|e|u]; [|by left; eexists|done]. simpl.
      pose proof (get_string_defined v). destruct (get_string v) as [t|e|u]; [|by left; eexists|done].
      right. right. by exists r, t.
    + right. right. exists r, (pcf_transaction_id policy). by destruct policy.
  - destruct (String.eqb _ "pcf_error"); [|by right; left; eexists].
    pose proof (error_message_defined r).
    destruct (error_message_of r) as [s|e|u]; [by right; left; eexists|by left; eexists|done].
Qed.

Lemma send_request_run d msg n m :
  send_request d msg (World n m) =
    (match policy_pcf_answer (policy_requests m ++ [(d, msg)]) with
     | inl e => Throw e
     | inr response => Ok response
     end, World n (sending [(d, msg)] m)).
Proof.
  unfold send_request. rewrite bind_get. cbn [obj]. erewrite bind_run; [|done].
  by destruct (policy_pcf_answer _).
Qed.

Lemma sending_nil m : sending [] m = m.
Proof. destruct m. unfold sending. simpl. by rewrite app_nil_r. Qed.

Lemma apply_policy_outcome n m policy :
  initialized m →
  ∃ b p rs, outcome m policy b p rs ∧
    apply_policy policy (World n m) = (Ok (b, p), World n (sending rs m)).
Proof.
  intros Hi. unfold apply_policy. erewrite bind_run; [|by apply usable_destination_run].
  destruct (destination_of m) as [d|] eqn:Ed.
  2:{ exists false, policy, []. rewrite sending_nil. split; [by constructor|done]. }
  pose proof (creation_text_defined policy) as Hd. unfold try_catch.
  assert (Hs : ∀ f : string → M PolicyManager (bool * QoSPolicy),
    (app_session_request ← lift (build_app_session_request policy);
     text ← lift (dump app_session_request); f text) (World n m) =
    (text ← lift (creation_text policy); f text) (World n m)).
  { intros f. unfold creation_text, lift, mbind, M_bind, result_bind.
    by destruct (build_app_session_request policy). }
  rewrite Hs. destruct (creation_text policy) as [text|e|u] eqn:Et; [| |done].
  2:{ exists false, (failed ("Exception: " +:+ what e) policy), []. rewrite sending_nil. split; [|done].
      by econstructor. }
  erewrite bind_run; [|done]. set (rs := policy_requests m ++ [creation_request d text policy]).
  destruct (policy_pcf_answer rs) as [e|response] eqn:Ea.
  - exists false, (failed ("Exception: " +:+ what e) policy), [creation_request d text policy].
    split; [by econstructor|]. unfold mbind, M_bind. rewrite send_request_run.
    change (policy_pcf_answer _) with (policy_pcf_answer rs). by rewrite Ea.
  - rewrite (bind_run _ _ _ response (World n (sending [creation_request d text policy] m))).
    2:{ rewrite send_request_run. change (policy_pcf_answer _) with (policy_pcf_answer rs). by rewrite Ea. }
    unfold lift.
    destruct (apply_response_cases policy response) as [[e E]|[[reason E]|(r & t & -> & Ht & E)]];
      rewrite E; do 3 eexists; (split; [|done]).
    + by eapply unreadable.
    + by eapply rejected.
    + by eapply accepted.
Qed.

Lemma outcome_id m policy b p rs : outcome m policy b p rs → policy_id p = policy_id policy.
Proof. by destruct 1. Qed.

(** ** Removing a policy *)

(** What removing a policy from the network comes to: whether it is removed, and the requests sent. *)
Inductive removal m policy : bool → list (string * Message) → Prop :=
  | never_applied : pcf_transaction_id policy = "" → removal m policy true []
  | not_sent :
    pcf_transaction_id policy ≠ "" →
    destination_of m = None ∨
      (∃ e, dump (jobject [("app_session_id", jstring (pcf_transaction_id policy))]) = Throw e) →
    removal m policy false []
  | removal_sent d text b answer :
    pcf_transaction_id policy ≠ "" → destination_of m = Some d →
    dump (jobject [("app_session_id", jstring (pcf_transaction_id policy))]) = Ok text →
    let request := (d, plain_message "pcf_delete_app_session" (policy_id policy) text) in
    policy_pcf_answer (policy_requests m ++ [request]) = answer →
    (b = true ↔ ∃ r, answer = inr (Some r) ∧ message_type r = "pcf_app_session_deleted") →
    removal m policy b [request].

Lemma remove_response_cases response :
  remove_response response = Ok true ∧
    (∃ r, response = Some r ∧ message_type r = "pcf_app_session_deleted") ∨
  (remove_response response = Ok false ∨ ∃ e, remove_response response = Throw e) ∧
    ¬ (∃ r, response = Some r ∧ message_type r = "pcf_app_session_deleted").
Proof.
  unfold remove_response. destruct response as [r|]; [|right; naive_solver].
  destruct (String.eqb_spec (message_type r) "pcf_app_session_deleted"); [left; eauto|].
  right. split; [|naive_solver].
  destruct (String.eqb _ "pcf_error"); [|by left].
  pose proof (error_message_defined r). destruct (error_message_of r) as [s|e|u]; [by left| |done].
  right. by exists e.
Qed.

Lemma remove_policy_removal n m policy :
  initialized m →
  ∃ b rs, removal m policy b rs ∧
    remove_policy policy (World n m) = (Ok b, World n (sending rs m)).
Proof.
  intros Hi. unfold remove_policy.
  destruct (pcf_transaction_id policy) as [|c s] eqn:Ep.
  { exists true, []. rewrite sending_nil. split; [by constructor|done]. }
  cbn [empty]. rewrite <- Ep. assert (Hp : pcf_transaction_id policy ≠ "") by (by rewrite Ep).
  erewrite bind_run; [|by apply usable_destination_run].
  destruct (destination_of m) as [d|] eqn:Ed.
  2:{ exists false, []. rewrite sending_nil. split; [by constructor; auto|done]. }
  unfold try_catch. cbv zeta.
  set (j := jobject [("app_session_id", jstring (pcf_transaction_id policy))]).
  pose proof (dump_defined j) as Hd. destruct (dump j) as [text|e|u] eqn:Et; [| |done].
  2:{ exists false, []. rewrite sending_nil. split; [by constructor; eauto|done]. }
  erewrite bind_run; [|done].
  set (request := (d, plain_message "pcf_delete_app_session" (policy_id policy) text)).
  unfold mbind, M_bind. rewrite send_request_run. fold request.
  destruct (policy_pcf_answer (policy_requests m ++ [request])) as [e|response] eqn:Ea.
  { exists false, [request]. split; [|done]. eapply removal_sent; eauto. naive_solver. }
  unfold lift. destruct (remove_response_cases response) as [[E Hr]|[[E|[e E]] Hr]]; rewrite E.
  - exists true, [request]. split; [|done]. eapply removal_sent; eauto. naive_solver.
  - exists false, [request]. split; [|done]. eapply removal_sent; eauto.
    split; [done|]. intros (r & [= ->] & ?). destruct Hr. by exists r.
  - exists false, [request]. split; [|done]. eapply removal_sent; eauto.
    split; [done|]. intros (r & [= ->] & ?). destruct Hr. by exists r.
Qed.

(** ** Updating, deleting and creating *)

(** The manager with another policy stored. *)
Definition storing (id : string) policy m : PolicyManager := m <| policies_ ::= <[id := policy]> |>.

Lemma storing_twice id p p' m : storing id p (storing id p' m) = storing id p m.
Proof. destruct m. unfold storing. simpl. by rewrite insert_insert_eq. Qed.

Lemma storing_same id p m : policies_ m !! id = Some p → storing id p m = m.
Proof. destruct m. unfold storing. simpl. intros. by rewrite insert_id. Qed.

Definition unlocked m : Prop := policies_mutex_ m = Unlocked.

(** The body of a locked method, run from a manager whose mutex is free. *)
Lemma policies_locked_run {A} (f : M PolicyManager A) n m r n' m' :
  unlocked m →
  f (World n (m <| policies_mutex_ := Exclusive |>)) =
    (r, World n' (m' <| policies_mutex_ := Exclusive |>)) → unlocked m' →
  with_lock policies_mutex_ Exclusive f (World n m) = (r, World n' m').
Proof.
  intros Hm E Hm'. apply with_lock_run; [done|exact E|].
  destruct m' as [? ? l ? ?]. unfold unlocked in Hm'. simpl in *. by subst.
Qed.

Lemma assign_policy_run id p p' n m :
  policies_ m !! id = Some p' → assign_policy id p (World n m) = (Ok (), World n (storing id p m)).
Proof. intros E. unfold assign_policy, at_key. cbn [obj]. by rewrite E. Qed.

Lemma outcome_ext m m' policy b p rs :
  destination_of m = destination_of m' → policy_requests m = policy_requests m' →
  outcome m policy b p rs → outcome m' policy b p rs.
Proof.
  intros Ed Er Ho.
  destruct Ho; [eapply unreachable|eapply unprintable|eapply unanswered|eapply unreadable|
    eapply rejected|eapply accepted]; rewrite <- ?Ed, <- ?Er; eauto.
Qed.

Lemma removal_ext m m' policy b rs :
  destination_of m = destination_of m' → policy_requests m = policy_requests m' →
  removal m policy b rs → removal m' policy b rs.
Proof.
  intros Ed Er Ho.
  destruct Ho; [eapply never_applied|eapply not_sent|eapply removal_sent]; rewrite <- ?Ed, <- ?Er; eauto.
Qed.

(** Reading the data of an update ends, and changes neither the id nor the state of the policy. *)
Definition same_identity policy policy' : Prop :=
  policy_id policy' = policy_id policy ∧ state policy' = state policy ∧
  pcf_transaction_id policy' = pcf_transaction_id policy.

Lemma read_additional_params_total policy data :
  total (same_identity policy) (read_additional_params data) (λ _, True).
Proof.
  apply total_with_member. intros v. apply total_when, total_for_each. intros [key value].
  apply (total_bind _ _ (λ _, True)); [by apply total_lift; [apply text_of_defined|]|].
  intros text _. by apply total_modify.
Qed.

Lemma read_string_total policy j (f : string → QoSPolicy → QoSPolicy) :
  (∀ s p, same_identity policy p → same_identity policy (f s p)) →
  total (same_identity policy) (s ← lift (get_string j); modify (f s)) (λ _, True).
Proof.
  intros Hf. apply (total_bind _ _ (λ _, True)); [by apply total_lift; [apply get_string_defined|]|].
  intros s _. apply total_modify; [apply Hf|done].
Qed.

Lemma read_int_total policy j (f : Z → QoSPolicy → QoSPolicy) :
  (∀ s p, same_identity policy p → same_identity policy (f s p)) →
  total (same_identity policy) (s ← lift (get_int j); modify (f s)) (λ _, True).
Proof.
  intros Hf. apply (total_bind _ _ (λ _, True)); [by apply total_lift; [apply get_int_defined|]|].
  intros s _. apply total_modify; [apply Hf|done].
Qed.

Ltac read_fields :=
  repeat (eapply total_bind;
    [first [apply total_with_member; intros ?|apply total_member_or; [intros ?|]];
     first [by apply read_string_total|by apply read_int_total|by apply total_modify]
    |intros _ _]);
  apply read_additional_params_total.

Lemma update_fields_total policy data : total (same_identity policy) (update_fields data) (λ _, True).
Proof. unfold update_fields. read_fields. Qed.

Lemma read_new_policy_total policy data :
  total (same_identity policy) (read_new_policy data) (λ _, True).
Proof. unfold read_new_policy. read_fields. Qed.

(** The reading of the data of an update, in place. *)
Lemma read_step id data n m old r n' changed :
  policies_ m !! id = Some old → update_fields data (World n old) = (r, World n' changed) →
  defined r →
  ∀ f : bool → M PolicyManager bool,
    (read ← try_catch (at_key policies_ id (update_fields data) ;; mret true) (λ _, mret false);
     f read) (World n m) = f (is_ok r) (World n' (storing id changed m)).
Proof.
  intros E Er Hd f. apply bind_run.
  assert (Hat : at_key policies_ id (update_fields data) (World n m) = (r, World n' (storing id changed m)))
    by (unfold at_key; cbn [obj ticks]; by rewrite E, Er).
  unfold try_catch, mbind, M_bind. rewrite Hat. by destruct r.
Qed.

Lemma reference_run id p n m :
  policies_ m !! id = Some p → at_key policies_ id get (World n m) = (Ok p, World n m).
Proof.
  intros E. unfold at_key. cbn [obj ticks]. rewrite E. cbn [get obj ticks].
  change (upd policies_ (λ mp, <[id:=p]> mp) m) with (storing id p m). by rewrite storing_same.
Qed.

Lemma update_policy_run id data n m :
  initialized m → unlocked m →
  match policies_ m !! id with
  | None => update_policy id data (World n m) = (Ok false, World n m)
  | Some old =>
    let '(r, World n' changed) := update_fields data (World n old) in
    match r with
    | Undefined _ => False
    | Throw _ => update_policy id data (World n m) = (Ok false, World n' (storing id changed m))
    | Ok _ =>
      if validate_policy changed then
        ∃ applied policy rs, outcome m changed applied policy rs ∧
          update_policy id data (World n m) =
            (Ok applied, World n' (storing id (if applied then policy else old) (sending rs m)))
      else update_policy id data (World n m) = (Ok false, World n' m)
    end
  end.
Proof.
  intros Hi Hu. destruct (policies_ m !! id) as [old|] eqn:E.
  2:{ apply policies_locked_run; [done| |done]. rewrite bind_get. cbn [obj].
      change (policies_ (m <|policies_mutex_ := Exclusive|>)) with (policies_ m). by rewrite E. }
  destruct (update_fields data (World n old)) as [r [n' changed]] eqn:Er.
  assert (Hd : defined r).
  { destruct (update_fields_total old data (World n old)) as [_ Hr]; [done|].
    rewrite Er in Hr. by destruct r. }
  set (m0 := m <|policies_mutex_ := Exclusive|>).
  pose proof (read_step id data n m0 old r n' changed E Er Hd) as Hbody.
  set (m1 := storing id changed m0) in *.
  assert (E1 : policies_ m1 !! id = Some changed) by apply lookup_insert_eq.
  assert (Hold : storing id old m1 = m0) by (unfold m1; rewrite storing_twice; by apply storing_same).
  destruct r as [[]|e|u]; [| |done]; cbn [is_ok] in Hbody.
  2:{ apply policies_locked_run; [done| |done]. rewrite bind_get. cbn [obj]. fold m0.
      change (policies_ m0) with (policies_ m). by rewrite E, Hbody. }
  pose proof (reference_run id changed n' m1 E1) as Hget.
  destruct (validate_policy changed) eqn:Hv.
  2:{ apply policies_locked_run; [done| |done]. rewrite bind_get. cbn [obj]. fold m0.
      change (policies_ m0) with (policies_ m). rewrite E, Hbody. cbn [negb].
      rewrite (bind_run _ _ _ _ _ Hget), Hv. cbn [negb].
      rewrite (bind_run _ _ _ _ _ (assign_policy_run id old changed n' m1 E1)). by rewrite Hold. }
  destruct (apply_policy_outcome n' m1 changed Hi) as (applied & p & rs & Ho & Hrun).
  exists applied, p, rs. split; [by eapply outcome_ext; [..|exact Ho]|].
  set (m2 := sending rs m1) in *.
  assert (E2 : policies_ m2 !! id = Some changed) by exact E1.
  set (m3 := storing id p m2).
  assert (E3 : policies_ m3 !! id = Some p) by apply lookup_insert_eq.
  apply policies_locked_run; [done| |done]. rewrite bind_get. cbn [obj]. fold m0.
  change (policies_ m0) with (policies_ m). rewrite E, Hbody. cbn [negb].
  rewrite (bind_run _ _ _ _ _ Hget), Hv. cbn [negb]. rewrite (bind_run _ _ _ _ _ Hrun).
  cbv beta iota zeta. rewrite (bind_run _ _ _ _ _ (assign_policy_run id p changed n' m2 E2)).
  fold m3. destruct applied.
  - unfold m3, m2, m1. change (sending rs (storing id changed m0)) with (storing id changed (sending rs m0)).
    by rewrite storing_twice.
  - rewrite (bind_run _ _ _ _ _ (assign_policy_run id old p n' m3 E3)).
    unfold m3, m2, m1. change (sending rs (storing id changed m0)) with (storing id changed (sending rs m0)).
    by rewrite !storing_twice.
Qed.

(** C14: an update, on every branch.  Unknown ids are refused.  If a member of the data cannot be
    read, the update is refused but the members read before it stay changed.  A policy that the
    changes make invalid is restored.  Otherwise the changed policy is sent to the PCF as a new
    session; it is stored if the PCF accepts it, and the old policy is restored if not.  No request
    to delete the session of the old policy is sent. *)
Theorem update_policy_spec id data n m :
  initialized m → unlocked m →
  match policies_ m !! id with
  | None => update_policy id data (World n m) = (Ok false, World n m)
  | Some old =>
    let '(r, World n' changed) := update_fields data (World n old) in
    match r with
    | Undefined _ => False
    | Throw _ => update_policy id data (World n m) = (Ok false, World n' (storing id changed m))
    | Ok _ =>
      if validate_policy changed then
        ∃ applied policy rs, outcome m changed applied policy rs ∧
          update_policy id data (World n m) =
            (Ok applied, World n' (storing id (if applied then policy else old) (sending rs m)))
      else update_policy id data (World n m) = (Ok false, World n' m)
    end
  end.
Proof. exact (update_policy_run id data n m). Qed.

(** Deletion removes the policy exactly when it was never applied or the PCF deletes its session. *)
Lemma delete_policy_run id n m :
  initialized m → unlocked m →
  match policies_ m !! id with
  | None => delete_policy id (World n m) = (Ok false, World n m)
  | Some policy =>
    ∃ removed rs, removal m policy removed rs ∧
      delete_policy id (World n m) =
        (Ok removed, World n (sending rs (if removed then m <| policies_ ::= delete id |> else m)))
  end.
Proof.
  intros Hi Hu. set (m0 := m <|policies_mutex_ := Exclusive|>).
  destruct (policies_ m !! id) as [policy|] eqn:E.
  - destruct (remove_policy_removal n m0 policy Hi) as (b & rs & Hr & Hrun).
    exists b, rs. split; [by eapply removal_ext; [..|exact Hr]|].
    apply policies_locked_run; [done| |by destruct b]. rewrite bind_get. cbn [obj]. fold m0.
    change (policies_ m0) with (policies_ m). rewrite E, (bind_run _ _ _ _ _ Hrun). by destruct b.
  - apply policies_locked_run; [done| |done]. rewrite bind_get. cbn [obj]. fold m0.
    change (policies_ m0) with (policies_ m). by rewrite E.
Qed.

(** The id of the next policy. *)
Definition next_id m : string := "policy-" +:+ hex_digits policy_draw 16 (policy_draws m).
Definition drawn m : PolicyManager := m <| policy_draws ::= plus 16 |>.

Lemma store_policy_run policy n m :
  unlocked m → store_policy policy (World n m) = (Ok (), World n (storing (policy_id policy) policy m)).
Proof. intros Hu. by apply policies_locked_run. Qed.

Lemma create_policy_run data n m :
  initialized m → unlocked m →
  let '(r, World n' policy) :=
    read_new_policy data (World n (QoSPolicy_default <| policy_id := next_id m |>)) in
  policy_id policy = next_id m ∧
  match r with
  | Undefined _ => False
  | Throw e =>
    create_policy data (World n m) =
      (Throw (runtime_error ("Invalid policy data: " +:+ what e)), World n' (drawn m))
  | Ok _ =>
    if validate_policy policy then
      ∃ applied policy' rs, outcome m (policy <| state := "inactive" |>) applied policy' rs ∧
        create_policy data (World n m) =
          (if applied then
             (Ok policy', World n' (storing (next_id m) policy' (sending rs (drawn m))))
           else
             (Throw (runtime_error "Failed to apply policy to network"),
              World n' (storing (next_id m) (failed "Failed to apply policy to network" policy')
                          (sending rs (drawn m)))))
    else create_policy data (World n m) =
           (Throw (runtime_error "Invalid policy configuration"), World n' (drawn m))
  end.
Proof.
  intros Hi Hu. set (p0 := QoSPolicy_default <| policy_id := next_id m |>).
  destruct (read_new_policy_total p0 data (World n p0)) as [Hid Hr]; [done|].
  destruct (read_new_policy data (World n p0)) as [r [n' policy]] eqn:Er. simpl in Hid, Hr.
  destruct Hid as (Hid & _). change (policy_id p0) with (next_id m) in Hid. split; [exact Hid|].
  assert (Hl : local p0 (read_new_policy data) (World n (drawn m)) =
    (match r with Ok a => Ok (a, policy) | Throw e => Throw e | Undefined u => Undefined u end,
     World n' (drawn m))).
  { unfold local. cbn [ticks obj]. rewrite Er. by destruct r. }
  unfold create_policy. rewrite (bind_run generate_policy_id _ _ (next_id m) (World n (drawn m)))
    by done. fold p0.
  destruct r as [a|e|u]; [| |done].
  2:{ unfold try_catch, mbind, M_bind. by rewrite Hl. }
  rewrite (bind_run _ _ _ (a, policy) (World n' (drawn m))) by (unfold try_catch; by rewrite Hl).
  cbv beta iota. destruct (validate_policy policy); [|done]. cbn [negb]. cbv zeta.
  destruct (apply_policy_outcome n' (drawn m) (policy <| state := "inactive" |>) Hi)
    as (applied & p & rs & Ho & Hrun).
  exists applied, p, rs. split; [by eapply outcome_ext; [..|exact Ho]|].
  rewrite (bind_run _ _ _ _ _ Hrun). cbv beta iota.
  pose proof (outcome_id _ _ _ _ _ Ho) as Hp. simpl in Hp. rewrite Hid in Hp.
  destruct applied.
  - rewrite (bind_run _ _ _ _ _ (store_policy_run p n' (sending rs (drawn m)) Hu)). by rewrite Hp.
  - rewrite (bind_run _ _ _ _ _ (store_policy_run (failed "Failed to apply policy to network" p) n'
      (sending rs (drawn m)) Hu)). simpl. by rewrite Hp.
Qed.

(** C15: a creation, on every branch.  Data that cannot be read and invalid policies are refused and
    nothing is stored.  Otherwise the policy is sent to the PCF under a fresh id and stored in any
    case: active if the PCF accepts it, else in state error; the reason stored is always the general
    one, whatever reason the exchange with the PCF recorded. *)
Theorem create_policy_spec data n m :
  initialized m → unlocked m →
  let '(r, World n' policy) :=
    read_new_policy data (World n (QoSPolicy_default <| policy_id := next_id m |>)) in
  policy_id policy = next_id m ∧
  match r with
  | Undefined _ => False
  | Throw e =>
    create_policy data (World n m) =
      (Throw (runtime_error ("Invalid policy data: " +:+ what e)), World n' (drawn m))
  | Ok _ =>
    if validate_policy policy then
      ∃ applied policy' rs, outcome m (policy <| state := "inactive" |>) applied policy' rs ∧
        create_policy data (World n m) =
          (if applied then
             (Ok policy', World n' (storing (next_id m) policy' (sending rs (drawn m))))
           else
             (Throw (runtime_error "Failed to apply policy to network"),
              World n' (storing (next_id m) (failed "Failed to apply policy to network" policy')
                          (sending rs (drawn m)))))
    else create_policy data (World n m) =
           (Throw (runtime_error "Invalid policy configuration"), World n' (drawn m))
  end.
Proof. exact (create_policy_run data n m). Qed.

(** ** The policies of a running manager *)

(** The PCF acknowledged a creation request for the policy [k]. *)
Definition acknowledged m (k : string) : Prop :=
  ∃ rs rs' d text r, let request := (d, plain_message "pcf_create_app_session" k text) in
    policy_requests m = (rs ++ [request]) ++ rs' ∧
    policy_pcf_answer (rs ++ [request]) = inr (Some r) ∧
    message_type r = "pcf_app_session_created".

Definition policy_shaped (k : string) : Prop :=
  ∃ digits, k = "policy-" +:+ digits ∧ String.length digits = 16%nat ∧
    Forall is_hex (list_ascii_of_string digits).

(** A policy stored under [k]: it has the id [k], which is well formed, and is either in state error
    or active with the acknowledgement of the PCF. *)
Definition good_policy m (k : string) policy : Prop :=
  policy_id policy = k ∧ policy_shaped k ∧
  (state policy = "error" ∨ state policy = "active" ∧ acknowledged m k).

Definition managed m : Prop :=
  initialized m ∧ unlocked m ∧ map_Forall (good_policy m) (policies_ m).

(** The managers that answer requests: initialised, then after any number of requests. *)
Inductive running : PolicyManager → Prop :=
  | running_start o n r w :
    o ≠ indeterminate → initialize o (World n PolicyManager_new) = (r, w) → running (obj w)
  | running_request m n message r w :
    running m → handle_qos_request message (World n m) = (r, w) → running (obj w).

Lemma acknowledged_sending rs m k : acknowledged m k → acknowledged (sending rs m) k.
Proof.
  intros (rs1 & rs2 & d & text & r & E & Ha). exists rs1, (rs2 ++ rs), d, text, r.
  split; [|exact Ha]. simpl. by rewrite E, <- app_assoc.
Qed.

Lemma managed_sending rs m : managed m → managed (sending rs m).
Proof.
  intros (Hi & Hu & Hp). split_and!; [done..|]. intros k p Hk.
  destruct (Hp k p Hk) as (? & ? & [?|[? ?]]); split_and!; auto using acknowledged_sending.
Qed.

Lemma managed_drawn m : managed m → managed (drawn m).
Proof. done. Qed.

Lemma managed_storing k p m : managed m → good_policy m k p → managed (storing k p m).
Proof.
  intros (Hi & Hu & Hp) Hg. split_and!; [done..|]. apply map_Forall_insert_2; [exact Hg|exact Hp].
Qed.

Lemma managed_delete k m : managed m → managed (m <| policies_ ::= delete k |>).
Proof. intros (Hi & Hu & Hp). split_and!; [done..|]. by apply map_Forall_delete. Qed.

Lemma next_id_shaped m : policy_shaped (next_id m).
Proof.
  exists (hex_digits policy_draw 16 (policy_draws m)). split; [done|].
  apply hex_digits_spec, policy_draw_bound.
Qed.

(** An accepted policy is active and acknowledged. *)
Lemma outcome_good m policy p rs k :
  policy_id policy = k → policy_shaped k → outcome m policy true p rs → good_policy (sending rs m) k p.
Proof.
  intros <- Hk Ho. inversion Ho as [| | | | |d text r t Hd Ht Ha Hty]; subst.
  split_and!; [done..|]. right. split; [done|].
  exists (policy_requests m), [], d, text, r. simpl. by rewrite app_nil_r.
Qed.

Lemma create_policy_total data : total managed (create_policy data) (λ _, True).
Proof.
  intros [n m] Hm. unfold wp. cbn [obj] in Hm. destruct Hm as (Hi & Hu & Hp) eqn:Hm'. clear Hm'.
  pose proof (create_policy_run data n m Hi Hu) as Hs.
  destruct (read_new_policy _ _) as [r [n' policy]]. destruct Hs as [Hid Hs].
  destruct r as [a|e|u]; [|by rewrite Hs|done].
  destruct (validate_policy policy); [|by rewrite Hs].
  destruct Hs as (applied & p & rs & Ho & ->).
  assert (Hd : managed (sending rs (drawn m))) by by apply managed_sending, managed_drawn.
  destruct applied; cbn [fst snd obj]; (split; [|done]); apply managed_storing; try done.
  - apply (outcome_good _ (policy <| state := "inactive" |>)); [done|apply next_id_shaped|].
    by eapply outcome_ext; [..|exact Ho].
  - split_and!; [|apply next_id_shaped|by left].
    pose proof (outcome_id _ _ _ _ _ Ho) as E. simpl in E. simpl. by rewrite E.
Qed.

Lemma update_policy_total id data : total managed (update_policy id data) (λ _, True).
Proof.
  intros [n m] Hm. unfold wp. cbn [obj] in Hm. destruct (Hm) as (Hi & Hu & Hp).
  pose proof (update_policy_run id data n m Hi Hu) as Hs.
  destruct (policies_ m !! id) as [old|] eqn:E; [|by rewrite Hs].
  pose proof (Hp id old E) as Hold.
  destruct (update_fields_total old data (World n old)) as [Hsame _]; [done|].
  destruct (update_fields _ _) as [r [n' changed]]. cbn [fst snd obj] in Hsame.
  destruct Hold as (Hid & Hshape & Hstate). destruct Hsame as (Hid' & Hst' & _).
  destruct r as [a|e|u]; [| |done].
  - destruct (validate_policy changed); [|by rewrite Hs].
    destruct Hs as (applied & p & rs & Ho & ->). split; [|done]. cbn [fst snd obj].
    apply managed_storing; [by apply managed_sending|]. destruct applied.
    + eapply outcome_good; [|done|done]. by rewrite Hid'.
    + split_and!; [done..|]. destruct Hstate as [?|[? ?]]; auto using acknowledged_sending.
  - rewrite Hs. split; [|done]. apply managed_storing; [done|].
    split_and!; [by rewrite Hid'|done|by rewrite Hst'].
Qed.

Lemma delete_policy_total id : total managed (delete_policy id) (λ _, True).
Proof.
  intros [n m] Hm. unfold wp. cbn [obj] in Hm. destruct (Hm) as (Hi & Hu & Hp).
  pose proof (delete_policy_run id n m Hi Hu) as Hs.
  destruct (policies_ m !! id) as [p|]; [|by rewrite Hs].
  destruct Hs as (removed & rs & _ & ->). split; [|done]. apply managed_sending.
  destruct removed; [by apply managed_delete|done].
Qed.

Lemma get_policy_total id : total managed (get_policy id) (λ _, True).
Proof.
  intros [n m] Hm. unfold wp, get_policy. cbn [obj] in Hm.
  rewrite (policies_locked_run _ n m (Ok (policies_ m !! id)) n m); [done|apply Hm|done|apply Hm].
Qed.

Lemma required_id_defined operation data : defined (required_id operation data).
Proof.
  unfold required_id. case_match; [|done].
  apply defined_bind; [apply jindex_defined|intros; apply get_string_defined].
Qed.

Lemma handle_operation_total message data operation :
  total managed (handle_operation message data operation) (λ _, True).
Proof.
  unfold handle_operation.
  destruct (String.eqb operation "create"); [|destruct (String.eqb operation "update");
    [|destruct (String.eqb operation "delete"); [|by apply total_throw]]].
  - eapply total_bind; [apply create_policy_total|]. intros. apply respond_total.
  - eapply (total_bind _ _ (λ _, True)); [by apply total_lift; [apply required_id_defined|]|].
    intros id _. eapply total_bind; [apply update_policy_total|]. intros [] _; [|apply respond_total].
    eapply total_bind; [apply get_policy_total|]. intros. apply respond_total.
  - eapply (total_bind _ _ (λ _, True)); [by apply total_lift; [apply required_id_defined|]|].
    intros id _. eapply total_bind; [apply delete_policy_total|]. intros []; intros; apply respond_total.
Qed.

Lemma handle_qos_request_total message : total managed (handle_qos_request message) (λ _, True).
Proof.
  apply total_try; [|intros; apply respond_total].
  eapply (total_bind _ _ (λ _, True)); [by apply total_lift; [apply parse_defined|]|].
  intros data _. eapply (total_bind _ _ (λ _, True)); [|intros; apply handle_operation_total].
  apply total_lift; [|done]. unfold requested_operation. case_match; [|done].
  apply defined_bind; [apply jindex_defined|intros; apply get_string_defined].
Qed.

Lemma running_managed m : running m → managed m.
Proof.
  induction 1 as [o n r w Ho E|m n message r w _ IH E].
  - injection E as <- <-. split_and!; [done..|]. apply map_Forall_empty.
  - pose proof (handle_qos_request_total message (World n m) IH) as Ht.
    unfold wp in Ht. rewrite E in Ht. apply Ht.
Qed.

(** C11: after any sequence of requests, every stored policy has the id it is stored under, the id is
    well formed, and the policy is in state error or active with an acknowledgement of the PCF for
    that id; the mutex is free; and the next request does not reach undefined behaviour. *)
Theorem policies_managed m message n :
  running m →
  managed m ∧ match (handle_qos_request message (World n m)).1 with Undefined _ => False | _ => True end.
Proof.
  intros Hm%running_managed. split; [done|].
  pose proof (handle_qos_request_total message (World n m) Hm) as [_ Ht].
  by destruct (handle_qos_request message (World n m)).1.
Qed.
End Specification.

(** ** Witnesses *)

Section Witnesses.

(** The answers and requests of the examples, by their texts. *)
Definition example_reader (text : string) : result tree :=
  if String.eqb text "create" then
    Ok (TObject [("operation", TString "create"); ("app_id", TString "app-1");
                 ("flow_direction", TString "uplink"); ("maximum_bandwidth", TInt 1000)])
  else if String.eqb text "created" then Ok (TObject [("app_session_id", TString "session-1")])
  else Throw (json_parse_error "parse error").

Lemma example_reader_defined text : defined (example_reader text).
Proof. unfold example_reader. by repeat case_match. Qed.

Definition example_json : Json := tree_json_with example_reader.
Definition example_json_defined : @JsonDefined example_json :=
  tree_json_defined example_reader example_reader_defined.

(** A PCF that accepts the first request only. *)
Definition accepting_once : PolicyEnvironment := {|
  policy_pcf_answer := λ rs, match rs with
                             | [_] => inr (Some (plain_message "pcf_app_session_created" "" "created"))
                             | _ => inr None
                             end;
  policy_draw := λ n, (n mod 16)%nat;
  policy_draw_bound := λ n, Nat.mod_upper_bound n 16 (Nat.neq_succ_0 15) |}.
#[local] Existing Instances example_json example_json_defined accepting_once tree_order.

Definition example_orchestrator : AfOrchestrator := mkAfOrchestrator {["pcf" := true]} "pcf_handler".
Definition initialized_manager : PolicyManager :=
  PolicyManager_new <| orchestrator_ := pointer example_orchestrator |>.
Definition example_policy_id : string := "policy-0123456789abcdef".
Definition create_message : Message := plain_message "qos_request" "1" "create".

(** The manager after the creation request of the examples. *)
Definition manager_with_policy : PolicyManager :=
  Eval vm_compute in obj (handle_qos_request create_message (World 0 initialized_manager)).2.

Lemma running_with_policy : running manager_with_policy.
Proof.
  assert (E : (handle_qos_request create_message (World 0 initialized_manager)).2 =
              World 0 manager_with_policy) by (vm_compute; reflexivity).
  change manager_with_policy with (obj (World 0 manager_with_policy)). rewrite <- E.
  eapply (running_request initialized_manager 0 create_message); [|apply surjective_pairing].
  by apply (running_start (pointer example_orchestrator) 0 (Ok ()) (World 0 initialized_manager)).
Qed.

(** An update whose second member is not a number. *)
Definition broken_update : @json example_json :=
  TObject [("flow_direction", TString "sideways"); ("qos_reference", TString "nine")].

(** The refused update leaves an invalid policy in place. *)
Lemma update_policy_spec_witness :
  ∃ changed, validate_policy changed = false ∧ state changed = "active" ∧
    update_policy example_policy_id broken_update (World 0 manager_with_policy) =
      (Ok false, World 0 (storing example_policy_id changed manager_with_policy)).
Proof.
  eexists. split; [|split]; cycle 2.
  - apply (update_policy_spec example_policy_id broken_update 0 manager_with_policy).
    + discriminate.
    + reflexivity.
  - vm_compute. reflexivity.
  - vm_compute. reflexivity.
Defined.

Definition refused_data : @json example_json :=
  TObject [("app_id", TString "app-2"); ("qos_reference", TInt 80)].

(** A 5QI out of range is refused; nothing is stored or sent. *)
Lemma create_policy_spec_witness :
  create_policy refused_data (World 0 manager_with_policy) =
    (Throw (runtime_error "Invalid policy configuration"), World 0 (drawn manager_with_policy)).
Proof.
  apply (create_policy_spec refused_data 0 manager_with_policy).
  - discriminate.
  - reflexivity.
Defined.

Lemma policies_managed_witness :
  managed manager_with_policy ∧ state <$> policies_ manager_with_policy !! example_policy_id = Some "active".
Proof.
  split; [exact (proj1 (policies_managed manager_with_policy create_message 0 running_with_policy))|].
  vm_compute. reflexivity.
Defined.
End Witnesses.
