(* ===== verification/RequestRouter.v ===== *)
(** * [RequestRouter]: dispatch of messages by type

    [af_core/include/request_router.h] and [af_core/src/request_router.cpp].  A handler is a function
    of the message that runs on the state [S] of the application; null pointers are [None]. *)

From S2P Require Import Prelude Effects Comms.

Definition MessageHandlerFunc (S : Type) : Type := option Message → M S (option Message).

Record RequestRouter (S : Type) := mkRequestRouter { handlers_ : gmap string (MessageHandlerFunc S) }.
Arguments mkRequestRouter {S} handlers_.
Arguments handlers_ {S} r.

#[global] Instance RequestRouter_settable S : Settable (RequestRouter S) := λ r,
  mkRequestRouter (handlers_ r).

Section Definitions.
Context {S : Type}.

Definition RequestRouter_new : RequestRouter S := mkRequestRouter ∅.

(** A null handler is refused. *)
Definition register_handler (type : string) (handler : option (MessageHandlerFunc S)) :
    M (RequestRouter S) () :=
  match handler with
  | None => mret ()
  | Some f => modify (λ r, r <| handlers_ ::= <[type := f]> |>)
  end.

(** The handler [create_default_handler] returns. *)
Definition default_handler : MessageHandlerFunc S := λ message,
  match message with
  | None => undefined null_dereference
  | Some message =>
    mret (Some (plain_message "error.unhandled_message_type" (correlation_id message)
                  ("No handler registered for message type: " +:+ message_type message)))
  end.

Definition route_message (r : RequestRouter S) : MessageHandlerFunc S := λ message,
  match message with
  | None => mret None
  | Some m =>
    match handlers_ r !! message_type m with
    | Some handler => handler message
    | None => default_handler message
    end
  end.
End Definitions.
