(* ===== verification/RestRouter.v ===== *)
(** * [RestRouter]: HTTP requests as messages, messages as HTTP responses

    [af_core/include/rest_router.h] and [af_core/src/rest_router.cpp].  Parsing and decoding of URLs
    (Boost.URL) and the translation of path patterns to regular expressions (the common library) are
    parameters. *)

From S2P Require Import Prelude Effects CxxString Json Comms.

(** [af::communication::HttpRequest] and [HttpServerResponse], structures of the common library. *)
Record HttpRequest := mkHttpRequest {
  method : string;
  path : string;
  headers : gmap string string;
  body : string }.

Record HttpServerResponse := mkHttpServerResponse {
  status_code : Z;
  response_body : string;
  response_headers : gmap string string }.

Class UrlLibrary := {
  (** [boost::urls::parse_relative_ref]: the decoded path and the decoded query parameters. *)
  parse_relative_ref : string → option (string * list (string * string));
  (** [pct_string_view::decode] of a captured text. *)
  pct_decode : string → result string;
  (** The captures of [std::regex_match] with "^" + [to_regex(pattern)] + "$". *)
  match_pattern : string → string → result (option (list string)) }.

Section Definitions.
Context `{UrlLibrary} `{IterationOrder}.
Implicit Types (req : HttpRequest).

(** [std::tolower] in the C locale. *)
Definition tolower (c : ascii) : ascii :=
  if in_range "A" "Z" c then ascii_of_nat (nat_of_ascii c + 32) else c.
Fixpoint lowercase (s : string) : string :=
  match s with
  | EmptyString => EmptyString
  | String c s => String (tolower c) (lowercase s)
  end.

(** ** Correlation ids *)

(** A fresh id: hexadecimal digits in the groups of a UUID, with the version digit 4 and the variant
    digit drawn from 8 to 11.  [draw] are the draws from 0 to 15, [variant] is the
    draw from 8 to 11. *)
Definition fresh_correlation_id (draw : nat → nat) (variant : nat) : string :=
  hex_digits draw 8 0 +:+ "-" +:+ hex_digits draw 4 8 +:+ "-4" +:+ hex_digits draw 3 12 +:+ "-" +:+
  String (hex_char variant) (hex_digits draw 3 15) +:+ "-" +:+ hex_digits draw 12 18.

Definition nonempty_header (k : string) req : option string :=
  match headers req !! k with
  | Some v => if empty v then None else Some v
  | None => None
  end.

Definition get_correlation_id (draw : nat → nat) (variant : nat) req : string :=
  match nonempty_header "x-correlator" req with
  | Some v => v
  | None =>
    match nonempty_header "X-Correlator" req with
    | Some v => v
    | None => fresh_correlation_id draw variant
    end
  end.

(** ** Path and query parameters *)

(** The texts between braces in a pattern: the matches of [\{([^}]+)\}], from left to right.
    [skip] characters belong to the last match. *)
Fixpoint param_names (s : string) (skip : nat) : list string :=
  match s with
  | EmptyString => []
  | String c s =>
    match skip with
    | S skip => param_names s skip
    | O =>
      if Ascii.eqb c "{" then
        let name := take_while (λ c, negb (Ascii.eqb c "}")) s in
        if negb (empty name) && (String.length name <? String.length s)%nat
        then name :: param_names s (S (String.length name))
        else param_names s 0
      else param_names s 0
    end
  end.

(** [params[name] = decode(capture)] in order; a later parameter of the same name wins. *)
Fixpoint assign_params (names captures : list string) (params : gmap string string) :
    result (gmap string string) :=
  match names, captures with
  | name :: names, raw :: captures =>
    decoded ← pct_decode raw;
    assign_params names captures (<[name := decoded]> params)
  | _, _ => mret params
  end.

Definition extract_path_params (pattern path : string) : result (gmap string string) :=
  matches ← match_pattern pattern path;
  match matches with
  | None => mret ∅
  | Some captures => assign_params (param_names pattern 0) captures ∅
  end.

Definition extract_query_params (raw_path : string) : gmap string string :=
  match parse_relative_ref raw_path with
  | None => ∅
  | Some (_, params) => foldl (λ mp '(k, v), <["query." +:+ k := v]> mp) ∅ params
  end.

(** ** Conversion *)

Definition http_request_to_message (draw : nat → nat) (variant : nat) req
    (message_type path_pattern : string) : result Message :=
  let metadata := foldl (λ mp '(k, v), <[lowercase k := v]> mp) ∅ (visit (headers req)) in
  params ← (if empty path_pattern then mret ∅
            else
              let path_only := match parse_relative_ref (path req) with
                               | Some (p, _) => p
                               | None => path req
                               end in
              extract_path_params path_pattern path_only);
  let metadata := extract_query_params (path req) ∪ (params ∪ metadata) in
  let metadata := <["http_path" := path req]> (<["http_method" := method req]> metadata) in
  mret (mkMessage message_type (get_correlation_id draw variant req) (body req) metadata).

(** The body of an error, [{"error": "..."}]. *)
Definition error_body (text : string) : string :=
  "{" +:+ quote "error" +:+ ": " +:+ quote text +:+ "}".

Definition error_response (text : string) : HttpServerResponse :=
  mkHttpServerResponse 500 (error_body text) {["content-type" := "application/json"]}.

(** Metadata that stays inside. *)
Definition internal_field (k : string) : bool :=
  String.eqb k "status" || String.eqb k "http_method" || String.eqb k "http_path".

Definition message_to_http_response (msg : option Message) : HttpServerResponse :=
  match msg with
  | None => error_response "Internal server error"
  | Some msg =>
    let status := match metadata msg !! "status" with
                  | Some text => match stoi text with Ok z => z | _ => 200 end
                  | None => 200
                  end in
    let hs := filter (λ '(k, _), internal_field k = false) (metadata msg) in
    let hs := match hs !! "content-type" with
              | Some _ => hs
              | None => <["content-type" := "application/json"]> hs
              end in
    let hs := if empty (correlation_id msg) then hs
              else <["x-correlator" := correlation_id msg]> hs in
    mkHttpServerResponse status (payload msg) hs
  end.
End Definitions.
