(* ===== verification/SubscriptionManager.v ===== *)
(** * [SubscriptionManager]: event subscriptions

    [af_core/include/subscription_manager.h] and [af_core/src/subscription_manager.cpp]. *)

From S2P Require Import Prelude Effects CxxString CTime Json Comms.

Record Subscription := mkSubscription {
  id : string;
  client_id : string;
  event_type : string;
  notification_url : string;
  filter_criteria : gmap string string;
  expiry_time : Z;
  active : bool;
  callback_service : string }.

#[global] Instance Subscription_settable : Settable Subscription := λ s,
  mkSubscription (id s) (client_id s) (event_type s) (notification_url s) (filter_criteria s)
    (expiry_time s) (active s) (callback_service s).

(** [Subscription subscription;]  [active] is uninitialised until it is set to true. *)
Definition Subscription_default : Subscription := mkSubscription "" "" "" "" ∅ 0 false "".

(** The draws of [uniform_int_distribution<>(0, 15)] for the ids, and whether the asynchronous sends
    so far, the last one in particular, throw. *)
Class SubscriptionEnvironment := {
  subscription_draw : nat → nat;
  subscription_draw_bound : ∀ n, (subscription_draw n < 16)%nat;
  async_answer : list (string * Message) → option exn }.

Record SubscriptionManager := mkSubscriptionManager {
  orchestrator_ : raw_pointer AfOrchestrator;
  subscriptions_ : gmap string Subscription;
  subscriptions_mutex_ : lock_state;
  sent : list (string * Message);               (* asynchronous messages so far, by service *)
  subscription_draws : nat                      (* drawn from the generator so far *) }.

#[global] Instance SubscriptionManager_settable : Settable SubscriptionManager := λ m,
  mkSubscriptionManager (orchestrator_ m) (subscriptions_ m) (subscriptions_mutex_ m) (sent m)
    (subscription_draws m).

Section Definitions.
Context `{Json} `{Clock} `{IterationOrder} `{!SubscriptionEnvironment}.
Implicit Types (m : SubscriptionManager) (subscription : Subscription) (message : Message).

(** The constructor leaves [orchestrator_] uninitialised. *)
Definition SubscriptionManager_new : SubscriptionManager :=
  mkSubscriptionManager indeterminate ∅ Unlocked [] 0.

Definition initialize (orchestrator : raw_pointer AfOrchestrator) : M SubscriptionManager () :=
  modify (λ m, m <| orchestrator_ := orchestrator |>).

Definition validate_subscription subscription : bool :=
  negb (empty (event_type subscription)) &&
  negb (empty (notification_url subscription) && empty (callback_service subscription)).

Definition generate_subscription_id : M SubscriptionManager string :=
  m ← get;
  modify (λ m, m <| subscription_draws ::= plus 16 |>) ;;
  mret ("sub-" +:+ hex_digits subscription_draw 16 (subscription_draws m)).

(** ** Reading requests *)

(** [s = j[k]] for a string, when the request has the member. *)
Definition read_string {S} (k : string) (j : json) (f : string → S → S) : M S () :=
  with_member k j (λ v, s ← lift (get_string v); modify (f s)).

(** A required member. *)
Definition required (k : string) (j : json) : result string :=
  if jcontains k j then v ← jindex k j; get_string v
  else Throw (runtime_error ("Missing required field: " +:+ k)).

(** The members of the request, up to the filter criteria. *)
Definition read_subscription message (data : json) : M Subscription () :=
  member_or "client_id" data
    (λ v, s ← lift (get_string v); modify (λ x, x <| client_id := s |>))
    (modify (λ x, x <| client_id := value_or "unknown" (metadata message !! "source_service") |>)) ;;
  type ← lift (required "event_type" data);
  modify (λ x, x <| event_type := type |>) ;;
  read_string "notification_url" data (λ s x, x <| notification_url := s |>) ;;
  read_string "callback_service" data (λ s x, x <| callback_service := s |>) ;;
  x ← get;
  (if empty (notification_url x) && empty (callback_service x)
   then throw (runtime_error "Either notification_url or callback_service must be specified")
   else mret ()) ;;
  with_member "filter_criteria" data (λ criteria,
    when (is_object criteria)
      (for_each (jitems criteria) (λ '(key, value),
         text ← lift (text_of value);
         modify (λ x, x <| filter_criteria ::= <[key := text]> |>)))).

Definition read_expiry (data : json) : result Z :=
  if jcontains "expiry_seconds" data then v ← jindex "expiry_seconds" data; get_int v
  else mret 3600.

(** ** Descriptions of subscriptions *)

Definition assign_nonempty (k s : string) (j : json) : result json :=
  if empty s then mret j else jassign k (jstring s) j.

Definition filter_json subscription : result json :=
  foldl (λ r '(key, value), j ← r; jassign key (jstring value) j) (mret jnull)
    (visit (filter_criteria subscription)).

(** The object sent for a subscription: with its activity, its filter, or both. *)
Definition describe (with_active with_filter : bool) subscription : result json :=
  let j := jobject ([("id", jstring (id subscription));
                     ("event_type", jstring (event_type subscription));
                     ("client_id", jstring (client_id subscription))] ++
                    if with_active then [("active", jbool (active subscription))] else []) in
  j ← assign_nonempty "notification_url" (notification_url subscription) j;
  j ← assign_nonempty "callback_service" (callback_service subscription) j;
  j ← (if with_filter && negb (bool_decide (filter_criteria subscription = ∅))
       then filter ← filter_json subscription; jassign "filter_criteria" filter j
       else mret j);
  jassign "expiry_time" (jstring (utc_text (expiry_time subscription))) j.

Definition respond_json {S} (type : string) message (j : result json) : M S Message :=
  j ← lift j;
  text ← lift (dump j);
  mret (plain_message type (correlation_id message) text).

(** The answer to an exception. *)
Definition bad_request {S} message (e : exn) : M S Message :=
  respond "subscription_error" message [("error", "bad_request"); ("message", what e)].

(** ** Operations *)

Definition create_subscription message : M SubscriptionManager Message :=
  try_catch
    (data ← lift (parse (payload message));
     id ← generate_subscription_id;
     '(_, subscription) ← local (Subscription_default <| SubscriptionManager.id := id |>)
                            (read_subscription message data);
     expiry_seconds ← lift (read_expiry data);
     t ← now;
     let subscription := subscription <| expiry_time := t + expiry_seconds * 1000000000 |>
                                      <| active := true |> in
     (if negb (validate_subscription subscription)
      then throw (runtime_error "Invalid subscription configuration") else mret ()) ;;
     with_lock subscriptions_mutex_ Exclusive
       (modify (λ m, m <| subscriptions_ ::= <[id := subscription]> |>)) ;;
     respond_json "subscription_created" message (describe false true subscription))
    (bad_request message).

(** The client a list of subscriptions is for; an unreadable payload counts as none. *)
Definition requested_client message : result string :=
  let from_payload :=
    if empty (payload message) then mret ""
    else match (data ← parse (payload message);
                if jcontains "client_id" data then v ← jindex "client_id" data; get_string v
                else mret "") with
         | Throw _ => mret ""
         | r => r
         end in
  client ← from_payload;
  mret (if empty client then value_or "" (metadata message !! "source_service") else client).

Definition get_all_subscriptions message : M SubscriptionManager Message :=
  client ← lift (requested_client message);
  elements ← with_lock subscriptions_mutex_ Exclusive
    (m ← get;
     lift (foldl (λ r '(_, subscription),
                    l ← r;
                    if negb (empty client) && negb (String.eqb (client_id subscription) client)
                    then mret l
                    else j ← describe true false subscription; mret (l ++ [j]))
             (mret []) (visit (subscriptions_ m))));
  respond_json "subscriptions_list" message (mret (jarray elements)).

(** The client that asks for one subscription. *)
Definition asking_client message (data : json) : result string :=
  if jcontains "client_id" data then v ← jindex "client_id" data; get_string v
  else mret (value_or "" (metadata message !! "source_service")).

Definition not_found {S} message (id : string) : M S Message :=
  respond "subscription_not_found" message
    [("error", "not_found"); ("message", "Subscription not found: " +:+ id)].

Definition unauthorized {S} message (action : string) : M S Message :=
  respond "subscription_unauthorized" message
    [("error", "unauthorized"); ("message", "Not authorized to " +:+ action +:+ " this subscription")].

(** What [get_subscription] and [delete_subscription] share: the subscription asked for, if the
    client may have it. *)
Definition with_subscription (action : string) message
    (f : string → Subscription → M SubscriptionManager Message) : M SubscriptionManager Message :=
  try_catch
    (data ← lift (parse (payload message));
     id ← lift (required "id" data);
     client ← lift (asking_client message data);
     with_lock subscriptions_mutex_ Exclusive
       (m ← get;
        match subscriptions_ m !! id with
        | None => not_found message id
        | Some subscription =>
          if negb (empty client) && negb (String.eqb (client_id subscription) client)
          then unauthorized message action
          else f id subscription
        end))
    (bad_request message).

Definition get_subscription message : M SubscriptionManager Message :=
  with_subscription "access" message (λ _ subscription,
    respond_json "subscription" message (describe true true subscription)).

Definition delete_subscription message : M SubscriptionManager Message :=
  with_subscription "delete" message (λ id _,
    modify (λ m, m <| subscriptions_ ::= delete id |>) ;;
    respond "subscription_deleted" message [("id", id); ("status", "deleted")]).

(** ** Events *)

(** Whether the event has every criterion as a member whose text is the criterion's. *)
Fixpoint matches_filters (criteria : list (string * string)) (event_data : json) : result bool :=
  match criteria with
  | [] => mret true
  | (key, value) :: criteria =>
    if jcontains key event_data then
      v ← jindex key event_data;
      text ← dump v;
      if String.eqb text value then matches_filters criteria event_data else mret false
    else mret false
  end.

Fixpoint matching_subscriptions (l : list (string * Subscription)) (type : string)
    (event_data : json) : M SubscriptionManager (list Subscription) :=
  match l with
  | [] => mret []
  | (_, subscription) :: l =>
    chosen ← (if active subscription && String.eqb (event_type subscription) type then
                t ← now;
                if expiry_time subscription <? t then mret false
                else lift (matches_filters (visit (filter_criteria subscription)) event_data)
              else mret false);
    rest ← matching_subscriptions l type event_data;
    mret (if chosen : bool then subscription :: rest else rest)
  end.

Definition notification (t : Z) (event_data : json) subscription : result string :=
  dump (jobject [("event_type", jstring (event_type subscription));
                 ("subscription_id", jstring (id subscription));
                 ("timestamp", jint t); ("data", event_data)]).

(** [comm_service->send_async(service, msg)] *)
Definition send_async (service : string) (msg : Message) : M SubscriptionManager () :=
  m ← get;
  let ms := sent m ++ [(service, msg)] in
  modify (λ m, m <| sent := ms |>) ;;
  match async_answer ms with
  | Some e => throw e
  | None => mret ()
  end.

(** [orchestrator_->get_communication_services().find(service)]: [None] if there is no such service,
    else whether the pointer found is set.  The pointer to the orchestrator is not tested. *)
Definition find_service (service : string) : M SubscriptionManager (option bool) :=
  m ← get;
  o ← read_pointer (orchestrator_ m);
  match o with
  | None => undefined null_dereference
  | Some orchestrator => mret (communication_services_ orchestrator !! service)
  end.

Definition send_notification subscription (event_data : json) : M SubscriptionManager bool :=
  try_catch
    (if negb (empty (callback_service subscription)) then
       found ← find_service (callback_service subscription);
       match found with
       | None => mret false
       | Some is_set =>
         t ← now;
         text ← lift (notification t event_data subscription);
         let msg := mkMessage "event_notification" "" text
                      {["event_type" := event_type subscription;
                        "subscription_id" := id subscription]} in
         if is_set : bool then send_async (callback_service subscription) msg ;; mret true
         else undefined null_dereference
       end
     else mret (negb (empty (notification_url subscription))))
    (λ _, mret false).

Fixpoint send_all (l : list Subscription) (event_data : json) : M SubscriptionManager Z :=
  match l with
  | [] => mret 0
  | subscription :: l =>
    ok ← send_notification subscription event_data;
    count ← send_all l event_data;
    mret ((if ok : bool then 1 else 0) + count)
  end.

Definition notify_event (type : string) (event_data : json) : M SubscriptionManager Z :=
  matching ← with_lock subscriptions_mutex_ Exclusive
    (m ← get; matching_subscriptions (visit (subscriptions_ m)) type event_data);
  send_all matching event_data.

(** ** Housekeeping *)

Definition expired (t : Z) subscription : bool := expiry_time subscription <? t.

Definition cleanup_expired_subscriptions : M SubscriptionManager Z :=
  t ← now;
  with_lock subscriptions_mutex_ Exclusive
    (m ← get;
     modify (λ m, m <| subscriptions_ ::= filter (λ '(_, s), expired t s = false) |>) ;;
     mret (Z.of_nat (size (filter (λ '(_, s), expired t s = true) (subscriptions_ m))))).
End Definitions.
