(* ===== verification/SubscriptionSpec.v ===== *)
(** * What [SubscriptionManager] promises

    The stored subscriptions over all sequences of calls, who may read and delete them, which events
    they receive, and why criteria that are strings match no event. *)

From S2P Require Import Prelude Effects CxxString CTime Json Comms SubscriptionManager.

Section Specification.
Context `{JsonDefined} `{Clock} `{IterationOrder} `{!SubscriptionEnvironment}.
Implicit Types (m : SubscriptionManager) (subscription : Subscription) (message : Message).

Definition unlocked m : Prop := subscriptions_mutex_ m = Unlocked.

(** The body of a locked method, run from a manager whose mutex is free. *)
Lemma subscriptions_locked_run {A} (f : M SubscriptionManager A) n m r n' m' :
  unlocked m →
  f (World n (m <| subscriptions_mutex_ := Exclusive |>)) =
    (r, World n' (m' <| subscriptions_mutex_ := Exclusive |>)) → unlocked m' →
  with_lock subscriptions_mutex_ Exclusive f (World n m) = (r, World n' m').
Proof.
  intros Hm E Hm'. apply with_lock_run; [done|exact E|].
  destruct m' as [? ? l ? ?]. unfold unlocked in Hm'. simpl in *. by subst.
Qed.

(** ** Access *)

(** A request that names a subscription and, possibly, a client. *)
Record asks message (k client : string) : Prop := {
  asks_data : json;
  asks_parse : parse (payload message) = Ok asks_data;
  asks_id : required "id" asks_data = Ok k;
  asks_client : asking_client message asks_data = Ok client }.

(** The client may have the subscription: it is the owner, or nobody in particular. *)
Definition may_access (client : string) subscription : Prop :=
  client = "" ∨ client_id subscription = client.

#[global] Instance may_access_dec client subscription : Decision (may_access client subscription).
Proof. unfold may_access. apply _. Defined.

(** The computation answers with a message of the type, or of the error type, and leaves [m']. *)
Definition answers {A} (run : result Message * world A) (type : string) (m' : A) : Prop :=
  obj run.2 = m' ∧
  match run.1 with
  | Ok r => message_type r = type ∨ message_type r = "subscription_error"
  | Throw _ => True
  | Undefined _ => False
  end.

Lemma respond_run {S} type message members (w : world S) :
  ∃ r, respond type message members w = (r, w) ∧
    match r with Ok a => message_type a = type | Throw _ => True | Undefined _ => False end.
Proof.
  unfold respond, lift, mbind, M_bind. set (j := jobject _). pose proof (dump_defined j).
  destruct (dump j) as [text|e|u]; [| |done]; by eexists.
Qed.

Lemma describe_defined a f subscription : defined (describe a f subscription).
Proof.
  assert (Hn : ∀ k s j, defined (assign_nonempty k s j))
    by (intros; unfold assign_nonempty; case_match; [done|apply jassign_defined]).
  unfold describe. cbv zeta.
  do 2 (apply defined_bind; [apply Hn|intros ? _]).
  apply defined_bind; [|intros; apply jassign_defined]. case_match; [|done].
  apply defined_bind; [|intros; apply jassign_defined]. unfold filter_json.
  apply foldl_inv; [done|]. intros r [k v] _ Hr. apply defined_bind; [done|intros; apply jassign_defined].
Qed.

Lemma respond_json_run {S} type message j (w : world S) :
  defined j →
  ∃ r, respond_json type message j w = (r, w) ∧
    match r with Ok a => message_type a = type | Throw _ => True | Undefined _ => False end.
Proof.
  intros Hj. unfold respond_json, lift, mbind, M_bind. destruct j as [j|e|u]; [|by eexists|done].
  pose proof (dump_defined j). destruct (dump j) as [text|e|u]; [| |done]; by eexists.
Qed.

(** The error handler around a computation. *)
Lemma answers_try m' n' type message (f : M SubscriptionManager Message) w r :
  f w = (r, World n' m') →
  match r with Ok a => message_type a = type | Throw _ => True | Undefined _ => False end →
  answers (try_catch f (bad_request message) w) type m'.
Proof.
  intros E Hr. unfold answers, try_catch. rewrite E. destruct r as [a|e|u]; simpl; [auto| |done].
  unfold bad_request. destruct (respond_run "subscription_error" message
    [("error", "bad_request"); ("message", what e)] (World n' m')) as (r' & E' & Hr'). rewrite E'.
  split; [done|]. destruct r'; simpl; auto.
Qed.

Definition locked m : SubscriptionManager := m <| subscriptions_mutex_ := Exclusive |>.

(** A computation that keeps the world's clock and ends in the manager [m'] with a message of the type. *)
Definition replies (f : M SubscriptionManager Message) (type : string) n m m' : Prop :=
  ∃ r, f (World n (locked m)) = (r, World n (locked m')) ∧
    match r with Ok a => message_type a = type | Throw _ => True | Undefined _ => False end.

(** What reading and deleting do with the subscription asked for. *)
Lemma with_subscription_replies action type message f k client n m m' :
  unlocked m → unlocked m' → asks message k client →
  replies (match subscriptions_ m !! k with
           | None => not_found message k
           | Some s => if negb (empty client) && negb (String.eqb (client_id s) client)
                       then unauthorized message action else f k s
           end) type n m m' →
  answers (with_subscription action message f (World n m)) type m'.
Proof.
  intros Hu Hu' [data Hp Hk Hc] (r & Hrun & Hr). unfold with_subscription.
  assert (Hl : ∀ {A} (r : result A) a, r = Ok a → lift r (World n m) = (Ok a, World n m))
    by (intros A r' a ->; done).
  eapply answers_try; [|exact Hr].
  rewrite (bind_run _ _ _ _ _ (Hl _ _ _ Hp)), (bind_run _ _ _ _ _ (Hl _ _ _ Hk)),
    (bind_run _ _ _ _ _ (Hl _ _ _ Hc)).
  apply subscriptions_locked_run; [done| |done]. exact Hrun.
Qed.

Lemma refused_spec client s :
  negb (empty client) && negb (String.eqb (client_id s) client) = bool_decide (¬ may_access client s).
Proof.
  unfold may_access. case_bool_decide as Hn.
  - destruct client; [by destruct Hn; left|]. simpl.
    destruct (String.eqb_spec (client_id s) (String a client)); [by destruct Hn; right|done].
  - destruct client; [done|]. simpl.
    destruct (String.eqb_spec (client_id s) (String a client)); [done|].
    destruct Hn; congruence.
Qed.

Lemma with_subscription_answers action type message f k client n m m' :
  unlocked m → unlocked m' → asks message k client →
  (∀ s, replies (f k s) type n m m') →
  let run := with_subscription action message f (World n m) in
  match subscriptions_ m !! k with
  | None => answers run "subscription_not_found" m
  | Some s => if decide (may_access client s) then answers run type m'
              else answers run "subscription_unauthorized" m
  end.
Proof.
  intros Hu Hu' Ha Hf run. subst run.
  destruct (subscriptions_ m !! k) as [s|] eqn:E; [case_decide as Hm|];
    (eapply with_subscription_replies; [done..|rewrite E]).
  - rewrite refused_spec, bool_decide_eq_false_2 by auto. apply Hf.
  - rewrite refused_spec, bool_decide_eq_true_2 by done. apply respond_run.
  - apply respond_run.
Qed.

(** The manager without a subscription. *)
Definition without (k : string) m : SubscriptionManager := m <| subscriptions_ ::= delete k |>.

Lemma deletion_replies message k n m :
  replies (modify (without k) ;;
           respond "subscription_deleted" message [("id", k); ("status", "deleted")])
    "subscription_deleted" n m (without k m).
Proof.
  unfold replies. change (locked (without k m)) with (without k (locked m)).
  erewrite bind_run; [|done]. apply respond_run.
Qed.

(** Reading and deleting a subscription.  An unknown id is reported as such.  A client other than
    the owner is refused and changes nothing; the owner, and a request that names no client, is
    answered, and a deletion removes exactly that subscription.  Reading changes nothing. *)
Theorem subscription_access message k client n m :
  unlocked m → asks message k client →
  match subscriptions_ m !! k with
  | None => answers (get_subscription message (World n m)) "subscription_not_found" m ∧
            answers (delete_subscription message (World n m)) "subscription_not_found" m
  | Some s =>
    if decide (may_access client s) then
      answers (get_subscription message (World n m)) "subscription" m ∧
      answers (delete_subscription message (World n m)) "subscription_deleted"
        (without k m)
    else
      answers (get_subscription message (World n m)) "subscription_unauthorized" m ∧
      answers (delete_subscription message (World n m)) "subscription_unauthorized" m
  end.
Proof.
  intros Hu Ha.
  pose proof (with_subscription_answers "access" "subscription" message
    (λ _ s, respond_json "subscription" message (describe true true s)) k client n m m Hu Hu Ha) as Hg.
  pose proof (with_subscription_answers "delete" "subscription_deleted" message
    (λ id _, modify (without id) ;; respond "subscription_deleted" message [("id", id); ("status", "deleted")])
    k client n m (without k m) Hu Hu Ha) as Hd.
  specialize (Hg (λ s, respond_json_run _ _ _ _ (describe_defined _ _ _))).
  specialize (Hd (λ _, deletion_replies message k n m)).
  cbv zeta in Hg, Hd. unfold get_subscription, delete_subscription.
  destruct (subscriptions_ m !! k) as [s|]; [case_decide|]; done.
Qed.

(** ** Events *)

(** Every criterion is the text of the event's member of that name. *)
Definition criteria_hold (criteria : list (string * string)) (event : json) : Prop :=
  ∀ k v, (k, v) ∈ criteria → ∃ j, jcontains k event = true ∧ jindex k event = Ok j ∧ dump j = Ok v.

Lemma matches_filters_spec criteria event b :
  matches_filters criteria event = Ok b → b = true ↔ criteria_hold criteria event.
Proof.
  revert b. induction criteria as [|[k v] l IH]; simpl; intros b.
  { intros [= <-]. split; [intros _ k v Hk; by apply not_elem_of_nil in Hk|done]. }
  destruct (jcontains k event) eqn:Hc.
  2:{ intros [= <-]. split; [done|]. intros Hh. destruct (Hh k v ltac:(left)) as (j & ? & _). congruence. }
  destruct (jindex k event) as [j|e|u] eqn:Hj; [|done..]. simpl.
  destruct (dump j) as [text|e|u] eqn:Hd; [|done..]. simpl.
  destruct (String.eqb_spec text v) as [->|Hne].
  - intros Hb. rewrite (IH b Hb). split; intros Hh k' v' Hk.
    + apply elem_of_cons in Hk as [[= -> ->]|Hk]; [by exists j|by apply Hh].
    + apply Hh. by right.
  - intros [= <-]. split; [done|]. intros Hh. destruct (Hh k v ltac:(left)) as (j' & _ & ? & ?).
    congruence.
Qed.

(** The subscriptions chosen from a list: those of the type that are active, not expired when looked
    at, and whose criteria hold. *)
Lemma matching_subscriptions_spec l type event n m chosen w :
  matching_subscriptions l type event (World n m) = (Ok chosen, w) →
  obj w = m ∧ ∀ s,
    (s ∈ chosen → s ∈ l.*2 ∧ active s = true ∧ event_type s = type ∧ (∃ i, clock i <= expiry_time s) ∧
                  criteria_hold (visit (filter_criteria s)) event) ∧
    (s ∈ l.*2 → active s = true → event_type s = type → (∀ i, clock i <= expiry_time s) →
     criteria_hold (visit (filter_criteria s)) event → s ∈ chosen).
Proof.
  revert n chosen. induction l as [|[k x] l IH]; simpl; intros n chosen.
  { intros [= <- <-]. split; [done|]. intros s. split; intros Hs; by apply not_elem_of_nil in Hs. }
  set (choice := if active x && _ then _ else _).
  assert (Hc : ∃ r n', choice (World n m) = (r, World n' m) ∧
    match r with
    | Ok b => b = true ↔ active x = true ∧ event_type x = type ∧
                         (∃ i, clock i <= expiry_time x ∧ i = n) ∧
                         criteria_hold (visit (filter_criteria x)) event
    | _ => True
    end).
  { subst choice. destruct (active x) eqn:Ha; [|by do 2 eexists; split; [done|naive_solver]].
    destruct (String.eqb_spec (event_type x) type) as [Ht|Ht];
      [|by do 2 eexists; split; [done|naive_solver]].
    simpl. rewrite bind_now. cbn [ticks obj].
    destruct (Z.ltb_spec (expiry_time x) (clock n)) as [Hx|Hx].
    - do 2 eexists. split; [done|]. split; [done|]. intros (_ & _ & (i & ? & ->) & _). lia.
    - do 2 eexists. split; [done|]. destruct (matches_filters _ event) as [b|e|u] eqn:E; [|done..].
      rewrite (matches_filters_spec _ _ _ E). naive_solver. }
  destruct Hc as (r & n' & Hrun & Hr). unfold mbind at 1, M_bind at 1. rewrite Hrun.
  destruct r as [b|e|u]; [|done..].
  destruct (matching_subscriptions l type event (World n' m)) as [[rest|e|u] w'] eqn:E;
    unfold mbind, M_bind; rewrite E; [|done..].
  intros [= <- <-]. destruct (IH n' rest E) as [Hm Hs]. split; [done|]. intros s.
  specialize (Hs s) as [Hs1 Hs2]. split.
  - intros Hin. assert (Hor : b = true ∧ s = x ∨ s ∈ rest)
      by (destruct b; [apply elem_of_cons in Hin|]; naive_solver).
    destruct Hor as [[-> ->]|Hin'].
    + destruct Hr as [Hr _]. destruct (Hr eq_refl) as (? & ? & (i & ? & _) & ?).
      split; [by left|]. eauto.
    + destruct (Hs1 Hin') as (? & ? & ? & ? & ?). split; [by right|done].
  - intros Hin Ha Ht Hx Hh. apply elem_of_cons in Hin as [->|Hin].
    + rewrite (proj2 Hr); [by left|]. eauto 6.
    + destruct b; [right|]; by apply Hs2.
Qed.

Lemma matches_filters_defined criteria event : defined (matches_filters criteria event).
Proof.
  induction criteria as [|[k v] l IH]; simpl; [done|]. case_match; [|done].
  apply defined_bind; [apply jindex_defined|intros]. apply defined_bind; [apply dump_defined|intros].
  by case_match.
Qed.

Lemma matching_subscriptions_total (I : SubscriptionManager → Prop) l type event :
  total I (matching_subscriptions l type event) (λ _, True).
Proof.
  induction l as [|[k x] l IH]; simpl; [by apply total_ret|].
  apply (total_bind _ _ (λ _, True)).
  - destruct (active x && _); [|by apply total_ret].
    apply (total_bind _ _ (λ _, True)); [by intros w|]. intros t _. case_match; [by apply total_ret|].
    apply total_lift; [apply matches_filters_defined|done].
  - intros b _. eapply total_bind; [exact IH|]. intros rest _. by apply total_ret.
Qed.

Lemma elem_of_visited {V} (mp : gmap string V) (s : V) : s ∈ (visit mp).*2 ↔ ∃ k, mp !! k = Some s.
Proof.
  rewrite list_elem_of_fmap. split.
  - intros ([k s'] & -> & Hk). rewrite (visit_perm mp) in Hk. exists k. by apply elem_of_map_to_list.
  - intros [k Hk]. exists (k, s). split; [done|]. rewrite (visit_perm mp). by apply elem_of_map_to_list.
Qed.

Definition holds_filter subscription (event : json) : Prop :=
  criteria_hold (visit (filter_criteria subscription)) event.


(** A criterion that is a string never matches.  Creation stores a string criterion as the string
    itself, but the test compares it with the printed member, which JSON puts between quotation
    marks: a subscription with the criterion [v] for [k] is not sent the events whose [k] is [v]. *)
Theorem string_criterion_never_matches
    (string_law : ∀ s, is_string (jstring s) = true ∧ get_string (jstring s) = Ok s)
    (quotes_law : ∀ s t, dump (jstring s) = Ok t → t ≠ s)
    k v event subscription :
  text_of (jstring v) = Ok v ∧
  (filter_criteria subscription !! k = Some v → jindex k event = Ok (jstring v) →
   ∀ m type n chosen w,
     matching_subscriptions (visit (subscriptions_ m)) type event (World n m) = (Ok chosen, w) →
     subscription ∉ chosen).
Proof.
  split.
  - unfold text_of. destruct (string_law v) as [-> ?]. done.
  - intros Hk Hj m type n chosen w E Hin.
    destruct (matching_subscriptions_spec _ _ _ _ _ _ _ E) as [_ Hs].
    destruct (Hs subscription) as [Hs' _]. destruct (Hs' Hin) as (_ & _ & _ & _ & Hh).
    destruct (Hh k v) as (j & _ & Hj' & Hd).
    { rewrite (visit_perm _). by apply elem_of_map_to_list. }
    rewrite Hj in Hj'. injection Hj' as <-. by apply (quotes_law _ _ Hd).
Qed.

(** ** The subscriptions of a running manager *)

(** A subscription stored under [k]. *)
Definition good_subscription (k : string) subscription : Prop :=
  id subscription = k ∧ validate_subscription subscription = true ∧ active subscription = true.

(** The orchestrator is set and has no null services; the stored subscriptions are good. *)
Definition settled m : Prop :=
  (∃ o, orchestrator_ m = pointer o ∧ ∀ k, communication_services_ o !! k ≠ Some false) ∧
  map_Forall good_subscription (subscriptions_ m).

Definition managed m : Prop := settled m ∧ unlocked m.

(** The calls of the public methods. *)
Inductive call :=
  | call_create (message : Message)
  | call_get_all (message : Message)
  | call_get (message : Message)
  | call_delete (message : Message)
  | call_notify (type : string) (event : json)
  | call_cleanup.

Definition run_call (c : call) : M SubscriptionManager () :=
  match c with
  | call_create message => create_subscription message ;; mret ()
  | call_get_all message => get_all_subscriptions message ;; mret ()
  | call_get message => get_subscription message ;; mret ()
  | call_delete message => delete_subscription message ;; mret ()
  | call_notify type event => notify_event type event ;; mret ()
  | call_cleanup => cleanup_expired_subscriptions ;; mret ()
  end.

(** The managers reached from an initialised one by calls. *)
Inductive running : SubscriptionManager → Prop :=
  | running_start o n r w :
    (∀ k, communication_services_ o !! k ≠ Some false) →
    initialize (pointer o) (World n SubscriptionManager_new) = (r, w) → running (obj w)
  | running_call m n c r w :
    running m → run_call c (World n m) = (r, w) → running (obj w).

Lemma total_locked {A} (f : M SubscriptionManager A) (P : A → Prop) :
  total settled f P → total managed (with_lock subscriptions_mutex_ Exclusive f) P.
Proof. by apply total_with_lock. Qed.

Lemma respond_json_total {S} (I : S → Prop) type message j :
  defined j → total I (respond_json type message j) (λ _, True).
Proof.
  intros Hj. apply (total_bind _ _ (λ _, True)); [by apply total_lift|]. intros j' _.
  apply (total_bind _ _ (λ _, True)); [by apply total_lift; [apply dump_defined|]|].
  intros. by apply total_ret.
Qed.

Lemma member_defined k j : defined (v ← jindex k j; get_string v).
Proof. apply defined_bind; [apply jindex_defined|intros; apply get_string_defined]. Qed.

Lemma required_defined k j : defined (required k j).
Proof. unfold required. case_match; [apply member_defined|done]. Qed.

Lemma asking_client_defined message j : defined (asking_client message j).
Proof. unfold asking_client. case_match; [apply member_defined|done]. Qed.

(** Reading a request keeps the id of the subscription. *)
Lemma read_subscription_total k message data :
  total (λ s, id s = k) (read_subscription message data) (λ _, True).
Proof.
  assert (Hread : ∀ j (f : string → Subscription → Subscription),
    (∀ x s, id s = k → id (f x s) = k) →
    total (λ s, id s = k) (s ← lift (get_string j); modify (f s)) (λ _, True)).
  { intros j f Hf. apply (total_bind _ _ (λ _, True));
      [by apply total_lift; [apply get_string_defined|]|].
    intros x _. by apply total_modify; [apply Hf|]. }
  unfold read_subscription.
  eapply total_bind; [apply total_member_or; [intros v; by apply Hread|by apply total_modify]|intros _ _].
  apply (total_bind _ _ (λ _, True)); [by apply total_lift; [apply required_defined|]|intros type _].
  eapply total_bind; [by apply (total_modify _ _ (λ _, True))|intros _ _].
  do 2 (eapply total_bind; [apply total_with_member; intros v; by apply Hread|intros _ _]).
  eapply total_bind; [apply total_get|intros x _].
  apply (total_bind _ _ (λ _, True)); [case_match; [apply total_throw|by apply total_ret]|intros _ _].
  apply total_with_member. intros v. apply total_when, total_for_each. intros [key value].
  apply (total_bind _ _ (λ _, True)); [by apply total_lift; [apply text_of_defined|]|].
  intros text _. by apply total_modify.
Qed.

Lemma store_total k s :
  good_subscription k s →
  total managed (with_lock subscriptions_mutex_ Exclusive
                   (modify (λ m, m <| subscriptions_ ::= <[k := s]> |>))) (λ _, True).
Proof.
  intros Hs. apply total_locked, total_modify; [|done]. intros m [Ho Hm]. split; [done|].
  by apply map_Forall_insert_2.
Qed.

Lemma create_subscription_total message : total managed (create_subscription message) (λ _, True).
Proof.
  apply total_try; [|intros; apply respond_total].
  apply (total_bind _ _ (λ _, True)); [by apply total_lift; [apply parse_defined|]|intros data _].
  apply (total_bind _ _ (λ _, True)); [by intros w|intros k _].
  eapply total_bind;
    [apply (total_local _ (λ s, id s = k)); [done|apply read_subscription_total]|].
  intros [u s] [_ Hid]. cbn [snd] in Hid.
  apply (total_bind _ _ (λ _, True)).
  { apply total_lift; [|done]. unfold read_expiry. case_match; [|done].
    apply defined_bind; [apply jindex_defined|intros; apply get_int_defined]. }
  intros seconds _. apply (total_bind _ _ (λ _, True)); [by intros w|intros t _]. cbv zeta.
  set (s' := s <| expiry_time := _ |> <| active := true |>).
  apply (total_bind _ _ (λ _, validate_subscription s' = true)).
  { destruct (validate_subscription s'); [by apply total_ret|apply total_throw]. }
  intros _ Hv. eapply total_bind; [by apply store_total|intros _ _].
  apply respond_json_total, describe_defined.
Qed.

Lemma requested_client_defined message : defined (requested_client message).
Proof.
  unfold requested_client. cbv zeta. apply defined_bind; [|done]. case_match; [done|].
  assert (Hd : defined (data ← parse (payload message);
    if jcontains "client_id" data then v ← jindex "client_id" data; get_string v else mret "")).
  { apply defined_bind; [apply parse_defined|intros]. case_match; [apply member_defined|done]. }
  by case_match.
Qed.

Lemma get_all_subscriptions_total message : total managed (get_all_subscriptions message) (λ _, True).
Proof.
  apply (total_bind _ _ (λ _, True)); [by apply total_lift; [apply requested_client_defined|]|].
  intros client _. apply (total_bind _ _ (λ _, True)).
  - apply total_locked. eapply total_bind; [apply total_get|]. intros m _. apply total_lift; [|done].
    apply foldl_inv; [done|]. intros r [k s] _ Hr. apply defined_bind; [done|intros l _].
    case_match; [done|]. by apply defined_bind; [apply describe_defined|].
  - intros l _. by apply respond_json_total.
Qed.

Lemma with_subscription_total action message f :
  (∀ k s, total settled (f k s) (λ _, True)) →
  total managed (with_subscription action message f) (λ _, True).
Proof.
  intros Hf. apply total_try; [|intros; apply respond_total].
  apply (total_bind _ _ (λ _, True)); [by apply total_lift; [apply parse_defined|]|intros data _].
  apply (total_bind _ _ (λ _, True)); [by apply total_lift; [apply required_defined|]|intros k _].
  apply (total_bind _ _ (λ _, True)); [by apply total_lift; [apply asking_client_defined|]|].
  intros client _. apply total_locked. eapply total_bind; [apply total_get|]. intros m _.
  destruct (subscriptions_ m !! k) as [s|]; [|apply respond_total].
  case_match; [apply respond_total|apply Hf].
Qed.

Lemma send_notification_total s event : total managed (send_notification s event) (λ _, True).
Proof.
  apply total_try; [|by intros; apply total_ret].
  case_match; [|by apply total_ret].
  apply (total_bind _ _ (λ found, found ≠ Some false)).
  { intros [n m] Hm. cbn [obj] in Hm. destruct (Hm) as [[(o & Ho & Hs) _] _].
    unfold find_service, wp. rewrite bind_get. cbn [obj]. rewrite Ho. split; [exact Hm|apply Hs]. }
  intros [[]|] Hne; [|done|by apply total_ret].
  apply (total_bind _ _ (λ _, True)); [by intros w|intros t _].
  apply (total_bind _ _ (λ _, True)); [by apply total_lift; [apply dump_defined|]|intros text _].
  apply (total_bind _ _ (λ _, True)); [|by intros; apply total_ret].
  eapply total_bind; [apply total_get|]. intros m _. cbv zeta.
  eapply total_bind; [by apply (total_modify _ _ (λ _, True))|]. intros _ _.
  case_match; [apply total_throw|by apply total_ret].
Qed.

Lemma send_all_total l event : total managed (send_all l event) (λ _, True).
Proof.
  induction l as [|s l IH]; simpl; [by apply total_ret|].
  eapply total_bind; [apply send_notification_total|intros ok _].
  eapply total_bind; [exact IH|]. intros count _. by apply total_ret.
Qed.

Lemma notify_event_total type event : total managed (notify_event type event) (λ _, True).
Proof.
  apply (total_bind _ _ (λ _, True)); [|intros; apply send_all_total].
  apply total_locked. eapply total_bind; [apply total_get|]. intros m _.
  apply matching_subscriptions_total.
Qed.

Lemma cleanup_total : total managed cleanup_expired_subscriptions (λ _, True).
Proof.
  apply (total_bind _ _ (λ _, True)); [by intros w|intros t _].
  apply total_locked. eapply total_bind; [apply total_get|]. intros m _.
  eapply total_bind; [|by intros; apply total_ret]. apply (total_modify _ _ (λ _, True)); [|done].
  intros m' [Ho Hm]. split; [done|]. intros k s Hk. apply map_lookup_filter_Some in Hk as [Hk _].
  by apply Hm.
Qed.

Lemma delete_subscription_total message : total managed (delete_subscription message) (λ _, True).
Proof.
  apply with_subscription_total. intros k s.
  eapply total_bind; [|intros; apply respond_total]. apply (total_modify _ _ (λ _, True)); [|done].
  intros m [Ho Hm]. split; [done|]. by apply map_Forall_delete.
Qed.

Lemma run_call_total c : total managed (run_call c) (λ _, True).
Proof.
  destruct c; (eapply total_bind; [|by intros; apply total_ret]).
  - apply create_subscription_total.
  - apply get_all_subscriptions_total.
  - apply with_subscription_total. intros k s. apply respond_json_total, describe_defined.
  - apply delete_subscription_total.
  - apply notify_event_total.
  - apply cleanup_total.
Qed.

(** C16: after any sequence of calls every stored subscription is filed under its id, has an event type
    and somewhere to be sent to, and is active; the mutex is free; and the next call does not reach
    undefined behaviour. *)
Theorem subscriptions_managed m c n :
  running m →
  map_Forall good_subscription (subscriptions_ m) ∧ unlocked m ∧
  match (run_call c (World n m)).1 with Undefined _ => False | _ => True end.
Proof.
  intros Hr. assert (Hm : managed m).
  { induction Hr as [o n' r w Ho E|m n' c' r w _ IH E].
    - injection E as <- <-. split; [|done]. split; [by eexists|apply map_Forall_empty].
    - pose proof (run_call_total c' (World n' m) IH) as Ht. unfold wp in Ht. rewrite E in Ht. apply Ht. }
  split_and!; [apply Hm..|]. pose proof (run_call_total c (World n m) Hm) as [_ Ht].
  by destruct (run_call c (World n m)).1.
Qed.

Definition keeping (t : Z) m : SubscriptionManager :=
  m <| subscriptions_ ::= filter (λ '(_, s), expired t s = false) |>.

(** Cleaning up keeps exactly the subscriptions that have not expired, and counts the others. *)
Lemma cleanup_expired_subscriptions_run n m :
  unlocked m →
  cleanup_expired_subscriptions (World n m) =
    (Ok (Z.of_nat (size (filter (λ '(_, s), expired (clock n) s = true) (subscriptions_ m)))),
     World (S n) (keeping (clock n) m)) ∧
  ∀ k s, subscriptions_ (keeping (clock n) m) !! k = Some s ↔
           subscriptions_ m !! k = Some s ∧ clock n <= expiry_time s.
Proof.
  intros Hu. unfold cleanup_expired_subscriptions. rewrite bind_now. cbn [ticks obj].
  split; [by apply subscriptions_locked_run|]. intros k s. simpl. rewrite map_lookup_filter_Some.
  unfold expired. by rewrite Z.ltb_ge.
Qed.
End Specification.

(** ** Witnesses *)

Section Witnesses.

(** The requests of the examples, by their texts. *)
Definition event_reader (text : string) : result tree :=
  if String.eqb text "create" then
    Ok (TObject [("event_type", TString "qos"); ("callback_service", TString "main");
                 ("filter_criteria", TObject [("zone", TString "north"); ("level", TInt 3)])])
  else if String.eqb text "other" then
    Ok (TObject [("id", TString "sub-0123456789abcdef"); ("client_id", TString "mallory")])
  else Throw (json_parse_error "parse error").

Lemma event_reader_defined text : defined (event_reader text).
Proof. unfold event_reader. by repeat case_match. Qed.

Definition example_json : Json := tree_json_with event_reader.
Definition example_json_defined : @JsonDefined example_json :=
  tree_json_defined event_reader event_reader_defined.
Definition example_clock : Clock := λ n, Z.of_nat n.
Definition example_environment : SubscriptionEnvironment := {|
  subscription_draw := λ n, (n mod 16)%nat;
  subscription_draw_bound := λ n, Nat.mod_upper_bound n 16 (Nat.neq_succ_0 15);
  async_answer := λ _, None |}.
#[local] Existing Instances example_json example_json_defined example_clock example_environment
  tree_order.

Definition example_orchestrator : AfOrchestrator := mkAfOrchestrator {["main" := true]} "".
Definition started_manager : SubscriptionManager :=
  SubscriptionManager_new <| orchestrator_ := pointer example_orchestrator |>.
Definition create_message : Message := plain_message "create_subscription" "1" "create".
Definition other_message : Message := plain_message "get_subscription" "2" "other".
Definition example_id : string := "sub-0123456789abcdef".

(** The manager with the subscription of the examples. *)
Definition manager_with_subscription : SubscriptionManager :=
  Eval vm_compute in obj (create_subscription create_message (World 0 started_manager)).2.

Lemma running_with_subscription : running manager_with_subscription.
Proof.
  assert (E : run_call (call_create create_message) (World 0 started_manager) =
              (Ok (), World 1 manager_with_subscription)) by (vm_compute; reflexivity).
  change manager_with_subscription with (obj (World 1 manager_with_subscription)).
  eapply (running_call started_manager 0 (call_create create_message)); [|exact E].
  apply (running_start example_orchestrator 0 (Ok ()) (World 0 started_manager)); [|done].
  intros k. unfold example_orchestrator. simpl. rewrite lookup_singleton. by case_decide.
Qed.

Lemma subscriptions_managed_witness :
  unlocked manager_with_subscription ∧
  client_id <$> subscriptions_ manager_with_subscription !! example_id = Some "unknown".
Proof.
  split; [|vm_compute; reflexivity].
  exact (proj1 (proj2 (subscriptions_managed manager_with_subscription call_cleanup 0
                         running_with_subscription))).
Defined.

(** A client that does not own the subscription cannot delete it. *)
Lemma subscription_access_witness :
  answers (delete_subscription other_message (World 1 manager_with_subscription))
    "subscription_unauthorized" manager_with_subscription.
Proof.
  refine (proj2 (subscription_access other_message example_id "mallory" 1 manager_with_subscription
                   eq_refl _)).
  econstructor; reflexivity.
Defined.

Definition example_event : @json example_json :=
  TObject [("zone", TString "north"); ("level", TInt 3)].

Definition example_subscription : Subscription :=
  Eval vm_compute in value_or Subscription_default (subscriptions_ manager_with_subscription !! example_id).

(** The event of the zone "north" does not reach the subscription for the zone "north". *)
Lemma string_criterion_never_matches_witness :
  subscriptions_ manager_with_subscription !! example_id = Some example_subscription ∧
  ∀ chosen w,
    matching_subscriptions (visit (subscriptions_ manager_with_subscription)) "qos"
      example_event (World 1 manager_with_subscription) = (Ok chosen, w) →
    example_subscription ∉ chosen.
Proof.
  split; [vm_compute; reflexivity|].
  assert (Hs : ∀ s : string, @is_string example_json (jstring s) = true ∧ get_string (jstring s) = Ok s)
    by done.
  assert (Hq : ∀ s t : string, dump (Json:=example_json) (jstring s) = Ok t → t ≠ s).
  { intros s t [= <-] Hq. apply (f_equal String.length) in Hq. simpl in Hq.
    rewrite app_length_string in Hq. simpl in Hq. lia. }
  assert (Hk : filter_criteria example_subscription !! "zone" = Some "north") by (vm_compute; reflexivity).
  exact (proj2 (string_criterion_never_matches Hs Hq "zone" "north" example_event example_subscription)
           Hk eq_refl manager_with_subscription "qos" 1%nat).
Defined.

End Witnesses.
