(* ===== verification/QodNotificationManager.v ===== *)
(** * [QodNotificationManager]: delivery of notifications

    [af_core/include/qod/qod_notification_manager.h] and
    [af_core/src/qod/qod_notification_manager.cpp].  Notifications wait in a queue; worker threads take
    them, send them, and put those that fail into a retry queue until their attempts are used up.  A
    pass of a worker thread through its loop is split where it holds no lock: [take_task] under the
    mutex of the queues, [process_task] after it. *)

From S2P Require Import Prelude Effects CxxString Regex QodTypes Json.
From Stdlib Require Import QArith.QArith.
#[global] Close Scope Q_scope.
#[global] Open Scope Z_scope.

(** Numbers of type [double] are rationals. *)
Record NotificationConfig := mkNotificationConfig {
  default_timeout : Z;
  max_retry_attempts : Z;
  initial_retry_delay : Z;
  retry_backoff_multiplier : Q;
  max_retry_delay : Z;
  max_queue_size : nat;
  worker_thread_count : Z;
  enable_async_delivery : bool;
  user_agent : string }.

Definition NotificationConfig_default : NotificationConfig :=
  mkNotificationConfig 10 3 1 (2 # 1) 30 10000 4 true "CAMARA-QoD-AF/1.0".

(** [af::common::qod::NotificationDeliveryResult] *)
Record NotificationDeliveryResult := mkNotificationDeliveryResult {
  success : bool;
  http_status_code : Z;
  result_error_message : string;
  timestamp : Z }.

(** The data of an event ([CloudEvent::data]). *)
Class EventData `{QodLibrary} `{Json} := event_data : CloudEvent → json.

(** What is not determined: the factors drawn for the jitter of delays, from 0.75 to 1.25, and which of
    several tasks with the earliest retry time is on top of the priority queue. *)
Class RetryEnvironment := {
  jitter : nat → Q;
  jitter_bounds : ∀ n, (3 # 4 <= jitter n)%Q ∧ (jitter n <= 5 # 4)%Q;
  top : list Z → nat;
  top_earliest : ∀ ts t, t ∈ ts → ∃ t', ts !! top ts = Some t' ∧ t' <= t }.

Record SessionStats := mkSessionStats {
  total_sent : Z;
  successful : Z;
  stats_failed : Z;
  pending : Z;
  last_update : Z }.

#[global] Instance SessionStats_settable : Settable SessionStats := λ s,
  mkSessionStats (total_sent s) (successful s) (stats_failed s) (pending s) (last_update s).

Definition SessionStats_default : SessionStats := mkSessionStats 0 0 0 0 0.

Section Definitions.
Context `{Clock} `{QodLibrary} `{!Json} `{!EventData} `{!RetryEnvironment}.

(** A callback is a number; the runs of callbacks are recorded. *)
Record NotificationTask := mkNotificationTask {
  task_event : CloudEvent;
  task_sink : string;
  task_credential : option SinkCredential;
  retry_count : Z;
  next_retry_time : Z;
  task_session_id : string;
  callback : option nat }.

#[global] Instance NotificationTask_settable : Settable NotificationTask := λ t,
  mkNotificationTask (task_event t) (task_sink t) (task_credential t) (retry_count t)
    (next_retry_time t) (task_session_id t) (callback t).

Record QodNotificationManager := mkQodNotificationManager {
  config_ : NotificationConfig;
  task_queue_ : list NotificationTask;          (* the front first *)
  retry_queue_ : list NotificationTask;         (* in no order *)
  running_ : bool;
  session_tasks_ : gmap string (list NotificationTask);
  session_stats_ : gmap string SessionStats;
  queue_mutex_ : lock_state;
  session_mutex_ : lock_state;
  stats_mutex_ : lock_state;
  callback_runs : list (nat * NotificationDeliveryResult);  (* so far *)
  jitter_draws : nat                            (* so far *) }.

#[global] Instance QodNotificationManager_settable : Settable QodNotificationManager := λ m,
  mkQodNotificationManager (config_ m) (task_queue_ m) (retry_queue_ m) (running_ m)
    (session_tasks_ m) (session_stats_ m) (queue_mutex_ m) (session_mutex_ m) (stats_mutex_ m)
    (callback_runs m) (jitter_draws m).

Implicit Types (m : QodNotificationManager) (task : NotificationTask).

(** ** The HTTP client *)

(** [HttpNotificationClient::send_notification]: the HTTP code and the body. *)
Definition send_notification (url : string) (event : CloudEvent) (credential : option SinkCredential)
    (timeout : Z) : Z * string :=
  (0, "Not implemented in this build").

(** Any client: the workers are stated for all of them. *)
Definition HttpClient : Type := string → CloudEvent → option SinkCredential → Z → Z * string.

(** ** Set-up *)

Definition QodNotificationManager_new (config : NotificationConfig) : QodNotificationManager :=
  mkQodNotificationManager config [] [] false ∅ ∅ Unlocked Unlocked Unlocked [] 0.

(** The worker threads it starts are calls of [take_task] and [process_task]. *)
Definition start : M QodNotificationManager () := modify (λ m, m <| running_ := true |>).

(** The retry queue is not emptied. *)
Definition stop : M QodNotificationManager () :=
  modify (λ m, m <| running_ := false |>) ;;
  with_lock queue_mutex_ Exclusive (modify (λ m, m <| task_queue_ := [] |>)).

(** ** Validation *)

Definition url_regex : regex :=
  let nonspace := Chr (λ c, negb (isspace c)) in
  Cat (lit "https://") (Cat nonspace (Star nonspace)).

Definition validate_sink (sink : string) : bool := regex_match url_regex sink.

Definition validate_credential (credential : option SinkCredential) : M QodNotificationManager bool :=
  match credential with
  | None => mret true
  | Some c =>
    if negb (bool_decide (credential_type c = ACCESSTOKEN)) then mret false
    else match access_token_expires_utc c with
         | Some expires => t ← now; mret (negb (expires <? t))
         | None => mret true
         end
  end.

(** ** Statistics *)

Definition updated_stats (ok : bool) (t : Z) (s : SessionStats) : SessionStats :=
  let s := s <| last_update := t |> in
  let s := if ok then
             let s := s <| successful ::= Z.add 1 |> in
             if 0 <? pending s then s <| pending ::= λ z, z - 1 |> else s
           else s <| pending ::= Z.add 1 |> in
  s <| total_sent := successful s + stats_failed s |>.

Definition update_stats (session_id : string) (ok : bool) : M QodNotificationManager () :=
  if empty session_id then mret ()
  else
    with_lock stats_mutex_ Exclusive
      (t ← now;
       modify (λ m, m <| session_stats_ ::= λ mp,
         <[session_id := updated_stats ok t (value_or SessionStats_default (mp !! session_id))]> mp |>)).

Definition get_session_stats (session_id : string) : M QodNotificationManager (gmap string Z) :=
  with_lock stats_mutex_ Exclusive
    (m ← get;
     mret (match session_stats_ m !! session_id with
           | Some s => {["total_sent" := total_sent s; "successful" := successful s;
                         "failed" := stats_failed s; "pending" := pending s]}
           | None => ∅
           end)).

(** [std::chrono::hours(24)] *)
Definition stats_lifetime : Z := 86400 * 1000000000.

Definition cleanup_old_stats : M QodNotificationManager () :=
  with_lock stats_mutex_ Exclusive
    (t ← now;
     modify (λ m, m <| session_stats_ ::=
       filter (λ '(_, s), bool_decide (last_update s < t - stats_lifetime) = false) |>)).

(** ** Queueing *)

Definition queue_notification (event : CloudEvent) (sink : string) (credential : option SinkCredential)
    (session_id : string) (call : option nat) : M QodNotificationManager bool :=
  with_lock queue_mutex_ Exclusive
    (m ← get;
     if (max_queue_size (config_ m) <=? length (task_queue_ m))%nat then mret false
     else
       t ← now;
       let task := mkNotificationTask event sink credential 0 t session_id call in
       modify (λ m, m <| task_queue_ ::= λ q, q ++ [task] |>) ;;
       when (negb (empty session_id))
         (with_lock session_mutex_ Exclusive
            (modify (λ m, m <| session_tasks_ ::= λ mp,
               <[session_id := value_or [] (mp !! session_id) ++ [task]]> mp |>))) ;;
       update_stats session_id false ;;
       mret true).

Definition cancel_session_notifications (session_id : string) : M QodNotificationManager Z :=
  with_lock session_mutex_ Exclusive
    (m ← get;
     match session_tasks_ m !! session_id with
     | Some tasks =>
       modify (λ m, m <| session_tasks_ ::= delete session_id |>) ;;
       mret (Z.of_nat (length tasks))
     | None => mret 0
     end).

Definition get_pending_count : M QodNotificationManager nat :=
  with_lock queue_mutex_ Exclusive
    (m ← get; mret (length (task_queue_ m) + length (retry_queue_ m))%nat).

Definition delivered (http_code : Z) : bool := (200 <=? http_code) && (http_code <? 300).

(** The session named by the data of an event. *)
Definition session_of (event : CloudEvent) : result string :=
  if jcontains "sessionId" (event_data event)
  then v ← jindex "sessionId" (event_data event); get_string v
  else mret "".

Definition deliver (event : CloudEvent) (sink : string) (credential : option SinkCredential) :
    M QodNotificationManager NotificationDeliveryResult :=
  t ← now;
  if negb (validate_sink sink) then mret (mkNotificationDeliveryResult false 0 "Invalid sink URL" t)
  else
    valid ← validate_credential credential;
    if negb valid then mret (mkNotificationDeliveryResult false 0 "Expired or invalid credential" t)
    else
      try_catch
        (m ← get;
         if negb (enable_async_delivery (config_ m)) then
           let '(http_code, response) :=
             send_notification sink event credential (default_timeout (config_ m)) in
           let ok := delivered http_code in
           let text := if ok then "" else "HTTP " +:+ pretty http_code +:+ ": " +:+ response in
           mret (mkNotificationDeliveryResult ok http_code text t)
         else
           now ;;
           session_id ← lift (session_of event);
           queued ← queue_notification event sink credential session_id None;
           mret (if queued : bool then mkNotificationDeliveryResult true 202 "" t
                 else mkNotificationDeliveryResult false 503 "Queue full" t))
        (λ e, mret (mkNotificationDeliveryResult false 0 ("Exception: " +:+ what e) t)).

(** ** Workers *)

(** [static_cast<long>(seconds * factor)]: the fraction is dropped. *)
Definition scaled (seconds : Z) (factor : Q) : Z :=
  Z.quot (seconds * Qnum factor) (Zpos (Qden factor)).

(** The delay before the jitter: [count - 1] multiplications, cut at the maximum. *)
Fixpoint backoff (config : NotificationConfig) (steps : nat) (base_delay : Z) : Z :=
  match steps with
  | O => base_delay
  | S steps =>
    let base_delay := scaled base_delay (retry_backoff_multiplier config) in
    if max_retry_delay config <? base_delay then max_retry_delay config
    else backoff config steps base_delay
  end.

Definition base_delay_of (config : NotificationConfig) (count : Z) : Z :=
  backoff config (Z.to_nat (count - 1)) (initial_retry_delay config).

Definition calculate_next_retry task : M QodNotificationManager Z :=
  m ← get;
  modify (λ m, m <| jitter_draws ::= S |>) ;;
  let delay := scaled (base_delay_of (config_ m) (retry_count task)) (jitter (jitter_draws m)) in
  t ← now;
  mret (t + seconds delay).

(** The task on top of the retry queue and the rest. *)
Definition retry_top m : option (NotificationTask * list NotificationTask) :=
  let q := retry_queue_ m in
  let i := top (next_retry_time <$> q) in
  match q !! i with
  | Some task => Some (task, take i q ++ drop (S i) q)
  | None => None
  end.

(** The next task, if one is due: [None] when the manager is stopped and the worker ends. *)
Definition take_task : M QodNotificationManager (option (option NotificationTask)) :=
  with_lock queue_mutex_ Exclusive
    (m ← get;
     if negb (running_ m) then mret None
     else
       t ← now;
       let from_queue :=
         match task_queue_ m with
         | task :: rest => modify (λ m, m <| task_queue_ := rest |>) ;; mret (Some (Some task))
         | [] => mret (Some None)
         end in
       match retry_top m with
       | Some (task, rest) =>
         if next_retry_time task <=? t
         then modify (λ m, m <| retry_queue_ := rest |>) ;; mret (Some (Some task))
         else from_queue
       | None => from_queue
       end).

(** The sending of a task and what comes of it. *)
Definition process_task (client : HttpClient) task : M QodNotificationManager () :=
  m ← get;
  let '(http_code, response) :=
    client (task_sink task) (task_event task) (task_credential task) (default_timeout (config_ m)) in
  let ok := delivered http_code in
  if negb ok && (retry_count task <? max_retry_attempts (config_ m)) then
    let task := task <| retry_count ::= Z.add 1 |> in
    t ← calculate_next_retry task;
    let task := task <| next_retry_time := t |> in
    with_lock queue_mutex_ Exclusive (modify (λ m, m <| retry_queue_ ::= cons task |>))
  else
    match callback task with
    | Some f =>
      t ← now;
      let result := mkNotificationDeliveryResult ok http_code (if ok then "" else response) t in
      modify (λ m, m <| callback_runs ::= λ l, l ++ [(f, result)] |>)
    | None => mret ()
    end ;;
    update_stats (task_session_id task) ok.

(** One pass of [worker_thread]: whether the loop goes on. *)
Definition worker_pass (client : HttpClient) : M QodNotificationManager bool :=
  taken ← take_task;
  match taken with
  | None => mret false
  | Some None => mret true
  | Some (Some task) => process_task client task ;; mret true
  end.

(** The loop of [worker_thread], for at most [fuel] passes. *)
Fixpoint worker_thread (client : HttpClient) (fuel : nat) : M QodNotificationManager () :=
  match fuel with
  | O => mret ()
  | S fuel => on ← worker_pass client; if on : bool then worker_thread client fuel else mret ()
  end.
End Definitions.
