(* ===== verification/NotificationSpec.v ===== *)
(** * What [QodNotificationManager] promises

    Delays are bounded, every notification is sent a bounded number of times and leaves the queues as
    long as a worker runs and time passes, and the statistics over all sequences of calls. *)

From S2P Require Import Prelude Effects CxxString Regex QodTypes UeState QodStateManager Json.
From S2P Require Import QodNotificationManager.
From Stdlib Require Import QArith.QArith.
#[global] Close Scope Q_scope.
#[global] Open Scope Z_scope.

(** ** Delays *)

(** Sensible delays: not negative, and not shrinking below zero. *)
Definition sane_delays (config : NotificationConfig) : Prop :=
  0 <= initial_retry_delay config ∧ 0 <= max_retry_delay config ∧
  (0 <= retry_backoff_multiplier config)%Q.

Lemma scaled_nonneg s f : 0 <= s → (0 <= f)%Q → 0 <= scaled s f.
Proof.
  unfold scaled, Qle. simpl. intros Hs Hf. apply Z.quot_pos; [|lia]. apply Z.mul_nonneg_nonneg; lia.
Qed.

(** A factor of at most five quarters. *)
Lemma scaled_upper s f : 0 <= s → (3 # 4 <= f)%Q → (f <= 5 # 4)%Q → 4 * scaled s f <= 5 * s.
Proof.
  unfold scaled, Qle. simpl. intros Hs Hl Hu. rewrite Z.quot_div_nonneg by nia.
  pose proof (Z.mul_div_le (s * Qnum f) (Zpos (Qden f)) ltac:(lia)). nia.
Qed.

Lemma backoff_bounds config steps d :
  sane_delays config → 0 <= d → d <= Z.max (initial_retry_delay config) (max_retry_delay config) →
  0 <= backoff config steps d <= Z.max (initial_retry_delay config) (max_retry_delay config).
Proof.
  intros (Hi & Hm & Hf). revert d. induction steps as [|steps IH]; intros d Hd Hu; simpl; [lia|].
  pose proof (scaled_nonneg d _ Hd Hf). destruct (Z.ltb_spec (max_retry_delay config)
    (scaled d (retry_backoff_multiplier config))); [lia|]. apply IH; lia.
Qed.

Section Specification.
Context `{Clock} `{QodLibrary} `{!Json} `{!EventData} `{!RetryEnvironment}.
Implicit Types (m : QodNotificationManager) (task : NotificationTask) (client : HttpClient).

(** ** Workers, one run at a time *)

Definition locks_free m : Prop :=
  queue_mutex_ m = Unlocked ∧ session_mutex_ m = Unlocked ∧ stats_mutex_ m = Unlocked.

(** The task a worker takes at time [t], and what stays. *)
Definition due (t : Z) m : option (NotificationTask * QodNotificationManager) :=
  let from_queue :=
    match task_queue_ m with
    | task :: rest => Some (task, m <| task_queue_ := rest |>)
    | [] => None
    end in
  match retry_top m with
  | Some (task, rest) =>
    if next_retry_time task <=? t then Some (task, m <| retry_queue_ := rest |>) else from_queue
  | None => from_queue
  end.

Lemma take_task_run n m :
  queue_mutex_ m = Unlocked →
  take_task (World n m) =
    if running_ m then
      match due (clock n) m with
      | Some (task, m') => (Ok (Some (Some task)), World (S n) m')
      | None => (Ok (Some None), World (S n) m)
      end
    else (Ok None, World n m).
Proof.
  intros Hq. destruct m as [c q rq run st ss qm sm tm cb jd]; simpl in Hq; subst qm.
  unfold take_task, with_lock, due, retry_top. run_steps. simpl.
  destruct run; simpl; [|done].
  destruct (rq !! top (next_retry_time <$> rq)) as [task|]; simpl.
  - destruct (next_retry_time task <=? clock n); simpl; [done|]. by destruct q.
  - by destruct q.
Qed.

(** When a failed task is due again. *)
Definition retry_due n m task : Z :=
  clock n + seconds (scaled (base_delay_of (config_ m) (retry_count task)) (jitter (jitter_draws m))).

Lemma calculate_next_retry_run task n m :
  calculate_next_retry task (World n m) =
    (Ok (retry_due n m task), World (S n) (m <| jitter_draws ::= S |>)).
Proof. done. Qed.

(** The back-off is bounded.  With delays that are not negative, the base delay of every attempt is
    between zero and the larger of the initial and the maximum delay, and the retry is due at the
    earliest now and at the latest after five quarters of that. *)
Theorem retry_delay_bounds task n m :
  sane_delays (config_ m) →
  let longest := Z.max (initial_retry_delay (config_ m)) (max_retry_delay (config_ m)) in
  0 <= base_delay_of (config_ m) (retry_count task) <= longest ∧
  ∃ t m', calculate_next_retry task (World n m) = (Ok t, World (S n) m') ∧
       clock n <= t ∧ 4 * (t - clock n) <= 5 * seconds longest.
Proof.
  intros Hs longest. destruct (Hs) as (Hi & Hm & Hf).
  assert (Hb : 0 <= base_delay_of (config_ m) (retry_count task) <= longest)
    by (apply backoff_bounds; [done|done|lia]).
  split; [exact Hb|]. do 2 eexists. split; [apply calculate_next_retry_run|]. unfold retry_due.
  destruct (jitter_bounds (jitter_draws m)) as [Hl Hu].
  assert (Hp : (0 <= jitter (jitter_draws m))%Q) by (unfold Qle in *; simpl in *; lia).
  pose proof (scaled_nonneg _ _ (proj1 Hb) Hp). pose proof (scaled_upper _ _ (proj1 Hb) Hl Hu).
  unfold seconds. lia.
Qed.

(** ** Attempts *)

(** How often a task may still be sent. *)
Definition attempts_left (config : NotificationConfig) task : Z :=
  Z.max 0 (max_retry_attempts config - retry_count task) + 1.

Fixpoint attempts (config : NotificationConfig) (tasks : list NotificationTask) : Z :=
  match tasks with
  | [] => 0
  | task :: tasks => attempts_left config task + attempts config tasks
  end.

(** Those of the tasks in the queues. *)
Definition queued_attempts m : Z :=
  attempts (config_ m) (task_queue_ m) + attempts (config_ m) (retry_queue_ m).

Lemma attempts_app config tasks tasks' :
  attempts config (tasks ++ tasks') = attempts config tasks + attempts config tasks'.
Proof. induction tasks as [|task tasks IH]; simpl; [done|]. rewrite IH. lia. Qed.

Lemma attempts_left_pos config task : 1 <= attempts_left config task.
Proof. unfold attempts_left. lia. Qed.

Lemma attempts_nonneg config tasks : 0 <= attempts config tasks.
Proof.
  induction tasks as [|task tasks IH]; simpl; [lia|]. pose proof (attempts_left_pos config task). lia.
Qed.

Lemma attempts_zero config tasks : attempts config tasks <= 0 → tasks = [].
Proof.
  destruct tasks as [|task tasks]; [done|]. simpl. pose proof (attempts_left_pos config task).
  pose proof (attempts_nonneg config tasks). lia.
Qed.

(** What a worker leaves as it is. *)
Definition same_setup m m' : Prop :=
  config_ m' = config_ m ∧ running_ m' = running_ m ∧ (locks_free m → locks_free m').

Lemma due_spec t m task m' :
  due t m = Some (task, m') →
  same_setup m m' ∧ queued_attempts m = attempts_left (config_ m) task + queued_attempts m'.
Proof.
  assert (Hq : match task_queue_ m with
               | task :: rest => Some (task, m <| task_queue_ := rest |>)
               | [] => None
               end = Some (task, m') →
               same_setup m m' ∧
               queued_attempts m = attempts_left (config_ m) task + queued_attempts m').
  { destruct (task_queue_ m) as [|task' rest] eqn:E; [done|]. intros [= -> <-].
    split; [done|]. unfold queued_attempts. rewrite E. simpl. lia. }
  unfold due, retry_top. destruct (retry_queue_ m !! _) as [task'|] eqn:E; [|done].
  destruct (next_retry_time task' <=? t); [|done]. intros [= -> <-]. split; [done|].
  unfold queued_attempts. simpl. rewrite <- (take_drop_middle _ _ _ E) at 1.
  rewrite !attempts_app. simpl. lia.
Qed.

Lemma update_stats_run session_id ok n m :
  locks_free m →
  ∃ n' m', update_stats session_id ok (World n m) = (Ok (), World n' m') ∧ same_setup m m' ∧
    task_queue_ m' = task_queue_ m ∧ retry_queue_ m' = retry_queue_ m.
Proof.
  intros (Hq & Hs & Ht). unfold update_stats. destruct (empty session_id); [by exists n, m|].
  destruct m; simpl in *; subst. by do 2 eexists.
Qed.

(** A failed task that may be sent again goes to the retry queue with one attempt less; any other one
    leaves the manager. *)
Lemma process_task_run client task n m :
  locks_free m →
  ∃ n' m', process_task client task (World n m) = (Ok (), World n' m') ∧ same_setup m m' ∧
    queued_attempts m' < attempts_left (config_ m) task + queued_attempts m.
Proof.
  intros Hfree. unfold process_task. rewrite bind_get. cbn [obj].
  destruct (client _ _ _ _) as [code response].
  destruct (negb (delivered code) && _) eqn:Eretry.
  - apply andb_true_iff in Eretry as [_ Hcount]. apply Z.ltb_lt in Hcount.
    rewrite (bind_run _ _ _ _ _ (calculate_next_retry_run _ n m)).
    destruct Hfree as (Hq & Hs & Ht). destruct m; simpl in *; subst.
    do 2 eexists. split; [reflexivity|]. split; [done|].
    unfold queued_attempts. simpl. unfold attempts_left. simpl. lia.
  - pose proof (attempts_left_pos (config_ m) task).
    destruct (callback task) as [f|].
    + rewrite (bind_run _ _ _ () (World (S n) (m <| callback_runs ::= λ l, l ++ [(f,
        mkNotificationDeliveryResult (delivered code) code
          (if delivered code then "" else response) (clock n))] |>))) by done.
      destruct (update_stats_run (task_session_id task) (delivered code) (S n) (m <| callback_runs
        ::= λ l, l ++ [(f, mkNotificationDeliveryResult (delivered code) code
          (if delivered code then "" else response) (clock n))] |>)) as (n' & m' & E & Hsame & Eq & Er); [done|].
      exists n', m'. split; [exact E|]. split; [exact Hsame|].
      destruct Hsame as (Ec & _). unfold queued_attempts. rewrite Ec, Eq, Er. simpl. lia.
    + rewrite (bind_run _ _ _ () (World n m)) by done.
      destruct (update_stats_run (task_session_id task) (delivered code) n m)
        as (n' & m' & E & Hsame & Eq & Er); [done|].
      exists n', m'. split; [exact E|]. split; [exact Hsame|].
      destruct Hsame as (Ec & _). unfold queued_attempts. rewrite Ec, Eq, Er. lia.
Qed.

(** ** Several workers

    The manager, and the tasks that workers have taken and not yet sent.  A step sends the given number
    of requests. *)
Inductive work client : world QodNotificationManager * list NotificationTask → Z →
    world QodNotificationManager * list NotificationTask → Prop :=
  | work_idle w w' taken : take_task w = (Ok (Some None), w') → work client (w, taken) 0 (w', taken)
  | work_take w w' task taken :
      take_task w = (Ok (Some (Some task)), w') → work client (w, taken) 0 (w', task :: taken)
  | work_send w w' before task after :
      process_task client task w = (Ok (), w') →
      work client (w, before ++ task :: after) 1 (w', before ++ after).

Inductive works client : world QodNotificationManager * list NotificationTask → Z →
    world QodNotificationManager * list NotificationTask → Prop :=
  | works_none s : works client s 0 s
  | works_more s k s' l s'' : work client s k s' → works client s' l s'' → works client s (k + l) s''.

(** All that may still be sent. *)
Definition remaining (s : world QodNotificationManager * list NotificationTask) : Z :=
  queued_attempts (obj s.1) + attempts (config_ (obj s.1)) s.2.

Lemma work_spends client s k s' :
  work client s k s' → locks_free (obj s.1) → locks_free (obj s'.1) ∧ remaining s' + k <= remaining s.
Proof.
  unfold remaining.
  destruct 1 as [[n m] w' taken E|[n m] w' task taken E|[n m] w' before task after E]; simpl; intros Hfree.
  - rewrite take_task_run in E by apply Hfree. destruct (running_ m); [|done].
    destruct (due _ m) as [[task m']|]; [done|]. injection E as <-. simpl. split; [done|lia].
  - rewrite take_task_run in E by apply Hfree. destruct (running_ m); [|done].
    destruct (due _ m) as [[task' m']|] eqn:Hdue; [|done]. injection E as -> <-. simpl.
    destruct (due_spec _ _ _ _ Hdue) as [(Ec & _ & Hl) Ha]. split; [by apply Hl|]. rewrite Ec. lia.
  - destruct (process_task_run client task n m Hfree) as (n' & m' & E' & (Ec & _ & Hl) & Ha).
    rewrite E' in E. injection E as <-. simpl. split; [by apply Hl|]. rewrite Ec, !attempts_app. simpl. lia.
Qed.

(** C32: no notification is sent for ever.  However many workers run, in whatever order, for any client:
    from a state with unlocked mutexes, a sequence of steps sends at most as many requests as the tasks
    in the queues and with the workers have attempts left, the maximal number of retries plus one for
    a new task; what it sends is taken from the attempts left. *)
Theorem sends_bounded client s k s' :
  locks_free (obj s.1) → works client s k s' → 0 <= remaining s' ∧ k + remaining s' <= remaining s.
Proof.
  intros Hfree Hw. split.
  { unfold remaining, queued_attempts. pose proof (attempts_nonneg (config_ (obj s'.1))) as Hn.
    pose proof (Hn (task_queue_ (obj s'.1))). pose proof (Hn (retry_queue_ (obj s'.1))).
    pose proof (Hn s'.2). lia. }
  induction Hw as [|s k s' l s'' Hs Hw IH]; [lia|].
  destruct (work_spends _ _ _ _ Hs Hfree) as [Hfree' Hk]. specialize (IH Hfree'). lia.
Qed.

(** ** The queues are emptied *)

Lemma worker_pass_run client n m :
  locks_free m → running_ m = true →
  worker_pass client (World n m) =
    match due (clock n) m with
    | Some (task, m') => (process_task client task ;; mret true) (World (S n) m')
    | None => (Ok true, World (S n) m)
    end.
Proof.
  intros Hfree Hrun. unfold worker_pass. unfold mbind at 1, M_bind at 1.
  rewrite take_task_run, Hrun by apply Hfree. by destruct (due (clock n) m) as [[task m']|].
Qed.

(** Something is queued: a task is due at the latest at some time. *)
Lemma due_later m :
  task_queue_ m ≠ [] ∨ retry_queue_ m ≠ [] → ∃ t, ∀ t', t <= t' → due t' m ≠ None.
Proof.
  intros Hq. destruct (task_queue_ m) as [|task rest] eqn:Etask.
  - destruct Hq as [|Hq]; [done|]. destruct (retry_queue_ m) as [|task rest] eqn:Eretry; [done|].
    exists (next_retry_time task). intros t' Ht'. unfold due, retry_top. rewrite Eretry.
    destruct (top_earliest (next_retry_time <$> (task :: rest)) (next_retry_time task))
      as (earliest & Etop & Hle); [by left|].
    apply list_lookup_fmap_Some in Etop as (task' & -> & Etop).
    rewrite Etop. by rewrite (proj2 (Z.leb_le _ _)) by lia.
  - exists 0. intros t' _. unfold due. destruct (retry_top m) as [[task' rest']|].
    + by destruct (next_retry_time task' <=? t'); rewrite ?Etask.
    + by rewrite Etask.
Qed.

(** The worker empties the queues from here. *)
Definition empties client w : Prop :=
  ∃ fuel w', worker_thread client fuel w = (Ok (), w') ∧
    task_queue_ (obj w') = [] ∧ retry_queue_ (obj w') = [] ∧ locks_free (obj w').

Lemma empties_pass client w w' : worker_pass client w = (Ok true, w') → empties client w' → empties client w.
Proof.
  intros E (fuel & w'' & Eloop & Hdone). exists (S fuel), w''. split; [|done].
  simpl. by rewrite (bind_run _ _ _ _ _ E).
Qed.

(** Time passes: every reading is followed by later ones. *)
Definition unbounded_clock : Prop := ∀ t, ∃ n, ∀ k, (n <= k)%nat → t <= clock k.

Lemma empties_when_due client m t :
  unbounded_clock → locks_free m → running_ m = true → (∀ t', t <= t' → due t' m ≠ None) →
  (∀ n m', locks_free m' → running_ m' = true → queued_attempts m' < queued_attempts m →
           empties client (World n m')) →
  ∀ n, empties client (World n m).
Proof.
  intros Hclock Hfree Hrun Hdue Hless. destruct (Hclock t) as (last & Hlast).
  assert (Hall : ∀ d n, (last <= n + d)%nat → empties client (World n m)).
  { induction d as [|d IH]; intros n Hn.
    all: pose proof (worker_pass_run client n m Hfree Hrun) as E.
    all: destruct (due (clock n) m) as [[task m1]|] eqn:Ed.
    2: { exfalso. apply (Hdue (clock n)); [apply Hlast; lia|done]. }
    3: { eapply empties_pass; [exact E|]. apply IH. lia. }
    all: destruct (due_spec _ _ _ _ Ed) as [(Ec & Er & Hl) Ha].
    all: destruct (process_task_run client task (S n) m1 (Hl Hfree))
           as (n' & m' & E' & (Ec' & Er' & Hl') & Ha').
    all: rewrite (bind_run _ _ _ _ _ E') in E.
    all: apply (empties_pass _ _ _ E), Hless; [tauto|congruence|rewrite Ec in Ha'; lia]. }
  intros n. apply (Hall last). lia.
Qed.

(** C31: every queued notification is dealt with.  While the manager runs, its mutexes are unlocked and time
    passes, the loop of a single worker thread empties both queues after finitely many passes,
    whatever the receivers answer and in whatever order tasks with the same time are retried. *)
Theorem worker_empties_queues client n m :
  unbounded_clock → locks_free m → running_ m = true → empties client (World n m).
Proof.
  intros Hclock.
  assert (Hall : ∀ (k : nat) m (n : nat), queued_attempts m <= Z.of_nat k → locks_free m → running_ m = true →
                   empties client (World n m)).
  { induction k as [|k IH]; intros m1 n1 Hk Hfree Hrun;
      (destruct (decide (task_queue_ m1 = [] ∧ retry_queue_ m1 = [])) as [[Ht Hr]|Hq];
       [by exists O, (World n1 m1)|]).
    - exfalso. apply Hq. unfold queued_attempts in Hk.
      pose proof (attempts_nonneg (config_ m1) (task_queue_ m1)).
      pose proof (attempts_nonneg (config_ m1) (retry_queue_ m1)).
      split; apply (attempts_zero (config_ m1)); lia.
    - destruct (due_later m1) as [t Ht]; [destruct (task_queue_ m1), (retry_queue_ m1); naive_solver|].
      apply (empties_when_due client m1 t); [done..|]. intros n' m' Hfree' Hrun' Hless.
      apply IH; [lia|done..]. }
  intros Hfree Hrun. apply (Hall (Z.to_nat (queued_attempts m))); [lia|done..].
Qed.

(** ** Over all sequences of calls *)

(** The statistics of a session. *)
Definition stats_ok (s : SessionStats) : Prop :=
  stats_failed s = 0 ∧ total_sent s = successful s ∧ 0 <= successful s ∧ 0 <= pending s.

(** The invariant, while the mutexes are in the given states. *)
Definition holds q ses sts m : Prop :=
  (length (task_queue_ m) <= max_queue_size (config_ m))%nat ∧
  map_Forall (λ _, stats_ok) (session_stats_ m) ∧
  queue_mutex_ m = q ∧ session_mutex_ m = ses ∧ stats_mutex_ m = sts.

#[local] Ltac holds_lock mx f :=
  intros Hf [n m] (Hqueue & Hstats & Eq & Es & Et);
  unfold wp, with_lock; cbn [obj ticks] in *; rewrite ?Eq, ?Es, ?Et;
  refine (_ (Hf (World n (m <| mx := Exclusive |>)) _)); [|by split_and!]; intros Hrun; unfold wp in Hrun;
  destruct (f (World n (m <| mx := Exclusive |>))) as [r w']; cbn [fst snd] in *;
  destruct Hrun as [(? & ? & ? & ? & ?) Hr]; split; [by split_and!|exact Hr].

Lemma total_queue_lock {A} ses sts (f : M _ A) P :
  total (holds Exclusive ses sts) f P →
  total (holds Unlocked ses sts) (with_lock queue_mutex_ Exclusive f) P.
Proof. by holds_lock queue_mutex_ f. Qed.

Lemma total_session_lock {A} q sts (f : M _ A) P :
  total (holds q Exclusive sts) f P →
  total (holds q Unlocked sts) (with_lock session_mutex_ Exclusive f) P.
Proof. by holds_lock session_mutex_ f. Qed.

Lemma total_stats_lock {A} q ses (f : M _ A) P :
  total (holds q ses Exclusive) f P →
  total (holds q ses Unlocked) (with_lock stats_mutex_ Exclusive f) P.
Proof. by holds_lock stats_mutex_ f. Qed.


Lemma update_stats_total q ses session_id ok :
  total (holds q ses Unlocked) (update_stats session_id ok) (λ _, True).
Proof.
  unfold update_stats. destruct (empty session_id); [by apply total_ret|]. apply total_stats_lock.
  eapply total_bind; [apply total_now|]. intros t _. apply total_modify; [|done].
  intros m (Hqueue & Hstats & Hlocks). split; [exact Hqueue|]. split; [|exact Hlocks].
  apply map_Forall_insert_2; [|exact Hstats].
  assert (Hold : stats_ok (value_or SessionStats_default (session_stats_ m !! session_id))).
  { destruct (session_stats_ m !! session_id) eqn:E; [by apply (Hstats _ _ E)|done]. }
  destruct (value_or _ _) as [tot suc fl pend last]. destruct Hold as (? & ? & ? & ?). simpl in *.
  unfold updated_stats. destruct ok; simpl; [destruct (Z.ltb_spec 0 pend)|]; unfold stats_ok; simpl; lia.
Qed.

Lemma queue_notification_total event sink credential session_id call :
  total (holds Unlocked Unlocked Unlocked)
    (queue_notification event sink credential session_id call) (λ _, True).
Proof.
  apply total_queue_lock. intros [n m] (Hlength & Hstats & Hlocks). apply wp_get. cbn [obj].
  destruct (_ <=? _)%nat eqn:Efull; [done|]. apply Nat.leb_gt in Efull. apply wp_now, wp_modify.
  match goal with |- wp ?rest _ _ =>
    enough (Hrest : total (holds Exclusive Unlocked Unlocked) rest (λ _, True)) end.
  { apply Hrest. split; [|done]. simpl. rewrite length_app. simpl. lia. }
  eapply total_bind; [apply total_when, total_session_lock, total_modify; [|done]|].
  { intros m' (? & ? & ?). done. }
  intros _ _. eapply total_bind; [apply update_stats_total|]. intros _ _. by apply total_ret.
Qed.

Context `{!JsonDefined}.

Lemma session_of_defined event : defined (session_of event).
Proof.
  unfold session_of. destruct (jcontains _ _); [|done].
  apply defined_bind; [apply jindex_defined|]. intros v _. apply get_string_defined.
Qed.

Lemma validate_credential_total q ses sts credential :
  total (holds q ses sts) (validate_credential credential) (λ _, True).
Proof.
  unfold validate_credential. destruct credential as [c|]; [|by apply total_ret].
  destruct (negb _); [by apply total_ret|]. destruct (access_token_expires_utc c); [|by apply total_ret].
  eapply total_bind; [apply total_now|]. intros. by apply total_ret.
Qed.

Lemma deliver_total event sink credential :
  total (holds Unlocked Unlocked Unlocked) (deliver event sink credential) (λ _, True).
Proof.
  unfold deliver. eapply total_bind; [apply total_now|]. intros t _.
  destruct (negb (validate_sink sink)); [by apply total_ret|].
  eapply total_bind; [apply validate_credential_total|]. intros valid _.
  destruct (negb valid); [by apply total_ret|].
  apply total_try; [|intros; by apply total_ret].
  eapply total_bind; [apply total_get|]. intros m _. destruct (negb _).
  { destruct (send_notification _ _ _ _). by apply total_ret. }
  eapply total_bind; [apply total_now|]. intros _ _.
  apply (total_bind _ _ (λ _, True)); [by apply total_lift; [apply session_of_defined|]|].
  intros session_id _.
  eapply total_bind; [apply queue_notification_total|]. intros queued _. by apply total_ret.
Qed.

Lemma take_task_total : total (holds Unlocked Unlocked Unlocked) take_task (λ _, True).
Proof.
  intros [n m] Hm. unfold wp. rewrite take_task_run by apply Hm. destruct (running_ m); [|done].
  destruct (due (clock n) m) as [[task m']|] eqn:Hdue; [|done]. split; [|done]. simpl.
  destruct Hm as (Hlength & Hstats & Hlocks). unfold due in Hdue; cbv zeta in Hdue.
  destruct (retry_top m) as [[task' rest']|]; [destruct (next_retry_time task' <=? clock n)|];
    (destruct (task_queue_ m) as [|task'' rest] eqn:Etasks; simplify_eq);
    split; simpl in *; rewrite ?Etasks in *; simpl in *; try done; lia.
Qed.

Lemma process_task_total client task :
  total (holds Unlocked Unlocked Unlocked) (process_task client task) (λ _, True).
Proof.
  unfold process_task. eapply total_bind; [apply total_get|]. intros m _.
  destruct (client _ _ _ _) as [code response]. destruct (negb _ && _).
  - eapply (total_bind _ _ (λ _, True)); [intros w Hw; by split|]. intros t _.
    apply total_queue_lock, total_modify; done.
  - eapply (total_bind _ _ (λ _, True)); [|intros _ _; apply update_stats_total].
    destruct (callback task); [|by apply total_ret].
    eapply total_bind; [apply total_now|]. intros t _. by apply total_modify.
Qed.

Lemma worker_thread_total client fuel :
  total (holds Unlocked Unlocked Unlocked) (worker_thread client fuel) (λ _, True).
Proof.
  induction fuel as [|fuel IH]; simpl; [by apply total_ret|].
  apply (total_bind _ _ (λ _, True)); [|intros [] _; [done|by apply total_ret]].
  unfold worker_pass. eapply total_bind; [apply take_task_total|]. intros [[task|]|] _.
  - eapply total_bind; [apply process_task_total|]. intros _ _. by apply total_ret.
  - by apply total_ret.
  - by apply total_ret.
Qed.

(** The calls other threads make, and the two halves of a worker's pass. *)
Inductive call client : M QodNotificationManager () → Prop :=
  | call_start : call client start
  | call_stop : call client stop
  | call_deliver event sink credential : call client (deliver event sink credential ;; mret ())
  | call_queue event sink credential session_id callback :
      call client (queue_notification event sink credential session_id callback ;; mret ())
  | call_cancel session_id : call client (cancel_session_notifications session_id ;; mret ())
  | call_pending : call client (get_pending_count ;; mret ())
  | call_stats session_id : call client (get_session_stats session_id ;; mret ())
  | call_cleanup : call client cleanup_old_stats
  | call_take : call client (take_task ;; mret ())
  | call_process task : call client (process_task client task)
  | call_worker fuel : call client (worker_thread client fuel).

Inductive reachable client config : world QodNotificationManager → Prop :=
  | reachable_new n : reachable client config (World n (QodNotificationManager_new config))
  | reachable_call w f : reachable client config w → call client f → reachable client config (f w).2.

Lemma total_ignore {A} I (f : M QodNotificationManager A) :
  total I f (λ _, True) → total I (f ;; mret ()) (λ _, True).
Proof. intros Hf. eapply total_bind; [exact Hf|]. intros _ _. by apply total_ret. Qed.

Lemma call_total client f : call client f → total (holds Unlocked Unlocked Unlocked) f (λ _, True).
Proof.
  destruct 1; try apply total_ignore.
  - by apply total_modify.
  - eapply (total_bind _ _ (λ _, True)); [by apply total_modify|]. intros _ _.
    apply total_queue_lock, total_modify; [|done]. intros m (_ & ? & ?). split; [simpl; lia|done].
  - apply deliver_total.
  - apply queue_notification_total.
  - apply total_session_lock. eapply total_bind; [apply total_get|]. intros m _.
    destruct (session_tasks_ m !! session_id); [|by apply total_ret].
    eapply (total_bind _ _ (λ _, True)); [by apply total_modify|]. intros _ _. by apply total_ret.
  - apply total_queue_lock. eapply total_bind; [apply total_get|]. intros m _. by apply total_ret.
  - apply total_stats_lock. eapply total_bind; [apply total_get|]. intros m _. by apply total_ret.
  - apply total_stats_lock. eapply total_bind; [apply total_now|]. intros t _.
    apply total_modify; [|done]. intros m (? & Hstats & ?). split; [done|]. split; [|done].
    intros k s Hk. apply map_lookup_filter_Some in Hk as [Hk _]. exact (Hstats k s Hk).
  - apply take_task_total.
  - apply process_task_total.
  - apply worker_thread_total.
Qed.


(** ** Statistics and cancelling *)

(** A failure, final or not, counts as pending. *)
Lemma failure_counts_as_pending session_id n m :
  empty session_id = false → locks_free m →
  let s := value_or SessionStats_default (session_stats_ m !! session_id) in
  ∃ m' s', update_stats session_id false (World n m) = (Ok (), World (S n) m') ∧
    session_stats_ m' !! session_id = Some s' ∧ pending s' = 1 + pending s ∧ stats_failed s' = stats_failed s.
Proof.
  intros He (Hq & Hs & Ht) s. unfold update_stats. rewrite He.
  destruct m; simpl in *; subst. do 2 eexists. split; [reflexivity|]. simpl.
  by rewrite lookup_insert_eq.
Qed.

(** Cancelling answers how many notifications were ever queued for the session and cancels none. *)
Lemma cancel_keeps_queues session_id n m tasks :
  locks_free m → session_tasks_ m !! session_id = Some tasks →
  ∃ m', cancel_session_notifications session_id (World n m) = (Ok (Z.of_nat (length tasks)), World n m') ∧
    task_queue_ m' = task_queue_ m ∧ retry_queue_ m' = retry_queue_ m.
Proof.
  intros (Hq & Hs & Ht) E. destruct m as [c q rq run st ss qm sm tm cb jd]; simpl in *; subst.
  unfold cancel_session_notifications, with_lock. run_steps. simpl. rewrite E. by eexists.
Qed.
End Specification.

(** ** The theorems at concrete inputs *)

(** The first of the earliest times. *)
Fixpoint first_earliest (ts : list Z) : nat :=
  match ts with
  | [] => O
  | t :: ts =>
    match ts !! first_earliest ts with
    | Some t' => if t <=? t' then O else S (first_earliest ts)
    | None => O
    end
  end.

Lemma first_earliest_spec ts t :
  t ∈ ts → ∃ t', ts !! first_earliest ts = Some t' ∧ t' <= t.
Proof.
  revert t. induction ts as [|t0 ts IH]; intros t Ht; [by apply elem_of_nil in Ht|]. simpl.
  destruct (ts !! first_earliest ts) as [t1|] eqn:E.
  - destruct (Z.leb_spec t0 t1).
    + exists t0. split; [done|]. apply elem_of_cons in Ht as [->|Ht]; [lia|].
      destruct (IH _ Ht) as (t' & Et & ?). simplify_eq. lia.
    + exists t1. split; [done|]. apply elem_of_cons in Ht as [->|Ht]; [lia|].
      destruct (IH _ Ht) as (t' & Et & ?). simplify_eq. lia.
  - exists t0. split; [done|]. apply elem_of_cons in Ht as [->|Ht]; [lia|].
    destruct (IH _ Ht) as (t' & Et & ?). congruence.
Qed.

Section Witnesses.
#[local] Existing Instance tick_clock.
#[local] Existing Instance tree_json.

#[local] Instance example_json_ok : JsonDefined.
Proof. by apply tree_json_defined. Qed.

#[local] Instance example_library : QodLibrary :=
  {| CloudEvent := tree; create_qos_status_changed_event := λ id _ _ _, TObject [("sessionId", TString id)];
     device_is_empty := λ _, false |}.

#[local] Instance example_data : EventData := λ event : tree, event.

#[local] Instance example_environment : RetryEnvironment :=
  {| jitter := λ _, 1%Q; jitter_bounds := λ _, conj (Qle_bool_imp_le (3 # 4) 1 eq_refl) (Qle_bool_imp_le 1 (5 # 4) eq_refl);
     top := first_earliest; top_earliest := first_earliest_spec |}.

Definition example_status : tree := TObject [("sessionId", TString "session-1")].

Definition example_task : NotificationTask :=
  mkNotificationTask example_status "https://example.com/hook" None 0 0 "session-1" None.

(** A running manager with one notification. *)
Definition example_manager : QodNotificationManager :=
  Eval vm_compute in
    obj ((start ;; deliver (example_status : CloudEvent) "https://example.com/hook" None)
           (World 0 (QodNotificationManager_new NotificationConfig_default))).2.

(** The third retry: four seconds. *)
Lemma retry_delay_bounds_witness :
  0 <= base_delay_of (config_ example_manager) 3 <= 30 ∧
  base_delay_of (config_ example_manager) 3 = 4.
Proof.
  split; [|vm_compute; reflexivity].
  refine (proj1 (retry_delay_bounds
    (mkNotificationTask example_status "" None 3 0 "" None) 0 example_manager _)).
  split; [vm_compute; discriminate|]. split; [vm_compute; discriminate|].
  apply Qle_bool_imp_le. vm_compute. reflexivity.
Defined.

(** A worker takes the notification and sends it: three of four attempts are left. *)
Lemma sends_bounded_witness :
  ∃ s', works send_notification (World 4 example_manager, []) (0 + (1 + 0)) s' ∧ remaining s' = 3 ∧
        (0 <= remaining s' ∧ 0 + (1 + 0) + remaining s' <= remaining (World 4 example_manager, [])).
Proof.
  assert (Hw : ∃ s', works send_notification (World 4 example_manager, []) (0 + (1 + 0)) s' ∧ remaining s' = 3).
  { eexists. split.
    - eapply works_more; [eapply work_take; vm_compute; reflexivity|].
      eapply works_more; [eapply (work_send _ _ _ []); vm_compute; reflexivity|].
      apply works_none.
    - vm_compute. reflexivity. }
  destruct Hw as (s' & Hw & Hr). exists s'. split; [exact Hw|]. split; [exact Hr|].
  exact (sends_bounded send_notification (World 4 example_manager, []) _ s' ltac:(by split_and!) Hw).
Defined.

(** The client of this build never delivers, and the worker is done with the notification all the same. *)
Lemma worker_empties_queues_witness : empties send_notification (World 4 example_manager).
Proof.
  apply (worker_empties_queues send_notification 4 example_manager).
  - intros t. exists (Z.to_nat t). intros k Hk. unfold clock, tick_clock. lia.
  - by split_and!.
  - reflexivity.
Defined.

End Witnesses.
