(* ===== verification/PccRuleManager.v ===== *)
(** * [PccRuleManager]: the rules for policy and charging control

    [southbound/pcf_handler/include/pcc_rule_manager.h] and
    [southbound/pcf_handler/src/pcc_rule_manager.cpp].  A rule is read from a media component, from the
    data of an application session or from the format of the PCF; it is cached under its id.  A rule
    returned as a shared pointer is a copy of the cached one. *)

From S2P Require Import Prelude Effects CxxString Json Comms.

Record PccRule := mkPccRule {
  rule_id : string;
  flow_direction : string;
  rule_flow_descriptions : list string;
  qos_reference : Z;
  guaranteed_bandwidth_ul : Z;
  guaranteed_bandwidth_dl : Z;
  maximum_bandwidth_ul : Z;
  maximum_bandwidth_dl : Z;
  additional_params : gmap string string }.

#[global] Instance PccRule_settable : Settable PccRule := λ r,
  mkPccRule (rule_id r) (flow_direction r) (rule_flow_descriptions r) (qos_reference r)
    (guaranteed_bandwidth_ul r) (guaranteed_bandwidth_dl r) (maximum_bandwidth_ul r)
    (maximum_bandwidth_dl r) (additional_params r).

(** [std::make_shared<PccRule>()]: the integers are zero. *)
Definition PccRule_default : PccRule := mkPccRule "" "" [] 0 0 0 0 0 ∅.

(** The digits drawn for rule ids. *)
Class RuleEnvironment := {
  rule_draw : nat → nat;
  rule_draw_bound : ∀ n, (rule_draw n < 16)%nat }.

Record PccRuleManager := mkPccRuleManager {
  rules_cache_ : gmap string PccRule;
  rules_cache_mutex_ : lock_state;
  rule_draws : nat                             (* so far *) }.

#[global] Instance PccRuleManager_settable : Settable PccRuleManager := λ m,
  mkPccRuleManager (rules_cache_ m) (rules_cache_mutex_ m) (rule_draws m).

Definition PccRuleManager_new : PccRuleManager := mkPccRuleManager ∅ Unlocked 0.

Section Definitions.
Context `{Json} `{IterationOrder} `{!RuleEnvironment}.
Implicit Types (rule : PccRule) (m : PccRuleManager).

Definition generate_rule_id : M PccRuleManager string :=
  m ← get;
  modify (λ m, m <| rule_draws ::= plus 8 |>) ;;
  mret ("pcc-rule-" +:+ hex_digits rule_draw 8 (rule_draws m)).

Definition validate_rule rule : bool :=
  negb (empty (rule_id rule)) &&
  (String.eqb (flow_direction rule) "uplink" || String.eqb (flow_direction rule) "downlink" ||
   String.eqb (flow_direction rule) "bidirectional") &&
  negb ((qos_reference rule <? 1) || (79 <? qos_reference rule)) &&
  negb (guaranteed_bandwidth_ul rule <? 0) &&
  negb (guaranteed_bandwidth_dl rule <? 0) &&
  negb (maximum_bandwidth_ul rule <? 0) &&
  negb (maximum_bandwidth_dl rule <? 0) &&
  negb ((0 <? maximum_bandwidth_ul rule) &&
        (maximum_bandwidth_ul rule <? guaranteed_bandwidth_ul rule)) &&
  negb ((0 <? maximum_bandwidth_dl rule) &&
        (maximum_bandwidth_dl rule <? guaranteed_bandwidth_dl rule)).

(** [rules_cache_[rule->rule_id] = *rule], under the lock. *)
Definition cache_rule rule : M PccRuleManager () :=
  with_lock rules_cache_mutex_ Exclusive
    (modify (λ m, m <| rules_cache_ ::= <[rule_id rule := rule]> |>)).

(** ** Reading *)

(** [f(j[k])] at an integer, when [j] has the member. *)
Definition read_int (k : string) (j : json) (f : Z → PccRule → PccRule) : M PccRule () :=
  with_member k j (λ v, z ← lift (get_int v); modify (f z)).

(** [rule->flow_descriptions.push_back(desc)] *)
Definition push_description (desc : json) : M PccRule () :=
  s ← lift (get_string desc);
  modify (λ r, r <| rule_flow_descriptions ::= λ l, l ++ [s] |>).

(** [for (desc : j[k]) push_back(desc)], when [j] has the member and it is an array. *)
Definition read_descriptions (k : string) (j : json) : M PccRule () :=
  with_member k j (λ v, when (is_array v) (for_each (jelements v) push_description)).

(** What a rule takes from a media component. *)
Definition read_media_component (media_component : json) : M PccRule () :=
  with_member "fDescs" media_component (λ v,
    when (is_array v) (for_each (jelements v) (read_descriptions "flowDescriptions"))) ;;
  with_member "medQoS" media_component (λ qos,
    read_int "maxbrUl" qos (λ z r, r <| maximum_bandwidth_ul := z |>) ;;
    read_int "maxbrDl" qos (λ z r, r <| maximum_bandwidth_dl := z |>) ;;
    read_int "minbrUl" qos (λ z r, r <| guaranteed_bandwidth_ul := z |>) ;;
    read_int "minbrDl" qos (λ z r, r <| guaranteed_bandwidth_dl := z |>)) ;;
  modify (λ r, r <| qos_reference := 9 |>).

(** What a rule takes from the data of an application session. *)
Definition read_app_session (app_session_data : json) : M PccRule () :=
  with_member "flow_direction" app_session_data (λ v,
    s ← lift (get_string v); modify (λ r, r <| flow_direction := s |>)) ;;
  read_descriptions "flow_descriptions" app_session_data ;;
  member_or "qos_reference" app_session_data
    (λ v, z ← lift (get_int v); modify (λ r, r <| qos_reference := z |>))
    (modify (λ r, r <| qos_reference := 9 |>)) ;;
  read_int "guaranteed_bandwidth_ul" app_session_data (λ z r, r <| guaranteed_bandwidth_ul := z |>) ;;
  read_int "guaranteed_bandwidth_dl" app_session_data (λ z r, r <| guaranteed_bandwidth_dl := z |>) ;;
  read_int "maximum_bandwidth_ul" app_session_data (λ z r, r <| maximum_bandwidth_ul := z |>) ;;
  read_int "maximum_bandwidth_dl" app_session_data (λ z r, r <| maximum_bandwidth_dl := z |>).

(** A rule with a new id, read, checked and cached; a null pointer if it is invalid or an exception
    is thrown. *)
Definition create_rule (read : M PccRule ()) : M PccRuleManager (option PccRule) :=
  try_catch
    (id ← generate_rule_id;
     '(_, rule) ← local (PccRule_default <| rule_id := id |> <| flow_direction := "bidirectional" |>) read;
     if negb (validate_rule rule) then mret None
     else cache_rule rule ;; mret (Some rule))
    (λ _, mret None).

Definition create_rule_from_media_component (media_component : json) :
    M PccRuleManager (option PccRule) :=
  create_rule (read_media_component media_component).

Definition create_rule_from_app_session (app_session_data : json) :
    M PccRuleManager (option PccRule) :=
  create_rule (read_app_session app_session_data).

(** ** The format of the PCF *)

(** [std::to_string(z) + " Kbps"] *)
Definition kbps (z : Z) : string := pretty z +:+ " Kbps".

(** [j[up] = ..., j[down] = ...], when one of the rates is positive. *)
Definition assign_rates (up down : string) (ul dl : Z) (j : json) : result json :=
  if (0 <? ul) || (0 <? dl) then
    j ← jassign up (jstring (kbps ul)) j;
    jassign down (jstring (kbps dl)) j
  else mret j.

Definition convert_rule_to_pcf_format rule : result json :=
  pcf_rule ← jassign "pccRuleId" (jstring (rule_id rule)) jnull;
  pcf_rule ← match rule_flow_descriptions rule with
             | [] => mret pcf_rule
             | descs =>
               jassign "flowInfos"
                 (jarray ((λ desc, jobject [("flowDescription", jstring desc)]) <$> descs)) pcf_rule
             end;
  qos_data ← jassign "5qi" (jint (qos_reference rule)) jnull;
  qos_data ← assign_rates "gbrUl" "gbrDl" (guaranteed_bandwidth_ul rule)
               (guaranteed_bandwidth_dl rule) qos_data;
  qos_data ← assign_rates "mbrUl" "mbrDl" (maximum_bandwidth_ul rule)
               (maximum_bandwidth_dl rule) qos_data;
  pcf_rule ← jassign "qosData" qos_data pcf_rule;
  assign_members (prod_map (λ key, key) jstring <$> visit (additional_params rule)) pcf_rule.

(** The number before the unit, or before anything that is no digit; zero if there is none. *)
Definition parse_bandwidth (bw_str : string) : Z :=
  let pos := match find " Kbps" bw_str with Some pos => Some pos | None => find " kbps" bw_str end in
  match stoi (match pos with Some pos => substr_n 0 pos bw_str | None => bw_str end) with
  | Ok z => z
  | _ => 0
  end.

(** [f(parse_bandwidth(j[k]))], when [j] has the member. *)
Definition read_bandwidth (k : string) (j : json) (f : Z → PccRule → PccRule) : M PccRule () :=
  with_member k j (λ v, s ← lift (get_string v); modify (f (parse_bandwidth s))).

Definition read_pcf_rule (pcf_rule : json) : M PccRule () :=
  with_member "flowInfos" pcf_rule (λ v,
    when (is_array v)
      (for_each (jelements v) (λ flow_info, with_member "flowDescription" flow_info push_description))) ;;
  with_member "qosData" pcf_rule (λ qos_data,
    read_int "5qi" qos_data (λ z r, r <| qos_reference := z |>) ;;
    read_bandwidth "gbrUl" qos_data (λ z r, r <| guaranteed_bandwidth_ul := z |>) ;;
    read_bandwidth "gbrDl" qos_data (λ z r, r <| guaranteed_bandwidth_dl := z |>) ;;
    read_bandwidth "mbrUl" qos_data (λ z r, r <| maximum_bandwidth_ul := z |>) ;;
    read_bandwidth "mbrDl" qos_data (λ z r, r <| maximum_bandwidth_dl := z |>)) ;;
  modify (λ r, r <| flow_direction := "bidirectional" |>).

(** The rule is cached without validation. *)
Definition parse_rule_from_pcf_format (pcf_rule : json) : M PccRuleManager (option PccRule) :=
  try_catch
    (id ← (if jcontains "pccRuleId" pcf_rule
           then v ← lift (jindex "pccRuleId" pcf_rule); lift (get_string v)
           else generate_rule_id);
     '(_, rule) ← local (PccRule_default <| rule_id := id |>) (read_pcf_rule pcf_rule);
     cache_rule rule ;;
     mret (Some rule))
    (λ _, mret None).
End Definitions.
