(* ===== verification/PccSpec.v ===== *)
(** * What [PccRuleManager] promises

    Rules survive the format of the PCF, and the cache over all sequences of calls. *)

From S2P Require Import Prelude Effects CxxString Json Comms PccRuleManager.

Section Specification.
Context `{JsonLaws} `{IterationOrder} `{!RuleEnvironment}.
Implicit Types (rule : PccRule) (m : PccRuleManager).

(** ** The format of the PCF *)

Definition reserved_members : list string := ["pccRuleId"; "flowInfos"; "qosData"].

(** Rates in the range of [int], none negative. *)
Definition rates_fit rule : Prop :=
  0 <= guaranteed_bandwidth_ul rule <= INT_MAX ∧ 0 <= guaranteed_bandwidth_dl rule <= INT_MAX ∧
  0 <= maximum_bandwidth_ul rule <= INT_MAX ∧ 0 <= maximum_bandwidth_dl rule <= INT_MAX.

Lemma parse_bandwidth_kbps z : 0 <= z <= INT_MAX → parse_bandwidth (kbps z) = z.
Proof.
  intros Hz. destruct (pretty_digits z ltac:(lia)) as (_ & Hd & _). unfold parse_bandwidth, kbps.
  rewrite find_after_digits, substr_n_app by done. by rewrite stoi_pretty.
Qed.

(** The members for a pair of rates. *)
Definition rate_members (up down : string) (ul dl : Z) (mp : gmap string json) : gmap string json :=
  if (0 <? ul) || (0 <? dl)
  then <[down := jstring (kbps dl)]> (<[up := jstring (kbps ul)]> mp) else mp.

Lemma assign_rates_builds up down ul dl j mp :
  view_of j = VObject mp → builds (assign_rates up down ul dl j) (rate_members up down ul dl mp).
Proof.
  intros Hj. unfold assign_rates, rate_members. apply builds_if; [|by apply builds_ret].
  eapply builds_bind; [by apply builds_assign|]. intros j' Hj'. by apply builds_assign.
Qed.

Definition qos_members rule : gmap string json :=
  rate_members "mbrUl" "mbrDl" (maximum_bandwidth_ul rule) (maximum_bandwidth_dl rule)
    (rate_members "gbrUl" "gbrDl" (guaranteed_bandwidth_ul rule) (guaranteed_bandwidth_dl rule)
       {["5qi" := jint (qos_reference rule)]}).

Definition flow_infos rule : json :=
  jarray ((λ desc, jobject [("flowDescription", jstring desc)]) <$> rule_flow_descriptions rule).

Definition id_members rule : gmap string json :=
  let id := {["pccRuleId" := jstring (rule_id rule)]} in
  if bool_decide (rule_flow_descriptions rule = []) then id else <["flowInfos" := flow_infos rule]> id.

(** The reserved members of a converted rule. *)
Definition converted rule (j : json) : Prop :=
  ∃ mp qos, view_of j = VObject mp ∧
    mp !! "pccRuleId" = Some (jstring (rule_id rule)) ∧
    mp !! "flowInfos" = (if bool_decide (rule_flow_descriptions rule = []) then None
                         else Some (flow_infos rule)) ∧
    mp !! "qosData" = Some qos ∧ view_of qos = VObject (qos_members rule).

Lemma convert_gives rule :
  (∀ k, is_Some (additional_params rule !! k) → k ∉ reserved_members) →
  gives (convert_rule_to_pcf_format rule) (converted rule).
Proof.
  intros Hparams. unfold convert_rule_to_pcf_format.
  eapply gives_bind; [apply builds_null|]. intros j1 Hj1.
  apply (gives_bind _ (λ j, view_of j = VObject (id_members rule))).
  { unfold id_members, flow_infos. destruct (rule_flow_descriptions rule) as [|d ds]; [by exists j1|].
    by apply builds_assign. }
  intros j2 Hj2. eapply gives_bind; [apply builds_null|]. intros q1 Hq1.
  eapply gives_bind; [eapply assign_rates_builds, Hq1|]. intros q2 Hq2.
  eapply gives_bind; [eapply assign_rates_builds, Hq2|]. intros q3 Hq3.
  eapply gives_bind; [eapply builds_assign, Hj2|]. intros j3 Hj3.
  destruct (builds_members (prod_map (λ key, key) jstring <$> visit (additional_params rule)) j3 _ Hj3)
    as (mp & Hmp & Hk).
  assert (Hk' : ∀ k, k ∈ reserved_members → mp !! k = <["qosData" := q3]> (id_members rule) !! k).
  { intros k Hin. rewrite Hk, assigned_not; [done|].
    rewrite <- list_fmap_compose. intros ([k' v] & -> & Hv)%list_elem_of_fmap.
    rewrite visit_perm in Hv. apply elem_of_map_to_list in Hv. by apply (Hparams k'); [exists v|]. }
  eapply gives_mono; [exact Hmp|]. intros j Hj. exists mp, q3. split; [exact Hj|].
  unfold id_members in *.
  rewrite !Hk' by (unfold reserved_members; set_solver). by case_bool_decide.
Qed.

(** ** Reading a converted rule *)

Lemma read_int_some k j mp z f rule n :
  view_of j = VObject mp → mp !! k = Some (jint z) →
  read_int k j f (World n rule) = (Ok (), World n (f z rule)).
Proof.
  intros Hj Hk. unfold read_int. rewrite (with_member_some _ _ _ _ _ _ Hj Hk).
  by rewrite (bind_run _ _ _ z (World n rule)) by (unfold lift; by rewrite (get_int_view _ _ (view_int z))).
Qed.

Lemma read_bandwidth_run k j mp z f rule n :
  view_of j = VObject mp → 0 <= z <= INT_MAX →
  mp !! k = Some (jstring (kbps z)) ∨ mp !! k = None ∧ f z rule = rule →
  read_bandwidth k j f (World n rule) = (Ok (), World n (f z rule)).
Proof.
  intros Hj Hz [Hk|[Hk Hf]]; unfold read_bandwidth.
  - rewrite (with_member_some _ _ _ _ _ _ Hj Hk).
    rewrite (bind_run _ _ _ (kbps z) (World n rule))
      by (unfold lift; by rewrite (get_string_view _ _ (view_string _))).
    by rewrite parse_bandwidth_kbps.
  - by rewrite (with_member_none _ _ _ _ _ Hj Hk), Hf.
Qed.

(** A pair of rates is both written, or both zero. *)
Lemma rate_members_pair up down ul dl mp :
  up ≠ down → mp !! up = None → mp !! down = None → 0 <= ul → 0 <= dl →
  let mp' := rate_members up down ul dl mp in
  (mp' !! up = Some (jstring (kbps ul)) ∧ mp' !! down = Some (jstring (kbps dl))) ∨
  (mp' !! up = None ∧ mp' !! down = None ∧ ul = 0 ∧ dl = 0).
Proof.
  intros Hne Hup Hdown Hul Hdl. unfold rate_members.
  destruct (Z.ltb_spec 0 ul), (Z.ltb_spec 0 dl); simpl.
  1-3: left; split; [by rewrite lookup_insert_ne, lookup_insert_eq|by rewrite lookup_insert_eq].
  right. split_and!; [done|done|lia|lia].
Qed.

Lemma rate_members_other up down ul dl mp k :
  k ≠ up → k ≠ down → rate_members up down ul dl mp !! k = mp !! k.
Proof. intros. unfold rate_members. destruct (_ || _); [|done]. by rewrite !lookup_insert_ne. Qed.

Lemma read_flow_infos descs rule n :
  for_each ((λ desc, jobject [("flowDescription", jstring desc)]) <$> descs)
    (λ flow_info, with_member "flowDescription" flow_info push_description) (World n rule) =
  (Ok (), World n (rule <| rule_flow_descriptions ::= λ l, l ++ descs |>)).
Proof.
  revert rule. induction descs as [|desc descs IH]; intros rule; simpl.
  - destruct rule. simpl. unfold upd. simpl. by rewrite app_nil_r.
  - rewrite (bind_run _ _ _ () (World n (rule <| rule_flow_descriptions ::= λ l, l ++ [desc] |>))).
    + rewrite IH. destruct rule. simpl. by rewrite <- app_assoc.
    + rewrite (with_member_some _ _ _ (jstring desc) _ _ (view_object _)) by reflexivity.
      unfold push_description, lift. by rewrite (bind_run _ _ _ desc (World n rule))
        by (by rewrite (get_string_view _ _ (view_string _))).
Qed.

(** The rule that is left. *)
Definition without_extras rule : PccRule :=
  rule <| flow_direction := "bidirectional" |> <| additional_params := ∅ |>.

Lemma read_converted rule j n :
  rates_fit rule → converted rule j →
  read_pcf_rule j (World n (PccRule_default <| rule_id := rule_id rule |>)) =
    (Ok (), World n (without_extras rule)).
Proof.
  intros (Hgu & Hgd & Hmu & Hmd) (mp & qos & Hj & _ & Hflow & Hqos & Hview). unfold read_pcf_rule.
  destruct rule as [id dir descs ref gul gdl mul mdl params]; simpl in *.
  set (state := λ ref gul gdl mul mdl, World n (mkPccRule id "" descs ref gul gdl mul mdl ∅)).
  assert (H5qi : qos_members (mkPccRule id dir descs ref gul gdl mul mdl params) !! "5qi" = Some (jint ref)).
  { unfold qos_members. rewrite !rate_members_other by done. apply lookup_singleton_eq. }
  assert (Hnone : ∀ k, k ≠ "5qi" → ({["5qi" := jint ref]} : gmap string json) !! k = None)
    by (intros; by apply lookup_singleton_ne).
  pose proof (rate_members_pair "gbrUl" "gbrDl" gul gdl {["5qi" := jint ref]}) as Hgbr.
  specialize (Hgbr ltac:(done) (Hnone "gbrUl" ltac:(done)) (Hnone "gbrDl" ltac:(done))
    ltac:(lia) ltac:(lia)).
  pose proof (rate_members_pair "mbrUl" "mbrDl" mul mdl
    (rate_members "gbrUl" "gbrDl" gul gdl {["5qi" := jint ref]})) as Hmbr.
  rewrite !rate_members_other in Hmbr by done.
  specialize (Hmbr ltac:(done) (Hnone "mbrUl" ltac:(done)) (Hnone "mbrDl" ltac:(done))
    ltac:(lia) ltac:(lia)).
  rewrite (bind_run _ _ _ () (state 0 0 0 0 0)).
  - rewrite (bind_run _ _ _ () (state ref gul gdl mul mdl)); [done|].
    rewrite (with_member_some _ _ _ _ _ _ Hj Hqos).
    rewrite (bind_run _ _ _ () (state ref 0 0 0 0)) by (exact (read_int_some _ _ _ ref _ _ _ Hview H5qi)).
    unfold qos_members in Hview. simpl in Hview.
    rewrite (bind_run _ _ _ () (state ref gul 0 0 0)).
    2: { refine (read_bandwidth_run _ _ _ gul _ _ _ Hview Hgu _). rewrite rate_members_other by done.
         destruct Hgbr as [[-> _]|(-> & _ & -> & _)]; auto. }
    rewrite (bind_run _ _ _ () (state ref gul gdl 0 0)).
    2: { refine (read_bandwidth_run _ _ _ gdl _ _ _ Hview Hgd _). rewrite rate_members_other by done.
         destruct Hgbr as [[_ ->]|(_ & -> & _ & ->)]; auto. }
    rewrite (bind_run _ _ _ () (state ref gul gdl mul 0)).
    2: { refine (read_bandwidth_run _ _ _ mul _ _ _ Hview Hmu _).
         destruct Hmbr as [[-> _]|(-> & _ & -> & _)]; auto. }
    refine (read_bandwidth_run _ _ _ mdl _ _ _ Hview Hmd _).
    destruct Hmbr as [[_ ->]|(_ & -> & _ & ->)]; auto.
  - case_bool_decide as Hd; [by unfold state; rewrite (with_member_none _ _ _ _ _ Hj Hflow), Hd|].
    rewrite (with_member_some _ _ _ _ _ _ Hj Hflow). unfold flow_infos.
    rewrite array_view, view_array, (elements_view _ _ (view_array _)). apply read_flow_infos.
Qed.

(** C35: a rule survives the format of the PCF.  A rule whose rates fit an [int] and whose additional
    parameters do not take the names the format uses is converted, and parsing the result gives the
    same id, flow descriptions, 5QI and rates, caches that rule under its id and changes nothing
    else; the direction comes back as bidirectional and the additional parameters are lost. *)
Theorem pcc_rule_roundtrip rule n m :
  rates_fit rule → (∀ k, is_Some (additional_params rule !! k) → k ∉ reserved_members) →
  rules_cache_mutex_ m = Unlocked →
  ∃ j, convert_rule_to_pcf_format rule = Ok j ∧
    parse_rule_from_pcf_format j (World n m) =
      (Ok (Some (without_extras rule)),
       World n (m <| rules_cache_ ::= <[rule_id rule := without_extras rule]> |>)).
Proof.
  intros Hfit Hparams Hmutex. destruct (convert_gives rule Hparams) as (j & E & Hj). exists j. split; [done|].
  pose proof (read_converted rule j n Hfit Hj) as Hread. destruct Hj as (mp & qos & Hj & Hid & _).
  unfold parse_rule_from_pcf_format, try_catch.
  rewrite (contains_some _ _ _ _ Hj Hid), (index_view _ _ _ _ Hj Hid).
  rewrite (bind_run _ _ _ (rule_id rule) (World n m))
    by (unfold mbind, M_bind, lift; by rewrite (get_string_view _ _ (view_string _))).
  rewrite (bind_run _ _ _ ((), without_extras rule) (World n m)) by (unfold local; cbn [ticks]; by rewrite Hread).
  rewrite (bind_run _ _ _ () (World n (m <| rules_cache_ ::= <[rule_id rule := without_extras rule]> |>))); [done|].
  destruct m; simpl in *; subst. done.
Qed.
End Specification.

(** ** The theorem at a concrete rule *)

Section Witnesses.
#[local] Existing Instances tree_json tree_order.

#[local] Instance example_draws : RuleEnvironment :=
  {| rule_draw := λ n, (n mod 16)%nat;
     rule_draw_bound := λ n, Nat.mod_upper_bound n 16 (Nat.neq_succ_0 15) |}.

Definition example_rule : PccRule :=
  mkPccRule "pcc-rule-1" "uplink" ["permit out ip from 10.0.0.1 to any"] 9 0 0 2000 0
    {["dnn" := "internet"]}.

(** A rule without guaranteed rates and with an uplink maximum only. *)
Lemma pcc_rule_roundtrip_witness :
  validate_rule example_rule = true ∧
  ∃ j, convert_rule_to_pcf_format example_rule = Ok j ∧
    parse_rule_from_pcf_format j (World 0 PccRuleManager_new) =
      (Ok (Some (without_extras example_rule)),
       World 0 (PccRuleManager_new <| rules_cache_ ::=
                  <[rule_id example_rule := without_extras example_rule]> |>)).
Proof.
  split; [vm_compute; reflexivity|]. apply (pcc_rule_roundtrip example_rule 0 PccRuleManager_new).
  - unfold rates_fit, INT_MAX. simpl. lia.
  - intros k [v Hk]. change (({["dnn" := "internet"]} : gmap string string) !! k = Some v) in Hk.
    apply lookup_singleton_Some in Hk as [<- _]. unfold reserved_members. set_solver.
  - reflexivity.
Defined.
End Witnesses.
