(* ===== verification/PcfHelpers.v ===== *)
(** * Validation of requests to the PCF

    [southbound/pcf_handler/include/helpers.h] and [southbound/pcf_handler/src/helpers.cpp].  A
    validator collects errors in a [ValidationResult], a class of the common library; here it is a
    function on the result collected so far ([Check]), and the C++ function is [run] of it.
    [result.merge(f(j))] is [merging]. *)

From S2P Require Import Prelude Effects CxxString Regex Json.

(** [af::utils::ValidationResult] *)
Class ValidationLibrary := {
  ValidationResult : Type;
  ValidationResult_new : ValidationResult;
  result_add_error : string → ValidationResult → ValidationResult;
  result_merge : ValidationResult → ValidationResult → ValidationResult;
  is_valid : ValidationResult → bool;
  (** A result is valid until an error is added, directly or with another result. *)
  is_valid_new : is_valid ValidationResult_new = true;
  is_valid_add_error e r : is_valid (result_add_error e r) = false;
  is_valid_merge r r' : is_valid (result_merge r r') = is_valid r && is_valid r' }.

(** ** Formats *)

Definition any_of_strings (l : list string) (s : string) : bool := existsb (String.eqb s) l.

(** A character in either case. *)
Definition lower (c : ascii) : ascii :=
  if in_range "A" "Z" c then ascii_of_nat (nat_of_ascii c + 32) else c.
Fixpoint lit_icase (s : string) : regex :=
  match s with
  | EmptyString => Eps
  | String c s => Cat (Chr (λ d, Ascii.eqb (lower c) (lower d))) (lit_icase s)
  end.

Definition plus_of (r : regex) : regex := Cat r (Star r).
Definition digit : regex := Chr isdigit.
Definition hex_digit : regex :=
  Chr (λ c, in_range "0" "9" c || in_range "a" "f" c || in_range "A" "F" c).
(** One after the other. *)
Definition seq_of (l : list regex) : regex := foldr Cat Eps l.
(** One of the texts. *)
Definition one_of (l : list string) : regex := foldr (λ s r, Alt (lit s) r) Empty l.

(** [(https?|ftp)://[^\s/$.?#].[^\s]*], the period being any character but a line end. *)
Definition url_pattern : regex :=
  let first c := negb (isspace c || existsb (Ascii.eqb c) ["/"; "$"; "."; "?"; "#"]%char) in
  let any c := negb (Ascii.eqb c "010" || Ascii.eqb c "013") in
  seq_of [Alt (Cat (lit_icase "http") (opt (lit_icase "s"))) (lit_icase "ftp"); lit "://";
          Chr first; Chr any; Star (Chr (λ c, negb (isspace c)))].

Definition is_valid_url (url : string) : bool := regex_match url_pattern url.

(** [\d+(\.\d+)? (bps|Kbps|Mbps|Gbps|Tbps)] *)
Definition bitrate_pattern : regex :=
  seq_of [plus_of digit; opt (Cat (chr ".") (plus_of digit)); chr " ";
          one_of ["bps"; "Kbps"; "Mbps"; "Gbps"; "Tbps"]].

Definition is_valid_bitrate (bitrate : string) : bool := regex_match bitrate_pattern bitrate.

(** [\d{4}-\d{2}-\d{2}T\d{2}:\d{2}:\d{2}(\.\d+)?(Z|[+-]\d{2}:\d{2})] *)
Definition datetime_pattern : regex :=
  let two := rep 2 digit in
  seq_of [rep 4 digit; chr "-"; two; chr "-"; two; chr "T"; two; chr ":"; two; chr ":"; two;
          opt (Cat (chr ".") (plus_of digit));
          Alt (chr "Z") (seq_of [Alt (chr "+") (chr "-"); two; chr ":"; two])].

Definition is_valid_datetime (datetime : string) : bool := regex_match datetime_pattern datetime.

Definition uuid_pattern : regex :=
  seq_of [rep 8 hex_digit; chr "-"; rep 4 hex_digit; chr "-"; rep 4 hex_digit; chr "-";
          rep 4 hex_digit; chr "-"; rep 12 hex_digit].

Definition is_valid_uuid (uuid : string) : bool := regex_match uuid_pattern uuid.

(** [25[0-5]|2[0-4][0-9]|[01]?[0-9][0-9]?] *)
Definition lenient_octet : regex :=
  Alt (Cat (lit "25") (range "0" "5"))
 (Alt (Cat (chr "2") (Cat (range "0" "4") (range "0" "9")))
      (Cat (opt (Alt (chr "0") (chr "1"))) (Cat (range "0" "9") (opt (range "0" "9"))))).

Definition pcf_ipv4_pattern : regex := Cat (rep 3 (Cat lenient_octet (chr "."))) lenient_octet.

Definition is_valid_ipv4 (ipv4 : string) : bool := regex_match pcf_ipv4_pattern ipv4.

(** [(h{1,4}:){7}h{1,4}|::1|::|(h{1,4}:)*::h{1,4}(:h{1,4})*] *)
Definition pcf_ipv6_pattern : regex :=
  let group := rep_between 1 4 hex_digit in
  Alt (Cat (rep 7 (Cat group (chr ":"))) group)
 (Alt (lit "::1")
 (Alt (lit "::")
      (Cat (Star (Cat group (chr ":"))) (Cat (lit "::") (Cat group (Star (Cat (chr ":") group))))))).

Definition is_valid_ipv6 (ipv6 : string) : bool := regex_match pcf_ipv6_pattern ipv6.

Definition mac_addr48_pattern : regex :=
  Cat (rep 5 (Cat (rep 2 hex_digit) (chr ":"))) (rep 2 hex_digit).

Definition is_valid_mac_addr48 (mac : string) : bool := regex_match mac_addr48_pattern mac.

(** ** Enumerations *)

Definition is_valid_media_type : string → bool :=
  any_of_strings ["AUDIO"; "VIDEO"; "DATA"; "APPLICATION"; "CONTROL"; "TEXT"; "MESSAGE"; "OTHER"].

Definition is_valid_af_event : string → bool :=
  any_of_strings
    ["ACCESS_TYPE_CHANGE"; "ANI_REPORT"; "APP_DETECTION";
     "BAT_OFFSET_INFO"; "CHARGING_CORRELATION"; "CN_HEALTH_MONITOR";
     "EPS_FALLBACK"; "EXTRA_UE_ADDR";
     "FAILED_QOS_UPDATE"; "FAILED_RESOURCES_ALLOCATION";
     "L4S_SUPP";
     "OUT_OF_CREDIT";
     "PACK_DEL_VAR"; "PDU_SESSION_STATUS"; "PLMN_CHG";
     "QOS_MON_CAP_REPO"; "QOS_MONITORING"; "QOS_NOTIF";
     "RAN_NAS_CAUSE"; "RATE_LIMIT_INFO_REPO"; "REALLOCATION_OF_CREDIT";
     "RT_DELAY_TWO_QOS_FLOWS";
     "SAT_CATEGORY_CHG"; "SUCCESSFUL_QOS_UPDATE"; "SUCCESSFUL_RESOURCES_ALLOCATION";
     "TSN_BRIDGE_INFO";
     "UE_REACH_STATUS_CH"; "UP_PATH_CHG_FAILURE"; "UP_PATH_CHANGE";
     "URSP_ENF_INFO"; "USAGE_REPORT"].

Definition is_valid_af_notif_method : string → bool :=
  any_of_strings ["EVENT_DETECTION"; "ONE_TIME"; "PERIODIC"; "PDU_SESSION_RELEASE"].

Definition is_valid_flow_status : string → bool :=
  any_of_strings ["ENABLED-UPLINK"; "ENABLED-DOWNLINK"; "ENABLED"; "DISABLED"; "REMOVED"].

Definition is_valid_flow_usage : string → bool :=
  any_of_strings ["NO_INFO"; "RTCP"; "AF_SIGNALLING"].

Definition is_valid_reservation_priority : string → bool :=
  any_of_strings
    ["PRIO_1"; "PRIO_2"; "PRIO_3"; "PRIO_4"; "PRIO_5"; "PRIO_6"; "PRIO_7"; "PRIO_8";
     "PRIO_9"; "PRIO_10"; "PRIO_11"; "PRIO_12"; "PRIO_13"; "PRIO_14"; "PRIO_15"; "PRIO_16"].

Definition is_valid_sponsoring_status : string → bool :=
  any_of_strings ["SPONSOR_DISABLED"; "SPONSOR_ENABLED"].

Definition is_valid_service_info_status : string → bool := any_of_strings ["FINAL"; "PRELIMINARY"].

Definition is_valid_termination_cause : string → bool :=
  any_of_strings
    ["ALL_SDF_DEACTIVATION"; "INSUFFICIENT_QOS_FLOW_RESOURCES";
     "INSUFFICIENT_SERVER_RESOURCES"; "PDU_SESSION_TERMINATION";
     "PS_TO_CS_HO"; "REFLECTIVE_QOS_NOT_SUPPORTED_IN_UE";
     "REQUEST_QOS_NOT_SUPPORTED_IN_PLMN"; "SMF_FAILURE";
     "SPONSORED_DATA_CONNECTIVITY_DISALLOWED"; "UE_ADDR_RELEASE"].

Definition is_valid_qos_notif_type : string → bool :=
  any_of_strings ["GUARANTEED"; "NOT_GUARANTEED"; "NOT_GUARANTEED_DL"; "NOT_GUARANTEED_UL"].

Definition is_valid_required_access_info : string → bool :=
  any_of_strings ["USER_LOCATION"; "UE_TIME_ZONE"].

(** ** Collecting errors *)

Section Definitions.
Context `{Json} `{!ValidationLibrary}.

Definition Check : Type := ValidationResult → result ValidationResult.

(** [ValidationResult result; ...; return result;] *)
Definition run (c : Check) : result ValidationResult := c ValidationResult_new.

Definition pass : Check := mret.
Definition add_error (e : string) : Check := λ r, Ok (result_add_error e r).
Definition error_if (b : bool) (e : string) : Check := if b then add_error e else pass.
Definition merging (c : Check) : Check := λ r, r' ← run c; Ok (result_merge r r').
Definition all_checks : list Check → Check :=
  foldr (λ c cs r, r ← c r; cs r) pass.

(** [if (j.contains(k)) f(j[k])] *)
Definition at_member (k : string) (j : json) (f : json → Check) : Check := λ r,
  if jcontains k j then v ← jindex k j; f v r else mret r.

(** [if (j.contains(k) && j[k].is_string()) if (!valid(j[k])) result.add_error(e)] *)
Definition string_member (k : string) (valid : string → bool) (e : string) (j : json) : Check :=
  at_member k j (λ v, if is_string v then λ r, s ← get_string v; error_if (negb (valid s)) e r
                      else pass).

(** [if (j.contains(k) && j[k].is_array()) for (x : j[k]) f(x)] *)
Definition array_elements (k : string) (j : json) (f : json → Check) : Check :=
  at_member k j (λ v, if is_array v then all_checks (f <$> jelements v) else pass).

(** [if (j.contains(k) && !j[k].is_number_integer()) result.add_error(e)] *)
Definition integer_member (k e : string) (j : json) : Check :=
  at_member k j (λ v, error_if (negb (is_number_integer v)) e).

(** ** Helper functions *)

Definition validate_required_fields (j : json) (required_fields : list string) : Check :=
  all_checks ((λ field, error_if (negb (jcontains field j)) ("Missing required field: " +:+ field))
                <$> required_fields).

Definition comma_separated (fields : list string) : string :=
  foldl (λ a b, if empty a then b else a +:+ ", " +:+ b) "" fields.

Definition validate_one_of_required (j : json) (one_of_fields : list string) : Check :=
  let found_count := length (filter (λ field, jcontains field j = true) one_of_fields) in
  error_if (negb (Nat.eqb found_count 1))
    ("Exactly one of the following fields must be present: " +:+ comma_separated one_of_fields).

Definition validate_any_of_required (j : json) (any_of_fields : list string) : Check :=
  error_if (negb (existsb (λ field, jcontains field j) any_of_fields))
    ("At least one of the following fields must be present: " +:+ comma_separated any_of_fields).

Definition validate_array_min_items (j : json) (field_name : string) (min_items : nat) : Check :=
  at_member field_name j (λ v,
    if negb (is_array v) then add_error ("Field " +:+ field_name +:+ " must be an array")
    else error_if (length (jelements v) <? min_items)%nat
           ("Field " +:+ field_name +:+ " must have at least " +:+ pretty min_items +:+ " items")).

Definition validate_array_max_items (j : json) (field_name : string) (max_items : nat) : Check :=
  at_member field_name j (λ v,
    if negb (is_array v) then add_error ("Field " +:+ field_name +:+ " must be an array")
    else error_if (max_items <? length (jelements v))%nat
           ("Field " +:+ field_name +:+ " must have at most " +:+ pretty max_items +:+ " items")).

Definition validate_integer_range (j : json) (field_name : string) (min_val max_val : Z) : Check :=
  at_member field_name j (λ v,
    if negb (is_number_integer v) then add_error ("Field " +:+ field_name +:+ " must be an integer")
    else λ r,
      value ← get_int v;
      error_if ((value <? min_val) || (max_val <? value))
        ("Field " +:+ field_name +:+ " must be between " +:+ pretty min_val +:+ " and " +:+
           pretty max_val) r).

Definition validate_string_pattern (j : json) (field_name : string) (pattern : regex) : Check :=
  at_member field_name j (λ v,
    if negb (is_string v) then add_error ("Field " +:+ field_name +:+ " must be a string")
    else λ r,
      value ← get_string v;
      error_if (negb (regex_match pattern value))
        ("Field " +:+ field_name +:+ " does not match required pattern") r).

(** The checks of an object; nothing else is checked of any other value. *)
Definition object_checks (name : string) (j : json) (checks : list Check) : Check :=
  if negb (is_object j) then add_error (name +:+ " must be an object") else all_checks checks.

(** [if (j.contains(k)) { ... }] *)
Definition if_member (k : string) (j : json) (checks : list Check) : Check :=
  if jcontains k j then all_checks checks else pass.

(** [if (j.contains(k)) result.merge(validate_array_min_items(j, k, n))] *)
Definition min_items (k : string) (n : nat) (j : json) : Check :=
  if_member k j [merging (validate_array_min_items j k n)].

(** The same, and [if (j[k].is_array()) for (x : j[k]) f(x)]. *)
Definition array_of (k : string) (n : nat) (f : json → Check) (j : json) : Check :=
  if_member k j [merging (validate_array_min_items j k n); array_elements k j f].

(** [if (j.contains(k)) result.merge(f(j[k]))] *)
Definition nested (k : string) (f : json → Check) (j : json) : Check :=
  at_member k j (λ v, merging (f v)).

(** [for (x : j) if (!x.is_number_integer()) { result.add_error(e); break; }] *)
Definition all_integers (k e : string) (j : json) : Check :=
  at_member k j (λ v, if is_array v then error_if (negb (forallb is_number_integer (jelements v))) e
                      else pass).

(** ** Validators without nested ones *)

Definition validate_af_event_subscription (j : json) : Check :=
  object_checks "AfEventSubscription" j
    [merging (validate_required_fields j ["event"]);
     string_member "event" is_valid_af_event "event contains invalid AF event value" j;
     string_member "notifMethod" is_valid_af_notif_method
       "notifMethod contains invalid notification method value" j].

Definition validate_termination_info (j : json) : Check :=
  object_checks "TerminationInfo" j
    [merging (validate_required_fields j ["termCause"; "resUri"]);
     string_member "termCause" is_valid_termination_cause
       "termCause contains invalid termination cause value" j;
     string_member "resUri" is_valid_url "resUri must be a valid URI" j].

Definition validate_flows (j : json) : Check :=
  object_checks "Flows" j
    [merging (validate_required_fields j ["medCompN"]);
     integer_member "medCompN" "medCompN must be an integer" j;
     min_items "contVers" 1 j;
     if_member "fNums" j
       [merging (validate_array_min_items j "fNums" 1); all_integers "fNums" "All fNums must be integers" j]].

Definition validate_eth_flow_description (j : json) : Check :=
  object_checks "EthFlowDescription" j
    [merging (validate_required_fields j ["ethType"]);
     string_member "destMacAddr" is_valid_mac_addr48 "destMacAddr must be a valid MAC address" j;
     string_member "sourceMacAddr" is_valid_mac_addr48 "sourceMacAddr must be a valid MAC address" j;
     string_member "srcMacAddrEnd" is_valid_mac_addr48 "srcMacAddrEnd must be a valid MAC address" j;
     string_member "destMacAddrEnd" is_valid_mac_addr48 "destMacAddrEnd must be a valid MAC address" j;
     if_member "vlanTags" j
       [merging (validate_array_min_items j "vlanTags" 1);
        merging (validate_array_max_items j "vlanTags" 2)]].

Definition validate_pcscf_restoration_request_data (j : json) : Check :=
  object_checks "PcscfRestorationRequestData" j
    [merging (validate_one_of_required j ["ueIpv4"; "ueIpv6"]);
     string_member "ueIpv4" is_valid_ipv4 "ueIpv4 must be a valid IPv4 address" j;
     string_member "ueIpv6" is_valid_ipv6 "ueIpv6 must be a valid IPv6 address" j].

Definition validate_qos_monitoring_information (j : json) : Check :=
  object_checks "QosMonitoringInformation" j
    [integer_member "repThreshDl" "repThreshDl must be an integer" j;
     integer_member "repThreshUl" "repThreshUl must be an integer" j;
     integer_member "repThreshRp" "repThreshRp must be an integer" j].

Definition validate_ue_identity_info (j : json) : Check :=
  object_checks "UeIdentityInfo" j [merging (validate_any_of_required j ["gpsi"; "pei"; "supi"])].

Definition validate_alternative_service_requirements_data (j : json) : Check :=
  object_checks "AlternativeServiceRequirementsData" j
    [merging (validate_required_fields j ["altQosParamSetRef"])].

Definition validate_spatial_validity (j : json) : Check :=
  object_checks "SpatialValidity" j
    [merging (validate_required_fields j ["presenceInfoList"]);
     at_member "presenceInfoList" j (λ v,
       if negb (is_object v) then add_error "presenceInfoList must be an object"
       else error_if (jempty v) "presenceInfoList must have at least one property")].

Definition validate_temporal_validity (j : json) : Check :=
  object_checks "TemporalValidity" j
    [string_member "startTime" is_valid_datetime "startTime must be a valid RFC 3339 date-time" j;
     string_member "stopTime" is_valid_datetime "stopTime must be a valid RFC 3339 date-time" j].

Definition validate_app_session_context_update_data_patch (j : json) : Check :=
  object_checks "AppSessionContextUpdateDataPatch" j
    [at_member "ascReqData" j (λ v, error_if (negb (is_object v)) "ascReqData must be an object")].

(** ** Validators with nested ones *)

Definition validate_af_routing_requirement (j : json) : Check :=
  object_checks "AfRoutingRequirement" j
    [min_items "routeToLocs" 1 j;
     array_of "tempVals" 1 (λ v, merging (validate_temporal_validity v)) j;
     min_items "easIpReplaceInfos" 1 j;
     nested "spVal" validate_spatial_validity j].

Definition validate_af_event_notification (j : json) : Check :=
  object_checks "AfEventNotification" j
    [merging (validate_required_fields j ["event"]);
     string_member "event" is_valid_af_event "event contains invalid AF event value" j;
     array_of "flows" 1 (λ v, merging (validate_flows v)) j].

Definition validate_access_net_charging_identifier (j : json) : Check :=
  object_checks "AccessNetChargingIdentifier" j
    [merging (validate_one_of_required j ["accNetChaIdValue"; "accNetChargIdString"]);
     array_of "flows" 1 (λ v, merging (validate_flows v)) j].

Definition validate_qos_monitoring_report (j : json) : Check :=
  object_checks "QosMonitoringReport" j
    [array_of "flows" 1 (λ v, merging (validate_flows v)) j;
     if_member "ulDelays" j
       [merging (validate_array_min_items j "ulDelays" 1); all_integers "ulDelays" "All ulDelays must be integers" j];
     if_member "dlDelays" j
       [merging (validate_array_min_items j "dlDelays" 1); all_integers "dlDelays" "All dlDelays must be integers" j];
     if_member "rtDelays" j
       [merging (validate_array_min_items j "rtDelays" 1); all_integers "rtDelays" "All rtDelays must be integers" j]].

Definition validate_events_notification (j : json) : Check :=
  object_checks "EventsNotification" j
    [merging (validate_required_fields j ["evSubsUri"; "evNotifs"]);
     string_member "evSubsUri" is_valid_url "evSubsUri must be a valid URI" j;
     merging (validate_array_min_items j "evNotifs" 1);
     array_elements "evNotifs" j (λ v, merging (validate_af_event_notification v));
     min_items "adReports" 1 j;
     array_of "anChargIds" 1 (λ v, merging (validate_access_net_charging_identifier v)) j;
     min_items "failedResourcAllocReports" 1 j;
     min_items "succResourcAllocReports" 1 j;
     array_of "qosMonReports" 1 (λ v, merging (validate_qos_monitoring_report v)) j].

(** [static_cast] of an element to a string in the message. *)
Definition validate_access_info (ani : json) : Check :=
  if is_string ani then λ r,
    s ← get_string ani;
    error_if (negb (is_valid_required_access_info s))
      ("reqAnis contains invalid access info value: " +:+ s) r
  else pass.

Definition validate_events_subscription_req_data (j : json) : Check :=
  object_checks "EventsSubscReqData" j
    [merging (validate_required_fields j ["events"]);
     merging (validate_array_min_items j "events" 1);
     array_elements "events" j (λ v, merging (validate_af_event_subscription v));
     string_member "notifUri" is_valid_url "notifUri must be a valid URI" j;
     min_items "reqQosMonParams" 1 j;
     array_of "reqAnis" 1 validate_access_info j;
     min_items "afAppIds" 1 j;
     nested "qosMon" validate_qos_monitoring_information j].

Definition bitrate_fields : list string :=
  ["marBwDl"; "marBwUl"; "mirBwDl"; "mirBwUl"; "minDesBwDl"; "minDesBwUl"; "maxSuppBwDl";
   "maxSuppBwUl"; "rrBw"; "rsBw"].

Definition bitrate_error (field : string) : string :=
  field +:+ " must match TS 29.571 BitRate format: '<value> <unit>' (e.g., " +:+ quote "100 Mbps" +:+
  ", " +:+ quote "1.5 Gbps" +:+ ")".

Definition validate_media_sub_component (j : json) : Check :=
  object_checks "MediaSubComponent" j
    [merging (validate_required_fields j ["fNum"]);
     integer_member "fNum" "fNum must be an integer" j;
     if_member "ethfDescs" j
       [merging (validate_array_min_items j "ethfDescs" 1);
        merging (validate_array_max_items j "ethfDescs" 2);
        array_elements "ethfDescs" j (λ v, merging (validate_eth_flow_description v))];
     if_member "fDescs" j
       [merging (validate_array_min_items j "fDescs" 1);
        merging (validate_array_max_items j "fDescs" 2)];
     string_member "fStatus" is_valid_flow_status "fStatus contains invalid flow status value" j;
     string_member "flowUsage" is_valid_flow_usage "flowUsage contains invalid flow usage value" j;
     all_checks ((λ field, string_member field is_valid_bitrate
                    (field +:+ " must match TS 29.571 BitRate format") j) <$> ["marBwDl"; "marBwUl"])].

(** What follows the sub-components, unless they are no object. *)
Definition media_component_constraints (j : json) : list Check :=
  [error_if (jcontains "altSerReqs" j && jcontains "altSerReqsData" j)
     "Cannot have both altSerReqs and altSerReqsData";
   error_if (jcontains "qosReference" j && jcontains "altSerReqsData" j)
     "Cannot have both qosReference and altSerReqsData";
   all_checks ((λ field, string_member field is_valid_bitrate (bitrate_error field) j)
                 <$> bitrate_fields)].

(** [if (j.contains(k)) { if (!j[k].is_object()) { result.add_error(e); return result; } ... }; rest] *)
Definition object_member (k e : string) (j : json) (f : json → Check) (rest : list Check) : Check := λ r,
  if jcontains k j then
    v ← jindex k j;
    if negb (is_object v) then add_error e r else (r ← f v r; all_checks rest r)
  else all_checks rest r.

Definition validate_media_component (j : json) : Check :=
  object_checks "MediaComponent" j
    [merging (validate_required_fields j ["medCompN"]);
     integer_member "medCompN" "medCompN must be an integer" j;
     string_member "medType" is_valid_media_type "medType contains invalid media type value" j;
     string_member "fStatus" is_valid_flow_status "fStatus contains invalid flow status value" j;
     string_member "resPrio" is_valid_reservation_priority
       "resPrio contains invalid reservation priority value" j;
     if_member "codecs" j
       [merging (validate_array_min_items j "codecs" 1);
        merging (validate_array_max_items j "codecs" 2)];
     min_items "altSerReqs" 1 j;
     array_of "altSerReqsData" 1
       (λ v, merging (validate_alternative_service_requirements_data v)) j;
     object_member "medSubComps" "medSubComps must be an object" j
       (λ v, all_checks
          [error_if (jempty v) "medSubComps must have at least one property";
           all_checks ((λ '(_, subcomp), merging (validate_media_sub_component subcomp)) <$> jitems v)])
       (media_component_constraints j)].

Definition validate_app_session_context_req_data (j : json) : Check :=
  object_checks "AppSessionContextReqData" j
    [merging (validate_required_fields j ["notifUri"; "suppFeat"]);
     merging (validate_one_of_required j ["ueIpv4"; "ueIpv6"; "ueMac"]);
     string_member "notifUri" is_valid_url "notifUri must be a valid URI" j;
     string_member "ueIpv4" is_valid_ipv4 "ueIpv4 must be a valid IPv4 address" j;
     string_member "ueIpv6" is_valid_ipv6 "ueIpv6 must be a valid IPv6 address" j;
     string_member "ueMac" is_valid_mac_addr48 "ueMac must be a valid MAC address" j;
     string_member "resPrio" is_valid_reservation_priority
       "resPrio contains invalid reservation priority value" j;
     string_member "sponStatus" is_valid_sponsoring_status
       "sponStatus contains invalid sponsoring status value" j;
     string_member "servInfStatus" is_valid_service_info_status
       "servInfStatus contains invalid service info status value" j;
     nested "evSubsc" validate_events_subscription_req_data j;
     object_member "medComponents" "medComponents must be an object" j
       (λ v, all_checks ((λ '(_, component), merging (validate_media_component component)) <$> jitems v))
       [nested "afRoutReq" validate_af_routing_requirement j;
        min_items "tsnPortManContNwtts" 1 j]].

Definition validate_app_session_context_resp_data (j : json) : Check :=
  object_checks "AppSessionContextRespData" j
    [array_of "ueIds" 1 (λ v, merging (validate_ue_identity_info v)) j].

Definition validate_app_session_context (j : json) : Check :=
  object_checks "AppSessionContext" j
    [nested "ascReqData" validate_app_session_context_req_data j;
     nested "ascRespData" validate_app_session_context_resp_data j;
     nested "evsNotif" validate_events_notification j].
End Definitions.
