(* ===== verification/PcfGateway.v ===== *)
(** * The gateway to the PCF

    [southbound/pcf_handler/include/pcf_gateway.h], [http_pcf_gateway.h] and
    [southbound/pcf_handler/src/http_pcf_gateway.cpp].  The abstract class [PcfGateway] is the class
    of types with its operations; [PcfGatewayDefined] is what its clients rely on, and
    [HttpPcfGateway] implements both over an HTTP service. *)

From S2P Require Import Prelude Effects CxxString Json.

(** ** The interface *)

Class PcfGateway `{Json} (G : Type) := {
  gateway_initialize : M G bool;
  gateway_create_app_session : json → M G (bool * json);
  gateway_update_app_session : string → json → M G (bool * json);
  gateway_delete_app_session : string → json → M G bool;
  gateway_get_app_session : string → M G (bool * json) }.

(** From a usable gateway no operation reaches undefined behaviour, and the gateway stays usable. *)
Class PcfGatewayDefined `{PcfGateway G} := {
  usable : G → Prop;
  initialize_total : total usable gateway_initialize (λ _, True);
  create_total c : total usable (gateway_create_app_session c) (λ _, True);
  update_total id u : total usable (gateway_update_app_session id u) (λ _, True);
  delete_total id d : total usable (gateway_delete_app_session id d) (λ _, True);
  get_total id : total usable (gateway_get_app_session id) (λ _, True) }.

(** ** HTTP *)

Record HttpRequest := mkHttpRequest {
  method : string;
  path : string;
  request_headers : list (string * string);
  request_body : string }.

(** [af::communication::http::HttpResponse] of the common library. *)
Record HttpResponse := mkHttpResponse {
  response_error : bool;
  response_error_message : string;
  status_code : Z;
  response_headers : list (string * string);
  response_body : string }.

(** [HttpCommunicationService::send_http]: the answer may depend on all requests so far. *)
Class HttpService := http_answer : list HttpRequest → exn + HttpResponse.

Record HttpPcfGateway := mkHttpPcfGateway {
  http_service_ : bool;                 (* whether the pointer is set *)
  base_path_ : string;
  http_requests : list HttpRequest      (* sent so far *) }.

#[global] Instance HttpPcfGateway_settable : Settable HttpPcfGateway := λ g,
  mkHttpPcfGateway (http_service_ g) (base_path_ g) (http_requests g).

Section Definitions.
Context `{Json} `{HttpService}.
Implicit Types (response : HttpResponse).

Definition build_base_path (api_version : string) : string :=
  "/npcf-policyauthorization/" +:+ api_version.

Definition HttpPcfGateway_new (http_service : bool) (api_version : string) : HttpPcfGateway :=
  mkHttpPcfGateway http_service (build_base_path api_version) [].

Definition initialize : M HttpPcfGateway bool := gets http_service_.

Definition get_common_headers : list (string * string) :=
  [("content-type", "application/json"); ("accept", "application/json")].

(** [http_service_->send_http(method, path, headers, body)] *)
Definition send_http (method path body : string) : M HttpPcfGateway HttpResponse :=
  g ← get;
  if negb (http_service_ g) then undefined null_dereference
  else
    let rs := http_requests g ++ [mkHttpRequest method path get_common_headers body] in
    modify (λ g, g <| http_requests := rs |>) ;;
    match http_answer rs with
    | inl e => throw e
    | inr response => mret response
    end.

Definition is_success response : bool := (200 <=? status_code response) && (status_code response <? 300).

(** An object for the body of a response, with its headers and code. *)
Definition build_response_json response : result json :=
  response_json ← (if empty (response_body response) then mret jnull
                   else parsed ← parse_or_discard (response_body response);
                        mret (match parsed with
                              | Some j => j
                              | None => jobject [("raw_body", jstring (response_body response))]
                              end));
  let response_json := if is_object response_json then response_json
                       else jobject [("body", response_json)] in
  headers_json ← assign_members (prod_map (λ name, name) jstring <$> response_headers response)
                   (jobject []);
  response_json ← jassign "headers" headers_json response_json;
  jassign "http_code" (jint (status_code response)) response_json.

(** The body of an error response. *)
Definition error_json response : result json :=
  if empty (response_body response) then mret (jobject [("status", jint (status_code response))])
  else parsed ← parse_or_discard (response_body response);
       mret (match parsed with
             | Some j => j
             | None => jobject [("status", jint (status_code response));
                                ("detail", jstring (response_body response))]
             end).

(** The part of the operations that is the same: an error, a successful or an unsuccessful answer. *)
Definition exchange (method path body : string) : M HttpPcfGateway (bool * json) :=
  try_catch
    (response ← send_http method path body;
     if response_error response
     then mret (false, jobject [("error", jstring (response_error_message response))])
     else if is_success response then j ← lift (build_response_json response); mret (true, j)
     else j ← lift (error_json response); mret (false, j))
    (λ e, mret (false, jobject [("error", jstring (what e))])).

Definition create_app_session (app_session_context : json) : M HttpPcfGateway (bool * json) :=
  g ← get;
  body ← lift (dump app_session_context);
  exchange "POST" (base_path_ g +:+ "/app-sessions") body.

Definition update_app_session (app_session_id : string) (update_data : json) :
    M HttpPcfGateway (bool * json) :=
  g ← get;
  body ← lift (dump update_data);
  exchange "PATCH" (base_path_ g +:+ "/app-sessions/" +:+ app_session_id) body.

Definition delete_app_session (app_session_id : string) (delete_data : json) : M HttpPcfGateway bool :=
  g ← get;
  body ← lift (if jempty delete_data then mret "" else dump delete_data);
  try_catch
    (response ← send_http "POST" (base_path_ g +:+ "/app-sessions/" +:+ app_session_id +:+ "/delete") body;
     mret (negb (response_error response) && is_success response))
    (λ _, mret false).

Definition get_app_session (app_session_id : string) : M HttpPcfGateway (bool * json) :=
  g ← get;
  exchange "GET" (base_path_ g +:+ "/app-sessions/" +:+ app_session_id) "".

#[export] Instance HttpPcfGateway_gateway : PcfGateway HttpPcfGateway := {|
  gateway_initialize := initialize;
  gateway_create_app_session := create_app_session;
  gateway_update_app_session := update_app_session;
  gateway_delete_app_session := delete_app_session;
  gateway_get_app_session := get_app_session |}.

(** ** The implementation keeps the promise *)

Context `{!JsonDefined}.

Lemma assign_members_defined (members : list (string * json)) j : defined (assign_members members j).
Proof.
  unfold assign_members. generalize (mret j : result json) (I : defined (mret j : result json)).
  induction members as [|[k v] members IH]; intros r Hr; simpl; [done|].
  apply IH, defined_bind; [done|]. intros a _. apply jassign_defined.
Qed.

Lemma parse_or_discard_defined s : defined (parse_or_discard s).
Proof. unfold parse_or_discard. pose proof (parse_defined s). by destruct (parse s). Qed.

Lemma build_response_json_defined response : defined (build_response_json response).
Proof.
  unfold build_response_json. apply defined_bind.
  { destruct (empty _); [done|]. apply defined_bind; [apply parse_or_discard_defined|done]. }
  intros j _. apply defined_bind; [apply assign_members_defined|]. intros headers _.
  apply defined_bind; [apply jassign_defined|]. intros. apply jassign_defined.
Qed.

Lemma error_json_defined response : defined (error_json response).
Proof.
  unfold error_json. destruct (empty _); [done|].
  apply defined_bind; [apply parse_or_discard_defined|done].
Qed.

Lemma send_http_total method path body :
  total (λ g, http_service_ g = true) (send_http method path body) (λ _, True).
Proof.
  intros [n g] Hg. unfold wp, send_http. rewrite bind_get. cbn [obj] in *. rewrite Hg. cbn [negb].
  run_steps. by destruct (http_answer _).
Qed.

Lemma exchange_total method path body :
  total (λ g, http_service_ g = true) (exchange method path body) (λ _, True).
Proof.
  apply total_try; [|intros; by apply total_ret].
  eapply total_bind; [apply send_http_total|]. intros response _.
  destruct (response_error response); [by apply total_ret|]. destruct (is_success response).
  - apply (total_bind _ _ (λ _, True)); [by apply total_lift; [apply build_response_json_defined|]|].
    intros. by apply total_ret.
  - apply (total_bind _ _ (λ _, True)); [by apply total_lift; [apply error_json_defined|]|].
    intros. by apply total_ret.
Qed.

#[export] Instance HttpPcfGateway_defined : PcfGatewayDefined (G:=HttpPcfGateway).
Proof.
  refine {| usable := λ g, http_service_ g = true |}; simpl.
  - by intros w Hw.
  - intros c. eapply total_bind; [apply total_get|]. intros g _.
    apply (total_bind _ _ (λ _, True)); [by apply total_lift; [apply dump_defined|]|].
    intros. apply exchange_total.
  - intros id u. eapply total_bind; [apply total_get|]. intros g _.
    apply (total_bind _ _ (λ _, True)); [by apply total_lift; [apply dump_defined|]|].
    intros. apply exchange_total.
  - intros id d. eapply total_bind; [apply total_get|]. intros g _.
    apply (total_bind _ _ (λ _, True)).
    { apply total_lift; [|done]. destruct (jempty d); [done|apply dump_defined]. }
    intros body _. apply total_try; [|intros; by apply total_ret].
    eapply total_bind; [apply send_http_total|]. intros. by apply total_ret.
  - intros id. eapply total_bind; [apply total_get|]. intros g _. apply exchange_total.
Defined.
End Definitions.
