(* ===== verification/QodPcfHandler.v ===== *)
(** * [QodPcfHandler]: QoD sessions at the PCF

    [southbound/pcf_handler/include/qod_pcf_handler.h], [flow_description_utils.h] and
    [southbound/pcf_handler/src/qod_pcf_handler.cpp].  The handler reads the QoD session from the
    message of [af_core], translates it into an application session of the PCF, checks the request,
    sends it through the gateway and maps the ids of both.  The gateway is any type of the class
    [PcfGateway]. *)

From S2P Require Import Prelude Effects CxxString UeKey QodTypes Json Comms ServiceHelpers PcfHelpers.
From S2P Require Import PcfGateway.

(** ** Flow descriptions *)

Definition collect_port_specs (spec : PortsSpec) : list string :=
  (pretty <$> ports spec) ++
  ((λ range, if from range =? to range then pretty (from range)
             else pretty (from range) +:+ "-" +:+ pretty (to range)) <$> ranges spec).

Definition format_flow_description (direction src_ip src_port dst_ip dst_port : string) : string :=
  let flow := "permit " +:+ direction +:+ " ip from " +:+ src_ip in
  let flow := if empty src_port then flow else flow +:+ " " +:+ src_port in
  let flow := flow +:+ " to " +:+ dst_ip in
  if empty dst_port then flow else flow +:+ " " +:+ dst_port.

Inductive PcfSessionState := CREATING | ACTIVE | UPDATING | DELETING | TERMINATED.

(** What the handler uses of the common library beyond [HandlerLibrary]. *)
Class PcfLibrary `{Json} `{ValidationLibrary} := {
  (** [PortsSpec::is_empty()] and [QodSession qod_session;] *)
  ports_is_empty : PortsSpec → bool;
  QodSession_default : QodSession;
  (** [QosProfileMapper] *)
  try_deserialize_qos_mapping : json → ValidationResult * QosProfileMapping;
  validate_qos_mapping : QosProfileMapping → ValidationResult;
  append_validation_errors : ValidationResult → string }.

Section Definitions.
Context `{Clock} `{HandlerLibrary} `{!ValidationLibrary} `{!PcfLibrary} {G : Type} `{!PcfGateway G}.

Record PcfSessionInfo := mkPcfSessionInfo {
  info_pcf_session_id : string;
  info_qod_session_id : string;
  info_state : PcfSessionState;
  info_created_at : Z;
  pcf_notification_uri : option string;
  last_request : json;
  last_response : json }.

#[global] Instance PcfSessionInfo_settable : Settable PcfSessionInfo := λ i,
  mkPcfSessionInfo (info_pcf_session_id i) (info_qod_session_id i) (info_state i) (info_created_at i)
    (pcf_notification_uri i) (last_request i) (last_response i).

Record QodPcfHandler := mkQodPcfHandler {
  pcf_gateway_ : option G;
  qod_to_pcf_sessions_ : gmap string PcfSessionInfo;
  pcf_to_qod_sessions_ : gmap string string;
  sessions_mutex_ : lock_state }.

#[global] Instance QodPcfHandler_settable : Settable QodPcfHandler := λ h,
  mkQodPcfHandler (pcf_gateway_ h) (qod_to_pcf_sessions_ h) (pcf_to_qod_sessions_ h) (sessions_mutex_ h).

Implicit Types (session : QodSession) (message : Message) (mapping : QosProfileMapping).

(** The members that are never assigned. *)
Definition af_id_ : string := "af_qod_service".
Definition af_notification_uri_ : string := "http://phine.af-core:50051/qod/notifications".

Definition initialize : M QodPcfHandler () :=
  h ← get;
  match pcf_gateway_ h with
  | Some _ => on_pointer pcf_gateway_ gateway_initialize ;; mret ()
  | None => mret ()
  end.

(** The constructor: the gateway is missing when its HTTP service cannot be created. *)
Definition QodPcfHandler_new (gateway : option G) : QodPcfHandler := mkQodPcfHandler gateway ∅ ∅ Unlocked.

(** ** Session mapping *)

Definition get_pcf_session_info (qod_session_id : string) : M QodPcfHandler (option PcfSessionInfo) :=
  with_lock sessions_mutex_ Exclusive (h ← get; mret (qod_to_pcf_sessions_ h !! qod_session_id)).

Definition get_qod_session_id (pcf_session_id : string) : M QodPcfHandler string :=
  with_lock sessions_mutex_ Exclusive
    (h ← get; mret (value_or "" (pcf_to_qod_sessions_ h !! pcf_session_id))).

Definition store_session_mapping (qod_session_id pcf_session_id : string) (state : PcfSessionState) :
    M QodPcfHandler () :=
  with_lock sessions_mutex_ Exclusive
    (t ← now;
     let info := mkPcfSessionInfo pcf_session_id qod_session_id state t None jnull jnull in
     modify (λ h, h <| qod_to_pcf_sessions_ ::= <[qod_session_id := info]> |>
                    <| pcf_to_qod_sessions_ ::= <[pcf_session_id := qod_session_id]> |>)).

(** [it->second] of the info of a QoD session changes, if there is one. *)
Definition change_info (f : PcfSessionInfo → PcfSessionInfo) (qod_session_id : string)
    (h : QodPcfHandler) : QodPcfHandler :=
  h <| qod_to_pcf_sessions_ ::= alter f qod_session_id |>.

Definition update_session_state (pcf_session_id : string) (state : PcfSessionState) :
    M QodPcfHandler () :=
  with_lock sessions_mutex_ Exclusive
    (h ← get;
     match pcf_to_qod_sessions_ h !! pcf_session_id with
     | Some qod_session_id => modify (change_info (λ i, i <| info_state := state |>) qod_session_id)
     | None => mret ()
     end).

Definition remove_session_mapping (qod_session_id : string) : M QodPcfHandler () :=
  with_lock sessions_mutex_ Exclusive
    (h ← get;
     match qod_to_pcf_sessions_ h !! qod_session_id with
     | Some info =>
       modify (λ h, h <| qod_to_pcf_sessions_ ::= delete qod_session_id |>
                      <| pcf_to_qod_sessions_ ::= delete (info_pcf_session_id info) |>)
     | None => mret ()
     end).

(** The blocks that store a request, or a response, for debugging. *)
Definition store_info (f : PcfSessionInfo → PcfSessionInfo) (qod_session_id : string) :
    M QodPcfHandler () :=
  with_lock sessions_mutex_ Exclusive (modify (change_info f qod_session_id)).

(** ** Translation *)

Definition text (s : string) : json := jstring s.

(** The address of the device, the private one preferred, and of the server. *)
Definition device_ip session : string :=
  match device session with
  | Some d =>
    match device_ipv4_address d with
    | Some a => match private_address a with
                | Some p => ipv4 p
                | None => ipv4 (public_address a)
                end
    | None => match device_ipv6_address d with Some a => ipv6 a | None => "any" end
    end
  | None => "any"
  end.

Definition server_ip session : string :=
  match server_ipv4_address (application_server session) with
  | Some a => a
  | None => value_or "any" (server_ipv6_address (application_server session))
  end.

Definition port_specs_of (spec : option PortsSpec) : list string :=
  match spec with
  | Some spec => if ports_is_empty spec then [] else collect_port_specs spec
  | None => []
  end.

(** The combinations of ports of the device and of the server, an empty text for any port. *)
Definition port_pairs session : list (string * string) :=
  match port_specs_of (device_ports session), port_specs_of (application_server_ports session) with
  | [], [] => [("", "")]
  | src, [] => (λ sp, (sp, "")) <$> src
  | [], dst => (λ dp, ("", dp)) <$> dst
  | src, dst => sp ← src; dp ← dst; [(sp, dp)]
  end.

Definition build_flow_descriptions session : json :=
  let src_ip := device_ip session in
  let dst_ip := server_ip session in
  jarray (pair ← port_pairs session;
          [text (format_flow_description "out" src_ip pair.1 dst_ip pair.2);
           text (format_flow_description "in" dst_ip pair.2 src_ip pair.1)]).

Definition media_sub_component (flow_number : Z) (description : string) : result json :=
  assign_members [("fNum", jint flow_number); ("fDescs", jarray [text description]);
                  ("fStatus", text "ENABLED"); ("flowUsage", text "NO_INFO")] jnull.

(** The uplink and the downlink sub-component of a combination of ports. *)
Definition add_subcomp_pair (src_ip dst_ip : string) (state : Z * json) (pair : string * string) :
    result (Z * json) :=
  let '(flow_number, med_sub_comps) := state in
  let '(src_port_spec, dst_port_spec) := pair in
  uplink ← media_sub_component flow_number
             (format_flow_description "out" src_ip src_port_spec dst_ip dst_port_spec);
  med_sub_comps ← jassign (pretty flow_number) uplink med_sub_comps;
  let flow_number := flow_number + 1 in
  downlink ← media_sub_component flow_number
               (format_flow_description "out" dst_ip dst_port_spec src_ip src_port_spec);
  med_sub_comps ← jassign (pretty flow_number) downlink med_sub_comps;
  mret (flow_number + 1, med_sub_comps).

Definition map_ports_to_media_subcomponents session : result json :=
  '(_, med_sub_comps) ←
    foldl (λ r pair, state ← r; add_subcomp_pair (device_ip session) (server_ip session) state pair)
      (mret (1, jobject [])) (port_pairs session);
  mret med_sub_comps.

Definition media_type session : string :=
  let profile := qos_profile session in
  if String.eqb profile "voice" || String.eqb profile "QOS_E" then "AUDIO"
  else if String.eqb profile "video" || String.eqb profile "QOS_S" then "VIDEO"
  else "APPLICATION".

(** The rates: the guaranteed ones only for profiles with a guaranteed bit rate. *)
Definition rate_members mapping : list (string * json) :=
  let rate k o := optional_assignment k (text <$> o) in
  rate "marBwDl" (max_downlink_rate mapping) ++ rate "marBwUl" (max_uplink_rate mapping) ++
  (if is_gbr mapping
   then rate "mirBwDl" (guaranteed_downlink_rate mapping) ++
        rate "mirBwUl" (guaranteed_uplink_rate mapping) ++
        rate "minDesBwDl" (guaranteed_downlink_rate mapping) ++
        rate "minDesBwUl" (guaranteed_uplink_rate mapping)
   else []) ++
  rate "maxSuppBwDl" (max_downlink_rate mapping) ++ rate "maxSuppBwUl" (max_uplink_rate mapping).

(** The members for the latency and the packet loss of a 5QI. *)
Definition latency_members (fiveqi : Z) : list (string * json) :=
  if (fiveqi =? 1) || (fiveqi =? 2) then [("desMaxLatency", jdouble 100)]
  else if (fiveqi =? 3) || (fiveqi =? 4) then [("desMaxLatency", jdouble 50)]
  else if (5 <=? fiveqi) && (fiveqi <=? 9) then [("desMaxLatency", jdouble 300)]
  else [].

Definition loss_members (fiveqi : Z) : list (string * json) :=
  if (fiveqi =? 1) || (fiveqi =? 2) then
    [("desMaxLoss", jdouble 1); ("maxPacketLossRateDl", jint 10); ("maxPacketLossRateUl", jint 10)]
  else if (fiveqi =? 3) || (fiveqi =? 4) then
    [("desMaxLoss", jdouble (1 # 10)); ("maxPacketLossRateDl", jint 3); ("maxPacketLossRateUl", jint 3)]
  else [].

Definition preemption_members mapping : list (string * json) :=
  match priority_level mapping with
  | Some p =>
    if p <=? 15 then [("preemptCap", text "MAY_PREEMPT"); ("preemptVuln", text "NOT_PREEMPTABLE")]
    else [("preemptCap", text "NOT_PREEMPT"); ("preemptVuln", text "PREEMPTABLE")]
  | None => [("preemptCap", text "NOT_PREEMPT"); ("preemptVuln", text "PREEMPTABLE")]
  end.

Definition mapping_members mapping : list (string * json) :=
  (if 0 <? fiveqi mapping then [("qosReference", text (pretty (fiveqi mapping)))] else []) ++
  optional_assignment "resPrio" ((λ p, text ("PRIO_" +:+ pretty p)) <$> priority_level mapping) ++
  rate_members mapping ++ latency_members (fiveqi mapping) ++ loss_members (fiveqi mapping) ++
  preemption_members mapping.

Definition build_media_components session : result json :=
  med_comp ← assign_members [("medCompN", jint 1); ("fStatus", text "ENABLED");
                             ("medType", text (media_type session))] jnull;
  med_sub_comps ← map_ports_to_media_subcomponents session;
  med_comp ← jassign "medSubComps" med_sub_comps med_comp;
  med_comp ← match qos_profile_mapping session with
             | Some mapping => assign_members (mapping_members mapping) med_comp
             | None => mret med_comp
             end;
  jassign "1" med_comp jnull.

(** [af_notification_uri_ + "/" + qod_session_id] *)
Definition notification_uri (qod_session_id : string) : string :=
  af_notification_uri_ +:+ "/" +:+ qod_session_id.

Definition qos_notif_events : json := jarray [jobject [("event", text "QOS_NOTIF")]].

Definition build_subscription_info (qod_session_id : string) : result json :=
  assign_members [("events", qos_notif_events); ("notifUri", text (notification_uri qod_session_id));
                  ("notifCorreId", text qod_session_id)] jnull.

(** The identification of the UE: an address first, else a GPSI. *)
Definition ue_members session : list (string * json) :=
  match device session with
  | Some d =>
    match device_ipv4_address d with
    | Some a => [("ueIpv4", text (ipv4 (public_address a)))]
    | None =>
      match device_ipv6_address d with
      | Some a => [("ueIpv6", text (ipv6 a))]
      | None =>
        match phone_number d with
        | Some number => [("gpsi", text number)]
        | None => optional_assignment "gpsi" (text <$> network_access_identifier d)
        end
      end
    end
  | None => []
  end.

Definition build_app_session_context session : result json :=
  med_components ← build_media_components session;
  subscription ← build_subscription_info (session_id session);
  assign_members
    ([("medComponents", med_components); ("evSubsc", subscription); ("afAppId", text af_id_);
      ("servUrn", text ("urn:x-3gpp-qod:" +:+ qos_profile session));
      ("notifUri", text (notification_uri (session_id session))); ("suppFeat", text "1")] ++
     ue_members session ++
     optional_assignment "supi" (text ∘ supi <$> ue_supi session) ++
     optional_assignment "dnn" ((λ _, text "internet") <$> session_pdu_session_id session) ++
     [("servInfStatus", text "PRELIMINARY")]) jnull.

Definition build_pcf_create_request session : result json :=
  context ← build_app_session_context session;
  jassign "ascReqData" context jnull.

Definition translate_device_to_ue_id (d : option QodDevice) (x : option Supi) : result json :=
  match x with
  | Some x => jassign "supi" (text (supi x)) jnull
  | None =>
    match d with
    | Some d =>
      match phone_number d with
      | Some number => jassign "gpsi" (text number) jnull
      | None =>
        match device_ipv4_address d with
        | Some a => jassign "ipv4Addr" (text (ipv4 (public_address a))) jnull
        | None => match device_ipv6_address d with
                  | Some a => jassign "ipv6Addr" (text (ipv6 a)) jnull
                  | None => mret jnull
                  end
        end
      end
    | None => mret jnull
    end
  end.

(** ** Sessions at the PCF *)

Definition create_error_response (status : Z) (code text correlation : string) : Message :=
  helper_create_error_response status code text correlation.

(** A success response with the id of the session at the PCF, and its message type. *)
Definition session_response (type pcf_id correlation : string) : M QodPcfHandler Message :=
  response_json ← lift (jassign "pcf_session_id" (text pcf_id) jnull);
  msg ← lift (helper_create_success_response response_json 200 correlation);
  mret (msg <| message_type := type |>).

(** [pcf_gateway_->f(...)] *)
Definition gateway {A} (f : M G A) : M QodPcfHandler A := on_pointer pcf_gateway_ f.

(** [response["headers"].value("Location", response["headers"].value("location", ""))] when there is
    one of the two. *)
Definition location_of (response : json) : result (option string) :=
  if jcontains "headers" response then
    headers ← jindex "headers" response;
    if jcontains "Location" headers || jcontains "location" headers then
      lower_case ← value_string "location" "" headers;
      location ← value_string "Location" lower_case headers;
      mret (Some location)
    else mret None
  else mret None.

Definition app_sessions_pattern : string := "/app-sessions/".

(** The id after the pattern: an error text if there is none. *)
Definition app_session_id_of (location : option string) : string + string :=
  match location with
  | None => inl "PCF response missing Location header"
  | Some location =>
    match find app_sessions_pattern location with
    | None => inl "PCF Location header missing '/app-sessions/' pattern"
    | Some pos =>
      let id := substr (pos + String.length app_sessions_pattern) location in
      if empty id then inl "PCF Location header contains empty app session ID" else inr id
    end
  end.

(** [catch (...) { return std::nullopt; }] around a response. *)
Definition or_nothing (m : M QodPcfHandler Message) : M QodPcfHandler (option Message) :=
  try_catch (r ← m; mret (Some r)) (λ _, mret None).

Definition create_pcf_session session : M QodPcfHandler (option Message) :=
  let id := session_id session in
  or_nothing
    (pcf_request ← lift (build_pcf_create_request session);
     lift (dump pcf_request) ;;
     validation ← lift (run (validate_app_session_context pcf_request));
     if negb (is_valid validation) then
       mret (create_error_response 400 "pcf_request_invalid"
               "PCF create app session request validation failed" id)
     else
       '(success, response) ← gateway (gateway_create_app_session pcf_request);
       if negb success then
         mret (create_error_response 502 "pcf_request_failed"
                 "Failed to send create app session request to PCF" id)
       else
         lift (dump response) ;;
         location ← lift (location_of response);
         match app_session_id_of location with
         | inl error => mret (create_error_response 502 "pcf_response_invalid" error id)
         | inr pcf_id =>
           store_session_mapping id pcf_id CREATING ;;
           msg ← session_response "pcf_qod_session_created" pcf_id id;
           store_info (λ i, i <| last_request := pcf_request |>) id ;;
           lift (dump pcf_request) ;;
           mret msg
         end).

(** The members of an update. *)
Definition build_pcf_update_request session (info : PcfSessionInfo) : result json :=
  med_components ← build_media_components session;
  assign_members
    ([("appSessionId", text (info_pcf_session_id info)); ("medComponents", med_components)] ++
     match qos_profile_mapping session with
     | Some mapping =>
       optional_assignment "maxReqBwDl" (text <$> max_downlink_rate mapping) ++
       optional_assignment "maxReqBwUl" (text <$> max_uplink_rate mapping)
     | None => []
     end) jnull.

Definition update_pcf_session session : M QodPcfHandler (option Message) :=
  let id := session_id session in
  pcf_info_opt ← get_pcf_session_info id;
  match pcf_info_opt with
  | None => mret None
  | Some info =>
    or_nothing
      (pcf_request ← lift (build_pcf_update_request session info);
       '(success, response) ← gateway (gateway_update_app_session (info_pcf_session_id info) pcf_request);
       if negb success then
         mret (create_error_response 502 "pcf_request_failed"
                 "Failed to send update app session request to PCF" id)
       else
         lift (dump response) ;;
         update_session_state (info_pcf_session_id info) UPDATING ;;
         msg ← session_response "pcf_update_app_session" (info_pcf_session_id info) id;
         store_info (λ i, i <| last_request := pcf_request |>) id ;;
         lift (dump pcf_request) ;;
         mret msg)
  end.

Definition delete_pcf_session session : M QodPcfHandler (option Message) :=
  let id := session_id session in
  pcf_info_opt ← get_pcf_session_info id;
  match pcf_info_opt with
  | None => mret None
  | Some info =>
    or_nothing
      (pcf_request ← lift (assign_members [("events", qos_notif_events);
                                           ("notifUri", text (notification_uri id))] (jobject []));
       success ← gateway (gateway_delete_app_session (info_pcf_session_id info) pcf_request);
       if negb success then
         mret (create_error_response 502 "pcf_request_failed"
                 "Failed to send delete app session request to PCF" id)
       else
         update_session_state (info_pcf_session_id info) DELETING ;;
         msg ← session_response "pcf_delete_app_session" (info_pcf_session_id info) id;
         lift (dump pcf_request) ;;
         mret msg)
  end.

(** ** Responses of the PCF *)

Definition handle_pcf_create_response message : M QodPcfHandler (bool * string) :=
  try_catch
    (response_json ← lift (parse (payload message));
     let qod_session_id := correlation_id message in
     if String.eqb (message_type message) "pcf_app_session_created" then
       pcf_id ← lift (value_string "appSessionId" "" response_json);
       if empty pcf_id then mret (false, "Missing PCF session ID")
       else
         update_session_state pcf_id ACTIVE ;;
         store_info (λ i, i <| last_response := response_json |> <| info_pcf_session_id := pcf_id |>)
           qod_session_id ;;
         mret (true, pcf_id)
     else if String.eqb (message_type message) "pcf_error" then
       error_msg ← lift (value_string "message" "Unknown PCF error" response_json);
       lift (value_string "code" "UNKNOWN" response_json) ;;
       remove_session_mapping qod_session_id ;;
       mret (false, error_msg)
     else mret (false, "Unexpected response type"))
    (λ e, mret (false, "Exception: " +:+ what e)).

Definition handle_pcf_update_response message : M QodPcfHandler bool :=
  try_catch
    (response_json ← lift (parse (payload message));
     let qod_session_id := correlation_id message in
     if String.eqb (message_type message) "pcf_app_session_updated" then
       pcf_info_opt ← get_pcf_session_info qod_session_id;
       match pcf_info_opt with
       | Some info =>
         update_session_state (info_pcf_session_id info) ACTIVE ;;
         store_info (λ i, i <| last_response := response_json |>) qod_session_id
       | None => mret ()
       end ;;
       mret true
     else mret false)
    (λ _, mret false).

Definition handle_pcf_delete_response message : M QodPcfHandler bool :=
  try_catch
    (if String.eqb (message_type message) "pcf_app_session_deleted" then
       remove_session_mapping (correlation_id message) ;; mret true
     else mret false)
    (λ _, mret false).

Definition handle_pcf_notification message : M QodPcfHandler (option string * option string) :=
  try_catch
    (notification_json ← lift (parse (payload message));
     pcf_id ← lift (value_string "appSessionId" "" notification_json);
     if empty pcf_id then mret (None, None)
     else
       qod_session_id ← get_qod_session_id pcf_id;
       if empty qod_session_id then mret (None, None)
       else
         event_type ← lift (value_string "eventType" "" notification_json);
         if String.eqb event_type "QOS_NOTIF" then mret (Some qod_session_id, Some "QOS_NOTIF")
         else mret (None, None))
    (λ _, mret (None, None)).

(** ** Reading sessions *)

Definition parse_ipv4 (j : json) : result DeviceIpv4Addr :=
  public ← optional_member "publicAddress" get_string j;
  private ← optional_member "privateAddress" get_string j;
  port ← optional_member "publicPort" get_port j;
  mret (mkDeviceIpv4Addr (mkIpv4Addr (value_or "" public)) (mkIpv4Addr <$> private) port).

Definition parse_device (j : json) : result (option QodDevice) :=
  if is_null j then mret None
  else
    number ← optional_member "gpsi" get_string j;
    nai ← optional_member "supi" get_string j;
    logged ← optional_member "ipv4Address" dump j;
    ipv4 ← optional_member "ipv4Address" parse_ipv4 j;
    ipv6 ← optional_member "ipv6Address" get_string j;
    mret (Some (mkQodDevice number nai ipv4 (mkIpv6Addr <$> ipv6))).

Definition parse_application_server (j : json) : result ApplicationServer :=
  ipv4 ← optional_member "ipv4Address" get_string j;
  ipv6 ← optional_member "ipv6Address" get_string j;
  mret (mkApplicationServer ipv4 ipv6).

(** The members of a range are read from a constant value without a test that they are there. *)
Definition parse_range (j : json) : result PortRange :=
  v ← jindex_const "from" j; a ← get_port v;
  v ← jindex_const "to" j; b ← get_port v;
  mret (mkPortRange a b).

Definition parse_ports (j : json) : result (option PortsSpec) :=
  if is_null j then mret None
  else rs ← array_member "ranges" parse_range j;
       ps ← array_member "ports" get_port j;
       mret (Some (mkPortsSpec rs ps)).

(** [json.at(k).get<std::string>()] *)
Definition required_string (k : string) (j : json) : result string := v ← jat k j; get_string v.

(** The session of a request, its mapping left out; an update also requires the consumer. *)
Definition parse_session (consumer : bool) (j : json) : result QodSession :=
  id ← required_string "session_id" j;
  consumer_id ← (if consumer then s ← required_string "api_consumer_id" j; mret (Some s) else mret None);
  v ← jat "device" j; d ← parse_device v;
  v ← jat "application_server" j; server ← parse_application_server v;
  v ← value_json "device_ports" jnull j; src ← parse_ports v;
  v ← value_json "application_server_ports" jnull j; dst ← parse_ports v;
  profile ← required_string "qos_profile" j;
  v ← jat "duration" j; seconds ← get_int v;
  sink_text ← optional_member "sink" get_string j;
  x ← optional_member "ue_supi" get_string j;
  let session := QodSession_default <| session_id := id |> in
  let session := match consumer_id with
                 | Some c => session <| api_consumer_id := c |>
                 | None => session
                 end in
  let session := session <| device := d |> <| application_server := server |>
                         <| device_ports := src |> <| application_server_ports := dst |>
                         <| qos_profile := profile |> <| duration := seconds |> in
  let session := match sink_text with
                 | Some s => session <| sink := Some s |>
                 | None => session
                 end in
  mret (match x with
        | Some s => session <| ue_supi := Some (mkSupi s) |>
        | None => session
        end).

(** The mapping of a request: an error text if it is refused. *)
Definition parse_mapping (j : json) : result (string + option QosProfileMapping) :=
  if jcontains "qos_profile_mapping" j then
    v ← jindex "qos_profile_mapping" j;
    if is_null v then mret (inr None)
    else
      let '(parse_result, mapping) := try_deserialize_qos_mapping v in
      let validation_result := validate_qos_mapping mapping in
      if negb (is_valid parse_result) || negb (is_valid validation_result) then
        mret (inl ("Invalid qos_profile_mapping" +:+ append_validation_errors parse_result +:+
                   append_validation_errors validation_result))
      else mret (inr (Some mapping))
  else mret (inr None).

(** ** Requests of [af_core] *)

Definition bad_request message (reason : string) : Message :=
  create_error_response 400 "bad_request" reason (correlation_id message).

(** The response of an operation, or an error if it gave none. *)
Definition or_failed message (operation : string) (response : option Message) : Message :=
  match response with
  | Some msg => msg
  | None => create_error_response 500 "pcf_request_creation_failed"
              ("Failed to create PCF session " +:+ operation) (correlation_id message)
  end.

(** The handlers of creation and update. *)
Definition handle_session_request (consumer : bool) (operation : string)
    (f : QodSession → M QodPcfHandler (option Message)) message : M QodPcfHandler Message :=
  try_catch
    (j ← lift (parse (payload message));
     session ← lift (parse_session consumer j);
     read ← lift (parse_mapping j);
     match read with
     | inl error => mret (bad_request message error)
     | inr mapping =>
       let session := match mapping with
                      | Some mapping => session <| qos_profile_mapping := Some mapping |>
                      | None => session
                      end in
       lift (dump j) ;;
       response ← f session;
       mret (or_failed message operation response)
     end)
    (λ e, mret (bad_request message (what e))).

Definition handle_qod_create_pcf_session message : M QodPcfHandler Message :=
  handle_session_request false "request" create_pcf_session message.

Definition handle_qod_update_pcf_session message : M QodPcfHandler Message :=
  handle_session_request true "update request" update_pcf_session message.

Definition handle_qod_delete_pcf_session message : M QodPcfHandler Message :=
  try_catch
    (j ← lift (parse (payload message));
     if negb (jcontains "session_id" j)
     then throw (runtime_error "Missing required field: session_id")
     else
       id ← lift (required_string "session_id" j);
       response ← delete_pcf_session (QodSession_default <| session_id := id |>);
       mret (or_failed message "delete request" response))
    (λ e, mret (bad_request message (what e))).
End Definitions.
