(* ===== verification/PcfRequestSpec.v ===== *)
(** * Which requests to the PCF are sent

    The validator of [helpers.cpp] on the requests that [QodPcfHandler] builds: for which sessions a
    request passes. *)

From S2P Require Import Prelude Effects CxxString Regex UeKey QodTypes Json Comms ServiceHelpers.
From S2P Require Import PcfHelpers PcfGateway QodPcfHandler.

(** ** Verdicts *)

Section Verdicts.
Context `{JsonLaws} `{!ValidationLibrary}.

(** The check adds an error exactly if [b] is false. *)
Definition verdict (c : Check) (b : bool) : Prop :=
  ∀ r, ∃ r', c r = Ok r' ∧ is_valid r' = is_valid r && b.

Lemma verdict_pass : verdict pass true.
Proof. intros r. exists r. by rewrite andb_true_r. Qed.

Lemma verdict_add_error e : verdict (add_error e) false.
Proof. intros r. eexists. split; [done|]. by rewrite is_valid_add_error, andb_false_r. Qed.

Lemma verdict_error_if b e : verdict (error_if b e) (negb b).
Proof. destruct b; [apply verdict_add_error|apply verdict_pass]. Qed.

Lemma verdict_merging c b : verdict c b → verdict (merging c) b.
Proof.
  intros Hc r. destruct (Hc ValidationResult_new) as (r' & E & Hr').
  exists (result_merge r r'). unfold merging, run. rewrite E. split; [done|].
  by rewrite is_valid_merge, Hr', is_valid_new.
Qed.

Lemma verdict_nil : verdict (all_checks []) true.
Proof. apply verdict_pass. Qed.

Lemma verdict_cons c cs b b' :
  verdict c b → verdict (all_checks cs) b' → verdict (all_checks (c :: cs)) (b && b').
Proof.
  intros Hc Hcs r. destruct (Hc r) as (r1 & E1 & Hr1). destruct (Hcs r1) as (r2 & E2 & Hr2).
  exists r2. simpl. rewrite E1. split; [exact E2|]. by rewrite Hr2, Hr1, andb_assoc.
Qed.

Lemma verdict_all (cs : list Check) : Forall (λ c, verdict c true) cs → verdict (all_checks cs) true.
Proof. induction 1; [apply verdict_nil|by apply (verdict_cons _ _ true true)]. Qed.

Lemma verdict_at_none k j m f : view_of j = VObject m → m !! k = None → verdict (at_member k j f) true.
Proof.
  intros Hj Hk. unfold at_member. rewrite (contains_none _ _ _ Hj Hk). apply verdict_pass.
Qed.

Lemma verdict_at_some k j m v f b :
  view_of j = VObject m → m !! k = Some v → verdict (f v) b → verdict (at_member k j f) b.
Proof.
  intros Hj Hk Hf. unfold at_member. rewrite (contains_some _ _ _ _ Hj Hk), (index_view _ _ _ _ Hj Hk).
  exact Hf.
Qed.

(** A member that is a text has the format. *)
Definition text_ok (valid : string → bool) (v : option json) : bool :=
  match v with
  | Some v => match view_of v with VString s => valid s | _ => true end
  | None => true
  end.

Lemma verdict_string k valid e j m :
  view_of j = VObject m → verdict (string_member k valid e j) (text_ok valid (m !! k)).
Proof.
  intros Hj. unfold string_member, text_ok. destruct (m !! k) as [v|] eqn:Hk.
  - apply (verdict_at_some _ _ _ _ _ _ Hj Hk). rewrite is_string_view.
    destruct (view_of v) eqn:Hv; try apply verdict_pass.
    rewrite (get_string_view _ _ Hv). intros r. destruct (verdict_error_if (negb (valid s)) e r) as (r' & E & Hr').
    exists r'. split; [exact E|]. by rewrite Hr', negb_involutive.
  - by apply (verdict_at_none _ _ _ _ Hj).
Qed.

Lemma verdict_strings (fields : list string) valid e j m :
  view_of j = VObject m →
  verdict (all_checks ((λ field, string_member field valid (e field) j) <$> fields))
    (forallb (λ field, text_ok valid (m !! field)) fields).
Proof.
  intros Hj. induction fields as [|field fields IH]; [apply verdict_nil|].
  apply verdict_cons; [by apply verdict_string|exact IH].
Qed.

Lemma verdict_required k j m : view_of j = VObject m → is_Some (m !! k) →
  verdict (merging (validate_required_fields j [k])) true.
Proof.
  intros Hj [v Hk]. apply verdict_merging, verdict_all, Forall_fmap, Forall_singleton.
  cbn [compose]. unfold compose.
  rewrite (contains_some _ _ _ _ Hj Hk). apply verdict_pass.
Qed.

Lemma verdict_integer k e j m z :
  view_of j = VObject m → m !! k = Some (jint z) → verdict (integer_member k e j) true.
Proof.
  intros Hj Hk. apply (verdict_at_some _ _ _ _ _ _ Hj Hk). rewrite integer_view, view_int. apply verdict_pass.
Qed.

Lemma verdict_object name j m cs b :
  view_of j = VObject m → verdict (all_checks cs) b → verdict (object_checks name j cs) b.
Proof. intros Hj Hcs. unfold object_checks. by rewrite object_view, Hj. Qed.

Lemma verdict_if_none k j m cs : view_of j = VObject m → m !! k = None → verdict (if_member k j cs) true.
Proof. intros Hj Hk. unfold if_member. rewrite (contains_none _ _ _ Hj Hk). apply verdict_pass. Qed.

Lemma verdict_if_some k j m v cs b :
  view_of j = VObject m → m !! k = Some v → verdict (all_checks cs) b → verdict (if_member k j cs) b.
Proof. intros Hj Hk Hcs. unfold if_member. by rewrite (contains_some _ _ _ _ Hj Hk). Qed.

Lemma verdict_min k j m l n :
  view_of j = VObject m → m !! k = Some (jarray l) → (n <= length l)%nat →
  verdict (merging (validate_array_min_items j k n)) true.
Proof.
  intros Hj Hk Hn. apply verdict_merging, (verdict_at_some _ _ _ _ _ _ Hj Hk).
  rewrite array_view, view_array. cbn [negb]. rewrite (elements_view _ _ (view_array l)).
  rewrite (proj2 (Nat.ltb_ge _ _)) by lia. apply verdict_pass.
Qed.

Lemma verdict_max k j m l n :
  view_of j = VObject m → m !! k = Some (jarray l) → (length l <= n)%nat →
  verdict (merging (validate_array_max_items j k n)) true.
Proof.
  intros Hj Hk Hn. apply verdict_merging, (verdict_at_some _ _ _ _ _ _ Hj Hk).
  rewrite array_view, view_array. cbn [negb]. rewrite (elements_view _ _ (view_array l)).
  rewrite (proj2 (Nat.ltb_ge _ _)) by lia. apply verdict_pass.
Qed.

Lemma verdict_elements k j m l f :
  view_of j = VObject m → m !! k = Some (jarray l) → Forall (λ v, verdict (f v) true) l →
  verdict (array_elements k j f) true.
Proof.
  intros Hj Hk Hl. apply (verdict_at_some _ _ _ _ _ _ Hj Hk). rewrite array_view, view_array.
  rewrite (elements_view _ _ (view_array l)). apply verdict_all. by apply Forall_fmap.
Qed.

Lemma verdict_object_member k e j m v mv f rest b b' :
  view_of j = VObject m → m !! k = Some v → view_of v = VObject mv →
  verdict (f v) b → verdict (all_checks rest) b' → verdict (object_member k e j f rest) (b && b').
Proof.
  intros Hj Hk Hv Hf Hrest r. unfold object_member.
  rewrite (contains_some _ _ _ _ Hj Hk), (index_view _ _ _ _ Hj Hk). simpl. rewrite object_view, Hv. simpl.
  destruct (Hf r) as (r1 & E1 & Hr1). rewrite E1. destruct (Hrest r1) as (r2 & E2 & Hr2).
  exists r2. split; [exact E2|]. by rewrite Hr2, Hr1, andb_assoc.
Qed.

Lemma verdict_eq c b b' : verdict c b → b = b' → verdict c b'.
Proof. by intros ? <-. Qed.
End Verdicts.

Section Specification.
Context `{JsonLaws} `{!HandlerLibrary} `{!ValidationLibrary} `{!PcfLibrary}.
Implicit Types (session : QodSession) (mapping : QosProfileMapping).

(** ** Media sub-components *)

Lemma sub_component_builds n description :
  gives (media_sub_component n description)
    (λ j, verdict (validate_media_sub_component j) true).
Proof.
  destruct (builds_new "fNum" (jint n)
    [("fDescs", jarray [text description]); ("fStatus", text "ENABLED"); ("flowUsage", text "NO_INFO")])
    as (m & Hm & Hk).
  eapply gives_mono; [exact Hm|]. intros j Hj. unfold validate_media_sub_component.
  eapply verdict_object; [exact Hj|].
  assert (Hnum : m !! "fNum" = Some (jint n)) by (by rewrite Hk).
  assert (Hdescs : m !! "fDescs" = Some (jarray [text description])) by (by rewrite Hk).
  apply verdict_all. repeat apply Forall_cons_2; try apply Forall_nil_2.
  - by apply (verdict_required _ _ _ Hj); exists (jint n).
  - by apply (verdict_integer _ _ _ _ _ Hj Hnum).
  - apply (verdict_if_none _ _ _ _ Hj). by rewrite Hk.
  - apply (verdict_if_some _ _ _ _ _ _ Hj Hdescs), verdict_all. repeat apply Forall_cons_2; try apply Forall_nil_2.
    + apply (verdict_min _ _ _ _ _ Hj Hdescs). simpl. lia.
    + apply (verdict_max _ _ _ _ _ Hj Hdescs). simpl. lia.
  - eapply verdict_eq; [apply (verdict_string _ _ _ _ _ Hj)|]. rewrite Hk. cbn. by rewrite view_string.
  - eapply verdict_eq; [apply (verdict_string _ _ _ _ _ Hj)|]. rewrite Hk. cbn. by rewrite view_string.
  - apply verdict_all. repeat apply Forall_cons_2; try apply Forall_nil_2;
      (eapply verdict_eq; [apply (verdict_string _ _ _ _ _ Hj)|]; by rewrite Hk).
Qed.

(** The sub-components so far: some, all accepted. *)
Definition sub_components_ok (some : bool) (state : Z * json) : Prop :=
  ∃ m, view_of state.2 = VObject m ∧ (some = true → m ≠ ∅) ∧
    map_Forall (λ _ v, verdict (validate_media_sub_component v) true) m.

Lemma add_pair_ok src_ip dst_ip state pair b :
  sub_components_ok b state →
  gives (add_subcomp_pair src_ip dst_ip state pair) (sub_components_ok true).
Proof.
  intros (m & Hj & _ & Hall). destruct state as [n j], pair as [sp dp]. simpl in Hj. unfold add_subcomp_pair.
  eapply gives_bind; [apply sub_component_builds|]. intros up Hup.
  eapply gives_bind; [eapply builds_assign, Hj|]. intros j1 Hj1.
  eapply gives_bind; [apply sub_component_builds|]. intros down Hdown.
  eapply gives_bind; [eapply builds_assign, Hj1|]. intros j2 Hj2.
  eexists. split; [done|]. eexists. split; [exact Hj2|]. split; [intros _; apply insert_non_empty|].
  by apply map_Forall_insert_2, map_Forall_insert_2.
Qed.

Lemma add_pairs_ok src_ip dst_ip pairs state b :
  sub_components_ok b state → (b = false → pairs ≠ []) →
  gives (foldl (λ r pair, state ← r; add_subcomp_pair src_ip dst_ip state pair) (mret state) pairs)
    (sub_components_ok true).
Proof.
  revert state b. induction pairs as [|pair pairs IH]; intros state b Hstate Hb; simpl.
  { exists state. split; [done|]. destruct b; [done|by destruct (Hb eq_refl)]. }
  destruct (add_pair_ok src_ip dst_ip state pair b Hstate) as (state' & E & Hstate').
  change (mret state ≫= λ st, add_subcomp_pair src_ip dst_ip st pair)
    with (add_subcomp_pair src_ip dst_ip state pair).
  rewrite E. by apply (IH state' true).
Qed.

Lemma port_pairs_nonempty session : port_pairs session ≠ [].
Proof.
  unfold port_pairs. destruct (port_specs_of (device_ports session)), (port_specs_of _); done.
Qed.

Lemma sub_components_gives session :
  gives (map_ports_to_media_subcomponents session)
    (λ j, sub_components_ok true (0, j)).
Proof.
  unfold map_ports_to_media_subcomponents. eapply gives_bind.
  - apply (add_pairs_ok _ _ _ _ false); [|intros _; apply port_pairs_nonempty].
    exists ∅. split; [exact (view_object [])|]. split; [done|apply map_Forall_empty].
  - intros [n j] Hj. by exists j.
Qed.

(** ** Media components *)

Definition rate_ok (rate : option string) : bool :=
  match rate with Some s => is_valid_bitrate s | None => true end.

(** The reservation priorities are those from 1 to 16. *)
Lemma reservation_priority p :
  is_valid_reservation_priority ("PRIO_" +:+ pretty p) = (1 <=? p) && (p <=? 16).
Proof.
  change (is_valid_reservation_priority ("PRIO_" +:+ pretty p))
    with (existsb (String.eqb ("PRIO_" +:+ pretty p)) ((λ z : Z, "PRIO_" +:+ pretty z) <$> seqZ 1 16)).
  apply eq_bool_prop_intro. rewrite andb_True, !Is_true_true, Z.leb_le, Z.leb_le, existsb_exists. split.
  - intros (s & Hs & Heq). apply list_elem_of_In, list_elem_of_fmap in Hs as (z & -> & Hz).
    apply String.eqb_eq in Heq. apply (inj (String.app "PRIO_")), (inj pretty) in Heq as ->.
    apply elem_of_seqZ in Hz. lia.
  - intros Hp. exists ("PRIO_" +:+ pretty p). split; [|apply String.eqb_refl].
    apply list_elem_of_In, list_elem_of_fmap. exists p. split; [done|]. apply elem_of_seqZ. lia.
Qed.

(** What a mapping must satisfy for the request to be accepted. *)
Definition mapping_ok mapping : bool :=
  match priority_level mapping with Some p => (1 <=? p) && (p <=? 16) | None => true end &&
  rate_ok (max_downlink_rate mapping) && rate_ok (max_uplink_rate mapping) &&
  (negb (is_gbr mapping) ||
   rate_ok (guaranteed_downlink_rate mapping) && rate_ok (guaranteed_uplink_rate mapping)).

(** The members a mapping does not assign, but for its rates. *)
Definition descriptive_members : list string :=
  ["desMaxLatency"; "desMaxLoss"; "maxPacketLossRateDl"; "maxPacketLossRateUl"; "preemptCap"; "preemptVuln"].

Lemma descriptive_assigned mapping k :
  k ∉ descriptive_members →
  assigned k (latency_members (fiveqi mapping)) = None ∧
  assigned k (loss_members (fiveqi mapping)) = None ∧
  assigned k (preemption_members mapping) = None.
Proof.
  unfold descriptive_members. intros Hk.
  split_and!; apply assigned_not; unfold latency_members, loss_members, preemption_members;
    repeat case_match; set_solver.
Qed.


Ltac mapping_member mapping :=
  match goal with |- context [assigned ?k (mapping_members mapping)] =>
    destruct (descriptive_assigned mapping k ltac:(decide_names)) as (El & Eo & Ep);
    unfold mapping_members, rate_members;
    rewrite !assigned_app, El, Eo, Ep, !assigned_optional;
    repeat match goal with |- context [if ?b then _ else _] =>
      lazymatch b with is_gbr _ => destruct b | 0 <? _ => destruct b end end;
    rewrite ?assigned_app, ?assigned_optional, ?assigned_cons
  end.

Lemma assigned_priority mapping :
  assigned "resPrio" (mapping_members mapping) =
  (λ p, text ("PRIO_" +:+ pretty p)) <$> priority_level mapping.
Proof. mapping_member mapping; simpl; by destruct (priority_level mapping). Qed.

Lemma assigned_max mapping k :
  k ∈ ["marBwDl"; "maxSuppBwDl"] ∨ k ∈ ["marBwUl"; "maxSuppBwUl"] →
  assigned k (mapping_members mapping) =
  text <$> (if String.eqb k "marBwDl" || String.eqb k "maxSuppBwDl" then max_downlink_rate mapping
            else max_uplink_rate mapping).
Proof.
  intros Hk. assert (Hk' : k ∈ ["marBwDl"; "maxSuppBwDl"; "marBwUl"; "maxSuppBwUl"]) by set_solver.
  clear Hk. repeat (apply elem_of_cons in Hk' as [->|Hk'];
    [cbn [String.eqb Ascii.eqb Bool.eqb andb orb]; mapping_member mapping; simpl;
     by destruct (max_downlink_rate mapping), (max_uplink_rate mapping)|]).
  by apply elem_of_nil in Hk'.
Qed.

Lemma assigned_guaranteed mapping k :
  k ∈ ["mirBwDl"; "minDesBwDl"] ∨ k ∈ ["mirBwUl"; "minDesBwUl"] →
  assigned k (mapping_members mapping) =
  if is_gbr mapping
  then text <$> (if String.eqb k "mirBwDl" || String.eqb k "minDesBwDl" then guaranteed_downlink_rate mapping
                 else guaranteed_uplink_rate mapping)
  else None.
Proof.
  intros Hk. assert (Hk' : k ∈ ["mirBwDl"; "minDesBwDl"; "mirBwUl"; "minDesBwUl"]) by set_solver.
  clear Hk. repeat (apply elem_of_cons in Hk' as [->|Hk'];
    [cbn [String.eqb Ascii.eqb Bool.eqb andb orb]; mapping_member mapping; simpl;
     by destruct (guaranteed_downlink_rate mapping), (guaranteed_uplink_rate mapping)|]).
  by apply elem_of_nil in Hk'.
Qed.

Definition mapping_names : list string :=
  ["qosReference"; "resPrio"; "marBwDl"; "maxSuppBwDl"; "marBwUl"; "maxSuppBwUl"; "mirBwDl";
   "minDesBwDl"; "mirBwUl"; "minDesBwUl"] ++ descriptive_members.

Lemma assigned_other mapping k : k ∉ mapping_names → assigned k (mapping_members mapping) = None.
Proof.
  intros Hk. destruct (descriptive_assigned mapping k) as (El & Eo & Ep); [unfold mapping_names in Hk; set_solver|].
  assert (Hne : ∀ k', k' ∈ mapping_names → String.eqb k' k = false)
    by (intros k' Hk'; apply String.eqb_neq; intros ->; done).
  unfold mapping_members, rate_members.
  rewrite !assigned_app, El, Eo, Ep, !assigned_optional, !Hne by decide_names.
  destruct (is_gbr mapping), (0 <? fiveqi mapping);
    rewrite ?assigned_app, ?assigned_optional, ?assigned_cons, ?Hne by decide_names; done.
Qed.

(** The members of a media component. *)
Definition component_members session (subs : json) (m : gmap string json) : Prop :=
  let mapped k := match qos_profile_mapping session with
                  | Some mapping => assigned k (mapping_members mapping)
                  | None => None
                  end in
  m !! "medCompN" = Some (jint 1) ∧ m !! "fStatus" = Some (text "ENABLED") ∧
  m !! "medType" = Some (text (media_type session)) ∧ m !! "medSubComps" = Some subs ∧
  ∀ k, k ∉ ["medCompN"; "fStatus"; "medType"; "medSubComps"] → m !! k = mapped k.

Lemma component_builds session :
  gives (build_media_components session) (λ j, ∃ mc subs m,
    view_of j = VObject {["1" := mc]} ∧ view_of mc = VObject m ∧ sub_components_ok true (0, subs) ∧
    component_members session subs m).
Proof.
  unfold build_media_components.
  destruct (builds_new "medCompN" (jint 1) [("fStatus", text "ENABLED"); ("medType", text (media_type session))])
    as (m0 & Hm0 & Hk0).
  eapply gives_bind; [exact Hm0|]. intros j0 Hj0.
  eapply gives_bind; [apply sub_components_gives|]. intros subs Hsubs.
  eapply gives_bind; [eapply builds_assign, Hj0|]. intros j1 Hj1.
  destruct (builds_members (match qos_profile_mapping session with
                            | Some mapping => mapping_members mapping | None => [] end) j1 _ Hj1)
    as (m & Hm & Hk).
  assert (E : (match qos_profile_mapping session with
               | Some mapping => assign_members (mapping_members mapping) j1 | None => mret j1 end) =
              assign_members (match qos_profile_mapping session with
                              | Some mapping => mapping_members mapping | None => [] end) j1)
    by (by destruct (qos_profile_mapping session)).
  rewrite E. eapply gives_bind; [exact Hm|]. intros mc Hmc.
  eapply gives_mono; [apply builds_null|]. intros j Hj. exists mc, subs, m.
  split_and!; [exact Hj|exact Hmc|exact Hsubs|]. unfold component_members.
  assert (Hfixed : ∀ k, k ∉ mapping_names → m !! k = <["medSubComps" := subs]> m0 !! k).
  { intros k Hn. rewrite Hk. destruct (qos_profile_mapping session); [|done]. by rewrite assigned_other. }
  rewrite !Hfixed by decide_names. rewrite !lookup_insert_ne by done. rewrite !Hk0, lookup_insert_eq.
  split_and!; try done. intros k Hn. rewrite Hk, lookup_insert_ne by set_solver.
  rewrite Hk0, (assigned_not k [_; _; _]) by (simpl; set_solver).
  destruct (qos_profile_mapping session); [|done]. by destruct (assigned k _).
Qed.

Lemma sub_components_verdict subs m :
  view_of subs = VObject m → m ≠ ∅ → map_Forall (λ _ v, verdict (validate_media_sub_component v) true) m →
  verdict (all_checks
    [error_if (jempty subs) "medSubComps must have at least one property";
     all_checks ((λ '(_, subcomp), merging (validate_media_sub_component subcomp)) <$> jitems subs)]) true.
Proof.
  intros Hj Hne Hall. apply verdict_all. apply Forall_cons_2; [|apply Forall_singleton].
  - rewrite (empty_view _ _ Hj), bool_decide_eq_false_2 by done. apply verdict_pass.
  - apply verdict_all, Forall_fmap, Forall_forall. intros [k v] Hin. apply verdict_merging.
    rewrite (items_view _ _ Hj) in Hin. apply elem_of_map_to_list in Hin. by apply (Hall k).
Qed.

Definition session_mapping_ok session : bool :=
  match qos_profile_mapping session with Some mapping => mapping_ok mapping | None => true end.

Lemma text_ok_rate (rate : option string) : text_ok is_valid_bitrate (text <$> rate) = rate_ok rate.
Proof. destruct rate; simpl; [by rewrite view_string|done]. Qed.

Lemma bitrates_ok session subs m :
  component_members session subs m →
  text_ok is_valid_reservation_priority (m !! "resPrio") &&
  forallb (λ field, text_ok is_valid_bitrate (m !! field)) bitrate_fields = session_mapping_ok session.
Proof.
  intros (_ & _ & _ & _ & Hm). unfold bitrate_fields, session_mapping_ok, mapping_ok. cbn [forallb].
  rewrite !Hm by decide_names. destruct (qos_profile_mapping session) as [mapping|]; [|done].
  rewrite assigned_priority,
    (assigned_max mapping "marBwDl"), (assigned_max mapping "marBwUl"),
    (assigned_max mapping "maxSuppBwDl"), (assigned_max mapping "maxSuppBwUl"),
    (assigned_guaranteed mapping "mirBwDl"), (assigned_guaranteed mapping "mirBwUl"),
    (assigned_guaranteed mapping "minDesBwDl"), (assigned_guaranteed mapping "minDesBwUl"),
    (assigned_other mapping "rrBw"), (assigned_other mapping "rsBw")
    by first [decide_names|left; decide_names|right; decide_names].
  cbn [String.eqb Ascii.eqb Bool.eqb andb orb]. rewrite !text_ok_rate.
  replace (text_ok is_valid_reservation_priority ((λ p, text ("PRIO_" +:+ pretty p)) <$> priority_level mapping))
    with (match priority_level mapping with Some p => (1 <=? p) && (p <=? 16) | None => true end)
    by (destruct (priority_level mapping) as [p|]; [|done];
        rewrite <-(reservation_priority p); simpl; by rewrite view_string).
  destruct (is_gbr mapping); rewrite ?text_ok_rate;
    repeat match goal with |- context [rate_ok ?r] => generalize (rate_ok r); intros [] end;
    simpl; by rewrite ?andb_true_r, ?andb_false_r.
Qed.

Lemma component_verdict session subs mc m :
  view_of mc = VObject m → sub_components_ok true (0, subs) → component_members session subs m →
  verdict (validate_media_component mc) (session_mapping_ok session).
Proof.
  intros Hmc (ms & Hsubs & Hne & Hall) Hm. pose proof (bitrates_ok _ _ _ Hm) as Hok.
  destruct Hm as (Hcomp & Hstatus & Htype & Hsub & Hother).
  assert (Hnone : ∀ k, k ∉ ["medCompN"; "fStatus"; "medType"; "medSubComps"] → k ∉ mapping_names → m !! k = None).
  { intros k Hk Hk'. rewrite Hother by done. destruct (qos_profile_mapping session); [|done].
    by apply assigned_other. }
  eapply verdict_eq.
  - eapply verdict_object; [exact Hmc|].
    apply verdict_cons; [by apply (verdict_required _ _ _ Hmc); eexists|].
    apply verdict_cons; [by apply (verdict_integer _ _ _ _ _ Hmc Hcomp)|].
    apply verdict_cons; [by apply (verdict_string _ _ _ _ _ Hmc)|].
    apply verdict_cons; [by apply (verdict_string _ _ _ _ _ Hmc)|].
    apply verdict_cons; [by apply (verdict_string _ _ _ _ _ Hmc)|].
    do 3 (apply verdict_cons; [apply (verdict_if_none _ _ _ _ Hmc), Hnone; decide_names|]).
    apply verdict_cons; [|apply verdict_nil].
    eapply (verdict_object_member _ _ _ _ _ _ _ _ _ _ Hmc Hsub Hsubs).
    + apply (sub_components_verdict _ _ Hsubs); [by apply Hne|exact Hall].
    + unfold media_component_constraints.
      apply verdict_cons; [apply verdict_error_if|]. apply verdict_cons; [apply verdict_error_if|].
      apply verdict_cons; [by apply verdict_strings|apply verdict_nil].
  - rewrite Htype, Hstatus. cbn [text_ok]. unfold text. rewrite !view_string.
    rewrite (contains_none "altSerReqsData" _ _ Hmc) by (apply Hnone; decide_names).
    rewrite !andb_false_r, !andb_true_r. cbn [negb andb]. rewrite Hok.
    unfold media_type. by repeat case_match.
Qed.

(** ** The context of the application session *)

Lemma event_verdict :
  verdict (validate_af_event_subscription (jobject [("event", text "QOS_NOTIF")])) true.
Proof.
  pose proof (view_object [("event", text "QOS_NOTIF")]) as Hj. eapply verdict_object; [exact Hj|].
  apply verdict_all. repeat apply Forall_cons_2; try apply Forall_nil_2.
  - apply (verdict_required _ _ _ Hj). by eexists.
  - eapply verdict_eq; [apply (verdict_string _ _ _ _ _ Hj)|].
    simpl. rewrite lookup_insert_eq. simpl. unfold text. by rewrite view_string.
  - eapply verdict_eq; [apply (verdict_string _ _ _ _ _ Hj)|]. simpl. by rewrite lookup_insert_ne.
Qed.

Lemma subscription_verdict id :
  gives (build_subscription_info id)
    (λ j, verdict (validate_events_subscription_req_data j) (is_valid_url (notification_uri id))).
Proof.
  destruct (builds_new "events" qos_notif_events
    [("notifUri", text (notification_uri id)); ("notifCorreId", text id)]) as (m & Hm & Hk).
  eapply gives_mono; [exact Hm|]. intros j Hj.
  assert (Hevents : m !! "events" = Some qos_notif_events) by (by rewrite Hk).
  eapply verdict_eq.
  - eapply verdict_object; [exact Hj|].
    apply verdict_cons; [by apply (verdict_required _ _ _ Hj); eexists|].
    apply verdict_cons; [by apply (verdict_min _ _ _ _ _ Hj Hevents); simpl; lia|].
    apply verdict_cons.
    { apply (verdict_elements _ _ _ _ _ Hj Hevents), Forall_singleton, verdict_merging, event_verdict. }
    apply verdict_cons; [by apply (verdict_string _ _ _ _ _ Hj)|].
    do 3 (apply verdict_cons; [apply (verdict_if_none _ _ _ _ Hj); by rewrite Hk|]).
    apply verdict_cons; [|apply verdict_nil]. apply (verdict_at_none _ _ _ _ Hj). by rewrite Hk.
  - rewrite Hk. cbn [assigned foldl String.eqb Ascii.eqb Bool.eqb andb text_ok text].
    unfold text. rewrite view_string. by rewrite !andb_true_r.
Qed.

(** The identification of the UE: an address with the right format. *)
Definition ue_ok session : bool :=
  match device session with
  | Some d =>
    match device_ipv4_address d with
    | Some a => is_valid_ipv4 (ipv4 (public_address a))
    | None => match device_ipv6_address d with Some a => is_valid_ipv6 (ipv6 a) | None => false end
    end
  | None => false
  end.

Definition acceptable session : bool :=
  ue_ok session && is_valid_url (notification_uri (session_id session)) && session_mapping_ok session.

(** The checks of the UE identification, on the members of the context. *)
Lemma ue_checks session j m :
  view_of j = VObject m →
  (∀ k, k ∈ ["ueIpv4"; "ueIpv6"; "ueMac"] → m !! k = assigned k (ue_members session)) →
  negb (negb (Nat.eqb (length (filter (λ field, jcontains field j = true) ["ueIpv4"; "ueIpv6"; "ueMac"])) 1)) &&
  (text_ok is_valid_ipv4 (m !! "ueIpv4") &&
   (text_ok is_valid_ipv6 (m !! "ueIpv6") && text_ok is_valid_mac_addr48 (m !! "ueMac"))) = ue_ok session.
Proof.
  intros Hj Hm.
  rewrite !filter_cons, filter_nil, !contains_view, Hj, !Hm by decide_names. unfold ue_members, ue_ok.
  destruct (device session) as [d|]; [|done].
  destruct (device_ipv4_address d) as [a|]; [by cbn; rewrite view_string, !andb_true_r|].
  destruct (device_ipv6_address d) as [a|]; [by cbn; rewrite view_string, !andb_true_r|].
  destruct (phone_number d); [done|]. by destruct (network_access_identifier d).
Qed.

Lemma context_members session mc subscription :
  ∃ m, builds (assign_members
    ([("medComponents", mc); ("evSubsc", subscription); ("afAppId", text af_id_);
      ("servUrn", text ("urn:x-3gpp-qod:" +:+ qos_profile session));
      ("notifUri", text (notification_uri (session_id session))); ("suppFeat", text "1")] ++
     ue_members session ++
     optional_assignment "supi" (text ∘ supi <$> ue_supi session) ++
     optional_assignment "dnn" ((λ _, text "internet") <$> session_pdu_session_id session) ++
     [("servInfStatus", text "PRELIMINARY")]) jnull) m ∧
    m !! "medComponents" = Some mc ∧ m !! "evSubsc" = Some subscription ∧
    m !! "notifUri" = Some (text (notification_uri (session_id session))) ∧
    is_Some (m !! "suppFeat") ∧ m !! "servInfStatus" = Some (text "PRELIMINARY") ∧
    (∀ k, k ∈ ["resPrio"; "sponStatus"; "afRoutReq"; "tsnPortManContNwtts"] → m !! k = None) ∧
    (∀ k, k ∈ ["ueIpv4"; "ueIpv6"; "ueMac"] → m !! k = assigned k (ue_members session)).
Proof.
  rewrite <- app_comm_cons. edestruct builds_new as (m & Hm & Hk). exists m. split; [exact Hm|].
  assert (Hue : ∀ k, k ∉ ["ueIpv4"; "ueIpv6"; "gpsi"] → assigned k (ue_members session) = None).
  { intros k Hn. apply assigned_not. unfold ue_members, optional_assignment. repeat case_match; set_solver. }
  split_and!.
  1-5: rewrite Hk; simpl; rewrite !assigned_cons, !assigned_app, !assigned_optional, Hue by decide_names;
       cbn; by try eexists.
  - intros k Hin. repeat (apply elem_of_cons in Hin as [->|Hin];
      [rewrite Hk; simpl; rewrite !assigned_cons, !assigned_app, !assigned_optional, Hue by decide_names; done|]).
    by apply elem_of_nil in Hin.
  - intros k Hin. repeat (apply elem_of_cons in Hin as [->|Hin];
      [rewrite Hk; simpl; rewrite !assigned_cons, !assigned_app, !assigned_optional; cbn;
       by destruct (assigned _ (ue_members session))|]).
    by apply elem_of_nil in Hin.
Qed.

Lemma context_verdict session :
  gives (build_app_session_context session)
    (λ j, verdict (validate_app_session_context_req_data j) (acceptable session)).
Proof.
  unfold build_app_session_context. eapply gives_bind; [apply component_builds|].
  intros comps (mc & subs & mm & Hcomps & Hmc & Hsubs & Hmm).
  eapply gives_bind; [apply subscription_verdict|]. intros subscription Hsubscription.
  destruct (context_members session comps subscription)
    as (m & Hm & Hk1 & Hk2 & Hk3 & [feat Hk4] & Hk5 & Hnone & Hue).
  eapply gives_mono; [exact Hm|]. intros j Hj. eapply verdict_eq.
  - eapply verdict_object; [exact Hj|].
    apply verdict_cons.
    { apply verdict_merging, verdict_all. repeat apply Forall_cons_2; try apply Forall_nil_2.
      - rewrite (contains_some _ _ _ _ Hj Hk3). apply verdict_pass.
      - rewrite (contains_some _ _ _ _ Hj Hk4). apply verdict_pass. }
    apply verdict_cons; [apply verdict_merging, verdict_error_if|].
    do 7 (apply verdict_cons; [by apply (verdict_string _ _ _ _ _ Hj)|]).
    apply verdict_cons.
    { apply (verdict_at_some _ _ _ _ _ _ Hj Hk2), verdict_merging, Hsubscription. }
    apply verdict_cons; [|apply verdict_nil].
    eapply (verdict_object_member _ _ _ _ _ _ _ _ _ _ Hj Hk1 Hcomps).
    + assert (Hitems : jitems comps = [("1", mc)]).
      { apply Permutation_singleton_r. rewrite (items_view _ _ Hcomps). by rewrite map_to_list_singleton. }
      rewrite Hitems. apply verdict_cons; [|apply verdict_nil].
      apply verdict_merging, (component_verdict _ _ _ _ Hmc Hsubs Hmm).
    + apply verdict_all. repeat apply Forall_cons_2; try apply Forall_nil_2.
      * apply (verdict_at_none _ _ _ _ Hj), Hnone. decide_names.
      * apply (verdict_if_none _ _ _ _ Hj), Hnone. decide_names.
  - rewrite Hk3, Hk5, !(Hnone "resPrio"), !(Hnone "sponStatus") by decide_names.
    pose proof (ue_checks session j m Hj Hue) as Hchecks. unfold acceptable. rewrite <- Hchecks.
    cbn [text_ok]. unfold text. rewrite !view_string.
    change (is_valid_service_info_status "PRELIMINARY") with true.
    generalize (negb (negb (Nat.eqb (length (filter (λ field, jcontains field j = true)
      ["ueIpv4"; "ueIpv6"; "ueMac"])) 1))), (text_ok is_valid_ipv4 (m !! "ueIpv4")),
      (text_ok is_valid_ipv6 (m !! "ueIpv6")), (text_ok is_valid_mac_addr48 (m !! "ueMac")),
      (is_valid_url (notification_uri (session_id session))), (session_mapping_ok session).
    by intros [] [] [] [] [] [].
Qed.

(** The request that is built, and its verdict. *)
Lemma request_verdict session :
  gives (build_pcf_create_request session)
    (λ j, verdict (validate_app_session_context j) (acceptable session)).
Proof.
  unfold build_pcf_create_request. eapply gives_bind; [apply context_verdict|]. intros context Hcontext.
  eapply gives_mono; [apply builds_null|]. intros j Hj. eapply verdict_eq.
  - eapply verdict_object; [exact Hj|].
    apply verdict_cons.
    { eapply (verdict_at_some _ _ _ _ _ _ Hj); [apply lookup_singleton_eq|]. apply verdict_merging, Hcontext. }
    do 2 (apply verdict_cons; [by apply (verdict_at_none _ _ _ _ Hj), lookup_singleton_ne|]).
    apply verdict_nil.
  - by rewrite !andb_true_r.
Qed.

(** C36: which sessions the PCF is asked for.  The request built for any session passes validation exactly
    if the device has an IPv4 address in dotted notation, or no IPv4 address and an IPv6 address the
    validator accepts; the notification URI is a URL; and the mapping of the profile, if there is
    one, has a priority from 1 to 16, if any, and rates in the format of TS 29.571.  In particular a
    device known only by its phone number is refused. *)
Theorem request_acceptance session :
  ∃ request r,
    build_pcf_create_request session = Ok request ∧
    run (validate_app_session_context request) = Ok r ∧
    is_valid r = acceptable session.
Proof.
  destruct (request_verdict session) as (request & E & Hv). destruct (Hv ValidationResult_new) as (r & Er & Hr).
  exists request, r. split_and!; [done|done|]. by rewrite Hr, is_valid_new.
Qed.
End Specification.

(** The pattern of IPv6 addresses asks for a third colon: a compressed address is refused, one with
    three colons in a row accepted. *)
Lemma compressed_ipv6_refused :
  is_valid_ipv6 "2001:db8::1" = false ∧ is_valid_ipv6 "2001:db8:::1" = true.
Proof. split; vm_compute; reflexivity. Qed.
