(* ===== verification/PcfHandler.v ===== *)
(** * [PcfHandler]: the service between the AF core and the PCF

    [southbound/pcf_handler/include/pcf_handler.h] and [southbound/pcf_handler/src/pcf_handler.cpp].
    The handler passes QoD messages to its [QodPcfHandler] and has operations for application
    sessions.  Its request router ([southbound/pcf_handler/src/request_router.cpp]) is, line by line,
    the router of the AF core: see [RequestRouter].  The generated model of the PCF API and the
    communication service to the AF core are parameters; configuration and logging are left out. *)

From S2P Require Import Prelude Effects CxxString QodTypes Json Comms ServiceHelpers RequestRouter.
From S2P Require Import PcfHelpers PccRuleManager PcfGateway QodPcfHandler.


(** The classes [oai::model::pcf] generated from the API of the PCF, with the setters the handler
    calls; a setter converts the JSON value it is given, which may throw. *)
Class PcfModel `{Json} := {
  AppSessionContextReqData : Type;
  AppSessionContextReqData_default : AppSessionContextReqData;
  setAfAppId : json → AppSessionContextReqData → result AppSessionContextReqData;
  setUeIpv4 : json → AppSessionContextReqData → result AppSessionContextReqData;
  setUeIpv6 : json → AppSessionContextReqData → result AppSessionContextReqData;
  setSupi : json → AppSessionContextReqData → result AppSessionContextReqData;
  setSuppFeat : json → AppSessionContextReqData → result AppSessionContextReqData;
  MediaComponent : Type;
  MediaComponent_default : MediaComponent;
  component_setAfAppId : json → MediaComponent → result MediaComponent;
  setMedType : json → MediaComponent → result MediaComponent;
  setMaxSuppBwUl : json → MediaComponent → result MediaComponent;
  setMaxSuppBwDl : json → MediaComponent → result MediaComponent;
  setMinDesBwUl : json → MediaComponent → result MediaComponent;
  setMinDesBwDl : json → MediaComponent → result MediaComponent;
  setMedComponents : gmap string MediaComponent → AppSessionContextReqData → AppSessionContextReqData;
  (** [to_json(j, app_session)] for a context with the given request data. *)
  app_session_to_json : AppSessionContextReqData → result json }.

(** Whether sending the last of the messages to the AF core throws. *)
Class CoreService := core_answer : list (string * Message) → option exn.

Record AppSessionInfo := mkAppSessionInfo {
  app_session_id : string;
  app_session_context : string;
  app_session_supi : string;
  app_session_dnn : string;
  ipv4_address : string;
  ipv6_prefix : string;
  media_components : list string;
  app_session_active : bool }.

#[global] Instance AppSessionInfo_settable : Settable AppSessionInfo := λ i,
  mkAppSessionInfo (app_session_id i) (app_session_context i) (app_session_supi i)
    (app_session_dnn i) (ipv4_address i) (ipv6_prefix i) (media_components i) (app_session_active i).

(** [AppSessionInfo session_info;]  The flag is uninitialised; it is assigned before it is read. *)
Definition AppSessionInfo_default : AppSessionInfo := mkAppSessionInfo "" "" "" "" "" "" [] false.

Section Definitions.
Context `{Clock} `{HandlerLibrary} `{!ValidationLibrary} `{!PcfLibrary} {G : Type} `{!PcfGateway G}.
Context `{!PcfModel} `{CoreService}.

(** The router is a constant, [request_router_] below. *)
Record PcfHandler := mkPcfHandler {
  handler_gateway_ : G;
  pcc_rule_manager_ : PccRuleManager;
  qod_pcf_handler_ : QodPcfHandler (G:=G);
  core_comm_ : bool;                          (* whether the pointer is set *)
  core_destination_ : string;
  app_sessions_ : gmap string AppSessionInfo;
  app_sessions_mutex_ : lock_state;
  forwarded : list (string * Message)         (* sent to the AF core so far *) }.

#[global] Instance PcfHandler_settable : Settable PcfHandler := λ h,
  mkPcfHandler (handler_gateway_ h) (pcc_rule_manager_ h) (qod_pcf_handler_ h) (core_comm_ h)
    (core_destination_ h) (app_sessions_ h) (app_sessions_mutex_ h) (forwarded h).

(** The constructor: the gateway of the QoD handler may be missing, its own may not. *)
Definition PcfHandler_new (core_destination : string) (qod_gateway gateway : option G) :
    result PcfHandler :=
  match gateway with
  | None => Throw (runtime_error "Failed to create PCF SBI communication service")
  | Some g => mret (mkPcfHandler g PccRuleManager_new (QodPcfHandler_new qod_gateway) false
                      core_destination ∅ Unlocked [])
  end.

(** [initialize_communication()]; [service] tells whether the service could be created. *)
Definition initialize_communication (service : bool) : M PcfHandler () :=
  modify (λ h, h <| core_comm_ := service |>) ;;
  if service then mret () else throw (runtime_error "Failed to create communication service").

Definition initialize (service : bool) : M PcfHandler () :=
  on handler_gateway_ gateway_initialize ;;
  initialize_communication service.

(** ** Application sessions *)

Definition store_app_session (session_id : string) (session_info : AppSessionInfo) :
    M PcfHandler () :=
  with_lock app_sessions_mutex_ Exclusive
    (modify (λ h, h <| app_sessions_ ::= <[session_id := session_info]> |>)).

(** A pointer to a copy of the stored information. *)
Definition get_app_session_info (session_id : string) : M PcfHandler (option AppSessionInfo) :=
  with_lock app_sessions_mutex_ Exclusive (h ← get; mret (app_sessions_ h !! session_id)).

Definition remove_app_session (session_id : string) : M PcfHandler bool :=
  with_lock app_sessions_mutex_ Exclusive
    (h ← get;
     match app_sessions_ h !! session_id with
     | Some _ => modify (λ h, h <| app_sessions_ ::= delete session_id |>) ;; mret true
     | None => mret false
     end).

(** ** Translation of requests *)

(** [if (j.contains(k)) x.set(j[k]);] *)
Definition set_member {A} (k : string) (set : json → A → result A) (j : json) (x : A) : result A :=
  if jcontains k j then v ← jindex k j; set v x else mret x.

(** [if (j.contains(from)) target[to] = j[from];] *)
Definition copy_member (from to : string) (j target : json) : result json :=
  set_member from (jassign to) j target.

(** A media component of a creation request, with its id. *)
Definition read_component (request_data component : json) : result (string * MediaComponent) :=
  v ← jindex_const "media_component_id" component;
  id ← get_string v;
  app ← jindex "af_app_id" request_data;
  c ← component_setAfAppId app MediaComponent_default;
  c ← set_member "media_type" setMedType component c;
  c ← (if jcontains "qos_info" component then
         info ← jindex "qos_info" component;
         c ← set_member "max_bw_ul" setMaxSuppBwUl info c;
         c ← set_member "max_bw_dl" setMaxSuppBwDl info c;
         c ← set_member "min_bw_ul" setMinDesBwUl info c;
         set_member "min_bw_dl" setMinDesBwDl info c
       else mret c);
  mret (id, c).

Definition read_components (request_data : json) (l : list json) :
    result (gmap string MediaComponent) :=
  foldl (λ r component, m ← r; '(id, c) ← read_component request_data component;
                        mret (<[id := c]> m))
    (mret ∅) l.

Definition read_req_data (request_data : json) : result AppSessionContextReqData :=
  d ← set_member "af_app_id" setAfAppId request_data AppSessionContextReqData_default;
  d ← set_member "ue_ipv4" setUeIpv4 request_data d;
  d ← set_member "ue_ipv6" setUeIpv6 request_data d;
  d ← set_member "ue_supi" setSupi request_data d;
  d ← set_member "media_components" (λ v d,
        if is_array v then m ← read_components request_data (jelements v); mret (setMedComponents m d)
        else mret d) request_data d;
  set_member "supp_features" setSuppFeat request_data d.

Definition update_flow (flow : json) : result json :=
  flow_info ← copy_member "flow_id" "flowId" flow jnull;
  set_member "flow_descriptions" (λ v j, if is_array v then jassign "flowDescriptions" v j else mret j)
    flow flow_info.

(** A media component of an update request, with its id. *)
Definition update_component (component : json) : result (string * json) :=
  v ← jindex_const "media_component_id" component;
  id ← get_string v;
  media_component ← copy_member "media_type" "medType" component jnull;
  media_component ←
    set_member "flows" (λ v j, if is_array v then flows ← mapM update_flow (jelements v);
                                                  jassign "fDescs" (jarray flows) j
                               else mret j) component media_component;
  media_component ←
    set_member "qos_info" (λ info j,
      qos_info ← copy_member "max_bw_ul" "maxbrUl" info jnull;
      qos_info ← copy_member "max_bw_dl" "maxbrDl" info qos_info;
      qos_info ← copy_member "min_bw_ul" "minbrUl" info qos_info;
      qos_info ← copy_member "min_bw_dl" "minbrDl" info qos_info;
      jassign "medQoS" qos_info j) component media_component;
  mret (id, media_component).

Definition update_components (l : list json) : result json :=
  foldl (λ r component, j ← r; '(id, c) ← update_component component; jassign id c j) (mret jnull) l.

Definition update_context (request_data : json) : result json :=
  set_member "media_components" (λ v j,
    if is_array v then components ← update_components (jelements v);
                       jassign "medComponents" components j
    else mret j) request_data jnull.

(** ** Responses *)

Definition reply {S} (type : string) (message : Message) (result : json) : M S Message :=
  text ← lift (dump result);
  mret (plain_message type (correlation_id message) text).

(** A "pcf_error" response. *)
Definition reply_error {S} (message : Message) (error text : string) : M S Message :=
  reply "pcf_error" message (jobject [("error", jstring error); ("message", jstring text)]).

(** The body of an operation, and its [catch] clause. *)
Definition answering {S} (error : string) (message : Message) (m : json → M S Message) : M S Message :=
  try_catch (request_data ← lift (parse (payload message)); m request_data)
    (λ e, reply_error message error (what e)).

(** The answer to a creation or an update, with the PCC rules of the PCF's answer. *)
Definition active_session (id : string) (session_data : json) : result json :=
  let result := jobject [("app_session_id", jstring id); ("status", jstring "active")] in
  set_member "pccRules" (λ v j, if is_object v then jassign "pcc_rules" v j else mret j)
    session_data result.

(** The id of the session of a request, which must be known. *)
Definition known_session (request_data : json) : M PcfHandler (string * AppSessionInfo) :=
  if negb (jcontains "app_session_id" request_data)
  then throw (runtime_error "Missing required field: app_session_id")
  else
    v ← lift (jindex "app_session_id" request_data);
    id ← lift (get_string v);
    session_info ← get_app_session_info id;
    match session_info with
    | None => throw (runtime_error ("App session not found: " +:+ id))
    | Some info => mret (id, info)
    end.

(** ** Operations *)

Definition create_app_session (app_session_data : Message) : M PcfHandler Message :=
  answering "bad_request" app_session_data (λ request_data,
    lift (dump request_data) ;;
    data ← lift (read_req_data request_data);
    json_data ← lift (app_session_to_json data);
    lift (dump json_data) ;;
    '(success, session_data) ← on handler_gateway_ (gateway_create_app_session json_data);
    text ← lift (dump session_data);
    if success : bool then
      let session_info := AppSessionInfo_default <| app_session_active := true |> in
      store_app_session (app_session_id session_info) session_info ;;
      result ← lift (active_session (app_session_id session_info) session_data);
      reply "pcf_app_session_created" app_session_data result
    else reply_error app_session_data "app_session_creation_failed" text).

(** What an answer of the PCF changes in the information. *)
Definition refreshed (response : json) (session_info : AppSessionInfo) : result AppSessionInfo :=
  session_info ← set_member "medComponents" (λ v i,
    mret (if is_object v then i <| media_components := (jitems v).*1 |> else i)) response session_info;
  text ← dump response;
  mret (session_info <| app_session_context := text |>).

(** The information that changes is the copy, which is dropped. *)
Definition update_app_session (update_data : Message) : M PcfHandler Message :=
  answering "bad_request" update_data (λ request_data,
    '(id, session_info) ← known_session request_data;
    context ← lift (update_context request_data);
    '(success, response) ← on handler_gateway_ (gateway_update_app_session id context);
    if success : bool then
      lift (refreshed response session_info) ;;
      result ← lift (active_session id response);
      reply "pcf_app_session_updated" update_data result
    else
      text ← lift (dump response);
      reply_error update_data "app_session_update_failed" text).

Definition delete_app_session (delete_data : Message) : M PcfHandler Message :=
  answering "bad_request" delete_data (λ request_data,
    '(id, _) ← known_session request_data;
    success ← on handler_gateway_ (gateway_delete_app_session id jnull);
    if success : bool then
      remove_app_session id ;;
      reply "pcf_app_session_deleted" delete_data
        (jobject [("app_session_id", jstring id); ("status", jstring "deleted")])
    else reply_error delete_data "app_session_deletion_failed" "Failed to delete app session").

(** [if (!text.empty()) j[k] = text;] *)
Definition assign_text (k text : string) (j : json) : result json :=
  if empty text then mret j else jassign k (jstring text) j.

Definition described (id : string) (session_info : AppSessionInfo) (response : json) : result json :=
  j ← jassign "app_session_id" (jstring id) response;
  j ← assign_text "ue_ipv4" (ipv4_address session_info) j;
  assign_text "ue_ipv6" (ipv6_prefix session_info) j.

Definition get_app_session (get_data : Message) : M PcfHandler Message :=
  answering "bad_request" get_data (λ request_data,
    '(id, session_info) ← known_session request_data;
    '(success, response) ← on handler_gateway_ (gateway_get_app_session id);
    text ← lift (dump response);
    if success : bool then
      result ← lift (described id session_info response);
      reply "pcf_app_session_info" get_data result
    else reply_error get_data "app_session_retrieval_failed" text).

(** ** Notifications *)

(** [core_comm_->send_async(core_destination_, message, ...)]; its answers are only logged. *)
Definition forward_notification (notification_type : string) (notification_data : json) :
    M PcfHandler () :=
  text ← lift (dump (jobject [("event_type", jstring notification_type); ("source", jstring "pcf");
                              ("data", notification_data)]));
  h ← get;
  if core_comm_ h then
    let message := mkMessage "network_event" "" text
                     {["event_type" := notification_type; "source" := "pcf"]} in
    let ms := forwarded h ++ [(core_destination_ h, message)] in
    modify (λ h, h <| forwarded := ms |>) ;;
    match core_answer ms with
    | Some e => throw e
    | None => mret ()
    end
  else mret ().

Definition handle_notification (notification_data : Message) : M PcfHandler Message :=
  answering "notification_handling_failed" notification_data (λ notification,
    event_type ← lift (optional_member "event_type" get_string notification);
    forward_notification (value_or "unknown" event_type) notification ;;
    reply "pcf_notification_ack" notification_data (jobject [("status", jstring "acknowledged")])).

(** ** Messages *)

(** A lambda that passes the message to a method of the QoD handler, which reads it. *)
Definition to_qod_handler (f : Message → M (QodPcfHandler (G:=G)) Message) :
    MessageHandlerFunc PcfHandler := λ message,
  match message with
  | None => undefined null_dereference
  | Some message => response ← on qod_pcf_handler_ (f message); mret (Some response)
  end.

(** The types registered with the communication service; all go to [process_message]. *)
Definition register_handlers : list string :=
  ["pcf_create_app_session"; "pcf_update_app_session"; "pcf_delete_app_session";
   "pcf_get_app_session"; "pcf_notification";
   "pcf_create_qod_session"; "pcf_update_qod_session"; "pcf_delete_qod_session"].

Definition register_qod_handlers : M (RequestRouter PcfHandler) () :=
  register_handler "pcf_create_qod_session" (Some (to_qod_handler handle_qod_create_pcf_session)) ;;
  register_handler "pcf_update_qod_session" (Some (to_qod_handler handle_qod_update_pcf_session)) ;;
  register_handler "pcf_delete_qod_session" (Some (to_qod_handler handle_qod_delete_pcf_session)).

(** The router after [initialize]. *)
Definition request_router_ : RequestRouter PcfHandler :=
  obj (register_qod_handlers (World 0 RequestRouter_new)).2.

Definition process_message : MessageHandlerFunc PcfHandler := λ message,
  match message with
  | None => mret None
  | Some _ => route_message request_router_ message
  end.
End Definitions.
