(* ===== verification/PcfExamples.v ===== *)
(** * The PCF handler on concrete libraries

    Simple instances of what the code of the PCF handler takes from libraries, on which the examples
    run. *)

From S2P Require Import Prelude Effects CxxString UeKey QodTypes Json Comms ServiceHelpers PcfHelpers.
From S2P Require Import PcfGateway QodPcfHandler PcfHandler.

Section Instances.
Context `{Json}.

(** Responses with the error code, or "success", as their type. *)
Definition handler_helpers : HandlerLibrary := {|
  helper_extract_context := λ m, mkServiceContext "" (correlation_id m) false None;
  helper_extract_path_param := λ m k, value_or "" (metadata m !! k);
  helper_create_error_response := λ status code text correlation, plain_message code correlation text;
  helper_create_success_response := λ j status correlation,
    text ← dump j; mret (plain_message "success" correlation text);
  INVALID_ARGUMENT := "INVALID_ARGUMENT"; OUT_OF_RANGE := "OUT_OF_RANGE"; NOT_FOUND := "NOT_FOUND";
  MISSING_IDENTIFIER := "MISSING_IDENTIFIER"; UNNECESSARY_IDENTIFIER := "UNNECESSARY_IDENTIFIER";
  INVALID_SINK := "INVALID_SINK";
  qos_status_to_string := λ s, match s with
                               | REQUESTED => "REQUESTED"
                               | AVAILABLE => "AVAILABLE"
                               | UNAVAILABLE => "UNAVAILABLE"
                               end;
  status_info_to_string := λ s, match s with
                                | DURATION_EXPIRED => "DURATION_EXPIRED"
                                | NETWORK_TERMINATED => "NETWORK_TERMINATED"
                                | DELETE_REQUESTED => "DELETE_REQUESTED"
                                end;
  get_port := get_int;
  server_is_empty := λ s, negb (has_value (server_ipv4_address s) || has_value (server_ipv6_address s));
  SinkCredential_default := mkSinkCredential PLAIN None None "bearer" None None None None;
  local_time_point := λ _, 0 |}.

(** A validation result that only knows whether it is valid. *)
Definition plain_validation : ValidationLibrary := {|
  ValidationResult := bool; ValidationResult_new := true;
  result_add_error := λ _ _, false; result_merge := andb; is_valid := λ b, b;
  is_valid_new := eq_refl; is_valid_add_error := λ _ _, eq_refl; is_valid_merge := λ _ _, eq_refl |}.

Definition blank_session : QodSession :=
  mkQodSession "" "" None (mkApplicationServer None None) None None "" None 0 None None None None None
    REQUESTED None None None None None None None.

(** Mappings are read as 5QI 9 without rates. *)
Definition plain_pcf_library : @PcfLibrary _ plain_validation := {|
  ports_is_empty := λ spec, bool_decide (ports spec = []) && bool_decide (ranges spec = []);
  QodSession_default := blank_session;
  try_deserialize_qos_mapping := λ _,
    (true : @ValidationResult plain_validation, mkQosProfileMapping 9 None 0 0 None false None None None None);
  validate_qos_mapping := λ _, (true : @ValidationResult plain_validation);
  append_validation_errors := λ _, "" |}.

(** Request data as the list of the members set, components as their ids. *)
Definition plain_model : PcfModel :=
  let set k v l : result (list (string * json)) := mret (l ++ [(k, v)]) in {|
  AppSessionContextReqData := list (string * json); AppSessionContextReqData_default := [];
  setAfAppId := set "afAppId"; setUeIpv4 := set "ueIpv4"; setUeIpv6 := set "ueIpv6";
  setSupi := set "supi"; setSuppFeat := set "suppFeat";
  MediaComponent := list (string * json); MediaComponent_default := [];
  component_setAfAppId := set "afAppId"; setMedType := set "medType";
  setMaxSuppBwUl := set "maxSuppBwUl"; setMaxSuppBwDl := set "maxSuppBwDl";
  setMinDesBwUl := set "minDesBwUl"; setMinDesBwDl := set "minDesBwDl";
  setMedComponents := λ m l, l ++ [("medComponents", jarray (jstring <$> (map_to_list m).*1))];
  app_session_to_json := λ l, mret (jobject [("ascReqData", jobject l)]) |}.
End Instances.

(** A PCF that creates the session "session-1" and accepts everything else. *)
Definition accepting_pcf : HttpService := λ rs,
  inr (match rs with
       | [_] => mkHttpResponse false "" 201
                  [("location", "http://pcf/npcf-policyauthorization/v1/app-sessions/session-1")] ""
       | _ => mkHttpResponse false "" 200 [] ""
       end).

(** Messages to the AF core never fail. *)
Definition quiet_core : CoreService := λ _, None.
