(* ===== verification/QodPcfSpec.v ===== *)
(** * The sessions of the QoD PCF handler

    Over every sequence of creations, updates and deletions the handler is safe, and its mapping of
    sessions only grows: nothing ever removes a session or makes it active. *)

From S2P Require Import Prelude Effects CxxString UeKey UeState QodTypes Json Comms ServiceHelpers PcfHelpers.
From S2P Require Import PcfGateway QodPcfHandler PcfRequestSpec PccRuleManager PcfHandler PcfExamples.

Section Specification.
Context `{Clock} `{JsonLaws} `{!JsonDefined} `{!HandlerLibrary} `{!ValidationLibrary} `{!PcfLibrary}.
Context {G : Type} `{!PcfGateway G} `{!PcfGatewayDefined (G:=G)}.
Implicit Types (h : QodPcfHandler (G:=G)) (session : QodSession).

Hypothesis success_defined : ∀ j status text, defined (helper_create_success_response j status text).

(** The gateway of a handler is set and usable. *)
Definition connected h : Prop := ∃ g, pcf_gateway_ h = Some g ∧ usable g.

(** An entry of the mapping: its id, the id at the PCF, and a state in which something is pending. *)
Definition pending (id : string) (info : PcfSessionInfo) : Prop :=
  info_qod_session_id info = id ∧ info_pcf_session_id info ≠ "" ∧
  info_state info ∈ [CREATING; UPDATING; DELETING].

(** The invariant, for the sessions [D] that are known already. *)
Definition mapped (D : gset string) h : Prop :=
  connected h ∧ D ⊆ dom (qod_to_pcf_sessions_ h) ∧ map_Forall pending (qod_to_pcf_sessions_ h).
Definition managed (D : gset string) h : Prop := mapped D h ∧ sessions_mutex_ h = Unlocked.

Lemma locked_total D {A} (m : M (QodPcfHandler (G:=G)) A) P :
  total (mapped D) m P → total (managed D) (with_lock sessions_mutex_ Exclusive m) P.
Proof. by apply total_with_lock. Qed.

Lemma gateway_total D {A} (f : M G A) :
  total usable f (λ _, True) → total (managed D) (gateway f) (λ _, True).
Proof.
  intros Hf [n h] [[(g & Eg & Hg) Hm] Hu]. unfold wp, gateway, on_pointer. cbn [obj ticks] in *. rewrite Eg.
  specialize (Hf (World n g) Hg). unfold wp in Hf. destruct (f (World n g)) as [r [n' g']]. simpl in *.
  destruct Hf as [Hg' Hr]. split; [|done]. split; [|done]. split; [by exists g'|done].
Qed.

Lemma change_total D f id (P : () → Prop) :
  (∀ k info, pending k info → pending k (f info)) → P () →
  total (mapped D) (modify (change_info (G:=G) f id)) P.
Proof.
  intros Hf HP. apply total_modify; [|done]. intros h (Hc & HD & Hp). split; [done|]. simpl. split.
  - by rewrite dom_alter_L.
  - intros k info Hk. apply lookup_alter_Some in Hk as [(-> & info' & Hk & ->)|[_ Hk]]; auto.
Qed.

Lemma mapping_total D id pcf_id :
  pcf_id ≠ "" → total (managed D) (store_session_mapping id pcf_id CREATING) (λ _, True).
Proof.
  intros Hid. apply locked_total. eapply total_bind; [apply total_now|]. intros t _. cbv zeta.
  apply total_modify; [|done]. intros h (Hc & HD & Hp). split; [done|]. simpl. split; [set_solver|].
  apply map_Forall_insert_2; [|done]. split_and!; [done..|]. simpl. set_solver.
Qed.

Lemma state_total D pcf_id st :
  st ∈ [CREATING; UPDATING; DELETING] →
  total (managed D) (update_session_state (G:=G) pcf_id st) (λ _, True).
Proof.
  intros Hst. apply locked_total. eapply total_bind; [apply total_get|]. intros h _.
  destruct (pcf_to_qod_sessions_ h !! pcf_id); [|by apply total_ret].
  apply change_total; [|done]. intros k info (? & ? & ?). by split_and!.
Qed.

Lemma request_total D id j :
  total (managed D) (store_info (G:=G) (λ i, i <| last_request := j |>) id) (λ _, True).
Proof. apply locked_total, change_total; [|done]. by intros k info. Qed.

Lemma response_total D type pcf_id correlation :
  total (managed D) (session_response (G:=G) type pcf_id correlation) (λ _, True).
Proof.
  unfold session_response. apply (total_bind _ _ (λ _, True)); [by apply total_lift; [apply jassign_defined|]|].
  intros j _. apply (total_bind _ _ (λ _, True)); [by apply total_lift; [apply success_defined|]|].
  intros. by apply total_ret.
Qed.

Lemma lifted_total D {A} (r : result A) :
  defined r → total (managed D) (lift r) (λ _, True).
Proof. intros Hr. by apply total_lift. Qed.

Lemma nothing_total D (m : M (QodPcfHandler (G:=G)) Message) :
  total (managed D) m (λ _, True) → total (managed D) (or_nothing m) (λ _, True).
Proof.
  intros Hm. apply total_try; [|intros; by apply total_ret].
  eapply total_bind; [exact Hm|]. intros. by apply total_ret.
Qed.

Lemma app_session_id_nonempty location id : app_session_id_of location = inr id → id ≠ "".
Proof.
  unfold app_session_id_of. destruct location as [l|]; [|done]. destruct (find _ l) as [pos|]; [|done].
  cbv zeta. generalize (substr (pos + String.length app_sessions_pattern) l). intros s.
  destruct (empty s) eqn:E; [done|]. intros [= <-] ->. done.
Qed.

Lemma location_defined response : defined (location_of response).
Proof.
  unfold location_of. destruct (jcontains "headers" response); [|done].
  apply defined_bind; [apply jindex_defined|]. intros headers _. destruct (_ || _); [|done].
  apply defined_bind; [apply value_string_defined|]. intros lower_case _.
  by apply defined_bind; [apply value_string_defined|].
Qed.

Lemma info_total D id :
  total (managed D) (get_pcf_session_info (G:=G) id)
    (from_option (λ info, info_pcf_session_id info ≠ "") True).
Proof.
  apply locked_total. eapply total_bind; [apply total_get|]. intros h (_ & _ & Hp).
  apply total_ret. destruct (qod_to_pcf_sessions_ h !! id) as [info|] eqn:E; [|done].
  by destruct (Hp _ _ E) as (_ & ? & _).
Qed.

(** A step whose value does not matter. *)
Lemma step_total D {A B} (m : M (QodPcfHandler (G:=G)) A) (f : A → M (QodPcfHandler (G:=G)) B) :
  total (managed D) m (λ _, True) → (∀ a, total (managed D) (f a) (λ _, True)) →
  total (managed D) (m ≫= f) (λ _, True).
Proof. intros Hm Hf. by eapply total_bind; [exact Hm|auto]. Qed.

Lemma update_request_defined session info : defined (build_pcf_update_request session info).
Proof.
  unfold build_pcf_update_request. destruct (component_builds session) as (j & -> & _).
  apply assign_members_defined.
Qed.

Lemma create_request_total D session :
  total (managed D) (lift (build_pcf_create_request session))
    (λ j, defined (run (validate_app_session_context j))).
Proof.
  destruct (request_verdict session) as (j & E & Hv). apply total_lift; [by rewrite E|].
  intros j' E'. rewrite E in E'. injection E' as <-.
  destruct (Hv ValidationResult_new) as (r & Er & _). unfold run. by rewrite Er.
Qed.
#[local] Hint Resolve lifted_total gateway_total response_total request_total mapping_total : handler.
#[local] Hint Resolve dump_defined location_defined update_request_defined assign_members_defined : handler.
#[local] Hint Resolve create_total update_total delete_total : handler.

(** Split a computation of the handler into its steps. *)
Ltac handler_steps :=
  repeat first
    [ apply total_ret; exact I
    | apply step_total; [solve [eauto with handler]|intros ?; cbv zeta]
    | case_match ].

Lemma create_session_total D session :
  total (managed D) (create_pcf_session (G:=G) session) (λ _, True).
Proof.
  apply nothing_total. eapply total_bind; [apply create_request_total|]. intros pcf_request Hv.
  handler_steps. apply step_total; [by eapply mapping_total, app_session_id_nonempty|intros _].
  handler_steps.
Qed.

Lemma update_session_total D session :
  total (managed D) (update_pcf_session (G:=G) session) (λ _, True).
Proof.
  unfold update_pcf_session. eapply total_bind; [apply info_total|]. intros [info|] Hi; [|by apply total_ret].
  apply nothing_total. handler_steps.
  apply step_total; [apply state_total; set_solver|intros _]. handler_steps.
Qed.

Lemma delete_session_total D session :
  total (managed D) (delete_pcf_session (G:=G) session) (λ _, True).
Proof.
  unfold delete_pcf_session. eapply total_bind; [apply info_total|]. intros [info|] Hi; [|by apply total_ret].
  apply nothing_total. handler_steps.
  apply step_total; [apply state_total; set_solver|intros _]. handler_steps.
Qed.

(** The operations on sessions, and the handlers they are reached from. *)
Inductive session_operation : M (QodPcfHandler (G:=G)) (option Message) → Prop :=
  | creating session : session_operation (create_pcf_session session)
  | updating session : session_operation (update_pcf_session session)
  | deleting session : session_operation (delete_pcf_session session).

Inductive handling : QodPcfHandler (G:=G) → Prop :=
  | handling_start g : usable g → handling (QodPcfHandler_new (Some g))
  | handling_step h n f : handling h → session_operation f → handling (obj (f (World n h)).2).

Lemma operation_total D f : session_operation f → total (managed D) f (λ _, True).
Proof.
  destruct 1; [apply create_session_total|apply update_session_total|apply delete_session_total].
Qed.

Lemma handling_managed h : handling h → managed (dom (qod_to_pcf_sessions_ h)) h.
Proof.
  induction 1 as [g Hg|h n f _ IH Hf].
  - split; [|done]. split; [by exists g|]. split; [done|apply map_Forall_empty].
  - destruct (operation_total _ f Hf (World n h) IH) as [[(Hc & _ & Hp) Hu] _]. by split.
Qed.

(** C13: the sessions of the PCF over every sequence of creations, updates and deletions.  No operation
    reaches undefined behaviour, whatever the PCF answers.  Every stored session has its own id and
    an id at the PCF, and something is always pending: none is ever active or terminated, as the
    functions for the answers of the PCF are not called.  No operation forgets a session, a deletion
    included. *)
Theorem pcf_sessions_managed h n f :
  handling h → session_operation f →
  map_Forall pending (qod_to_pcf_sessions_ h) ∧
  defined (f (World n h)).1 ∧
  dom (qod_to_pcf_sessions_ h) ⊆ dom (qod_to_pcf_sessions_ (obj (f (World n h)).2)).
Proof.
  intros Hh%handling_managed Hf. destruct (operation_total _ f Hf (World n h) Hh) as [[(_ & HD & _) _] Hr].
  split; [by destruct Hh as [(_ & _ & ?) _]|]. split; [by destruct (f (World n h)).1|done].
Qed.
End Specification.

(** ** Witness *)

Section Witness.
#[local] Existing Instance tick_clock.

Definition no_text (text : string) : result tree := Throw (json_parse_error "parse error").
Definition unread_json : Json := tree_json_with no_text.
Definition unread_laws : @JsonLaws unread_json := tree_laws no_text.
Definition unread_defined : @JsonDefined unread_json := tree_json_defined no_text (λ _, I).
#[local] Existing Instances unread_json unread_laws unread_defined handler_helpers plain_validation
  plain_pcf_library accepting_pcf.

Definition stored_device : QodDevice :=
  mkQodDevice None None (Some (mkDeviceIpv4Addr (mkIpv4Addr "10.45.0.2") None None)) None.
Definition stored_session : QodSession :=
  blank_session <| session_id := "s1" |> <| device := Some stored_device |> <| qos_profile := "QOS_L" |>.
Definition new_handler : QodPcfHandler (G:=HttpPcfGateway) :=
  QodPcfHandler_new (Some (HttpPcfGateway_new true "v1")).
Definition handler_after_create : QodPcfHandler (G:=HttpPcfGateway) :=
  Eval vm_compute in obj (create_pcf_session stored_session (World 0 new_handler)).2.

Lemma handling_after_create : handling handler_after_create.
Proof.
  assert (E : obj (create_pcf_session stored_session (World 0 new_handler)).2 = handler_after_create)
    by (vm_compute; reflexivity).
  rewrite <- E. apply handling_step; [by apply handling_start|apply creating].
Qed.

(** After its deletion the session is still there, being deleted. *)
Lemma pcf_sessions_managed_witness :
  (info_state <$> qod_to_pcf_sessions_ handler_after_create !! "s1") = Some CREATING ∧
  let w := (delete_pcf_session stored_session (World 5 handler_after_create)).2 in
  "s1" ∈ dom (qod_to_pcf_sessions_ (obj w)) ∧
  (info_state <$> qod_to_pcf_sessions_ (obj w) !! "s1") = Some DELETING.
Proof.
  split; [vm_compute; reflexivity|]. intros w. split; [|vm_compute; reflexivity].
  refine (proj2 (proj2 (pcf_sessions_managed _ handler_after_create 5 (delete_pcf_session stored_session)
                          handling_after_create (deleting stored_session))) "s1" _).
  - intros j status text. by apply defined_bind; [apply dump_defined|].
  - apply elem_of_dom. by eexists.
Defined.
End Witness.
