(* ===== verification/FlowSpec.v ===== *)
(** * Flow descriptions: the tests of the repository, and what is sent

    [southbound/pcf_handler/include/flow_description_utils.h] and its unit tests
    [southbound/pcf_handler/tests/test_flow_descriptions.cpp], which are run on the definitions of
    [QodPcfHandler].  The tests generate the flows of a session on their own ([generate_flows]); they
    are compared with those the PCF is sent. *)

From S2P Require Import Prelude Effects CxxString UeKey QodTypes Json ServiceHelpers PcfHelpers PcfGateway.
From S2P Require Import QodPcfHandler PcfRequestSpec PcfExamples.

(** ** The test suite *)

(** [EXPECT_EQ(specs[i], s)] *)
Definition has_nth (specs : list string) (i : nat) (s : string) : bool := bool_decide (specs !! i = Some s).

Record FlowInput := mkFlowInput {
  src_ip : string; dst_ip : string; input_device_ports : option PortsSpec; input_server_ports : option PortsSpec }.

(** [FlowInput input;] with the ports given. *)
Definition with_ports (device_ports server_ports : option PortsSpec) : FlowInput :=
  mkFlowInput "192.168.1.100" "10.0.0.1" device_ports server_ports.

Section Tests.
Context `{Json} `{!ValidationLibrary} `{!PcfLibrary}.

Definition specs_of (spec : option PortsSpec) : list string :=
  match spec with
  | Some spec => if negb (ports_is_empty spec) then collect_port_specs spec else []
  | None => []
  end.

Definition generate_flows (input : FlowInput) : list string :=
  let src_specs := specs_of (input_device_ports input) in
  let dst_specs := specs_of (input_server_ports input) in
  if negb (bool_decide (src_specs = [])) && negb (bool_decide (dst_specs = [])) then
    sp ← src_specs; dp ← dst_specs;
    [format_flow_description "out" (src_ip input) sp (dst_ip input) dp;
     format_flow_description "in" (dst_ip input) dp (src_ip input) sp]
  else if negb (bool_decide (src_specs = [])) then
    sp ← src_specs;
    [format_flow_description "out" (src_ip input) sp (dst_ip input) "";
     format_flow_description "in" (dst_ip input) "" (src_ip input) sp]
  else if negb (bool_decide (dst_specs = [])) then
    dp ← dst_specs;
    [format_flow_description "out" (src_ip input) "" (dst_ip input) dp;
     format_flow_description "in" (dst_ip input) dp (src_ip input) ""]
  else
    [format_flow_description "out" (src_ip input) "" (dst_ip input) "";
     format_flow_description "in" (dst_ip input) "" (src_ip input) ""].

(** Every test with its expectations, under its name. *)
Definition UplinkNoPorts : bool :=
  let result := format_flow_description "out" "192.168.1.1" "" "10.0.0.1" "" in
  String.eqb result "permit out ip from 192.168.1.1 to 10.0.0.1".

Definition DownlinkNoPorts : bool :=
  let result := format_flow_description "in" "10.0.0.1" "" "192.168.1.1" "" in
  String.eqb result "permit in ip from 10.0.0.1 to 192.168.1.1".

Definition UplinkWithSinglePorts : bool :=
  let result := format_flow_description "out" "192.168.1.1" "5000" "10.0.0.1" "8080" in
  String.eqb result "permit out ip from 192.168.1.1 5000 to 10.0.0.1 8080".

Definition DownlinkWithSinglePorts : bool :=
  let result := format_flow_description "in" "10.0.0.1" "8080" "192.168.1.1" "5000" in
  String.eqb result "permit in ip from 10.0.0.1 8080 to 192.168.1.1 5000".

Definition UplinkWithPortRanges : bool :=
  let result := format_flow_description "out" "192.168.1.1" "5000-5100" "10.0.0.1" "8080-8090" in
  String.eqb result "permit out ip from 192.168.1.1 5000-5100 to 10.0.0.1 8080-8090".

Definition OnlySourcePort : bool :=
  let result := format_flow_description "out" "192.168.1.1" "5000" "10.0.0.1" "" in
  String.eqb result "permit out ip from 192.168.1.1 5000 to 10.0.0.1".

Definition OnlyDestPort : bool :=
  let result := format_flow_description "out" "192.168.1.1" "" "10.0.0.1" "8080" in
  String.eqb result "permit out ip from 192.168.1.1 to 10.0.0.1 8080".

Definition AnyAddresses : bool :=
  let result := format_flow_description "out" "any" "" "any" "" in
  String.eqb result "permit out ip from any to any".

Definition ProtocolIsAlwaysIp : bool :=
  let result := format_flow_description "out" "any" "" "any" "" in
  has_value (find " ip " result) &&
  negb (has_value (find " 17 " result)) &&
  negb (has_value (find " 6 " result)).

Definition Ipv6Addresses : bool :=
  let result := format_flow_description "out" "2001:db8:85a3::1" "5000" "2001:db8:1::1" "8080" in
  String.eqb result "permit out ip from 2001:db8:85a3::1 5000 to 2001:db8:1::1 8080".

Definition EmptyPortsSpec : bool :=
  let spec := mkPortsSpec [] [] in let specs := collect_port_specs spec in
  bool_decide (specs = []).

Definition SinglePort : bool :=
  let spec := mkPortsSpec [] [5000] in let specs := collect_port_specs spec in
  (length specs =? 1)%nat &&
  has_nth specs 0 "5000".

Definition MultiplePorts : bool :=
  let spec := mkPortsSpec [] [5000; 5001; 8080] in let specs := collect_port_specs spec in
  (length specs =? 3)%nat &&
  has_nth specs 0 "5000" &&
  has_nth specs 1 "5001" &&
  has_nth specs 2 "8080".

Definition SingleRange : bool :=
  let spec := mkPortsSpec [mkPortRange 5000 5100] [] in let specs := collect_port_specs spec in
  (length specs =? 1)%nat &&
  has_nth specs 0 "5000-5100".

Definition DegenerateRangeTreatedAsSinglePort : bool :=
  let spec := mkPortsSpec [mkPortRange 5000 5000] [] in let specs := collect_port_specs spec in
  (length specs =? 1)%nat &&
  has_nth specs 0 "5000".

Definition MultipleRanges : bool :=
  let spec := mkPortsSpec [mkPortRange 5000 5100; mkPortRange 6000 6200] [] in let specs := collect_port_specs spec in
  (length specs =? 2)%nat &&
  has_nth specs 0 "5000-5100" &&
  has_nth specs 1 "6000-6200".

Definition MixedPortsAndRanges : bool :=
  let spec := mkPortsSpec [mkPortRange 5000 5100] [80; 443] in let specs := collect_port_specs spec in
  (length specs =? 3)%nat &&
  has_nth specs 0 "80" &&
  has_nth specs 1 "443" &&
  has_nth specs 2 "5000-5100".

Definition BoundaryPorts : bool :=
  let spec := mkPortsSpec [] [0; 65535] in let specs := collect_port_specs spec in
  (length specs =? 2)%nat &&
  has_nth specs 0 "0" &&
  has_nth specs 1 "65535".

Definition FullPortRange : bool :=
  let spec := mkPortsSpec [mkPortRange 0 65535] [] in let specs := collect_port_specs spec in
  (length specs =? 1)%nat &&
  has_nth specs 0 "0-65535".

Definition NoPorts_GenericBidirectionalFlow : bool :=
  let flows := generate_flows (with_ports None None) in
  (length flows =? 2)%nat &&
  has_nth flows 0 "permit out ip from 192.168.1.100 to 10.0.0.1" &&
  has_nth flows 1 "permit in ip from 10.0.0.1 to 192.168.1.100".

Definition SinglePortBothSides : bool :=
  let flows := generate_flows (with_ports (Some (mkPortsSpec [] [5000])) (Some (mkPortsSpec [] [8080]))) in
  (length flows =? 2)%nat &&
  has_nth flows 0 "permit out ip from 192.168.1.100 5000 to 10.0.0.1 8080" &&
  has_nth flows 1 "permit in ip from 10.0.0.1 8080 to 192.168.1.100 5000".

Definition PortRangeBothSides : bool :=
  let flows := generate_flows (with_ports (Some (mkPortsSpec [mkPortRange 5000 5100] [])) (Some (mkPortsSpec
    [mkPortRange 8080 8090] []))) in
  (length flows =? 2)%nat &&
  has_nth flows 0 "permit out ip from 192.168.1.100 5000-5100 to 10.0.0.1 8080-8090" &&
  has_nth flows 1 "permit in ip from 10.0.0.1 8080-8090 to 192.168.1.100 5000-5100".

Definition MultiplePortsBothSides_CrossProduct : bool :=
  let flows := generate_flows (with_ports (Some (mkPortsSpec [] [5000; 5001])) (Some (mkPortsSpec [] [8080;
    8081]))) in
  (length flows =? 8)%nat &&
  has_nth flows 0 "permit out ip from 192.168.1.100 5000 to 10.0.0.1 8080" &&
  has_nth flows 1 "permit in ip from 10.0.0.1 8080 to 192.168.1.100 5000" &&
  has_nth flows 2 "permit out ip from 192.168.1.100 5000 to 10.0.0.1 8081" &&
  has_nth flows 3 "permit in ip from 10.0.0.1 8081 to 192.168.1.100 5000" &&
  has_nth flows 4 "permit out ip from 192.168.1.100 5001 to 10.0.0.1 8080" &&
  has_nth flows 5 "permit in ip from 10.0.0.1 8080 to 192.168.1.100 5001" &&
  has_nth flows 6 "permit out ip from 192.168.1.100 5001 to 10.0.0.1 8081" &&
  has_nth flows 7 "permit in ip from 10.0.0.1 8081 to 192.168.1.100 5001".

Definition MixedPortsAndRanges_flows : bool :=
  let flows := generate_flows (with_ports (Some (mkPortsSpec [mkPortRange 6000 6100] [5000])) (Some (mkPortsSpec []
    [8080]))) in
  (length flows =? 4)%nat &&
  has_nth flows 0 "permit out ip from 192.168.1.100 5000 to 10.0.0.1 8080" &&
  has_nth flows 1 "permit in ip from 10.0.0.1 8080 to 192.168.1.100 5000" &&
  has_nth flows 2 "permit out ip from 192.168.1.100 6000-6100 to 10.0.0.1 8080" &&
  has_nth flows 3 "permit in ip from 10.0.0.1 8080 to 192.168.1.100 6000-6100".

Definition OnlyDevicePorts : bool :=
  let flows := generate_flows (with_ports (Some (mkPortsSpec [] [5000])) None) in
  (length flows =? 2)%nat &&
  has_nth flows 0 "permit out ip from 192.168.1.100 5000 to 10.0.0.1" &&
  has_nth flows 1 "permit in ip from 10.0.0.1 to 192.168.1.100 5000".

Definition OnlyServerPorts : bool :=
  let flows := generate_flows (with_ports None (Some (mkPortsSpec [] [8080]))) in
  (length flows =? 2)%nat &&
  has_nth flows 0 "permit out ip from 192.168.1.100 to 10.0.0.1 8080" &&
  has_nth flows 1 "permit in ip from 10.0.0.1 8080 to 192.168.1.100".

Definition OnlyDevicePortRange : bool :=
  let flows := generate_flows (with_ports (Some (mkPortsSpec [mkPortRange 5000 5100] [])) None) in
  (length flows =? 2)%nat &&
  has_nth flows 0 "permit out ip from 192.168.1.100 5000-5100 to 10.0.0.1" &&
  has_nth flows 1 "permit in ip from 10.0.0.1 to 192.168.1.100 5000-5100".

Definition OnlyServerPortRange : bool :=
  let flows := generate_flows (with_ports None (Some (mkPortsSpec [mkPortRange 8080 8090] []))) in
  (length flows =? 2)%nat &&
  has_nth flows 0 "permit out ip from 192.168.1.100 to 10.0.0.1 8080-8090" &&
  has_nth flows 1 "permit in ip from 10.0.0.1 8080-8090 to 192.168.1.100".

Definition MultiplePortRangesBothSides : bool :=
  let flows := generate_flows (with_ports (Some (mkPortsSpec [mkPortRange 5000 5100; mkPortRange 6000 6100] []))
    (Some (mkPortsSpec [mkPortRange 8080 8090] []))) in
  (length flows =? 4)%nat &&
  has_nth flows 0 "permit out ip from 192.168.1.100 5000-5100 to 10.0.0.1 8080-8090" &&
  has_nth flows 1 "permit in ip from 10.0.0.1 8080-8090 to 192.168.1.100 5000-5100" &&
  has_nth flows 2 "permit out ip from 192.168.1.100 6000-6100 to 10.0.0.1 8080-8090" &&
  has_nth flows 3 "permit in ip from 10.0.0.1 8080-8090 to 192.168.1.100 6000-6100".

Definition EmptyPortsSpecIsNotUsed : bool :=
  let spec := mkPortsSpec [] [] in let specs := collect_port_specs spec in
  ports_is_empty spec &&
  bool_decide (specs = []).

Definition NoProtocolNumberInOutput : bool :=
  let result := format_flow_description "out" "192.168.1.1" "5000" "10.0.0.1" "8080" in
  has_value (find "ip from" result) &&
  negb (has_value (find "17" result)).

Definition FlowDescriptionContainsToKeyword : bool :=
  let result := format_flow_description "out" "192.168.1.1" "5000" "10.0.0.1" "8080" in
  has_value (find " to " result).

Definition CidrNotationPreserved : bool :=
  let result := format_flow_description "out" "192.168.1.1" "" "198.51.100.0/24" "8080" in
  String.eqb result "permit out ip from 192.168.1.1 to 198.51.100.0/24 8080".

Definition flow_description_tests : list bool :=
  [UplinkNoPorts; DownlinkNoPorts; UplinkWithSinglePorts; DownlinkWithSinglePorts; UplinkWithPortRanges;
    OnlySourcePort; OnlyDestPort; AnyAddresses; ProtocolIsAlwaysIp; Ipv6Addresses; EmptyPortsSpec; SinglePort;
    MultiplePorts; SingleRange; DegenerateRangeTreatedAsSinglePort; MultipleRanges; MixedPortsAndRanges;
    BoundaryPorts; FullPortRange; NoPorts_GenericBidirectionalFlow; SinglePortBothSides; PortRangeBothSides;
    MultiplePortsBothSides_CrossProduct; MixedPortsAndRanges_flows; OnlyDevicePorts; OnlyServerPorts;
    OnlyDevicePortRange; OnlyServerPortRange; MultiplePortRangesBothSides; EmptyPortsSpecIsNotUsed;
    NoProtocolNumberInOutput; FlowDescriptionContainsToKeyword; CidrNotationPreserved].
End Tests.

(** ** What holds of them *)

Section Specification.
Context `{Clock} `{JsonLaws} `{!HandlerLibrary} `{!ValidationLibrary} `{!PcfLibrary}.
Implicit Types (session : QodSession).

(** [PortsSpec::is_empty] *)
Hypothesis is_empty_spec : ∀ spec,
  ports_is_empty spec = bool_decide (ports spec = []) && bool_decide (ranges spec = []).

(** Every unit test passes. *)
Theorem flow_description_tests_pass : Forall (λ test, test = true) flow_description_tests.
Proof.
  assert (Hspecs : ∀ spec, specs_of spec = from_option (λ spec, collect_port_specs spec) [] spec).
  { intros [spec|]; [|done]. unfold specs_of. rewrite is_empty_spec. by destruct spec as [[|] [|]]. }
  unfold flow_description_tests. repeat apply Forall_cons_2; try apply Forall_nil_2.
  all: try (vm_compute; reflexivity).
  all: unfold EmptyPortsSpecIsNotUsed, NoPorts_GenericBidirectionalFlow, SinglePortBothSides, PortRangeBothSides,
    MultiplePortsBothSides_CrossProduct, MixedPortsAndRanges_flows, OnlyDevicePorts, OnlyServerPorts,
    OnlyDevicePortRange, OnlyServerPortRange, MultiplePortRangesBothSides, generate_flows; rewrite ?Hspecs, ?is_empty_spec; vm_compute; reflexivity.
Qed.

Lemma fmap_flows {A} (f : A → list string) (l : list A) :
  text <$> (l ≫= f) = (a ← l; text <$> f a).
Proof. induction l as [|a l IH]; [done|]. csimpl. by rewrite fmap_app, IH. Qed.

Lemma list_bind_bind {A B D} (l : list A) (f : A → list B) (g : B → list D) :
  (l ≫= f) ≫= g = (a ← l; f a ≫= g).
Proof. induction l as [|a l IH]; [done|]. csimpl. by rewrite bind_app, IH. Qed.

(** The combinations of ports, of the texts for both sides. *)
Lemma port_pairs_cases session :
  let src := port_specs_of (device_ports session) in
  let dst := port_specs_of (application_server_ports session) in
  port_pairs session =
  if bool_decide (src = []) then
    if bool_decide (dst = []) then [("", "")] else (λ dp, ("", dp)) <$> dst
  else if bool_decide (dst = []) then (λ sp, (sp, "")) <$> src
  else sp ← src; dp ← dst; [(sp, dp)].
Proof. cbv zeta. unfold port_pairs. by destruct (port_specs_of _), (port_specs_of _). Qed.

(** The input the tests would make of a session. *)
Definition input_of session : FlowInput :=
  mkFlowInput (device_ip session) (server_ip session) (device_ports session) (application_server_ports session).

Lemma generate_flows_pairs session :
  generate_flows (input_of session) =
  (pair ← port_pairs session;
   [format_flow_description "out" (device_ip session) pair.1 (server_ip session) pair.2;
    format_flow_description "in" (server_ip session) pair.2 (device_ip session) pair.1]).
Proof.
  unfold generate_flows, input_of. cbn [src_ip dst_ip input_device_ports input_server_ports].
  cbv zeta. rewrite port_pairs_cases. cbv zeta.
  assert (E : ∀ spec, specs_of spec = port_specs_of spec).
  { intros [spec|]; [|done]. simpl. by destruct (ports_is_empty spec). }
  rewrite !E. do 2 case_bool_decide; cbn [negb andb]; rewrite ?list_fmap_bind, ?list_bind_bind; [done..|].
  apply list_bind_ext; [|done]. intros sp. by rewrite list_bind_bind.
Qed.

(** The flows the tests generate for a session are those [build_flow_descriptions] builds, for every
    session. *)
Theorem generate_flows_builds session :
  build_flow_descriptions session = jarray (text <$> generate_flows (input_of session)).
Proof. by rewrite generate_flows_pairs, fmap_flows. Qed.

(** ** What is sent *)

(** A media sub-component with a number and one flow description. *)
Definition sub_component (n : Z) (description : string) (v : json) : Prop :=
  ∃ m, view_of v = VObject m ∧ m !! "fNum" = Some (jint n) ∧ m !! "fDescs" = Some (jarray [text description]).

(** An object of the sub-components of the flows, under the texts of their numbers from 1 on. *)
Definition sub_components (flows : list string) (j : json) : Prop :=
  ∃ m, view_of j = VObject m ∧ dom m = list_to_set (pretty <$> seqZ 1 (Z.of_nat (length flows))) ∧
    ∀ i description, flows !! i = Some description →
      ∃ v, m !! pretty (1 + Z.of_nat i) = Some v ∧ sub_component (1 + Z.of_nat i) description v.

Lemma sub_component_built n description :
  gives (media_sub_component n description) (sub_component n description).
Proof.
  destruct (builds_new "fNum" (jint n)
    [("fDescs", jarray [text description]); ("fStatus", text "ENABLED"); ("flowUsage", text "NO_INFO")])
    as (m & Hm & Hk).
  eapply gives_mono; [exact Hm|]. intros j Hj. exists m. split; [exact Hj|]. by rewrite !Hk.
Qed.

Lemma sub_component_added flows j description n v :
  sub_components flows j → n = 1 + Z.of_nat (length flows) → sub_component n description v →
  gives (jassign (pretty n) v j) (sub_components (flows ++ [description])).
Proof.
  intros (m & Hj & Hdom & Hall) -> Hv. eapply gives_mono; [exact (builds_assign _ v j m Hj)|].
  intros j' Hj'. eexists. split; [exact Hj'|]. split.
  - rewrite dom_insert_L, Hdom, length_app. simpl. rewrite Nat2Z.inj_add, seqZ_app by lia.
    rewrite fmap_app, list_to_set_app_L. simpl.
    rewrite union_empty_r_L. by rewrite (union_comm_L {[_]}).
  - intros i d Hi. rewrite lookup_insert. case_decide as E.
    + apply (inj pretty) in E. assert (i = length flows) as -> by lia.
      rewrite lookup_app_r, Nat.sub_diag in Hi by lia. simplify_eq/=. by exists v.
    + apply lookup_app_Some in Hi as [Hi|[Hlen Hi]]; [by apply Hall|].
      apply list_lookup_singleton_Some in Hi as [Hi _]. exfalso. apply E. f_equal. lia.
Qed.

(** Both directions of the combinations of ports, as rules of direction out. *)
Definition sent_flows session : list string :=
  pair ← port_pairs session;
  [format_flow_description "out" (device_ip session) pair.1 (server_ip session) pair.2;
   format_flow_description "out" (server_ip session) pair.2 (device_ip session) pair.1].

Lemma pairs_sent src dst pairs flows j :
  sub_components flows j →
  gives (foldl (λ r pair, state ← r; add_subcomp_pair src dst state pair)
           (mret (1 + Z.of_nat (length flows), j)) pairs)
    (λ state, sub_components
       (flows ++ (pair ← pairs; [format_flow_description "out" src pair.1 dst pair.2;
                                 format_flow_description "out" dst pair.2 src pair.1])) state.2).
Proof.
  revert flows j. induction pairs as [|[sp dp] pairs IH]; intros flows j Hj.
  { eexists. split; [done|]. csimpl. by rewrite app_nil_r. }
  cbn [foldl]. rewrite bind_cons. cbn [fst snd app].
  set (up := format_flow_description "out" src sp dst dp).
  set (down := format_flow_description "out" dst dp src sp).
  assert (Hstep : gives (add_subcomp_pair src dst (1 + Z.of_nat (length flows), j) (sp, dp))
            (λ state, state.1 = 1 + Z.of_nat (length (flows ++ [up; down])) ∧
                      sub_components (flows ++ [up; down]) state.2)).
  { unfold add_subcomp_pair. eapply gives_bind; [apply sub_component_built|]. intros v Hv. fold up in Hv |- *.
    eapply gives_bind; [by eapply sub_component_added|]. intros j1 Hj1. cbv zeta. fold down.
    eapply gives_bind; [apply sub_component_built|]. intros v' Hv'.
    eapply gives_bind; [eapply sub_component_added; [exact Hj1| |exact Hv']; rewrite length_app; simpl; lia|].
    intros j2 Hj2. eexists. split; [done|]. rewrite <-app_assoc in Hj2. split; [|exact Hj2].
    rewrite length_app. simpl. lia. }
  destruct Hstep as ([n' j'] & E & Hn & Hj'). simpl in Hn, Hj'. subst n'.
  change (mret (1 + Z.of_nat (length flows), j) ≫= λ st, add_subcomp_pair src dst st (sp, dp))
    with (add_subcomp_pair src dst (1 + Z.of_nat (length flows), j) (sp, dp)).
  rewrite E. eapply gives_mono; [by apply (IH (flows ++ [up; down]))|].
  intros state Hs. by rewrite <-app_assoc in Hs.
Qed.

(** C21: what the PCF is sent of the flows of a session.  For every session the media sub-components are
    one per flow, numbered from 1 on and filed under the texts of their numbers, a pair for every
    combination of a port of the device with a port of the server, each with just its flow
    description; the flow towards the device is described like the other one, as a rule of direction
    out, so that what is sent never is what the tests generate. *)
Theorem flows_sent session :
  gives (map_ports_to_media_subcomponents session) (sub_components (sent_flows session)) ∧
  sent_flows session ≠ generate_flows (input_of session).
Proof.
  split.
  - unfold map_ports_to_media_subcomponents. eapply gives_bind.
    + apply (pairs_sent _ _ (port_pairs session) []). exists ∅. split; [exact (view_object [])|].
      split; [by rewrite dom_empty_L|]. by intros i d.
    + intros [n j] Hj. by exists j.
  - rewrite generate_flows_pairs. unfold sent_flows. pose proof (port_pairs_nonempty session) as Hne.
    destruct (port_pairs session) as [|pair pairs]; [done|]. rewrite !bind_cons. intros E.
    injection E as E _. unfold format_flow_description in E.
    destruct (empty pair.2), (empty pair.1); simpl in E; discriminate E.
Qed.
End Specification.
