(* ===== verification/PcfHandlerSpec.v ===== *)
(** * What the service between the AF core and the PCF does

    The requests of the policy manager reach no handler, so no policy is ever applied; and the
    application sessions the service keeps cannot be asked for. *)

From S2P Require Import Prelude Effects CxxString QodTypes Json Comms ServiceHelpers RequestRouter.
From S2P Require Import UeState PolicyManager PolicySpec PcfHelpers PccRuleManager PcfGateway QodPcfHandler.
From S2P Require Import PcfHandler PcfExamples.

Section Specification.
Context `{Clock} `{HandlerLibrary} `{!JsonDefined} `{!ValidationLibrary} `{!PcfLibrary}.
Context {G : Type} `{!PcfGateway G} `{!PcfModel} `{CoreService}.
Implicit Types (h : PcfHandler (G:=G)) (message : Message).

(** ** Messages without a handler *)

Definition qod_types : gset string :=
  {["pcf_create_qod_session"; "pcf_update_qod_session"; "pcf_delete_qod_session"]}.

Definition unhandled message : Message :=
  plain_message "error.unhandled_message_type" (correlation_id message)
    ("No handler registered for message type: " +:+ message_type message).

Lemma process_unhandled message (w : world (PcfHandler (G:=G))) :
  message_type message ∉ qod_types → process_message (Some message) w = (Ok (Some (unhandled message)), w).
Proof.
  intros Ht. unfold process_message, route_message. rewrite (not_elem_of_dom_1 (D:=gset string)); [done|].
  intros Hd. apply Ht. by vm_compute in Hd |- *.
Qed.

(** ** Policies *)

Section Policies.
Context `{IterationOrder} `{!PolicyEnvironment}.

(** The answers the policy manager gets are answers of a PCF handler, in whatever state. *)
Definition answered_by_handler : Prop :=
  ∀ rs d message, ∃ w : world (PcfHandler (G:=G)),
    match (process_message (Some message) w).1 with
    | Ok response => policy_pcf_answer (rs ++ [(d, message)]) = inr response
    | Throw e => policy_pcf_answer (rs ++ [(d, message)]) = inl e
    | Undefined _ => True
    end.

Lemma creation_unhandled rs d k text :
  answered_by_handler →
  policy_pcf_answer (rs ++ [(d, plain_message "pcf_create_app_session" k text)]) =
    inr (Some (unhandled (plain_message "pcf_create_app_session" k text))).
Proof.
  intros Ha. destruct (Ha rs d (plain_message "pcf_create_app_session" k text)) as [w Hw].
  rewrite process_unhandled in Hw; [exact Hw|].
  apply (bool_decide_unpack _). vm_compute. exact I.
Qed.

Lemma outcome_refused m policy applied policy' rs :
  answered_by_handler → outcome m policy applied policy' rs → applied = false.
Proof.
  intros Ha Ho. inversion Ho as [| | | | |d text r t Hd Ht Hr Hty]; try done.
  unfold creation_request in Hr. rewrite creation_unhandled in Hr by done. by injection Hr as <-.
Qed.

Lemma create_policy_fails data : answered_by_handler → total managed (create_policy data) (λ _, False).
Proof.
  intros Ha [n m] Hm. destruct (create_policy_total data (World n m) Hm) as [Hm' Hd].
  split; [exact Hm'|]. destruct Hm as (Hi & Hu & _).
  pose proof (create_policy_run data n m Hi Hu) as Hs.
  destruct (read_new_policy _ _) as [r [n' policy]]. destruct Hs as [_ Hs].
  destruct r as [a|e|u]; [|by rewrite Hs|done].
  destruct (validate_policy policy); [|by rewrite Hs].
  destruct Hs as (applied & p & rs & Ho & ->). by rewrite (outcome_refused _ _ _ _ _ Ha Ho).
Qed.

(** C12: in the whole system no policy is ever applied.  The PCF handler has no handler for the type
    of the requests of the policy manager and answers that the type is not handled; therefore, over
    every sequence of requests, every stored policy is in state error, and creating a policy never
    succeeds. *)
Theorem policies_never_applied m :
  answered_by_handler → running m →
  map_Forall (λ _ policy, state policy = "error") (policies_ m) ∧
  ∀ data n, match (create_policy data (World n m)).1 with Throw _ => True | _ => False end.
Proof.
  intros Ha Hm%running_managed. split.
  - intros k policy Hk. destruct Hm as (_ & _ & Hp).
    destruct (Hp k policy Hk) as (_ & _ & [?|[_ (rs & rs' & d & text & r & _ & Hr & Hty)]]); [done|].
    rewrite creation_unhandled in Hr by done. injection Hr as <-. done.
  - intros data n. destruct (create_policy_fails data Ha (World n m) Hm) as [_ Hr].
    by destruct (create_policy data (World n m)).1.
Qed.
End Policies.

(** ** Application sessions *)

(** The operations of the handler, and the messages it routes. *)
Inductive operation : M (PcfHandler (G:=G)) (option Message) → Prop :=
  | routing (message : option Message) : operation (process_message message)
  | creating message : operation (r ← create_app_session message; mret (Some r))
  | updating message : operation (r ← update_app_session message; mret (Some r))
  | deleting message : operation (r ← delete_app_session message; mret (Some r))
  | getting message : operation (r ← get_app_session message; mret (Some r))
  | notifying message : operation (r ← handle_notification message; mret (Some r)).

(** The handlers that are reached, from one without application sessions. *)
Inductive serving : PcfHandler (G:=G) → Prop :=
  | serving_start h : app_sessions_ h = ∅ → app_sessions_mutex_ h = Unlocked → serving h
  | serving_step h n f r w :
    serving h → operation f → f (World n h) = (r, w) → defined r → serving (obj w).

(** What creation stores, under the empty id. *)
Definition created_info : AppSessionInfo := AppSessionInfo_default <| app_session_active := true |>.
Definition only_unnamed h : Prop :=
  map_Forall (λ id info, id = "" ∧ info = created_info) (app_sessions_ h).
Definition serving_ok h : Prop := only_unnamed h ∧ app_sessions_mutex_ h = Unlocked.

Lemma serving_locked mode {A} (f : M (PcfHandler (G:=G)) A) :
  preserves only_unnamed f → preserves serving_ok (with_lock app_sessions_mutex_ mode f).
Proof. intros Hf. by apply (preserves_with_lock_free only_unnamed). Qed.

Lemma reply_preserves (I : PcfHandler (G:=G) → Prop) type message result :
  preserves I (reply type message result).
Proof. unfold reply. preserves_steps. Qed.

Lemma answering_preserves (I : PcfHandler (G:=G) → Prop) error message m :
  (∀ j, preserves I (m j)) → preserves I (answering error message m).
Proof.
  intros Hm. unfold answering. apply preserves_try; [|intros; apply reply_preserves].
  preserves_steps; auto.
Qed.

Lemma gateway_preserves {A} (m : M G A) : preserves serving_ok (on handler_gateway_ m).
Proof. by apply (preserves_on _ _ (λ _, True)). Qed.

Lemma known_session_preserves data : preserves serving_ok (known_session data).
Proof.
  unfold known_session, get_app_session_info. preserves_steps. apply serving_locked. preserves_steps.
Qed.

Lemma store_preserves : preserves serving_ok (store_app_session "" created_info).
Proof.
  apply serving_locked, preserves_modify. intros h Hh. by apply map_Forall_insert_2.
Qed.

Lemma remove_preserves id : preserves serving_ok (remove_app_session id).
Proof.
  apply serving_locked. preserves_steps. by apply map_Forall_delete.
Qed.

Lemma forward_preserves type data : preserves serving_ok (forward_notification type data).
Proof. unfold forward_notification. preserves_steps. Qed.
#[local] Hint Resolve reply_preserves gateway_preserves known_session_preserves store_preserves
  remove_preserves forward_preserves : preserves.

Lemma route_preserves (message : option Message) : preserves serving_ok (process_message message).
Proof.
  destruct message as [message|]; [|apply preserves_ret].
  destruct (decide (message_type message ∈ qod_types)) as [Ht|Ht].
  - unfold process_message, route_message.
    assert (Hq : ∀ f, preserves serving_ok (to_qod_handler (G:=G) f (Some message))).
    { intros f. simpl. preserves_steps. by apply (preserves_on _ _ (λ _, True)). }
    unfold qod_types in Ht. rewrite !elem_of_union, !elem_of_singleton in Ht.
    destruct Ht as [[->| ->]| ->].
    + by apply (Hq handle_qod_create_pcf_session).
    + by apply (Hq handle_qod_update_pcf_session).
    + by apply (Hq handle_qod_delete_pcf_session).
  - intros w Hw. unfold wp. by rewrite process_unhandled.
Qed.

Lemma operation_preserves f : operation f → preserves serving_ok f.
Proof.
  intros []; [apply route_preserves|..]; (apply preserves_bind; [|intros; apply preserves_ret]);
    apply answering_preserves; intros data; preserves_steps.
Qed.

Lemma serving_serves h : serving h → serving_ok h.
Proof.
  induction 1 as [h Ha Hl|h n f r w _ IH Hf E Hd].
  - split; [|done]. unfold only_unnamed. rewrite Ha. apply map_Forall_empty.
  - pose proof (operation_preserves f Hf (World n h) IH) as Hp. unfold wp in Hp. rewrite E in Hp.
    by apply Hp.
Qed.

(** The operations that ask for a session by its id. *)
Inductive asks : (Message → M (PcfHandler (G:=G)) Message) → Prop :=
  | asks_update : asks update_app_session
  | asks_delete : asks delete_app_session
  | asks_get : asks get_app_session.

Definition not_found message (id : string) : M (PcfHandler (G:=G)) Message :=
  reply_error message "bad_request" ("App session not found: " +:+ id).

Lemma get_info_run id n h :
  app_sessions_mutex_ h = Unlocked →
  get_app_session_info id (World n h) = (Ok (app_sessions_ h !! id), World n h).
Proof.
  intros Hl. apply with_lock_run; [done..|]. destruct h. simpl in *. by subst.
Qed.

(** Creation stores every application session under the empty id, never under the id the PCF
    gave it.  Over every sequence of operations the stored sessions are that one at most; updating,
    deleting or reading a session by any other id is answered with an error and changes nothing. *)
Theorem app_sessions_unknown message data v id n h f :
  serving h → asks f →
  parse (payload message) = Ok data → jcontains "app_session_id" data = true →
  jindex "app_session_id" data = Ok v → get_string v = Ok id → id ≠ "" →
  map_Forall (λ k info, k = "" ∧ info = created_info) (app_sessions_ h) ∧
  f message (World n h) = not_found message id (World n h).
Proof.
  intros [Hu Hl]%serving_serves Hf Hp Hc Hv Hs Hid. split; [exact Hu|].
  assert (Hno : app_sessions_ h !! id = None).
  { destruct (app_sessions_ h !! id) as [info|] eqn:E; [|done]. by destruct (Hu id info E). }
  assert (Hk : known_session data (World n h) =
            (Throw (runtime_error ("App session not found: " +:+ id)), World n h)).
  { unfold known_session. rewrite Hc, Hv. cbn [negb]. erewrite bind_run; [|done]. rewrite Hs.
    erewrite bind_run; [|done]. rewrite (bind_run _ _ _ _ _ (get_info_run id n h Hl)). by rewrite Hno. }
  assert (Ha : ∀ (m : json → M (PcfHandler (G:=G)) Message),
            m data (World n h) = (Throw (runtime_error ("App session not found: " +:+ id)), World n h) →
            answering "bad_request" message m (World n h) = not_found message id (World n h)).
  { intros m E. unfold answering, try_catch, mbind, M_bind, lift. rewrite Hp. by rewrite E. }
  destruct Hf; apply Ha; unfold mbind, M_bind; by rewrite Hk.
Qed.
End Specification.

(** ** Witnesses *)

Section Witnesses.

(** The texts of the examples. *)
Definition handler_reader (text : string) : result tree :=
  if String.eqb text "create" then
    Ok (TObject [("operation", TString "create"); ("app_id", TString "app-1")])
  else if String.eqb text "ask" then Ok (TObject [("app_session_id", TString "session-1")])
  else Throw (json_parse_error "parse error").

Lemma handler_reader_defined text : defined (handler_reader text).
Proof. unfold handler_reader. by repeat case_match. Qed.

Definition handler_json : Json := tree_json_with handler_reader.
Definition handler_json_defined : @JsonDefined handler_json :=
  tree_json_defined handler_reader handler_reader_defined.
#[local] Existing Instances handler_json handler_json_defined tree_order tick_clock handler_helpers
  plain_validation plain_pcf_library plain_model accepting_pcf quiet_core.

Definition example_handler : PcfHandler (G:=HttpPcfGateway) :=
  let gateway := HttpPcfGateway_new true "v1" in
  mkPcfHandler gateway PccRuleManager_new (QodPcfHandler_new (Some gateway)) true "af_core:50051" ∅
    Unlocked [].

(** The PCF handler as the other side of the policy manager. *)
Definition connected_policies : PolicyEnvironment := {|
  policy_pcf_answer := λ rs,
    match last rs with
    | Some (_, message) =>
      match (process_message (Some message) (World 0 example_handler)).1 with
      | Ok response => inr response
      | Throw e => inl e
      | Undefined _ => inr None
      end
    | None => inr None
    end;
  policy_draw := λ n, (n mod 16)%nat;
  policy_draw_bound := λ n, Nat.mod_upper_bound n 16 (Nat.neq_succ_0 15) |}.
#[local] Existing Instance connected_policies.

Definition initialized_policies : PolicyManager :=
  PolicyManager_new <| orchestrator_ := pointer (mkAfOrchestrator {["pcf" := true]} "pcf") |>.
Definition policies_after_create : PolicyManager :=
  Eval vm_compute in
    obj (handle_qos_request (plain_message "qos_request" "1" "create") (World 0 initialized_policies)).2.

Lemma running_after_create : running policies_after_create.
Proof.
  assert (E : (handle_qos_request (plain_message "qos_request" "1" "create")
                 (World 0 initialized_policies)).2 = World 0 policies_after_create)
    by (vm_compute; reflexivity).
  change policies_after_create with (obj (World 0 policies_after_create)). rewrite <- E.
  eapply (running_request initialized_policies 0 (plain_message "qos_request" "1" "create"));
    [|apply surjective_pairing].
  by apply (running_start (pointer (mkAfOrchestrator {["pcf" := true]} "pcf")) 0 (Ok ())
              (World 0 initialized_policies)).
Qed.

Lemma policies_never_applied_witness :
  ∃ policy, policies_ policies_after_create !! "policy-0123456789abcdef" = Some policy ∧
    state policy = "error".
Proof.
  destruct (policies_ policies_after_create !! "policy-0123456789abcdef") as [policy|] eqn:E;
    [|by vm_compute in E].
  exists policy. split; [done|].
  refine (proj1 (policies_never_applied (G:=HttpPcfGateway) policies_after_create _ _) _ policy E).
  - intros rs d message. exists (World 0 example_handler).
    cbn [policy_pcf_answer connected_policies]. rewrite last_snoc.
    by destruct (process_message (Some message) (World 0 example_handler)).1.
  - exact running_after_create.
Defined.

(** After a creation, asking for the session the PCF created. *)
Definition handler_with_session : PcfHandler (G:=HttpPcfGateway) :=
  Eval vm_compute in
    obj (create_app_session (plain_message "pcf_create_app_session" "1" "create")
           (World 0 example_handler)).2.

Lemma app_sessions_unknown_witness :
  size (app_sessions_ handler_with_session) = 1%nat ∧
  (delete_app_session (plain_message "pcf_delete_app_session" "2" "ask") (World 0 handler_with_session)) =
    not_found (plain_message "pcf_delete_app_session" "2" "ask") "session-1" (World 0 handler_with_session).
Proof.
  split; [vm_compute; reflexivity|].
  refine (proj2 (app_sessions_unknown (plain_message "pcf_delete_app_session" "2" "ask")
    (TObject [("app_session_id", TString "session-1")]) (TString "session-1") "session-1" 0
    handler_with_session delete_app_session _ asks_delete _ _ _ _ _)); try reflexivity; [|discriminate].
  change handler_with_session with (obj (World 0 handler_with_session)).
  eapply (serving_step example_handler 0); [by apply serving_start| | |];
    [apply (creating (plain_message "pcf_create_app_session" "1" "create"))| |].
  - vm_compute. reflexivity.
  - done.
Defined.
End Witnesses.
