(* ===== verification/QodSessionManager.v ===== *)
(** * [QodSessionManager]: the life of QoD sessions

    [af_core/include/qod/qod_session_manager.h] and [af_core/src/qod/qod_session_manager.cpp].  The
    manager drives the two state managers, sends requests to the PCF handler and delivers
    notifications.  The PCF service, the notification handler and the random generator answer as the
    class [Environment] says; the requests and notifications sent so far are part of the state, and
    the answers may depend on all of them. *)

From S2P Require Import Prelude Effects CxxString UeKey UeState Events UeStateManager QodTypes.
From S2P Require Import QodStateManager Json Comms.

Record QodSessionConfig := mkQodSessionConfig {
  max_session_duration : Z;
  min_session_duration : Z;
  session_cleanup_interval : Z;
  unavailable_session_ttl : Z;
  enable_notifications : bool;
  api_base_url : string;
  qos_profile_max_durations : gmap string Z }.

#[global] Instance QodSessionConfig_settable : Settable QodSessionConfig := λ c,
  mkQodSessionConfig (max_session_duration c) (min_session_duration c) (session_cleanup_interval c)
    (unavailable_session_ttl c) (enable_notifications c) (api_base_url c)
    (qos_profile_max_durations c).

Definition QodSessionConfig_default : QodSessionConfig :=
  mkQodSessionConfig 86400 60 60 360 true "https://api.example.com/qod/v1" ∅.

(** A CloudEvent with the address and the credential it is delivered with. *)
Record Delivery `{QodLibrary} := mkDelivery {
  event : CloudEvent; target : string; credential : option SinkCredential }.

(** The answers of the outside: to the requests sent to the PCF service (the last one is the one to
    answer; an exception, a null pointer or a message), to the deliveries, and the draws of
    [uniform_int_distribution<>(0, 15)]. *)
Class Environment `{QodLibrary} := {
  pcf_answer : list (string * Message) → exn + option Message;
  delivery_answer : list Delivery → exn + bool;
  hex_draw : nat → nat;
  hex_draw_bound : ∀ n, (hex_draw n < 16)%nat }.

(** [QosProfileMapper::serialize_qos_mapping] of the common library. *)
Class QosMapper `{Json} := serialize_qos_mapping : QosProfileMapping → json.

Section Definitions.
Context `{CommonModels} `{Clock} `{IterationOrder} `{QodLibrary} `{!Environment} `{Json} `{!QosMapper}.

Record QodSessionManager := mkQodSessionManager {
  pcf_service_ : bool;                        (* whether the pointer is set *)
  pcf_destination_ : string;
  ue_state_manager_ : option UeStateManager;
  qod_state_manager_ : QodStateManager;
  config_ : QodSessionConfig;
  notification_handler_ : bool;               (* whether the pointer is set *)
  cleanup_running_ : bool;
  requests : list (string * Message);         (* sent to the PCF service so far *)
  deliveries : list Delivery;                 (* handed to the notification handler so far *)
  draws : nat                                 (* drawn from the generator so far *) }.

#[global] Instance QodSessionManager_settable : Settable QodSessionManager := λ m,
  mkQodSessionManager (pcf_service_ m) (pcf_destination_ m) (ue_state_manager_ m)
    (qod_state_manager_ m) (config_ m) (notification_handler_ m) (cleanup_running_ m) (requests m)
    (deliveries m) (draws m).

Implicit Types (m : QodSessionManager) (session : QodSession).

Definition default_max_durations : gmap string Z :=
  list_to_map
    [("QOS_E", 3600); ("QOS_S", 7200); ("QOS_M", 14400); ("QOS_L", 28800); ("voice", 7200);
     ("video", 14400); ("game", 28800); ("data", 86400); ("premium", 43200);
     ("enterprise", 28800)].

Definition QodSessionManager_new (ue : option UeStateManager) (qod : QodStateManager)
    (config : QodSessionConfig) : QodSessionManager :=
  let config := if bool_decide (qos_profile_max_durations config = ∅)
                then config <| qos_profile_max_durations := default_max_durations |>
                else config in
  mkQodSessionManager false "" ue qod config false false [] [] 0.

Definition initialize (service : bool) (destination : string) : M QodSessionManager () :=
  modify (λ m, m <| pcf_service_ := service |> <| pcf_destination_ := destination |>).

Definition set_notification_handler (handler : bool) : M QodSessionManager () :=
  modify (λ m, m <| notification_handler_ := handler |>).

(** The cleanup thread is a call of [cleanup_expired_sessions] per interval. *)
Definition start : M QodSessionManager () := modify (λ m, m <| cleanup_running_ := true |>).
Definition stop : M QodSessionManager () :=
  modify (λ m, m <| cleanup_running_ := false |>) ;; on qod_state_manager_ clear_all_sessions.

(** [ue_state_manager_->f(...)] and [qod_state_manager_->f(...)] *)
Definition ue {A} (f : M UeStateManager A) : M QodSessionManager A := on_pointer ue_state_manager_ f.
Definition qod {A} (f : M QodStateManager A) : M QodSessionManager A := on qod_state_manager_ f.

Definition supported_profiles_ : gset string :=
  {["QOS_E"; "QOS_S"; "QOS_M"; "QOS_L"; "voice"; "video"; "game"; "data"; "premium"; "enterprise"]}.

Definition validate_qos_profile (profile : string) : bool :=
  bool_decide (profile ∈ supported_profiles_).

Definition get_max_duration_for_profile (profile : string) m : Z :=
  match qos_profile_max_durations (config_ m) !! profile with
  | Some d => d
  | None => max_session_duration (config_ m)
  end.

(** ** Resolution of devices *)

(** The first PDU session in status "ACTIVE". *)
Definition active_pdu_session (st : AfUeSubscriptionState) : option string :=
  pdu_session_id <$> find_first (λ p, String.eqb (pdu_status p) "ACTIVE") (pdu_sessions_ st).

Definition resolve_device (d : QodDevice) : M QodSessionManager (option Supi * option string) :=
  m ← get;
  match ue_state_manager_ m with
  | None => mret (None, None)
  | Some _ =>
    ue_state ← match phone_number d with
               | Some number => ue (get_ue_state_by_gpsi (mkGpsi number))
               | None => mret None
               end;
    ue_state ← match ue_state, device_ipv4_address d with
               | None, Some a =>
                 ue_state ← (if empty (ipv4 (public_address a)) then mret None
                             else ue (get_ue_state_by_ipv4 (mkIpv4Addr (ipv4 (public_address a)))));
                 match ue_state, private_address a with
                 | None, Some b => ue (get_ue_state_by_ipv4 (mkIpv4Addr (ipv4 b)))
                 | _, _ => mret ue_state
                 end
               | _, _ => mret ue_state
               end;
    ue_state ← match ue_state, device_ipv6_address d with
               | None, Some a => ue (get_ue_state_by_ipv6_addr (mkIpv6Addr (ipv6 a)))
               | _, _ => mret ue_state
               end;
    mret (match ue_state with
          | Some st => (supi_ st, active_pdu_session st)
          | None => (None, None)
          end)
  end.

(** GPSI, IPv4 or IPv6 address of a device, in this order. *)
Definition device_key (d : QodDevice) : result (option UeKey) :=
  match phone_number d with
  | Some number => (key ← UeKey_gpsi (mkGpsi number); mret (Some key))
  | None =>
  match device_ipv4_address d with
  | Some a => (key ← UeKey_ipv4 (mkIpv4Addr (ipv4 (public_address a))); mret (Some key))
  | None =>
  match device_ipv6_address d with
  | Some a => (key ← UeKey_ipv6 (mkIpv6Addr (ipv6 a)); mret (Some key))
  | None => mret None
  end end end.

(** SUPI first, then the identifiers of the device. *)
Definition best_key (x : option Supi) (d : QodDevice) : result (option UeKey) :=
  match x with
  | Some x => (key ← UeKey_supi x; mret (Some key))
  | None => device_key d
  end.

Definition create_or_get_ue_key session : M QodSessionManager (option UeKey) :=
  m ← get;
  match ue_state_manager_ m, device session with
  | Some _, Some d => lift (best_key (ue_supi session) d)
  | _, _ => mret None
  end.

(** ** The state of the UE behind a session *)

(** The initial data: identifiers known from the device. *)
Definition describe_device (x : option Supi) (d : QodDevice) : M AfUeSubscriptionState () :=
  s ← get;
  match x with
  | Some x => when (negb (has_value (supi_ s))) (resolve_supi x)
  | None => mret ()
  end ;;
  match phone_number d with
  | Some number => set_gpsi (mkGpsi number)
  | None => mret ()
  end ;;
  match device_ipv4_address d with
  | Some a =>
    add_known_identifier "ipv4" (ipv4 (public_address a)) ;;
    match private_address a with
    | Some b => add_known_identifier "ipv4" (ipv4 b) ;; mret ()
    | None => mret ()
    end
  | None => mret ()
  end ;;
  match device_ipv6_address d with
  | Some a => add_known_identifier "ipv6" (ipv6 a) ;; mret ()
  | None => mret ()
  end ;;
  match phone_number d with
  | Some number => add_known_identifier "gpsi" number ;; mret ()
  | None => mret ()
  end.

Definition device_pdu_session (id qod_id : string) (d : QodDevice) : PduSessionData :=
  let pdu_data := PduSessionData_default <| pdu_session_id := id |> <| pdu_status := "ACTIVE" |>
                    <| pdu_session_type := "IPV4" |> in
  let pdu_data := match device_ipv4_address d with
                  | Some a =>
                    pdu_data <| ue_ipv4_address := Some (mkIpv4Addr (ipv4 (public_address a))) |>
                             <| pdu_session_type := "IPV4" |>
                  | None => pdu_data
                  end in
  let pdu_data := match device_ipv6_address d with
                  | Some a =>
                    pdu_data <| ue_ipv6_addresses ::= λ l, l ++ [mkIpv6Addr (ipv6 a)] |>
                             <| pdu_session_type :=
                                  if has_value (device_ipv4_address d) then "IPV4V6" else "IPV6" |>
                  | None => pdu_data
                  end in
  pdu_data <| active_qod_session_ids ::= λ ids, {[qod_id]} ∪ ids |>.

Definition create_or_update_ue_state session : M QodSessionManager () :=
  m ← get;
  match ue_state_manager_ m, device session with
  | Some _, Some d =>
    try_catch
      (key ← lift (best_key (ue_supi session) d);
       match key with
       | None => mret ()
       | Some key =>
         initial_state ← match ue_supi session with
                         | Some x => AfUeSubscriptionState_supi x
                         | None => AfUeSubscriptionState_key key
                         end;
         '(_, initial_state) ← local initial_state (describe_device (ue_supi session) d);
         ue (create_or_update_provisional_ue_state key (Some initial_state)) ;;
         match session_pdu_session_id session with
         | Some id =>
           when (has_value (device_ipv4_address d) || has_value (device_ipv6_address d))
             (ue (UeStateManager.add_or_update_pdu_session key
                    (device_pdu_session id (session_id session) d)) ;; mret ())
         | None => mret ()
         end
       end)
      (λ _, mret ())
  | _, _ => mret ()
  end.

Definition update_ue_state_from_pcf_response session : M QodSessionManager () :=
  m ← get;
  match ue_state_manager_ m, device session with
  | Some _, Some d =>
    try_catch
      (match ue_supi session with
       | Some x =>
         current_key ← lift (device_key d);
         match current_key with
         | Some current_key =>
           supi_key ← lift (UeKey_supi x);
           when (negb (String.eqb (get_primary_key current_key) (get_primary_key supi_key)))
             (promoted ← ue (promote_ue_state_to_resolved current_key x);
              if promoted : bool then mret ()
              else
                existing_supi_state ← ue (get_ue_state_by_supi x);
                when (has_value existing_supi_state)
                  (ue (merge_ue_states supi_key current_key) ;; mret ()))
         | None => mret ()
         end
       | None => mret ()
       end ;;
       match session_pdu_session_id session with
       | Some id =>
         key ← lift (best_key (ue_supi session) d);
         match key with
         | Some key => ue (add_qod_session_to_pdu_session key id (session_id session)) ;; mret ()
         | None => mret ()
         end
       | None => mret ()
       end)
      (λ _, mret ())
  | _, _ => mret ()
  end.
(** ** Retrieval and conflicts *)

Definition same_text (o o' : option string) : bool :=
  match o, o' with Some x, Some y => String.eqb x y | _, _ => false end.

(** Phone number, then the public or else the private IPv4 addresses, then the IPv6 address. *)
Definition device_matches (d d' : QodDevice) : bool :=
  same_text (phone_number d) (phone_number d') ||
  match device_ipv4_address d, device_ipv4_address d' with
  | Some a, Some b =>
    String.eqb (ipv4 (public_address a)) (ipv4 (public_address b)) ||
    match private_address a, private_address b with
    | Some x, Some y => String.eqb (ipv4 x) (ipv4 y)
    | _, _ => false
    end
  | _, _ => false
  end ||
  match device_ipv6_address d, device_ipv6_address d' with
  | Some a, Some b => String.eqb (ipv6 a) (ipv6 b)
  | _, _ => false
  end.

Definition retrieved (request : RetrieveSessionsRequest) session : bool :=
  String.eqb (api_consumer_id session) (ret_api_consumer_id request) &&
  bool_decide (qos_status session ≠ UNAVAILABLE) &&
  match ret_device request with
  | None => true
  | Some d => match device session with Some d' => device_matches d d' | None => false end
  end.

Definition retrieve_sessions_by_device (request : RetrieveSessionsRequest)
    : M QodSessionManager (list QodSession) :=
  all_sessions ← qod get_all_sessions;
  mret (filter (λ session, retrieved request session = true) all_sessions).

Definition same_server (a b : ApplicationServer) : bool :=
  match server_ipv4_address a, server_ipv4_address b with
  | Some x, Some y => String.eqb x y
  | _, _ => same_text (server_ipv6_address a) (server_ipv6_address b)
  end.

Definition check_session_conflict (d : QodDevice) (app_server : ApplicationServer)
    : M QodSessionManager (option string) :=
  sessions ← retrieve_sessions_by_device (mkRetrieveSessionsRequest (Some d) "");
  mret (session_id <$> find_first (λ session,
    bool_decide (qos_status session ≠ UNAVAILABLE) &&
    same_server app_server (application_server session)) sessions).

(** ** Notifications *)

Definition send_status_change_notification session (old_status : QosStatus)
    (info : option StatusInfo) : M QodSessionManager () :=
  m ← get;
  match sink session with
  | Some address =>
    if notification_handler_ m then
      let e := create_qos_status_changed_event (session_id session) (qos_status session)
                 (match info with Some _ => info | None => status_info session end)
                 (api_base_url (config_ m)) in
      let ds := deliveries m ++ [mkDelivery _ e address (sink_credential session)] in
      modify (λ m, m <| deliveries := ds |>) ;;
      match delivery_answer ds with
      | inl e => throw e
      | inr success => mret ()       (* a failure is logged *)
      end
    else mret ()
  | None => mret ()
  end.

(** [if (session.sink && config_.enable_notifications) send_...] *)
Definition notify session (old_status : QosStatus) (info : option StatusInfo)
    : M QodSessionManager () :=
  m ← get;
  when (has_value (sink session) && enable_notifications (config_ m))
    (send_status_change_notification session old_status info).

(** ** Answers of the PCF *)

Definition handle_pcf_session_response (qod_session_id pcf_id : string) (success : bool)
    (message : string) : M QodSessionManager () :=
  session_opt ← qod (get_session_by_id qod_session_id);
  match session_opt with
  | None => mret ()
  | Some session =>
    let old_status := qos_status session in
    session ←
      (if success then
         t ← now;
         let session := session <| qos_status := AVAILABLE |> <| pcf_session_id := Some pcf_id |>
                                <| started_at := Some t |>
                                <| expires_at := Some (t + seconds (duration session)) |> in
         update_ue_state_from_pcf_response session ;;
         qod (update_pcf_session_map pcf_id qod_session_id) ;;
         notify session old_status None ;;
         mret session
       else
         let session := session <| qos_status := UNAVAILABLE |>
                                <| status_info := Some NETWORK_TERMINATED |>
                                <| error_message := Some message |> in
         notify session old_status (Some NETWORK_TERMINATED) ;;
         mret session);
    qod (update_session session) ;; mret ()
  end.

(** What a termination does before the session is dropped; whether to go on. *)
Definition release_ue_state session : M QodSessionManager bool :=
  m ← get;
  go_on ← match session_pdu_session_id session with
          | Some id =>
            if has_value (ue_state_manager_ m) then
              key ← create_or_get_ue_key session;
              match key with
              | None => mret false
              | Some key =>
                ue (remove_qod_session_from_pdu_session key id (session_id session)) ;; mret true
              end
            else mret true
          | None => mret true
          end;
  mret go_on.

Definition forget_addresses session : M QodSessionManager () :=
  m ← get;
  match device session with
  | Some d =>
    when (has_value (ue_state_manager_ m))
      (key ← create_or_get_ue_key session;
       match key with
       | Some key =>
         match device_ipv4_address d with
         | Some a =>
           ue (remove_non_primary_ue_identifier key "ipv4" (ipv4 (public_address a))) ;; mret ()
         | None => mret ()
         end ;;
         match device_ipv6_address d with
         | Some a => ue (remove_non_primary_ue_identifier key "ipv6" (ipv6 a)) ;; mret ()
         | None => mret ()
         end
       | None => mret ()
       end)
  | None => mret ()
  end.

Definition handle_pcf_session_terminated (pcf_id reason : string) : M QodSessionManager () :=
  session_opt ← qod (get_session_by_pcf_session_id pcf_id);
  match session_opt with
  | None => mret ()
  | Some session =>
    go_on ←
      (if bool_decide (qos_status session = AVAILABLE) then
         let old_status := qos_status session in
         t ← now;
         let session := session <| qos_status := UNAVAILABLE |>
                                <| status_info := Some NETWORK_TERMINATED |>
                                <| expires_at := Some t |> in
         go_on ← release_ue_state session;
         if go_on : bool then
           forget_addresses session ;;
           notify session old_status (Some NETWORK_TERMINATED) ;;
           mret true
         else mret false
       else mret true);
    when go_on
      (qod (remove_session (session_id session)) ;;
       qod (remove_pcf_to_qod_session_mapping pcf_id) ;;
       mret ())
  end.

Definition handle_pdu_session_terminated_event (e : PduSessionTerminatedEvent)
    : M QodSessionManager () :=
  session_opt ← qod (get_session_by_pdu_session (event_supi e) (event_pdu_session_id e));
  match session_opt with
  | None => mret ()
  | Some qod_session =>
    qod (remove_session (session_id qod_session)) ;;
    when (bool_decide (qos_status qod_session = AVAILABLE))
      (notify qod_session (qos_status qod_session) (Some NETWORK_TERMINATED))
  end.

(** ** Requests to the PCF *)

Definition convert_ipv4_to_pcf (a : DeviceIpv4Addr) (j : json) : result json :=
  j ← assign_path ["ipv4Address"] jnull j;
  j ← assign_path ["ipv4Address"; "publicAddress"] (jstring (ipv4 (public_address a))) j;
  j ← add_member ["ipv4Address"; "privateAddress"] (jstring ∘ ipv4 <$> private_address a) j;
  add_member ["ipv4Address"; "publicPort"] (jint <$> public_port a) j.

Definition convert_device_to_pcf (d : QodDevice) (x : option Supi) : result json :=
  j ← add_member ["supi"] (jstring ∘ supi <$> x) jnull;
  j ← add_member ["gpsi"] (jstring <$> phone_number d) j;
  j ← match device_ipv4_address d with
      | Some a => convert_ipv4_to_pcf a j
      | None => mret j
      end;
  add_member ["ipv6Address"] (jstring ∘ ipv6 <$> device_ipv6_address d) j.

(** The fallback 5QI of a profile without mapping. *)
Definition fallback_5qi (profile : string) : Z :=
  if String.eqb profile "QOS_E" || String.eqb profile "voice" then 1
  else if String.eqb profile "QOS_S" || String.eqb profile "video" then 2
  else if String.eqb profile "QOS_M" || String.eqb profile "game" then 3
  else if String.eqb profile "QOS_L" then 4
  else 9.

Definition build_pcf_request session : result json :=
  j ← assign_path ["session_id"] (jstring (session_id session)) jnull;
  j ← assign_path ["qos_profile"] (jstring (qos_profile session)) j;
  j ← assign_path ["duration"] (jint (duration session)) j;
  j ← match device session with
      | Some d => pcf_device ← convert_device_to_pcf d (ue_supi session);
                  assign_path ["device"] pcf_device j
      | None => add_member ["ue_supi"] (jstring ∘ supi <$> ue_supi session) j
      end;
  j ← add_member ["application_server"; "ipv4Address"]
        (jstring <$> server_ipv4_address (application_server session)) j;
  j ← add_member ["application_server"; "ipv6Address"]
        (jstring <$> server_ipv6_address (application_server session)) j;
  j ← match device_ports session with
      | Some spec =>
        let port_ranges :=
          (λ r, jobject [("from", jint (from r)); ("to", jint (to r))]) <$> ranges spec in
        j ← (if bool_decide (ranges spec = []) then mret j
             else assign_path ["device_ports"; "port_ranges"] (jarray port_ranges) j);
        if bool_decide (ports spec = []) then mret j
        else assign_path ["device_ports"; "ports"] (jarray (jint <$> ports spec)) j
      | None => mret j
      end;
  match qos_profile_mapping session with
  | Some mapping => assign_path ["qos_profile_mapping"] (serialize_qos_mapping mapping) j
  | None => assign_path ["5qi"] (jint (fallback_5qi (qos_profile session))) j
  end.

(** [pcf_service_->send_request(pcf_destination_, msg)] *)
Definition send_request (msg : Message) : M QodSessionManager (option Message) :=
  m ← get;
  let rs := requests m ++ [(pcf_destination_ m, msg)] in
  modify (λ m, m <| requests := rs |>) ;;
  match pcf_answer rs with
  | inl e => throw e
  | inr response => mret response
  end.

(** The handling of the answer to a creation request. *)
Definition process_response session (response : option Message) : M QodSessionManager bool :=
  match response with
  | None => mret false
  | Some response =>
    if String.eqb (message_type response) "pcf_qod_session_created" then
      response_json ← lift (parse (payload response));
      pcf_id ← lift (value_string "pcf_session_id" "" response_json);
      handle_pcf_session_response (session_id session) pcf_id true "" ;;
      mret true
    else if String.eqb (message_type response) "pcf_delete_app_session" then
      response_json ← lift (parse (payload response));
      pcf_id ← lift (value_string "pcf_session_id" "" response_json);
      reason ← lift (value_string "reason" "Requested by user" response_json);
      handle_pcf_session_terminated pcf_id reason ;;
      mret true
    else if String.eqb (message_type response) "pcf_error" then
      error_json ← lift (parse (payload response));
      message ← lift (value_string "message" "Unknown error" error_json);
      status ← lift (value_int "status" 500 error_json);
      handle_pcf_session_response (session_id session) "" false message ;;
      mret false
    else mret false
  end.

(** The session is passed by reference; it is returned as it is left. *)
Definition apply_session_to_pcf session : M QodSessionManager (bool * QodSession) :=
  m ← get;
  if negb (pcf_service_ m) then mret (false, session)
  else if empty (pcf_destination_ m) then mret (false, session)
  else
    try_catch
      (pcf_request ← lift (build_pcf_request session);
       text ← lift (dump pcf_request);
       let msg := plain_message "pcf_create_qod_session" (session_id session) text in
       let session := session <| pcf_transaction_id := Some (session_id session) |> in
       try_catch
         (response ← send_request msg;
          ok ← process_response session response;
          mret (ok, session))
         (λ _, mret (false, session)))
      (λ _, mret (false, session)).

Definition remove_session_from_pcf session : M QodSessionManager bool :=
  m ← get;
  match pcf_session_id session with
  | None => mret true
  | Some pcf_id =>
    if negb (pcf_service_ m) then mret false
    else if empty (pcf_destination_ m) then mret false
    else
      try_catch
        (let delete_request := jobject [("pcf_session_id", jstring pcf_id);
                                        ("session_id", jstring (session_id session))] in
         text ← lift (dump delete_request);
         response ← send_request (plain_message "pcf_delete_qod_session" (session_id session) text);
         match response with
         | Some response =>
           if String.eqb (message_type response) "pcf_delete_app_session" then
             response_json ← lift (parse (payload response));
             pcf_id ← lift (value_string "pcf_session_id" "" response_json);
             reason ← lift (value_string "reason" "Requested by user" response_json);
             qod (remove_pcf_to_qod_session_mapping pcf_id) ;;
             mret true
           else mret false
         | None => mret false
         end)
        (λ _, mret false)
  end.

(** ** Session ids *)

(** The characters from position [i] on, [fuel] of them, when [k] digits have been drawn. *)
Fixpoint session_id_chars (fuel i k : nat) : string * nat :=
  match fuel with
  | O => ("", k)
  | S fuel =>
    let '(c, k) :=
      if (i =? 8)%nat || (i =? 13)%nat || (i =? 18)%nat || (i =? 23)%nat then ("-"%char, k)
      else if (i =? 14)%nat then ("4"%char, k)
      else (hex_char (hex_draw k), Datatypes.S k) in
    let '(s, k) := session_id_chars fuel (Datatypes.S i) k in
    (String c s, k)
  end.

Definition generate_session_id : M QodSessionManager string :=
  m ← get;
  let '(id, k) := session_id_chars 36 0 (draws m) in
  modify (λ m, m <| draws := k |>) ;;
  mret id.

(** ** Operations of the API *)

(** The device identifier to return to a consumer with a two-legged token. *)
Definition response_device (d : QodDevice) : option QodDevice :=
  let r := match phone_number d, device_ipv4_address d, device_ipv6_address d with
           | Some x, _, _ => QodDevice_default <| phone_number := Some x |>
           | None, Some x, _ => QodDevice_default <| device_ipv4_address := Some x |>
           | None, None, Some x => QodDevice_default <| device_ipv6_address := Some x |>
           | None, None, None => QodDevice_default
           end in
  if device_is_empty r then None else Some r.

(** The session created for a request. *)
Definition new_session (request : CreateSessionRequest) (id : string) (mapping : QosProfileMapping)
    (created : Z) (x : option Supi) (pdu_id : option string) : QodSession :=
  mkQodSession id (req_api_consumer_id request) (req_device request)
    (req_application_server request) (req_device_ports request)
    (req_application_server_ports request) (req_qos_profile request) (Some mapping)
    (req_duration request) (req_sink request) (req_sink_credential request) (Some created) None None
    REQUESTED None x pdu_id None None None
    (match req_device request with
     | Some d => if has_value (find "2-legged" (req_api_consumer_id request))
                 then response_device d else None
     | None => None
     end).

Definition create_session (request : CreateSessionRequest) : M QodSessionManager (option QodSession) :=
  m ← get;
  if negb (validate_qos_profile (req_qos_profile request)) then mret None
  else if (get_max_duration_for_profile (req_qos_profile request) m <? req_duration request) ||
          (req_duration request <? min_session_duration (config_ m)) then mret None
  else
    mapping_opt ← qod (get_qos_profile_mapping (req_qos_profile request));
    match mapping_opt with
    | None => mret None
    | Some mapping =>
      '(resolved_supi, pdu_id) ← match req_device request with
                                 | Some d => resolve_device d
                                 | None => mret (None, None)
                                 end;
      conflict ← match req_device request with
                 | Some d => check_session_conflict d (req_application_server request)
                 | None => mret None
                 end;
      match conflict with
      | Some _ => mret None
      | None =>
        id ← generate_session_id;
        t ← now;
        let session := new_session request id mapping t resolved_supi pdu_id in
        qod (add_session session) ;;
        create_or_update_ue_state session ;;
        '(pcf_result, session) ← apply_session_to_pcf session;
        if pcf_result : bool then mret (Some session)
        else
          qod (update_session_status (session_id session) UNAVAILABLE (Some NETWORK_TERMINATED)) ;;
          state_session_opt ← qod (get_session_by_id (session_id session));
          state_session ← value_of state_session_opt;
          when (has_value (req_sink request) && enable_notifications (config_ m))
            (send_status_change_notification state_session REQUESTED (Some NETWORK_TERMINATED)) ;;
          mret (Some state_session)
      end
    end.

Definition get_session (id consumer : string) : M QodSessionManager (option QodSession) :=
  session_opt ← qod (get_session_by_id id);
  mret (match session_opt with
        | Some session => if String.eqb (api_consumer_id session) consumer then Some session else None
        | None => None
        end).

Definition delete_session (id consumer : string) : M QodSessionManager bool :=
  session_opt ← qod (get_session_by_id id);
  match session_opt with
  | None => mret false
  | Some session =>
    if negb (String.eqb (api_consumer_id session) consumer) then mret false
    else
      let old_status := qos_status session in
      deleted ← (if bool_decide (qos_status session = AVAILABLE)
                 then remove_session_from_pcf session else mret true);
      if negb deleted then mret false
      else
        t ← now;
        let session := session <| qos_status := UNAVAILABLE |>
                               <| status_info := Some DELETE_REQUESTED |>
                               <| expires_at := Some t |> in
        go_on ← release_ue_state session;
        if negb go_on then mret false
        else
          when (bool_decide (old_status = AVAILABLE))
            (notify session old_status (Some DELETE_REQUESTED)) ;;
          qod (update_session session) ;;
          mret true
  end.

Definition extend_session_duration (request : ExtendSessionDurationRequest) (consumer : string)
    : M QodSessionManager (option QodSession) :=
  session_opt ← qod (get_session_by_id (ext_session_id request));
  match session_opt with
  | None => mret None
  | Some session =>
    if negb (String.eqb (api_consumer_id session) consumer) then mret None
    else if bool_decide (qos_status session ≠ AVAILABLE) &&
            bool_decide (qos_status session ≠ REQUESTED) then mret None
    else
      m ← get;
      let new_total_duration := duration session + requested_additional_duration request in
      let max_duration := get_max_duration_for_profile (qos_profile session) m in
      let new_total_duration :=
        if max_duration <? new_total_duration then max_duration else new_total_duration in
      started ← deref (started_at session);
      let session := session <| duration := new_total_duration |>
                             <| expires_at := Some (started + seconds new_total_duration) |> in
      qod (update_session session) ;;
      mret (Some session)
  end.

Definition cleanup_expired_sessions : M QodSessionManager () :=
  t ← now;
  m ← get;
  to_remove_sessions ← qod (get_expired_sessions t (unavailable_session_ttl (config_ m)));
  for_each to_remove_sessions (λ session, qod (remove_session (session_id session)) ;; mret ()).

(** ** Flow filters *)

(** Ports, then ranges; a range of one port is that port. *)
Definition port_specs (spec : option PortsSpec) : list string :=
  match spec with
  | Some spec =>
    (pretty <$> ports spec) ++
    ((λ r, if from r =? to r then pretty (from r)
           else pretty (from r) +:+ "-" +:+ pretty (to r)) <$> ranges spec)
  | None => []
  end.

Definition build_desc (dir src sp dst dp : string) : string :=
  let desc := "permit " +:+ dir +:+ " ip from " +:+ src in
  let desc := if empty sp then desc else desc +:+ " " +:+ sp in
  let desc := desc +:+ " to " +:+ dst in
  if empty dp then desc else desc +:+ " " +:+ dp.

Definition source_ip session : string :=
  match device session with
  | Some d =>
    match device_ipv4_address d with
    | Some a => ipv4 (public_address a)
    | None => match device_ipv6_address d with Some a => ipv6 a | None => "any" end
    end
  | None => "any"
  end.

Definition destination_ip session : string :=
  match server_ipv4_address (application_server session) with
  | Some a => a
  | None => match server_ipv6_address (application_server session) with
            | Some a => a | None => "any" end
  end.

Definition flow_descriptions session : list string :=
  let src := source_ip session in
  let dst := destination_ip session in
  let src_port_specs := port_specs (device_ports session) in
  let dst_port_specs := port_specs (application_server_ports session) in
  match src_port_specs, dst_port_specs with
  | _ :: _, _ :: _ =>
    sp ← src_port_specs; dp ← dst_port_specs; [build_desc "out" src sp dst dp]
  | _ :: _, [] => (λ sp, build_desc "out" src sp dst "") <$> src_port_specs
  | [], _ :: _ => (λ dp, build_desc "out" src "" dst dp) <$> dst_port_specs
  | [], [] => [build_desc "out" src "" dst ""]
  end.

Definition build_flow_filters session : result json :=
  flow ← assign_path ["flow_id"] (jint 1) jnull;
  flow ← assign_path ["flow_direction"] (jstring "BIDIRECTIONAL") flow;
  flow ← assign_path ["flow_descriptions"] (jarray (jstring <$> flow_descriptions session)) flow;
  mret (jarray [flow]).
End Definitions.
