(* ===== verification/QodSessionInvariant.v ===== *)
(** * Invariants of the session manager

    What [QodSessionManager] does to an invariant that says something of every stored session and
    something of the manager apart from them; shared by the properties of the life of sessions and of
    the agreement with the PCF handler. *)

From S2P Require Import Prelude Effects CxxString UeKey UeState Events UeStateManager.
From S2P Require Import QodTypes QodStateManager Json Comms QodSessionManager.

(** ** The store *)

Section Store.
Context `{QodLibrary} `{IterationOrder}.
Implicit Types (session : QodSession).
Variable P : string → QodSession → Prop.

Definition stored (qm : QodStateManager) : Prop := map_Forall P (sessions_by_id_ qm).

Lemma stored_locked (mx : QodStateManager → lock_state) `{!Setter mx} {A} mode (f : M QodStateManager A) :
  (∀ qm l, sessions_by_id_ (upd mx (λ _, l) qm) = sessions_by_id_ qm) →
  preserves stored f → preserves stored (with_lock mx mode f).
Proof.
  intros Hs Hf. apply preserves_with_lock; [|done]. intros qm l Hq id s. rewrite Hs. apply Hq.
Qed.

Lemma stored_insert qm id s :
  P id s → stored qm → stored (qm <| sessions_by_id_ ::= <[id := s]> |>).
Proof. intros Hs Hq. by apply map_Forall_insert_2. Qed.

Lemma add_session_inv s : P (session_id s) s → preserves stored (add_session s).
Proof. intros Hs. apply stored_locked; [done|]. preserves_steps. by apply stored_insert. Qed.

Lemma update_session_inv s : P (session_id s) s → preserves stored (update_session s).
Proof. intros Hs. apply stored_locked; [done|]. preserves_steps. by apply stored_insert. Qed.

Lemma remove_session_inv id : preserves stored (remove_session id).
Proof. apply stored_locked; [done|]. preserves_steps. by apply map_Forall_delete. Qed.

Lemma clear_inv : preserves stored clear_all_sessions.
Proof. apply stored_locked; [done|]. preserves_steps. apply map_Forall_empty. Qed.

Lemma reads_inv {A} mode (f : QodStateManager → A) : preserves stored (with_lock mtx_ mode (gets f)).
Proof. apply stored_locked; [done|apply preserves_gets]. Qed.

Lemma mapping_inv name : preserves stored (get_qos_profile_mapping name).
Proof. apply stored_locked; [done|apply preserves_gets]. Qed.

Lemma map_pcf_inv p q : preserves stored (update_pcf_session_map p q).
Proof. apply stored_locked; [done|]. by preserves_steps. Qed.

Lemma unmap_pcf_inv p : preserves stored (remove_pcf_to_qod_session_mapping p).
Proof. apply stored_locked; [done|]. by preserves_steps. Qed.

Lemma make_unavailable_inv id info :
  (∀ id s, P id s → P id (with_status UNAVAILABLE info s)) →
  preserves stored (update_session_status id UNAVAILABLE info).
Proof.
  intros HP. apply stored_locked; [done|]. apply preserves_get. intros [n qm] Hq. cbn [obj] in *.
  destruct (sessions_by_id_ qm !! id) as [s|] eqn:E; [|by intros _].
  unfold wp, at_key. run_steps. rewrite E. specialize (HP id s (Hq _ _ E)).
  destruct info; intros _; by apply (stored_insert _ _ _ HP).
Qed.

(** Reads return stored sessions. *)
Lemma locked_read (mx : QodStateManager → lock_state) `{!Setter mx} {A} mode
    (f : QodStateManager → A) (R : A → Prop) :
  (∀ qm l, sessions_by_id_ (upd mx (λ _, l) qm) = sessions_by_id_ qm) →
  (∀ qm, stored qm → R (f qm)) → yields stored (with_lock mx mode (gets f)) R.
Proof.
  intros Hs Hf [n qm] Hq. unfold wp, with_lock. cbn [obj]. destruct (mx qm); [|by intros []|by intros []].
  intros _. simpl. split; [|apply Hf]; intros id s; rewrite ?Hs; apply Hq.
Qed.

Lemma get_session_yields id :
  yields stored (get_session_by_id id) (from_option (λ s, P id s) True).
Proof.
  apply locked_read; [done|]. intros qm Hq. destruct (sessions_by_id_ qm !! id) eqn:E; [by eapply Hq|done].
Qed.

Lemma get_session_by_pcf_inv p : preserves stored (get_session_by_pcf_session_id p).
Proof.
  apply preserves_bind; [apply stored_locked; [done|apply preserves_gets]|].
  intros [id|]; [apply reads_inv|apply preserves_ret].
Qed.
End Store.

(** ** The manager *)

Definition max_duration (c : QodSessionConfig) (profile : string) : Z :=
  value_or (max_session_duration c) (qos_profile_max_durations c !! profile).

Section Manager.
Context `{CommonModels} `{Clock} `{IterationOrder} `{QodLibrary} `{!Environment} `{Json} `{!QosMapper}.
Implicit Types (m : QodSessionManager) (session : QodSession).

(** Something of the manager that does not depend on the UE states, the sessions, the deliveries and
    the draws, and something of every stored session that may become unavailable. *)
Record independent (C : QodSessionManager → Prop) : Prop := {
  independent_ue m t : C m → C (m <| ue_state_manager_ := t |>);
  independent_store m t : C m → C (m <| qod_state_manager_ := t |>);
  independent_deliveries m t : C m → C (m <| deliveries := t |>);
  independent_draws m t : C m → C (m <| draws := t |>) }.

Section Invariant.
Variables (C : QodSessionManager → Prop) (P : string → QodSession → Prop).
Hypothesis HC : independent C.

Definition invariant m : Prop := C m ∧ stored P (qod_state_manager_ m).

Lemma ue_inv {A} (f : M UeStateManager A) : preserves invariant (ue f).
Proof. apply preserves_on_pointer. intros m t [Hm Hs]. split; [by apply (independent_ue _ HC)|done]. Qed.

Lemma qod_inv {A} (f : M QodStateManager A) : preserves (stored P) f → preserves invariant (qod f).
Proof.
  apply preserves_on; [by intros m []|]. intros m t [Hm _] Ht. split; [by apply (independent_store _ HC)|done].
Qed.

Lemma qod_yields {A} (f : M QodStateManager A) R : yields (stored P) f R → yields invariant (qod f) R.
Proof.
  apply yields_on; [by intros m []|]. intros m t [Hm _] Ht. split; [by apply (independent_store _ HC)|done].
Qed.

Lemma deliveries_inv ds : preserves invariant (modify (λ m, m <| deliveries := ds |>)).
Proof. apply preserves_modify. intros m [Hm Hs]. split; [by apply (independent_deliveries _ HC)|done]. Qed.

Lemma draws_inv k : preserves invariant (modify (λ m, m <| draws := k |>)).
Proof. apply preserves_modify. intros m [Hm Hs]. split; [by apply (independent_draws _ HC)|done]. Qed.
#[local] Hint Resolve deliveries_inv draws_inv : preserves.
#[local] Hint Resolve ue_inv : preserves.

(** The step of an invariant, its modifications left to their lemmas. *)
Ltac inv_steps :=
  repeat first
    [ apply deliveries_inv | apply draws_inv | apply ue_inv | preserves_step
    | progress eauto with preserves ].

Lemma update_ue_inv session : preserves invariant (update_ue_state_from_pcf_response session).
Proof. unfold update_ue_state_from_pcf_response. inv_steps. Qed.

Lemma create_ue_inv session : preserves invariant (create_or_update_ue_state session).
Proof.
  unfold create_or_update_ue_state, AfUeSubscriptionState_supi, AfUeSubscriptionState_key. inv_steps.
Qed.

Lemma resolve_device_inv d : preserves invariant (resolve_device d).
Proof. unfold resolve_device. inv_steps. Qed.

Lemma send_notification_inv session old info :
  preserves invariant (send_status_change_notification session old info).
Proof. unfold send_status_change_notification. inv_steps. Qed.

Lemma notify_inv session old info : preserves invariant (notify session old info).
Proof. unfold notify. inv_steps. apply send_notification_inv. Qed.

Lemma key_inv session : preserves invariant (create_or_get_ue_key session).
Proof. unfold create_or_get_ue_key. inv_steps. Qed.
#[local] Hint Resolve key_inv update_ue_inv create_ue_inv notify_inv : preserves.

Lemma release_inv session : preserves invariant (release_ue_state session).
Proof. unfold release_ue_state. inv_steps. Qed.

Lemma forget_inv session : preserves invariant (forget_addresses session).
Proof. unfold forget_addresses. inv_steps. Qed.

Lemma remove_inv id : preserves invariant (qod (remove_session id)).
Proof. apply qod_inv, remove_session_inv. Qed.
Lemma map_inv p q : preserves invariant (qod (update_pcf_session_map p q)).
Proof. apply qod_inv, map_pcf_inv. Qed.
Lemma unmap_inv p : preserves invariant (qod (remove_pcf_to_qod_session_mapping p)).
Proof. apply qod_inv, unmap_pcf_inv. Qed.
Lemma lookup_inv id : preserves invariant (qod (get_session_by_id id)).
Proof. apply qod_inv, reads_inv. Qed.
Lemma by_pcf_inv p : preserves invariant (qod (get_session_by_pcf_session_id p)).
Proof. apply qod_inv, get_session_by_pcf_inv. Qed.
#[local] Hint Resolve release_inv forget_inv remove_inv map_inv unmap_inv lookup_inv by_pcf_inv : preserves.

Lemma update_inv session : P (session_id session) session → preserves invariant (qod (update_session session)).
Proof. intros Hs. by apply qod_inv, update_session_inv. Qed.

Lemma lookup_yields id :
  yields invariant (qod (get_session_by_id id)) (from_option (λ s, P id s) True).
Proof. apply qod_yields, get_session_yields. Qed.

(** *** Answers of the PCF *)

Lemma handle_response_inv id p b e :
  (b = true → ∀ s t, P id s → P (session_id s) (s <| qos_status := AVAILABLE |> <| pcf_session_id := Some p |>
     <| started_at := Some t |> <| expires_at := Some (t + seconds (duration s)) |>)) →
  (b = false → ∀ s, P id s → P (session_id s) (s <| qos_status := UNAVAILABLE |>
     <| status_info := Some NETWORK_TERMINATED |> <| error_message := Some e |>)) →
  preserves invariant (handle_pcf_session_response id p b e).
Proof.
  intros Hyes Hno. eapply preserves_bind_yields; [apply lookup_yields|].
  intros [s|] Hs; [|apply preserves_ret]. simpl in Hs. cbv zeta.
  apply (preserves_bind_yields _ _ (λ s, P (session_id s) s)).
  2:{ intros s' Hs'. apply preserves_bind; [by apply update_inv|intros; apply preserves_ret]. }
  destruct b.
  - apply (yields_bind _ _ (λ _, True)); [apply yields_any, preserves_now|intros t _].
    do 3 (apply (yields_bind _ _ (λ _, True)); [apply yields_any; eauto with preserves|intros _ _]).
    apply yields_ret. exact (Hyes eq_refl s t Hs).
  - apply (yields_bind _ _ (λ _, True)); [apply yields_any; eauto with preserves|intros _ _].
    apply yields_ret. exact (Hno eq_refl s Hs).
Qed.

Lemma handle_terminated_inv p r : preserves invariant (handle_pcf_session_terminated p r).
Proof. unfold handle_pcf_session_terminated. inv_steps. Qed.

Lemma handle_pdu_inv e : preserves invariant (handle_pdu_session_terminated_event e).
Proof. apply preserves_bind; [apply qod_inv, reads_inv|]. intros [s|]; inv_steps. Qed.

(** *** Operations of the API *)

Lemma max_duration_eq profile m :
  get_max_duration_for_profile profile m = max_duration (config_ m) profile.
Proof. unfold get_max_duration_for_profile, max_duration. by destruct (_ !! profile). Qed.

Lemma cleanup_inv : preserves invariant cleanup_expired_sessions.
Proof. unfold cleanup_expired_sessions. inv_steps. apply qod_inv, reads_inv. Qed.

Lemma get_inv id consumer : preserves invariant (get_session id consumer).
Proof. apply preserves_bind; [apply lookup_inv|intros; apply preserves_ret]. Qed.

Lemma retrieve_inv request : preserves invariant (retrieve_sessions_by_device request).
Proof. apply preserves_bind; [apply qod_inv, reads_inv|intros; apply preserves_ret]. Qed.

Lemma conflict_inv d server : preserves invariant (check_session_conflict d server).
Proof. apply preserves_bind; [apply retrieve_inv|intros; apply preserves_ret]. Qed.

Lemma profile_inv name : preserves invariant (qod (get_qos_profile_mapping name)).
Proof. apply qod_inv, mapping_inv. Qed.

Lemma generate_inv : preserves invariant generate_session_id.
Proof. unfold generate_session_id. inv_steps. Qed.

Lemma delete_inv id consumer :
  (∀ s, P id s → preserves invariant (remove_session_from_pcf s)) →
  (∀ s t, P id s → P (session_id s) (s <| qos_status := UNAVAILABLE |>
     <| status_info := Some DELETE_REQUESTED |> <| expires_at := Some t |>)) →
  preserves invariant (delete_session id consumer).
Proof.
  intros Hpcf Hdel. eapply preserves_bind_yields; [apply lookup_yields|].
  intros [s|] Hs; [|apply preserves_ret]. simpl in Hs. cbv zeta.
  destruct (negb _); [apply preserves_ret|].
  apply preserves_bind; [case_bool_decide; [by apply Hpcf|apply preserves_ret]|].
  intros []; [|apply preserves_ret]. simpl. inv_steps. apply update_inv. exact (Hdel s _ Hs).
Qed.

Lemma extend_inv request consumer :
  (∀ m s t d, C m → P (ext_session_id request) s → started_at s = Some t →
     d <= max_duration (config_ m) (qos_profile s) →
     P (session_id s) (s <| duration := d |> <| expires_at := Some (t + seconds d) |>)) →
  preserves invariant (extend_session_duration request consumer).
Proof.
  intros Hext. eapply preserves_bind_yields; [apply lookup_yields|].
  intros [s|] Hs; [|apply preserves_ret]. simpl in Hs.
  destruct (negb _); [apply preserves_ret|]. destruct (_ && _); [apply preserves_ret|].
  eapply preserves_bind_yields; [apply yields_get|]. intros m [Hm _]. cbv zeta. rewrite max_duration_eq.
  set (d := if _ <? _ then _ else _).
  assert (Hd : d <= max_duration (config_ m) (qos_profile s))
    by (unfold d; destruct (Z.ltb_spec (max_duration (config_ m) (qos_profile s))
          (duration s + requested_additional_duration request)); lia).
  destruct (started_at s) as [t|] eqn:Et; simpl; [|by intros w _ []].
  apply (preserves_bind_yields _ _ (λ x, x = t)); [by apply yields_ret|intros ? ->].
  apply preserves_bind; [apply update_inv; exact (Hext m s t d Hm Hs Et Hd)|intros; apply preserves_ret].
Qed.
End Invariant.
End Manager.
