(* ===== verification/QodSessionSpec.v ===== *)
(** * What [QodSessionManager] promises, and where it does not

    The invariant of the stored sessions over the whole life cycle, the behaviour of the API
    operations, session ids and flow descriptions, and the calls that go wrong. *)

From S2P Require Import Prelude Effects CxxString UeKey UeState Events UeStateManager.
From S2P Require Import UeStateManagerSpec QodTypes QodStateManager Json.
From S2P Require Import Comms QodSessionManager QodSessionInvariant.

(** ** The life cycle of sessions *)

Section LifeCycle.
Context `{CommonModels} `{Clock} `{IterationOrder} `{QodLibrary} `{!Environment} `{Json} `{!QosMapper}.
Implicit Types (m : QodSessionManager) (session : QodSession).

(** A session waiting for the PCF has not started and does not expire; an available one has
    started, is known to the PCF and expires when its duration is over; no duration exceeds the
    maximum of the profile. *)
Record session_ok (c : QodSessionConfig) session : Prop := {
  so_requested : qos_status session = REQUESTED →
                 started_at session = None ∧ expires_at session = None;
  so_available : qos_status session = AVAILABLE →
                 is_Some (pcf_session_id session) ∧
                 ∃ t, started_at session = Some t ∧
                      expires_at session = Some (t + seconds (duration session));
  so_duration : duration session <= max_duration c (qos_profile session) }.

(** The manager's configuration is [c], and its sessions are as they should be. *)
Definition sessions_ok (c : QodSessionConfig) : QodSessionManager → Prop :=
  invariant (λ m, config_ m = c) (λ _, session_ok c).

Lemma config_independent c : independent (λ m, config_ m = c).
Proof. by split. Qed.
#[local] Hint Resolve config_independent : core.

Lemma unavailable_ok c s info :
  session_ok c s → session_ok c (with_status UNAVAILABLE info s).
Proof. intros [_ _ Hd]. by destruct info; split. Qed.

(** Fields that sessions do not depend on. *)
Lemma frame_ok c (f : QodSessionManager → QodSessionManager) :
  (∀ m, config_ (f m) = config_ m ∧ qod_state_manager_ (f m) = qod_state_manager_ m) →
  preserves (sessions_ok c) (modify f).
Proof.
  intros Hf. apply preserves_modify. intros m [Hc Hs]. destruct (Hf m) as [E1 E2].
  split; by rewrite ?E1, ?E2.
Qed.

Lemma send_request_ok c msg : preserves (sessions_ok c) (send_request msg).
Proof. unfold send_request. preserves_steps. Qed.

Lemma handle_response_ok c id p b e :
  preserves (sessions_ok c) (handle_pcf_session_response id p b e).
Proof.
  apply handle_response_inv; [done|..].
  - intros _ s t [_ _ Hd]. split; simpl; [done|by eauto|done].
  - intros _ s [_ _ Hd]. by split.
Qed.

Lemma qod_ok c {A} (f : M QodStateManager A) :
  preserves (stored (λ _, session_ok c)) f → preserves (sessions_ok c) (qod f).
Proof. by apply qod_inv. Qed.

Lemma handle_terminated_ok c p r : preserves (sessions_ok c) (handle_pcf_session_terminated p r).
Proof. by apply handle_terminated_inv. Qed.

Lemma notification_ok c session old info :
  preserves (sessions_ok c) (send_status_change_notification session old info).
Proof. by apply send_notification_inv. Qed.

Lemma unmap_ok c p : preserves (sessions_ok c) (qod (remove_pcf_to_qod_session_mapping p)).
Proof. by apply unmap_inv. Qed.
#[local] Hint Resolve send_request_ok handle_response_ok handle_terminated_ok notification_ok unmap_ok : preserves.

Lemma apply_ok c session : preserves (sessions_ok c) (apply_session_to_pcf session).
Proof. unfold apply_session_to_pcf, process_response. preserves_steps. Qed.

Lemma remove_from_pcf_ok c session : preserves (sessions_ok c) (remove_session_from_pcf session).
Proof. unfold remove_session_from_pcf. preserves_steps. Qed.

Lemma create_session_ok c request : preserves (sessions_ok c) (create_session request).
Proof.
  eapply preserves_bind_yields; [apply yields_get|]. intros m [Hc _]. cbv beta.
  rewrite max_duration_eq, Hc. destruct (negb _); [apply preserves_ret|].
  destruct (_ || _) eqn:Ed; [apply preserves_ret|].
  apply orb_false_iff in Ed as [Ed _]. apply Z.ltb_ge in Ed.
  apply preserves_bind; [by apply profile_inv|]. intros [mapping|]; [|apply preserves_ret].
  apply preserves_bind; [destruct (req_device request); [by apply resolve_device_inv|apply preserves_ret]|].
  intros [x pdu].
  apply preserves_bind; [destruct (req_device request); [by apply conflict_inv|apply preserves_ret]|].
  intros [id|]; [apply preserves_ret|].
  apply preserves_bind; [by apply generate_inv|intros id].
  apply preserves_bind; [apply preserves_now|intros t].
  apply preserves_bind; [by apply qod_ok, add_session_inv; split|intros _].
  apply preserves_bind; [by apply create_ue_inv|intros _].
  apply preserves_bind; [apply apply_ok|]. intros [[] s]; [apply preserves_ret|].
  apply preserves_bind; [apply qod_ok, make_unavailable_inv; intros; by apply unavailable_ok|intros _].
  apply preserves_bind; [apply qod_ok, reads_inv|intros o]. preserves_steps.
Qed.

Lemma delete_session_ok c id consumer : preserves (sessions_ok c) (delete_session id consumer).
Proof.
  apply delete_inv; [done|intros; apply remove_from_pcf_ok|]. intros s t [_ _ Hd]. by split.
Qed.

Lemma extend_ok c request consumer :
  preserves (sessions_ok c) (extend_session_duration request consumer).
Proof.
  apply extend_inv; [done|]. intros m s t d <- [Hr Ha _] Et Hd.
  split; simpl; [intros E; by destruct (Hr E); congruence|intros E; destruct (Ha E); by eauto|done].
Qed.

(** The public calls, the internal ones that run in other threads included. *)
Inductive session_call : ∀ {A}, M QodSessionManager A → Prop :=
  | call_initialize b d : session_call (initialize b d)
  | call_set_handler b : session_call (set_notification_handler b)
  | call_start : session_call start
  | call_stop : session_call stop
  | call_create request : session_call (create_session request)
  | call_get id consumer : session_call (get_session id consumer)
  | call_delete id consumer : session_call (delete_session id consumer)
  | call_extend request consumer : session_call (extend_session_duration request consumer)
  | call_retrieve request : session_call (retrieve_sessions_by_device request)
  | call_response id p b e : session_call (handle_pcf_session_response id p b e)
  | call_terminated p r : session_call (handle_pcf_session_terminated p r)
  | call_pdu_event e : session_call (handle_pdu_session_terminated_event e)
  | call_cleanup_expired : session_call cleanup_expired_sessions.

Lemma session_call_ok c {A} (f : M QodSessionManager A) :
  session_call f → preserves (sessions_ok c) f.
Proof.
  destruct 1; eauto using create_session_ok, delete_session_ok, extend_ok, handle_response_ok,
    handle_terminated_ok.
  1-3: by apply frame_ok.
  - apply preserves_bind; [by apply frame_ok|intros _]. apply qod_ok, clear_inv.
  - by apply get_inv.
  - by apply retrieve_inv.
  - by apply handle_pdu_inv.
  - by apply cleanup_inv.
Qed.

(** The managers a run can reach, from a new one on any state managers with no sessions yet. *)
Inductive running (config : QodSessionConfig) : world QodSessionManager → Prop :=
  | running_new um n : running config (World n (QodSessionManager_new um QodStateManager_new config))
  | running_call {A} w (f : M QodSessionManager A) :
      running config w → session_call f → defined (f w).1 → running config (f w).2.

Lemma running_sessions_ok config w :
  running config w →
  map_Forall (λ _ s, session_ok (config_ (obj w)) s) (sessions_by_id_ (qod_state_manager_ (obj w))).
Proof.
  intros Hw. cut (∃ c, sessions_ok c (obj w)); [intros (c & <- & Hs); apply Hs|].
  induction Hw as [um n|A w f _ [c Hc] Hf Hd].
  - eexists. split; [done|]. by intros id' s'.
  - exists c. by apply (session_call_ok c f).
Qed.

(** C1: whatever sequence of API calls, answers of the PCF, PDU terminations and cleanups runs, and
    whatever the outside answers, every stored session is in a proper state of its life cycle: a
    requested one has neither started nor an expiry; an available one has a PCF session, a start
    and expires exactly one duration after it; and no session, extended or not, is longer than the
    maximum of its profile. *)
Theorem sessions_well_formed config w id s :
  running config w →
  sessions_by_id_ (qod_state_manager_ (obj w)) !! id = Some s → session_ok (config_ (obj w)) s.
Proof.
  intros Hw. by apply (running_sessions_ok config w).
Qed.
End LifeCycle.

(** ** The operations of the API *)

Section Operations.
Context `{CommonModels} `{Clock} `{IterationOrder} `{QodLibrary} `{!Environment} `{Json} `{!QosMapper}.
Implicit Types (m : QodSessionManager) (session : QodSession).

(** A call of the store that changes it to [qm]. *)
Lemma qod_run {A} (f : M QodStateManager A) n m r qm :
  f (World n (qod_state_manager_ m)) = (r, World n qm) →
  qod f (World n m) = (r, World n (m <| qod_state_manager_ := qm |>)).
Proof. intros E. unfold qod, on. simpl. by rewrite E. Qed.

Lemma qod_read_run {A} (f : M QodStateManager A) n m r :
  f (World n (qod_state_manager_ m)) = (r, World n (qod_state_manager_ m)) →
  qod f (World n m) = (r, World n m).
Proof. intros E. rewrite (qod_run _ _ _ _ _ E). by destruct m. Qed.

Lemma lookup_run id n m :
  free (qod_state_manager_ m) →
  qod (get_session_by_id id) (World n m) =
    (Ok (sessions_by_id_ (qod_state_manager_ m) !! id), World n m).
Proof. intros Hf. apply qod_read_run. by apply get_session_by_id_run. Qed.

(** The sessions of a consumer. *)
Definition owned (id consumer : string) m : option QodSession :=
  session ← sessions_by_id_ (qod_state_manager_ m) !! id;
  if String.eqb (api_consumer_id session) consumer then Some session else None.

Lemma get_session_run id consumer n m :
  free (qod_state_manager_ m) →
  get_session id consumer (World n m) = (Ok (owned id consumer m), World n m).
Proof.
  intros Hf. unfold owned, get_session. rewrite (bind_run _ _ _ _ _ (lookup_run _ n m Hf)).
  by destruct (sessions_by_id_ _ !! id).
Qed.

(** C34: consumers are isolated: [get_session] returns a session exactly to the consumer that
    created it, and deleting or extending a session of another consumer, or an unknown one, is
    refused and changes nothing. *)
Theorem consumer_isolation id consumer request n m :
  free (qod_state_manager_ m) →
  get_session id consumer (World n m) = (Ok (owned id consumer m), World n m) ∧
  (owned id consumer m = None →
   delete_session id consumer (World n m) = (Ok false, World n m)) ∧
  (owned (ext_session_id request) consumer m = None →
   extend_session_duration request consumer (World n m) = (Ok None, World n m)).
Proof.
  intros Hf. split; [by apply get_session_run|].
  unfold owned, delete_session, extend_session_duration.
  split; rewrite (bind_run _ _ _ _ _ (lookup_run _ n m Hf)).
  - destruct (sessions_by_id_ _ !! id) as [s|]; simpl; [|done].
    by destruct (String.eqb _ consumer).
  - destruct (sessions_by_id_ _ !! ext_session_id request) as [s|]; simpl; [|done].
    by destruct (String.eqb _ consumer).
Qed.

(** C39: a request for a profile that is not supported or has no mapping, or with a duration below
    the minimum or above the maximum of its profile, creates nothing and is answered with nothing. *)
Theorem create_session_rejects request n m :
  free (qod_state_manager_ m) →
  req_qos_profile request ∉ supported_profiles_ ∨
  max_duration (config_ m) (req_qos_profile request) < req_duration request ∨
  req_duration request < min_session_duration (config_ m) ∨
  qos_profile_mappings_ (qod_state_manager_ m) !! req_qos_profile request = None →
  create_session request (World n m) = (Ok None, World n m).
Proof.
  intros Hf Hr. unfold create_session. rewrite bind_get. cbn [obj].
  rewrite max_duration_eq. unfold validate_qos_profile.
  case_bool_decide as Hp; cbn [negb]; [|done].
  destruct (Z.ltb_spec (max_duration (config_ m) (req_qos_profile request)) (req_duration request));
    cbn [orb]; [done|].
  destruct (Z.ltb_spec (req_duration request) (min_session_duration (config_ m))); [done|].
  destruct Hr as [?|[?|[?|Hm]]]; [done|lia|lia|].
  erewrite bind_run; [|apply (qod_read_run _ n m (Ok None)); by rewrite get_qos_profile_mapping_run, Hm].
  done.
Qed.

(** *** Extension *)

(** C9: extending a session of the caller that is available sets its duration to the sum, capped at
    the maximum of the profile, and its expiry to that long after its start, in the store and in
    the answer; a session still waiting for the PCF, which the operation admits, has no start, and
    the operation reads it all the same. *)
Theorem extend_spec request consumer n m s :
  free (qod_state_manager_ m) →
  owned (ext_session_id request) consumer m = Some s → session_id s = ext_session_id request →
  session_ok (config_ m) s →
  let d := Z.min (duration s + requested_additional_duration request)
                 (max_duration (config_ m) (qos_profile s)) in
  match qos_status s with
  | AVAILABLE => ∃ t, started_at s = Some t ∧
      extend_session_duration request consumer (World n m) =
        (Ok (Some (s <| duration := d |> <| expires_at := Some (t + seconds d) |>)),
         World n (m <| qod_state_manager_ ::=
           replaced (s <| duration := d |> <| expires_at := Some (t + seconds d) |>) |>))
  | REQUESTED =>
      (extend_session_duration request consumer (World n m)).1 = Undefined nullopt_dereference
  | UNAVAILABLE => extend_session_duration request consumer (World n m) = (Ok None, World n m)
  end.
Proof.
  intros Hf Ho Hid [Hr Ha _] d. unfold extend_session_duration.
  rewrite (bind_run _ _ _ _ _ (lookup_run _ n m Hf)). unfold owned in Ho.
  destruct (sessions_by_id_ _ !! ext_session_id request) as [s'|] eqn:E; simpl in Ho; [|done].
  destruct (String.eqb _ consumer) eqn:Ec; simplify_eq. cbn [negb].
  assert (Hd : (if max_duration (config_ m) (qos_profile s) <?
                   duration s + requested_additional_duration request
                then max_duration (config_ m) (qos_profile s)
                else duration s + requested_additional_duration request) = d).
  { unfold d. destruct (Z.ltb_spec (max_duration (config_ m) (qos_profile s))
      (duration s + requested_additional_duration request)); lia. }
  destruct (qos_status s) eqn:Es.
  - destruct (Hr eq_refl) as [Hs _].
    replace (bool_decide (REQUESTED ≠ REQUESTED)) with false by done. rewrite andb_false_r, bind_get. cbn [obj]. by rewrite Hs.
  - destruct (Ha eq_refl) as (_ & t & Ht & _). exists t. split; [done|].
    replace (bool_decide (AVAILABLE ≠ AVAILABLE)) with false by done. cbn [andb].
    rewrite bind_get. cbn [obj]. cbv zeta. rewrite Ht, max_duration_eq, Hd. cbn [deref].
    erewrite bind_run; [|done]. cbv beta. erewrite bind_run; [done|].
    apply qod_run. rewrite update_session_run by done. simpl. by rewrite Hid, E.
  - done.
Qed.

(** *** Answers of the PCF, where the UE state and the consumer are not involved *)

(** No UE state and no notification goes with the session. *)
Definition plain session m : Prop :=
  (device session = None ∨ ue_state_manager_ m = None) ∧
  (sink session = None ∨ enable_notifications (config_ m) = false).

Lemma update_ue_plain_run session n m :
  device session = None ∨ ue_state_manager_ m = None →
  update_ue_state_from_pcf_response session (World n m) = (Ok (), World n m).
Proof.
  intros Hp. unfold update_ue_state_from_pcf_response. rewrite bind_get. cbn [obj].
  destruct (ue_state_manager_ m), (device session); try done. naive_solver.
Qed.

Lemma notify_plain_run session old info n m :
  sink session = None ∨ enable_notifications (config_ m) = false →
  notify session old info (World n m) = (Ok (), World n m).
Proof.
  intros Hp. unfold notify. rewrite bind_get. cbn [obj].
  destruct (sink session); simpl; [|done]. destruct Hp as [?|Hp]; [done|]. by rewrite Hp.
Qed.

(** The session that a confirmation, or a refusal, leaves. *)
Definition confirmed (t : Z) (pcf_id : string) session : QodSession :=
  session <| qos_status := AVAILABLE |> <| pcf_session_id := Some pcf_id |>
          <| started_at := Some t |> <| expires_at := Some (t + seconds (duration session)) |>.
Definition refused (message : string) session : QodSession :=
  session <| qos_status := UNAVAILABLE |> <| status_info := Some NETWORK_TERMINATED |>
          <| error_message := Some message |>.

Lemma confirmation_run id pcf_id message n m s :
  free (qod_state_manager_ m) → sessions_by_id_ (qod_state_manager_ m) !! id = Some s →
  session_id s = id → plain s m →
  handle_pcf_session_response id pcf_id true message (World n m) =
    (Ok (), World (S n) (m <| qod_state_manager_ ::= λ q,
       replaced (confirmed (clock n) pcf_id s) (q <| pcf_session_mapping_ ::= <[pcf_id := id]> |>) |>)).
Proof.
  intros Hf E <- [Hue Hn]. unfold handle_pcf_session_response.
  rewrite (bind_run _ _ _ _ _ (lookup_run _ n m Hf)), E. cbv [mbind M_bind now]. cbn [ticks obj].
  rewrite update_ue_plain_run by done.
  rewrite (qod_run _ (S n) m (Ok ()) ((qod_state_manager_ m) <| pcf_session_mapping_ ::= <[pcf_id := session_id s]> |>))
    by by apply update_pcf_session_map_run.
  rewrite notify_plain_run by done. cbv [mret M_ret].
  rewrite (qod_run _ _ _ (Ok true) (replaced (confirmed (clock n) pcf_id s)
    ((qod_state_manager_ m) <| pcf_session_mapping_ ::= <[pcf_id := session_id s]> |>))); [done|].
  simpl. rewrite update_session_run by (apply (free_pcf_map _ _ Hf)). simpl. by rewrite E.
Qed.

Lemma refusal_run id pcf_id message n m s :
  free (qod_state_manager_ m) → sessions_by_id_ (qod_state_manager_ m) !! id = Some s →
  session_id s = id → plain s m →
  handle_pcf_session_response id pcf_id false message (World n m) =
    (Ok (), World n (m <| qod_state_manager_ ::= replaced (refused message s) |>)).
Proof.
  intros Hf E <- [Hue Hn]. unfold handle_pcf_session_response.
  rewrite (bind_run _ _ _ _ _ (lookup_run _ n m Hf)), E. cbv [mbind M_bind]. rewrite notify_plain_run by done.
  cbv [mret M_ret].
  rewrite (qod_run _ _ _ (Ok true) (replaced (refused message s) (qod_state_manager_ m))); [done|].
  rewrite update_session_run by done. simpl. by rewrite E.
Qed.

(** *** Deletion *)

Definition deleted (t : Z) session : QodSession :=
  session <| qos_status := UNAVAILABLE |> <| status_info := Some DELETE_REQUESTED |>
          <| expires_at := Some t |>.

Lemma release_plain_run session n m :
  session_pdu_session_id session = None →
  release_ue_state session (World n m) = (Ok true, World n m).
Proof. intros E. unfold release_ue_state. rewrite bind_get. by rewrite E. Qed.

(** Cleanup of one session at a time. *)
Lemma cleanup_loop l n m :
  free (qod_state_manager_ m) →
  ∃ qm, for_each l (λ session, qod (remove_session (session_id session)) ;; mret ()) (World n m) =
          (Ok (), World n (m <| qod_state_manager_ := qm |>)) ∧ free qm ∧
    ∀ id, sessions_by_id_ qm !! id =
          if decide (id ∈ session_id <$> l) then None
          else sessions_by_id_ (qod_state_manager_ m) !! id.
Proof.
  revert m. induction l as [|s l IH]; intros m Hf; cbn [for_each fmap list_fmap].
  { exists (qod_state_manager_ m). split; [by destruct m|]. split; [done|].
    intros id. by rewrite decide_False by apply not_elem_of_nil. }
  set (qm1 := match sessions_by_id_ (qod_state_manager_ m) !! session_id s with
              | Some s' => removed (session_id s) s' (qod_state_manager_ m)
              | None => qod_state_manager_ m end).
  assert (Hf1 : free qm1) by (unfold qm1; destruct (_ !! _); eauto with free).
  assert (Hrun : (qod (remove_session (session_id s)) ;; mret ()) (World n m) =
                 (Ok (), World n (m <| qod_state_manager_ := qm1 |>))).
  { destruct (sessions_by_id_ (qod_state_manager_ m) !! session_id s) eqn:E;
      (erewrite bind_run; [done|]; apply qod_run; by rewrite remove_session_run, E). }
  rewrite (bind_run _ _ _ _ _ Hrun).
  destruct (IH (m <| qod_state_manager_ := qm1 |>)) as (qm & Hloop & Hf2 & Hs); [exact Hf1|].
  exists qm. split; [exact Hloop|]. split; [done|]. intros id. rewrite Hs. simpl.
  assert (E1 : sessions_by_id_ qm1 !! id =
            if decide (id = session_id s) then None else sessions_by_id_ (qod_state_manager_ m) !! id).
  { unfold qm1. destruct (sessions_by_id_ _ !! session_id s) eqn:E; simpl.
    - rewrite lookup_delete. repeat case_decide; congruence.
    - case_decide; congruence. }
  rewrite E1. repeat case_decide; rewrite elem_of_cons in *; naive_solver.
Qed.

Lemma cleanup_run n m :
  free (qod_state_manager_ m) → indexed (qod_state_manager_ m) →
  ∃ qm, cleanup_expired_sessions (World n m) =
          (Ok (), World (S n) (m <| qod_state_manager_ := qm |>)) ∧ free qm ∧
    ∀ id, sessions_by_id_ qm !! id =
      s ← sessions_by_id_ (qod_state_manager_ m) !! id;
      if expired (clock n) (unavailable_session_ttl (config_ m)) s then None else Some s.
Proof.
  intros Hf Hi. unfold cleanup_expired_sessions. rewrite bind_now, bind_get. cbn [ticks obj].
  erewrite bind_run; [|apply qod_read_run; by apply get_expired_sessions_run].
  set (l := filter _ _). destruct (cleanup_loop l (S n) m Hf) as (qm & Hrun & Hf' & Hs).
  exists qm. split; [exact Hrun|]. split; [done|]. intros id. rewrite Hs.
  destruct (sessions_by_id_ _ !! id) as [s|] eqn:E; simpl; [|by case_decide].
  assert (Hl : id ∈ session_id <$> l ↔
               expired (clock n) (unavailable_session_ttl (config_ m)) s = true).
  { unfold l. rewrite list_elem_of_fmap. setoid_rewrite list_elem_of_filter.
    setoid_rewrite list_elem_of_fmap. split.
    - intros (s' & -> & Hex & ([id' s''] & Hs'' & Hv)). simpl in Hs''. subst s''.
      rewrite (visit_perm _), elem_of_map_to_list in Hv.
      pose proof (ix_id _ Hi _ _ Hv) as <-. congruence.
    - intros Hex. exists s. split; [by rewrite (ix_id _ Hi _ _ E)|]. split; [done|].
      exists (id, s). split; [done|]. by rewrite (visit_perm _), elem_of_map_to_list. }
  case_decide as Hd; [apply Hl in Hd; by rewrite Hd|].
  destruct (expired _ _ s); [|done]. by destruct Hd; apply Hl.
Qed.


(** *** Conflicts *)

(** The conflict check compares with the sessions of the consumer with the empty id.  As long
    as every stored session belongs to a named consumer it never finds a conflict, whatever
    sessions the device and the server already have. *)
Theorem conflict_check_blind d server n m :
  free (qod_state_manager_ m) →
  (∀ id s, sessions_by_id_ (qod_state_manager_ m) !! id = Some s → api_consumer_id s ≠ "") →
  check_session_conflict d server (World n m) = (Ok None, World n m).
Proof.
  intros Hf Hc. unfold check_session_conflict, retrieve_sessions_by_device.
  erewrite bind_run; [|erewrite bind_run; [done|]; apply qod_read_run; by apply get_all_sessions_run].
  set (l := filter _ _). assert (l = []) as ->; [|done].
  apply elem_of_nil_inv. intros s. unfold l. rewrite list_elem_of_filter, list_elem_of_fmap.
  intros [Hr ([id s'] & -> & Hv)]. rewrite (visit_perm _), elem_of_map_to_list in Hv.
  specialize (Hc _ _ Hv). unfold retrieved in Hr. simpl in *.
  apply andb_true_iff in Hr as [Hr _]. apply andb_true_iff in Hr as [Hr _].
  by apply String.eqb_eq in Hr.
Qed.

(** C10: a second session for a phone number blocks.  When the GPSI index has an entry for the number
    of the device, which storing the state of a first session for it puts there, [create_session]
    for a valid request never returns: the resolution of the device takes the mutex of the UE state
    manager twice. *)
Theorem second_session_same_phone_blocks request n m um d number mapping key :
  free (qod_state_manager_ m) → ue_state_manager_ m = Some um → rw_mtx_ um = Unlocked →
  req_qos_profile request ∈ supported_profiles_ →
  min_session_duration (config_ m) <= req_duration request <=
    max_duration (config_ m) (req_qos_profile request) →
  qos_profile_mappings_ (qod_state_manager_ m) !! req_qos_profile request = Some mapping →
  req_device request = Some d → phone_number d = Some number →
  is_Some (key_by_gpsi_ um !! number) → UeKey_gpsi (mkGpsi number) = Ok key →
  (create_session request (World n m)).1 = Undefined (relock Shared Shared).
Proof.
  intros Hf Hue Hl Hp [Hd1 Hd2] Hm Hdev Hph [k Hk] Hkey.
  unfold create_session. rewrite bind_get. cbn [obj]. rewrite max_duration_eq.
  unfold validate_qos_profile. rewrite bool_decide_eq_true_2 by done. cbn [negb].
  destruct (Z.ltb_spec (max_duration (config_ m) (req_qos_profile request)) (req_duration request));
    [lia|].
  destruct (Z.ltb_spec (req_duration request) (min_session_duration (config_ m))); [lia|]. cbn [orb].
  erewrite bind_run; [|apply (qod_read_run _ n m (Ok (Some mapping)));
    by rewrite get_qos_profile_mapping_run, Hm].
  assert (Hg : (get_ue_state_by_gpsi (mkGpsi number) (World n um)).1 = Undefined (relock Shared Shared)).
  { rewrite (gpsi_lookup_run n um (mkGpsi number) Hl). simpl. by rewrite Hk, Hkey. }
  assert (Hr : ∃ w', resolve_device d (World n m) = (Undefined (relock Shared Shared), w')).
  { unfold resolve_device. rewrite bind_get. cbn [obj]. rewrite Hue, Hph.
    destruct (get_ue_state_by_gpsi (mkGpsi number) (World n um)) as [r w'] eqn:Er.
    simpl in Hg. subst r. eexists. apply bind_undefined.
    unfold ue, on_pointer. cbn [obj ticks]. by rewrite Hue, Er. }
  destruct Hr as [w' Hr]. rewrite Hdev. by rewrite (bind_undefined _ _ _ _ _ Hr).
Qed.
(** *** Session ids *)

(** A session id has the shape of a UUID: thirty-six characters, hyphens at positions 8, 13, 18
    and 23, the version digit 4 at position 14 and lower-case hexadecimal digits elsewhere.  The
    digit at position 19, which RFC 4122 reserves for the variant (8, 9, a or b), is drawn like the
    others. *)
Theorem session_id_shape n m :
  ∃ id, generate_session_id (World n m) = (Ok id, World n (m <| draws := (31 + draws m)%nat |>)) ∧
    String.length id = 36%nat ∧
    (∀ i c, String.get i id = Some c →
       if decide (i ∈ [8; 13; 18; 23]%nat) then c = "-"%char
       else if decide (i = 14%nat) then c = "4"%char
       else c ∈ list_ascii_of_string hex_chars) ∧
    String.get 19 id = Some (hex_char (hex_draw (15 + draws m))).
Proof.
  destruct (session_id_chars 36 0 (draws m)) as [id k] eqn:E.
  exists id. unfold generate_session_id. rewrite bind_get. cbn [obj]. rewrite E.
  cbn [session_id_chars Nat.eqb orb] in E. injection E as <- <-.
  split_and!; [done|done| |done].
  assert (Hd : ∀ k, hex_char (hex_draw k) ∈ list_ascii_of_string hex_chars)
    by (intros; apply hex_char_hex, hex_draw_bound).
  intros i c. do 36 (destruct i as [|i]; [intros [= <-]; repeat case_decide; try set_solver; apply Hd|]).
  done.
Qed.

(** *** Creation *)

(** The request sent to the PCF for a session, when it can be built. *)
Definition pcf_request session : result string := j ← build_pcf_request session; dump j.

(** A session the PCF answers at once with a session id: the answer is handled as a confirmation. *)
Lemma apply_session_confirmed s n m w' text response rj pcf_id :
  pcf_service_ m = true → pcf_destination_ m ≠ "" → pcf_request s = Ok text →
  let reqs := requests m ++
    [(pcf_destination_ m, plain_message "pcf_create_qod_session" (session_id s) text)] in
  pcf_answer reqs = inr (Some response) →
  message_type response = "pcf_qod_session_created" →
  parse (payload response) = Ok rj → value_string "pcf_session_id" "" rj = Ok pcf_id →
  handle_pcf_session_response (session_id s) pcf_id true "" (World n (m <| requests := reqs |>)) =
    (Ok (), w') →
  apply_session_to_pcf s (World n m) = (Ok (true, s <| pcf_transaction_id := Some (session_id s) |>), w').
Proof.
  intros Hsv Hdest Ht reqs Ha Hty Hpa Hv Hc.
  unfold apply_session_to_pcf. rewrite bind_get. cbn [obj]. rewrite Hsv. cbn [negb].
  assert (empty (pcf_destination_ m) = false) as -> by (by destruct (pcf_destination_ m)).
  unfold pcf_request in Ht. unfold try_catch at 1.
  destruct (build_pcf_request s) as [j|e|u]; [|done..]. simpl in Ht.
  erewrite bind_run; [|done]. rewrite (bind_run (lift (dump j)) _ _ text (World n m))
    by (unfold lift; by rewrite Ht).
  unfold try_catch at 1.
  assert (Hsend : send_request (plain_message "pcf_create_qod_session" (session_id s) text)
                    (World n m) = (Ok (Some response), World n (m <| requests := reqs |>))).
  { unfold send_request. rewrite bind_get. cbn [obj]. erewrite bind_run; [|done]. fold reqs. by rewrite Ha. }
  rewrite (bind_run _ _ _ _ _ Hsend).
  assert (Hproc : process_response (s <| pcf_transaction_id := Some (session_id s) |>) (Some response)
                    (World n (m <| requests := reqs |>)) = (Ok true, w')).
  { unfold process_response. rewrite Hty, String.eqb_refl.
    rewrite (bind_run _ _ _ rj (World n (m <| requests := reqs |>))) by (unfold lift; by rewrite Hpa).
    rewrite (bind_run _ _ _ pcf_id (World n (m <| requests := reqs |>))) by (unfold lift; by rewrite Hv).
    by erewrite bind_run. }
  by rewrite (bind_run _ _ _ _ _ Hproc).
Qed.

(** A session the PCF confirms while it is being created is returned stale.  For a request
    without device and sink that passes the checks, when the PCF answers the creation request with a
    session id at once, the stored session is available, started and findable by that id, but the
    session returned is the one from before: requested, without start and expiry. *)
Theorem create_session_returns_stale request n m mapping id k text response rj pcf_id :
  free (qod_state_manager_ m) →
  req_qos_profile request ∈ supported_profiles_ →
  min_session_duration (config_ m) <= req_duration request <=
    max_duration (config_ m) (req_qos_profile request) →
  qos_profile_mappings_ (qod_state_manager_ m) !! req_qos_profile request = Some mapping →
  req_device request = None → req_sink request = None →
  pcf_service_ m = true → pcf_destination_ m ≠ "" →
  session_id_chars 36 0 (draws m) = (id, k) →
  let s := new_session request id mapping (clock n) None None in
  pcf_request s = Ok text →
  pcf_answer (requests m ++ [(pcf_destination_ m, plain_message "pcf_create_qod_session" id text)]) =
    inr (Some response) →
  message_type response = "pcf_qod_session_created" →
  parse (payload response) = Ok rj → value_string "pcf_session_id" "" rj = Ok pcf_id →
  ∃ w', create_session request (World n m) = (Ok (Some (s <| pcf_transaction_id := Some id |>)), w') ∧
    qos_status s = REQUESTED ∧ started_at s = None ∧ expires_at s = None ∧
    sessions_by_id_ (qod_state_manager_ (obj w')) !! id = Some (confirmed (clock (S n)) pcf_id s) ∧
    pcf_session_mapping_ (qod_state_manager_ (obj w')) !! pcf_id = Some id.
Proof.
  intros Hf Hp [Hd1 Hd2] Hm Hdev Hsink Hsv Hdest Hid s Ht Ha Hty Hpa Hv.
  unfold create_session. rewrite bind_get. cbn [obj]. rewrite max_duration_eq.
  unfold validate_qos_profile. rewrite bool_decide_eq_true_2 by done. cbn [negb].
  destruct (Z.ltb_spec (max_duration (config_ m) (req_qos_profile request)) (req_duration request));
    [lia|].
  destruct (Z.ltb_spec (req_duration request) (min_session_duration (config_ m))); [lia|]. cbn [orb].
  erewrite bind_run; [|apply (qod_read_run _ n m (Ok (Some mapping)));
    by rewrite get_qos_profile_mapping_run, Hm].
  rewrite Hdev. erewrite bind_run; [|done]. cbv beta iota. erewrite bind_run; [|done]. cbv beta iota.
  set (m1 := m <| draws := k |>).
  erewrite (bind_run generate_session_id _ _ id (World n m1))
    by (unfold generate_session_id; rewrite bind_get; cbn [obj]; by rewrite Hid).
  rewrite bind_now. cbn [ticks obj]. cbv zeta. fold s.
  set (m2 := m1 <| qod_state_manager_ := added s (qod_state_manager_ m) |>).
  erewrite (bind_run (qod (add_session s)) _ _ () (World (S n) m2))
    by (apply qod_run; by apply add_session_run).
  assert (Hdn : device s = None) by done.
  erewrite (bind_run (create_or_update_ue_state s) _ _ () (World (S n) m2)).
  2:{ unfold create_or_update_ue_state. rewrite bind_get. cbn [obj]. rewrite Hdn.
      by destruct (ue_state_manager_ m2). }
  set (reqs := requests m ++ [(pcf_destination_ m, plain_message "pcf_create_qod_session" id text)]) in *.
  set (m3 := m2 <| requests := reqs |>).
  assert (Hf2 : free (qod_state_manager_ m3)) by (apply free_added; exact Hf).
  assert (Hstored : sessions_by_id_ (qod_state_manager_ m3) !! id = Some s) by apply lookup_insert_eq.
  pose proof (confirmation_run id pcf_id "" (S n) m3 s Hf2 Hstored eq_refl
                (conj (or_introl Hdn) (or_introl Hsink))) as Hc.
  set (w' := World (S (S n)) _) in Hc.
  assert (Happly : apply_session_to_pcf s (World (S n) m2) =
                   (Ok (true, s <| pcf_transaction_id := Some id |>), w'))
    by exact (apply_session_confirmed s (S n) m2 w' text response rj pcf_id
                Hsv Hdest Ht Ha Hty Hpa Hv Hc).
  rewrite (bind_run _ _ _ _ _ Happly). exists w'. split; [done|].
  split_and!; [done..|apply lookup_insert_eq|apply lookup_insert_eq].
Qed.
End Operations.

(** ** Witnesses *)

Section Witnesses.
#[local] Existing Instances unit_models tick_clock tree_order plain_library tree_json.

(** A PCF that confirms every request at once. *)
Definition confirming_environment : Environment := {|
  pcf_answer := λ _, inr (Some (plain_message "pcf_qod_session_created" "" "pcf-1"));
  delivery_answer := λ _, inr true;
  hex_draw := λ n, (n mod 16)%nat;
  hex_draw_bound := λ n, Nat.mod_upper_bound n 16 (Nat.neq_succ_0 15) |}.
Definition null_mapper : QosMapper := λ _, jnull.
#[local] Existing Instances confirming_environment null_mapper.

Definition example_server : ApplicationServer := mkApplicationServer (Some "10.0.0.1") None.
Definition example_request : CreateSessionRequest :=
  mkCreateSessionRequest "consumer" None example_server None None "QOS_E" 600 None None.
Definition phone_request : CreateSessionRequest :=
  mkCreateSessionRequest "consumer" (Some (mkQodDevice (Some "+491701234567") None None None))
    example_server None None "QOS_E" 600 None None.

Definition new_manager : QodSessionManager :=
  QodSessionManager_new (Some (UeStateManager_new None)) QodStateManager_new QodSessionConfig_default.
Definition connected_manager : QodSessionManager := obj (initialize true "pcf" (World 0 new_manager)).2.

(** A manager holding one available session, and the world after its creation. *)
Definition example_world : world QodSessionManager :=
  (create_session example_request (World 0 connected_manager)).2.
Definition example_id : string := "01234567-89ab-4cde-f012-3456789abcde".

Lemma example_running : running QodSessionConfig_default example_world.
Proof.
  apply running_call; [|apply call_create|by vm_compute].
  change (World 0 connected_manager) with (initialize true "pcf" (World 0 new_manager)).2.
  apply running_call; [apply running_new|apply call_initialize|done].
Qed.

Definition stored_session : QodSession :=
  value_or example_session (sessions_by_id_ (qod_state_manager_ (obj example_world)) !! example_id).

Lemma sessions_well_formed_witness :
  ∃ t, started_at stored_session = Some t ∧ expires_at stored_session = Some (t + seconds 600).
Proof.
  assert (E : sessions_by_id_ (qod_state_manager_ (obj example_world)) !! example_id = Some stored_session)
    by (vm_compute; reflexivity).
  pose proof (sessions_well_formed QodSessionConfig_default example_world example_id stored_session
                example_running E) as [_ Ha _].
  assert (Hs : qos_status stored_session = AVAILABLE) by (vm_compute; reflexivity).
  destruct (Ha Hs) as (_ & t & Ht & He). exists t. split; [exact Ht|exact He].
Defined.

Lemma example_free : free (qod_state_manager_ (obj example_world)).
Proof. split; vm_compute; reflexivity. Qed.

Lemma consumer_isolation_witness :
  ∃ w, delete_session example_id "another consumer" w = (Ok false, w) ∧
       (get_session example_id "consumer" w).1 = Ok (Some stored_session).
Proof.
  exists (World 0 (obj example_world)). split.
  - apply (consumer_isolation example_id "another consumer" (mkExtendSessionDurationRequest "" 0) 0
             (obj example_world) example_free). vm_compute. reflexivity.
  - rewrite (proj1 (consumer_isolation example_id "consumer" (mkExtendSessionDurationRequest "" 0) 0
             (obj example_world) example_free)). vm_compute. reflexivity.
Defined.

Lemma create_session_rejects_witness :
  create_session (mkCreateSessionRequest "consumer" None example_server None None "QOS_E" 4000 None None)
    (World 0 connected_manager) = (Ok None, World 0 connected_manager).
Proof.
  apply create_session_rejects; [split; vm_compute; reflexivity|].
  right. left. vm_compute. reflexivity.
Defined.

Lemma extend_spec_witness :
  ∃ s w', extend_session_duration (mkExtendSessionDurationRequest example_id 5000) "consumer"
            (World 0 (obj example_world)) = (Ok (Some s), w') ∧ duration s = 3600.
Proof.
  assert (E : sessions_by_id_ (qod_state_manager_ (obj example_world)) !! example_id = Some stored_session)
    by (vm_compute; reflexivity).
  assert (Ho : owned example_id "consumer" (obj example_world) = Some stored_session)
    by (vm_compute; reflexivity).
  assert (Hi : session_id stored_session = example_id) by (vm_compute; reflexivity).
  pose proof (extend_spec (mkExtendSessionDurationRequest example_id 5000) "consumer" 0
    (obj example_world) stored_session example_free Ho Hi
    (running_sessions_ok QodSessionConfig_default example_world example_running example_id
       stored_session E)) as He.
  assert (Hs : qos_status stored_session = AVAILABLE) by (vm_compute; reflexivity).
  rewrite Hs in He. destruct He as (t & _ & He).
  eexists _, _. split; [exact He|]. vm_compute. reflexivity.
Defined.


Definition waiting_manager : QodSessionManager :=
  QodSessionManager_new None
    (added (example_session <| qos_status := REQUESTED |>) QodStateManager_new) QodSessionConfig_default.


Lemma conflict_check_blind_witness :
  check_session_conflict QodDevice_default example_server (World 0 waiting_manager) =
  (Ok None, World 0 waiting_manager).
Proof.
  apply conflict_check_blind; [split; vm_compute; reflexivity|].
  intros id s Hs. change (sessions_by_id_ (qod_state_manager_ waiting_manager))
    with (<["s1" := example_session <| qos_status := REQUESTED |>]> (∅ : gmap string QodSession)) in Hs.
  rewrite lookup_insert in Hs. destruct (decide ("s1" = id)); [|by rewrite lookup_empty in Hs].
  simplify_eq. discriminate.
Defined.

Lemma world_eta {S} (w : world S) : w = World (ticks w) (obj w).
Proof. by destruct w. Qed.

Lemma qos_e_supported : "QOS_E" ∈ supported_profiles_.
Proof. by apply (bool_decide_unpack _). Qed.

(** Two requests for the same phone number, one after the other. *)
Definition first_manager : QodSessionManager :=
  obj (create_session phone_request (World 0 connected_manager)).2.

Lemma second_session_same_phone_blocks_witness :
  is_ok (create_session phone_request (World 0 connected_manager)).1 = true ∧
  (create_session phone_request
     (create_session phone_request (World 0 connected_manager)).2).1 = Undefined (relock Shared Shared).
Proof.
  split; [vm_compute; reflexivity|].
  rewrite (world_eta (create_session phone_request (World 0 connected_manager)).2).
  apply (second_session_same_phone_blocks phone_request _ _
    (value_or (UeStateManager_new None) (ue_state_manager_ first_manager))
    (mkQodDevice (Some "+491701234567") None None None) "+491701234567"
    (mkQosProfileMapping 1 (Some 2) 100 (1 # 1000) None true
       (Some "64 Kbps") (Some "64 Kbps") (Some "128 Kbps") (Some "128 Kbps"))
    (single GPSI_BASED "+491701234567")).
  - split; vm_compute; reflexivity.
  - vm_compute. reflexivity.
  - vm_compute. reflexivity.
  - exact qos_e_supported.
  - split; vm_compute; discriminate.
  - vm_compute. reflexivity.
  - reflexivity.
  - reflexivity.
  - vm_compute. eexists. reflexivity.
  - vm_compute. reflexivity.
Defined.

Definition example_answer : json := TObject [("pcf_session_id", TString "pcf-1")].

Definition example_mapping : QosProfileMapping :=
  mkQosProfileMapping 1 (Some 2) 100 (1 # 1000) None true
    (Some "64 Kbps") (Some "64 Kbps") (Some "128 Kbps") (Some "128 Kbps").

(** The request sent to the PCF for the example. *)
Definition example_text : string :=
  match pcf_request (new_session example_request example_id example_mapping (clock 0) None None) with
  | Ok text => text
  | _ => ""
  end.

Lemma create_session_returns_stale_witness :
  ∃ s w', create_session example_request (World 0 connected_manager) = (Ok (Some s), w') ∧
    qos_status s = REQUESTED ∧
    qos_status <$> sessions_by_id_ (qod_state_manager_ (obj w')) !! example_id = Some AVAILABLE.
Proof.
  destruct (create_session_returns_stale example_request 0 connected_manager
    example_mapping
    example_id 31 example_text (plain_message "pcf_qod_session_created" "" "pcf-1")
    example_answer "pcf-1") as (w' & E & Hs & _ & _ & Hst & _).
  - split; vm_compute; reflexivity.
  - exact qos_e_supported.
  - split; vm_compute; discriminate.
  - vm_compute. reflexivity.
  - reflexivity.
  - reflexivity.
  - reflexivity.
  - discriminate.
  - vm_compute. reflexivity.
  - vm_compute. reflexivity.
  - reflexivity.
  - reflexivity.
  - reflexivity.
  - reflexivity.
  - eexists _, w'. split; [exact E|]. split; [exact Hs|]. by rewrite Hst.
Defined.
End Witnesses.
