(* ===== verification/TransportSpec.v ===== *)
(** * From the session manager to the PCF handler

    What arrives at the PCF handler of a QoD session that the session manager of the AF core sends:
    the reader of [QodPcfHandler] on the request that [build_pcf_request] of [QodSessionManager]
    writes. *)

From S2P Require Import Prelude Effects CxxString UeKey QodTypes Json JsonMembers Comms ServiceHelpers PcfHelpers.
From S2P Require Import UeState PcfGateway QodPcfHandler PcfHandler PcfExamples QodSessionManager.

Section Specification.
Context `{Clock} `{JsonLaws} `{!HandlerLibrary} `{!ValidationLibrary} `{!PcfLibrary} `{!QosMapper}.
Context {G : Type} `{!PcfGateway G}.
Implicit Types (session : QodSession).

Hypothesis get_port_view : ∀ j z, view_of j = VInt z → is_port z → get_port j = Ok z.

(** Printing fails only on text that is not UTF-8. *)
Hypothesis printable : ∀ j, ∃ text, dump j = Ok text.

(** ** Devices *)

(** The device the PCF handler reads: the network access identifier is not sent, the SUPI takes its
    place; a device with nothing that is sent is no device. *)
Definition received_device (d : QodDevice) (x : option Supi) : option QodDevice :=
  match x, phone_number d, device_ipv4_address d, device_ipv6_address d with
  | None, None, None, None => None
  | _, _, _, _ => Some (mkQodDevice (phone_number d) (supi <$> x) (device_ipv4_address d)
                          (device_ipv6_address d))
  end.

(** The members of the IPv4 address of a device. *)
Definition ipv4_members (a : DeviceIpv4Addr) : gmap string json :=
  insert_optional "publicPort" (jint <$> public_port a)
    (insert_optional "privateAddress" (jstring ∘ ipv4 <$> private_address a)
       {["publicAddress" := jstring (ipv4 (public_address a))]}).

(** What an address adds to the members. *)
Definition has_ipv4 (a : option DeviceIpv4Addr) (m : gmap string json) : Prop :=
  match a with
  | Some a => ∃ v, m !! "ipv4Address" = Some v ∧ writable v (ipv4_members a)
  | None => m !! "ipv4Address" = None
  end.

Lemma has_ipv4_ext a m m' :
  m' !! "ipv4Address" = m !! "ipv4Address" → has_ipv4 a m → has_ipv4 a m'.
Proof. unfold has_ipv4. by intros ->. Qed.

Lemma add_ipv4 (a : option DeviceIpv4Addr) j m :
  writable j m → m !! "ipv4Address" = None →
  gives (match a with Some a => convert_ipv4_to_pcf a j | None => mret j end)
    (λ j', ∃ m' : gmap string json, writable j' m' ∧ (∀ k, k ≠ "ipv4Address" → m' !! k = m !! k) ∧
       has_ipv4 a m').
Proof.
  intros Hj Hm. destruct a as [a|]; [|by exists j; eauto].
  unfold convert_ipv4_to_pcf. eapply gives_bind; [by apply assign_member, Hj|]. intros j1 Hj1.
  assert (Hh : holds "ipv4Address" ∅ j1 (<["ipv4Address" := jnull]> m))
    by (split; [exact Hj1|rewrite lookup_insert_eq; apply writable_null]).
  eapply gives_bind; [exact (add_below _ "publicAddress" (Some _) _ _ _ Hh)|].
  intros j2 (m2 & Hh2 & Hb2).
  eapply gives_bind; [exact (add_below _ "privateAddress" _ _ _ _ Hh2)|]. intros j3 (m3 & Hh3 & Hb3).
  eapply gives_mono; [exact (add_below _ "publicPort" _ _ _ _ Hh3)|]. intros j4 (m4 & [Hj4 Hv] & Hb4).
  pose proof (below_trans _ _ _ _ _ _ (below_insert "ipv4Address" jnull m)
    (below_trans _ _ _ _ _ _ Hb2 (below_trans _ _ _ _ _ _ Hb3 Hb4))) as [Hne Hk].
  exists m4. split; [done|]. split; [done|]. rewrite orb_true_r in Hk. simpl in Hk |- *.
  destruct (m4 !! "ipv4Address") as [v|]; [|done]. by exists v.
Qed.

Lemma convert_device d x :
  gives (convert_device_to_pcf d x) (λ j, ∃ m,
    writable j m ∧ m !! "gpsi" = jstring <$> phone_number d ∧ m !! "supi" = jstring ∘ supi <$> x ∧
    m !! "ipv6Address" = jstring ∘ ipv6 <$> device_ipv6_address d ∧
    has_ipv4 (device_ipv4_address d) m).
Proof.
  unfold convert_device_to_pcf. eapply gives_bind; [by apply add_member_gives, writable_null|].
  intros j1 Hj1. eapply gives_bind; [by apply add_member_gives, Hj1|]. intros j2 Hj2.
  eapply gives_bind; [apply add_ipv4; [exact Hj2|by rewrite !lookup_insert_optional]|].
  intros j3 (m3 & Hj3 & Hm3 & Ha). eapply gives_mono; [apply add_member_gives, Hj3|].
  intros j4 Hj4. eexists. split; [exact Hj4|]. rewrite !lookup_insert_optional. simpl.
  rewrite !Hm3, !lookup_insert_optional by done. simpl. split_and!.
  - by destruct (phone_number d).
  - by destruct x.
  - by destruct (device_ipv6_address d).
  - eapply has_ipv4_ext; [|exact Ha]. by rewrite lookup_insert_optional.
Qed.

Lemma ipv4_read a v :
  from_option is_port True (public_port a) → writable v (ipv4_members a) → parse_ipv4 v = Ok a.
Proof.
  intros Hp Hv. destruct a as [public private port]. unfold parse_ipv4.
  unfold ipv4_members in Hv. simpl in Hv.
  rewrite (optional_member_read "publicAddress" jstring get_string (Some (ipv4 public)) v _ Hv);
    [|by rewrite !lookup_insert_optional|intros; apply text_read].
  rewrite (optional_member_read "privateAddress" jstring get_string (ipv4 <$> private) v _ Hv);
    [|rewrite !lookup_insert_optional; simpl; by destruct private|intros; apply text_read].
  rewrite (optional_member_read "publicPort" jint get_port port v _ Hv);
    [|rewrite !lookup_insert_optional; simpl; by destruct port|].
  - destruct public, private as [[]|]; reflexivity.
  - intros p ->. apply get_port_view; [apply view_int|exact Hp].
Qed.

Lemma device_received d x :
  from_option is_port True (device_ipv4_address d ≫= public_port) →
  gives (convert_device_to_pcf d x) (λ j, parse_device j = Ok (received_device d x)).
Proof.
  intros Hp. destruct (convert_device d x) as (j & E & m & Hj & Hg & Hs & H6' & H4').
  exists j. split; [exact E|]. unfold parse_device.
  destruct (is_null j) eqn:En.
  - rewrite null_view in En. destruct Hj as [Hj|[_ ->]]; [by rewrite Hj in En|].
    unfold received_device. destruct x; [done|]. destruct (phone_number d); [done|].
    destruct (device_ipv6_address d); [done|]. destruct (device_ipv4_address d) as [a|]; [|done].
    by destruct H4' as (v & Hv & _).
  - rewrite (optional_member_read "gpsi" jstring get_string (phone_number d) j m Hj Hg)
      by (intros; apply text_read).
    rewrite (optional_member_read "supi" jstring get_string (supi <$> x) j m Hj);
      [|by rewrite Hs; destruct x|intros; apply text_read].
    assert (H4d : optional_member "ipv4Address" parse_ipv4 j = Ok (device_ipv4_address d) ∧
                  gives (optional_member "ipv4Address" dump j) (λ _, True)).
    { unfold has_ipv4 in H4'. unfold optional_member. rewrite (writable_contains _ _ _ Hj).
      destruct (device_ipv4_address d) as [a|].
      - destruct H4' as (v & Hv & Hw). rewrite (writable_index _ _ _ Hj), Hv. simpl. split.
        + by rewrite (ipv4_read a v Hp Hw).
        + destruct (printable v) as [t ->]. by eexists.
      - rewrite H4'. simpl. split; [done|by eexists]. }
    destruct H4d as [E4 (o & Ed & _)]. simpl. rewrite Ed, E4. simpl.
    rewrite (optional_member_read "ipv6Address" jstring get_string (ipv6 <$> device_ipv6_address d) j m Hj);
      [|by rewrite H6'; destruct (device_ipv6_address d)|intros; apply text_read].
    unfold received_device. clear Hj Hg Hs H6' H4' E4 Ed.
    destruct d as [[number|] nai [a|] [[a6]|]], x as [[s]|];
      try reflexivity.
    injection E as <-. by rewrite null_view, view_null in En.
Qed.

(** ** Sessions *)

(** Of the ports of the device only the single ones arrive. *)
Definition received_ports (spec : option PortsSpec) : option PortsSpec :=
  match spec with
  | Some spec => match ranges spec, ports spec with [], [] => None | _, l => Some (mkPortsSpec [] l) end
  | None => None
  end.

(** The session the PCF handler reads: without the consumer, the port ranges, the ports of the server,
    the sink and the SUPI, which is in the device. *)
Definition received session (d : QodDevice) : QodSession :=
  QodSession_default <| session_id := session_id session |>
    <| device := received_device d (ue_supi session) |>
    <| application_server := application_server session |>
    <| device_ports := received_ports (device_ports session) |> <| application_server_ports := None |>
    <| qos_profile := qos_profile session |> <| duration := duration session |>.

(** What the types of the session ensure. *)
Definition well_typed session : Prop :=
  from_option is_port True (d ← device session; a ← device_ipv4_address d; public_port a) ∧
  from_option (λ spec, Forall is_port (ports spec)) True (device_ports session).

Definition has_server session : bool :=
  has_value (server_ipv4_address (application_server session)) ||
  has_value (server_ipv6_address (application_server session)).

(** The members of the ports and of the server. *)
Definition ports_members (spec : PortsSpec) (v : json) : gmap string json :=
  insert_optional "ports"
    (if bool_decide (ports spec = []) then None else Some (jarray (jint <$> ports spec)))
    (insert_optional "port_ranges" (if bool_decide (ranges spec = []) then None else Some v) ∅).

Lemma ports_read spec v x :
  Forall is_port (ports spec) → writable v (ports_members spec x) → received_ports (Some spec) ≠ None →
  parse_ports v = Ok (received_ports (Some spec)).
Proof.
  intros Hp Hv Hr. unfold parse_ports. unfold ports_members in Hv.
  assert (is_null v = false) as ->.
  { destruct spec as [[|r rs] [|p ps]]; simpl in *; [done|..].
    - eapply (writable_not_null v _ "ports"); [exact Hv|]. by rewrite lookup_insert_optional.
    - eapply (writable_not_null v _ "port_ranges"); [exact Hv|]. by rewrite !lookup_insert_optional.
    - eapply (writable_not_null v _ "ports"); [exact Hv|]. by rewrite !lookup_insert_optional. }
  rewrite (array_member_read "ranges" (λ r, jnull) parse_range [] v _ Hv);
    [|by rewrite !lookup_insert_optional|by constructor].
  simpl. rewrite (array_member_read "ports" jint get_port (ports spec) v _ Hv).
  - simpl. by destruct spec as [[|r rs] [|p ps]].
  - rewrite !lookup_insert_optional. simpl. by case_bool_decide.
  - eapply Forall_impl; [exact Hp|]. intros p Hpp. apply get_port_view; [apply view_int|exact Hpp].
Qed.

Definition server_members (server : ApplicationServer) : gmap string json :=
  insert_optional "ipv6Address" (jstring <$> server_ipv6_address server)
    (insert_optional "ipv4Address" (jstring <$> server_ipv4_address server) ∅).

Lemma server_read server v :
  writable v (server_members server) → parse_application_server v = Ok server.
Proof.
  intros Hv. unfold parse_application_server. unfold server_members in Hv.
  rewrite (optional_member_read "ipv4Address" jstring get_string (server_ipv4_address server) v _ Hv);
    [|rewrite !lookup_insert_optional; simpl; by destruct (server_ipv4_address server)
     |intros; apply text_read].
  simpl.
  rewrite (optional_member_read "ipv6Address" jstring get_string (server_ipv6_address server) v _ Hv);
    [|rewrite !lookup_insert_optional; simpl; by destruct (server_ipv6_address server)
     |intros; apply text_read].
  by destruct server.
Qed.

(** The writing of the ports. *)
Definition sent_ports (spec : PortsSpec) (j : json) : result json :=
  let port_ranges :=
    (λ r, jobject [("from", jint (from r)); ("to", jint (to r))]) <$> ranges spec in
  j ← (if bool_decide (ranges spec = []) then mret j
       else assign_path ["device_ports"; "port_ranges"] (jarray port_ranges) j);
  if bool_decide (ports spec = []) then mret j
  else assign_path ["device_ports"; "ports"] (jarray (jint <$> ports spec)) j.

Lemma add_ports spec j m :
  holds "device_ports" ∅ j m →
  gives (sent_ports spec j) (λ j', ∃ m' v, holds "device_ports" (ports_members spec v) j' m' ∧
    below "device_ports" (negb (bool_decide (ranges spec = []) && bool_decide (ports spec = []))) m m').
Proof.
  intros Hj. unfold sent_ports. rewrite add_if. eapply gives_bind; [by apply add_below, Hj|].
  intros j1 (m1 & Hj1 & Hb1). rewrite add_if. eapply gives_mono; [by apply add_below, Hj1|].
  intros j2 (m2 & Hj2 & Hb2). exists m2. eexists. split; [exact Hj2|].
  pose proof (below_trans _ _ _ _ _ _ Hb1 Hb2) as Hb. by do 2 case_bool_decide.
Qed.

(** The members of a request. *)
Record request_of session (d : QodDevice) (m : gmap string json) : Prop := {
  of_id : m !! "session_id" = Some (jstring (session_id session));
  of_profile : m !! "qos_profile" = Some (jstring (qos_profile session));
  of_duration : m !! "duration" = Some (jint (duration session));
  of_device : ∃ v, m !! "device" = Some v ∧ parse_device v = Ok (received_device d (ue_supi session));
  of_server : if has_server session then
                ∃ v, m !! "application_server" = Some v ∧
                     writable v (server_members (application_server session))
              else m !! "application_server" = None;
  of_ports : match received_ports (device_ports session) with
             | Some spec => ∃ v, m !! "device_ports" = Some v ∧ parse_ports v = Ok (Some spec)
             | None => m !! "device_ports" = None
             end;
  of_mapping : m !! "qos_profile_mapping" = serialize_qos_mapping <$> qos_profile_mapping session;
  of_others : Forall (λ k, m !! k = None) ["application_server_ports"; "sink"; "ue_supi"; "api_consumer_id"] }.

Lemma ports_received session j m :
  from_option (λ spec, Forall is_port (ports spec)) True (device_ports session) →
  writable j m → m !! "device_ports" = None →
  gives (match device_ports session with Some spec => sent_ports spec j | None => mret j end)
    (λ j, ∃ m', writable j m' ∧ (∀ k, k ≠ "device_ports" → m' !! k = m !! k) ∧
       match received_ports (device_ports session) with
       | Some spec => ∃ v, m' !! "device_ports" = Some v ∧ parse_ports v = Ok (Some spec)
       | None => m' !! "device_ports" = None
       end).
Proof.
  intros Hps Hj Hm. destruct (device_ports session) as [spec|]; [|by exists j; eauto].
  eapply gives_mono; [apply add_ports; split; [exact Hj|rewrite Hm; apply writable_null]|].
  intros j' (m' & v & [Hj' Hv] & [Hne Hk]). exists m'. split; [done|]. split; [done|].
  rewrite Hm in Hk. simpl in Hk, Hps.
  destruct (received_ports (Some spec)) as [spec'|] eqn:Er.
  - destruct (m' !! "device_ports") as [v'|] eqn:E.
    + exists v'. split; [done|]. rewrite <-Er. by apply (ports_read spec v' v); [..|rewrite Er].
    + by destruct spec as [[|] [|]].
  - destruct spec as [[|] [|]]; try done. by destruct (m' !! "device_ports").
Qed.

Lemma build_request session d :
  device session = Some d → well_typed session →
  gives (build_pcf_request session) (λ j, ∃ m, writable j m ∧ request_of session d m).
Proof.
  intros Hd [Hp4 Hps]. unfold build_pcf_request. rewrite Hd in Hp4 |- *.
  eapply gives_bind; [by apply assign_member, writable_null|]. intros j1 Hj1.
  eapply gives_bind; [by apply assign_member, Hj1|]. intros j2 Hj2.
  eapply gives_bind; [by apply assign_member, Hj2|]. intros j3 Hj3.
  eapply gives_bind.
  { eapply gives_bind; [apply device_received; exact Hp4|]. intros vd Hvd.
    eapply gives_mono; [by apply assign_member, Hj3|]. intros j4 Hj4.
    exact (ex_intro (λ vd, parse_device vd = Ok (received_device d (ue_supi session)) ∧
             writable j4 (<["device" := vd]> _)) vd (conj Hvd Hj4)). }
  intros j4 (vd & Hvd & Hj4). set (m4 := <["device" := vd]> _) in Hj4.
  assert (Hs4 : holds "application_server" ∅ j4 m4) by (split; [exact Hj4|apply writable_null]).
  eapply gives_bind; [by apply add_below, Hs4|]. intros j5 (m5 & Hj5 & Hb5).
  eapply gives_bind; [by apply add_below, Hj5|]. intros j6 (m6 & [Hj6 Hv6] & Hb6).
  pose proof (below_trans _ _ _ _ _ _ Hb5 Hb6) as [Hne6 Hk6]. clear Hb5 Hb6 Hj5.
  assert (Hnone : m6 !! "device_ports" = None) by (rewrite Hne6 by done; by simplify_map_eq).
  eapply gives_bind; [exact (ports_received session j6 m6 Hps Hj6 Hnone)|].
  intros j7 (m7 & Hj7 & Hne7 & Hp7).
  assert (Hlast : ∃ k v, k ∈ ["qos_profile_mapping"; "5qi"] ∧
    gives (match qos_profile_mapping session with
           | Some mapping => assign_path ["qos_profile_mapping"] (serialize_qos_mapping mapping) j7
           | None => assign_path ["5qi"] (jint (fallback_5qi (qos_profile session))) j7
           end) (λ j, writable j (<[k := v]> m7)) ∧
    serialize_qos_mapping <$> qos_profile_mapping session =
      if bool_decide (k = "qos_profile_mapping") then Some v else None).
  { destruct (qos_profile_mapping session) as [mapping|].
    - exists "qos_profile_mapping". eexists. split_and!; [set_solver|by apply assign_member, Hj7|done].
    - exists "5qi". eexists. split_and!; [set_solver|by apply assign_member, Hj7|done]. }
  destruct Hlast as (k & v & Hk & Hg & Hm). eapply gives_mono; [exact Hg|]. intros j8 Hj8.
  eexists. split; [exact Hj8|].
  assert (Hfar : ∀ k', k' ∉ ["qos_profile_mapping"; "5qi"; "device_ports"; "application_server"] →
            <[k := v]> m7 !! k' = m4 !! k').
  { intros k' Hk'. rewrite lookup_insert_ne by set_solver. rewrite Hne7, Hne6 by set_solver. done. }
  assert (Hm4 : ∀ k', k' ∉ ["device"; "duration"; "qos_profile"; "session_id"] → m4 !! k' = None).
  { intros k' Hk'. unfold m4. rewrite !lookup_insert_ne by set_solver. apply lookup_empty. }
  split.
  - rewrite Hfar by decide_names. unfold m4. by simplify_map_eq.
  - rewrite Hfar by decide_names. unfold m4. by simplify_map_eq.
  - rewrite Hfar by decide_names. unfold m4. by simplify_map_eq.
  - exists vd. split; [|done]. rewrite Hfar by decide_names. unfold m4. by simplify_map_eq.
  - rewrite lookup_insert_ne, Hne7 by set_solver. rewrite Hm4 in Hk6 by decide_names. simpl in Hk6.
    rewrite !has_value_fmap in Hk6. unfold has_server. rewrite <-Hk6.
    destruct (m6 !! "application_server") as [v'|]; simpl; [by exists v'|done].
  - by rewrite lookup_insert_ne by set_solver.
  - rewrite Hm. case_bool_decide; [subst; apply lookup_insert_eq|].
    rewrite lookup_insert_ne, Hne7, Hne6, Hm4 by (done || decide_names). done.
  - repeat constructor; rewrite Hfar by decide_names; apply Hm4; decide_names.
Qed.

Lemma required_text k j m s : view_of j = VObject m → m !! k = Some (jstring s) → required_string k j = Ok s.
Proof. intros Hj Hk. unfold required_string. rewrite (jat_some k j m _ Hj Hk). apply text_read. Qed.

Lemma required_missing k j m :
  writable j m → m !! k = None → required_string k j = Throw (json_exception "key not found").
Proof. intros Hj Hk. unfold required_string. by rewrite (jat_missing k j m Hj Hk). Qed.

(** A request is read only if it names an application server; never by the handler of updates. *)
Lemma request_read session d j m :
  writable j m → request_of session d m →
  parse_session false j =
    (if has_server session then Ok (received session d) else Throw (json_exception "key not found")) ∧
  parse_session true j = Throw (json_exception "key not found").
Proof.
  intros Hj [Hid Hpr Hdu (vd & Hvd & Hd) Hs Hp _ Ho]. pose proof (writable_object _ _ _ _ Hj Hid) as Hv.
  rewrite !Forall_cons in Ho. destruct Ho as (Hsp & Hsi & Hx & Hc & _).
  unfold parse_session. rewrite (required_text _ _ _ _ Hv Hid). split.
  2:{ by rewrite (required_missing _ _ _ Hj Hc). }
  cbn [mbind result_bind mret result_ret]. rewrite (jat_some _ _ _ _ Hv Hvd). cbn [mbind result_bind].
  rewrite Hd. cbn [mbind result_bind].
  destruct (has_server session); [|by rewrite (jat_missing _ _ _ Hj Hs)].
  destruct Hs as (vs & Hvs & Hws). rewrite (jat_some _ _ _ _ Hv Hvs). cbn [mbind result_bind].
  rewrite (server_read _ _ Hws). cbn [mbind result_bind].
  assert (Hports : ∃ v, value_json "device_ports" jnull j = Ok v ∧
                        parse_ports v = Ok (received_ports (device_ports session))).
  { unfold value_json. rewrite object_view, Hv, (writable_contains _ _ _ Hj).
    destruct (received_ports (device_ports session)) as [spec|].
    - destruct Hp as (vp & Hvp & Ep). exists vp. rewrite Hvp. simpl. by rewrite (index_view _ _ _ _ Hv Hvp).
    - exists jnull. rewrite Hp. split; [done|]. unfold parse_ports. by rewrite null_view, view_null. }
  assert (Hsports : value_json "application_server_ports" jnull j = Ok jnull ∧ parse_ports jnull = Ok None).
  { unfold value_json, parse_ports. rewrite object_view, Hv, (writable_contains _ _ _ Hj), Hsp. simpl.
    by rewrite null_view, view_null. }
  destruct Hports as (vp & -> & Ep). cbn [mbind result_bind]. rewrite Ep. cbn [mbind result_bind].
  destruct Hsports as [-> Esp]. cbn [mbind result_bind]. rewrite Esp. cbn [mbind result_bind].
  rewrite (required_text _ _ _ _ Hv Hpr). cbn [mbind result_bind].
  rewrite (jat_some _ _ _ _ Hv Hdu). cbn [mbind result_bind].
  rewrite (get_int_view _ _ (view_int _)). cbn [mbind result_bind].
  rewrite (optional_member_read "sink" jstring get_string None j m Hj Hsi) by done. cbn [mbind result_bind].
  by rewrite (optional_member_read "ue_supi" jstring get_string None j m Hj Hx) by done.
Qed.

(** ** The handler *)

(** The mapping arrives. *)
Definition transmitted (mapping : QosProfileMapping) : Prop :=
  is_null (serialize_qos_mapping mapping) = false ∧
  ∃ r, try_deserialize_qos_mapping (serialize_qos_mapping mapping) = (r, mapping) ∧
       is_valid r = true ∧ is_valid (validate_qos_mapping mapping) = true.

Definition with_mapping (mapping : option QosProfileMapping) session : QodSession :=
  match mapping with
  | Some mapping => session <| qos_profile_mapping := Some mapping |>
  | None => session
  end.

Lemma mapping_read session d j m :
  writable j m → request_of session d m → from_option transmitted True (qos_profile_mapping session) →
  parse_mapping j = Ok (inr (qos_profile_mapping session)).
Proof.
  intros Hj Hr Ht. pose proof (of_mapping _ _ _ Hr) as Hm. unfold parse_mapping.
  rewrite (writable_contains _ _ _ Hj), Hm. destruct (qos_profile_mapping session) as [mapping|]; [|done].
  simpl in *. rewrite (writable_index _ _ _ Hj), Hm. simpl.
  destruct Ht as (-> & r & -> & Hr1 & Hr2). by rewrite Hr1, Hr2.
Qed.

Lemma create_pcf_session_returns session (w : world (QodPcfHandler (G:=G))) e w' :
  create_pcf_session session w ≠ (Throw e, w').
Proof.
  unfold create_pcf_session, or_nothing, try_catch.
  by match goal with |- context [match ?x with _ => _ end] => destruct x as [[]] end.
Qed.

End Specification.

(** ** Witness *)

Section Witness.
#[local] Existing Instance tick_clock.

(** A session for the ports 5000 to 5100 of a device. *)
Definition example_device : QodDevice :=
  mkQodDevice (Some "+491701234567") None
    (Some (mkDeviceIpv4Addr (mkIpv4Addr "10.45.0.2") None (Some 5000))) None.
Definition ranged_session : QodSession :=
  blank_session <| session_id := "s1" |> <| device := Some example_device |>
    <| application_server := mkApplicationServer (Some "203.0.113.1") None |>
    <| device_ports := Some (mkPortsSpec [mkPortRange 5000 5100] []) |> <| qos_profile := "QOS_L" |>
    <| qos_profile_mapping := Some (mkQosProfileMapping 9 None 0 0 None false None None None None) |>
    <| duration := 600 |>.

(** Mappings are written as their 5QI; the parser knows the one request. *)
Definition fiveqi_mapper read : @QosMapper (tree_json_with read) :=
  λ mapping, TObject [("fiveqi", TInt (fiveqi mapping))].
Definition no_reader (text : string) : result tree := Throw (json_parse_error "parse error").
Definition sent_request : tree :=
  Eval vm_compute in
    match @build_pcf_request (tree_json_with no_reader) (fiveqi_mapper no_reader) ranged_session with
    | Ok j => j
    | _ => TNull
    end.
Definition request_reader (text : string) : result tree :=
  if String.eqb text (print_tree sent_request) then Ok sent_request else no_reader text.
Definition request_json : Json := tree_json_with request_reader.
Definition request_laws : @JsonLaws request_json := tree_laws request_reader.
Definition request_mapper : @QosMapper request_json := fiveqi_mapper request_reader.
#[local] Existing Instances request_json request_laws request_mapper handler_helpers plain_validation
  plain_pcf_library accepting_pcf.

Definition connected_handler : QodPcfHandler (G:=HttpPcfGateway) :=
  QodPcfHandler_new (Some (HttpPcfGateway_new true "v1")).

Lemma example_ports j z : view_of j = VInt z → is_port z → get_port j = Ok z.
Proof. intros Hv _. exact (get_int_view j z Hv). Qed.

Lemma example_printable j : ∃ text, dump j = Ok text.
Proof. by exists (print_tree j). Qed.

End Witness.
