(* ===== verification/SessionAgreement.v ===== *)
(** * The AF core and the PCF handler together

    The session manager of the AF core with the PCF handler as the service it sends its requests to:
    over every sequence of calls of the API the two agree on the sessions of the PCF. *)

From S2P Require Import Prelude Effects CxxString UeKey UeState Events UeStateManager QodTypes QodStateManager.
From S2P Require Import Json JsonMembers Comms ServiceHelpers PcfHelpers PcfGateway QodPcfHandler RequestRouter.
From S2P Require Import PcfRequestSpec PccRuleManager PcfHandler PcfExamples QodPcfSpec QodSessionManager QodSessionInvariant QodSessionSpec.
From S2P Require Import TransportSpec.

(** ** Partial correctness *)

(** From a state with [P], a value [m] returns and the state it leaves are related by [Q]. *)
Definition results {S A} (P : S → Prop) (m : M S A) (Q : A → S → Prop) : Prop :=
  ∀ w a w', P (obj w) → m w = (Ok a, w') → Q a (obj w').

Section Results.
Context {S : Type}.
Implicit Types (P R : S → Prop).

Lemma results_ret {A} P (a : A) (Q : A → S → Prop) : (∀ s, P s → Q a s) → results P (mret a) Q.
Proof. intros HQ w a' w' Hw [= <- <-]. by apply HQ. Qed.

Lemma results_bind {A B} P (m : M S A) (R : A → S → Prop) (f : A → M S B) (Q : B → S → Prop) :
  results P m R → (∀ a, results (R a) (f a) Q) → results P (m ≫= f) Q.
Proof.
  intros Hm Hf w b w' Hw. unfold mbind, M_bind. destruct (m w) as [[a|e|u] w1] eqn:E; [|done..].
  intros Eb. eapply Hf; [|exact Eb]. by eapply Hm.
Qed.

(** A step about which nothing is needed. *)
Lemma results_skip {A B} P (m : M S A) (f : A → M S B) (Q : B → S → Prop) :
  (∀ a, results (λ _, True) (f a) Q) → results P (m ≫= f) Q.
Proof. intros Hf. by apply (results_bind _ _ (λ _ _, True)). Qed.

Lemma results_lift {A} P (r : result A) (Q : A → S → Prop) :
  (∀ a s, P s → r = Ok a → Q a s) → results P (lift r) Q.
Proof. intros HQ w a w' Hw [= E <-]. by apply HQ. Qed.

Lemma results_preserves {A} P (m : M S A) : preserves P m → results P m (λ _, P).
Proof. intros Hm w a w' Hw E. specialize (Hm w Hw). unfold wp in Hm. rewrite E in Hm. by apply Hm. Qed.

Lemma results_mono {A} P P' (m : M S A) (Q Q' : A → S → Prop) :
  results P m Q → (∀ s, P' s → P s) → (∀ a s, Q a s → Q' a s) → results P' m Q'.
Proof. intros Hm HP HQ w a w' Hw E. apply HQ. by eapply Hm; [apply HP|]. Qed.

Lemma results_and {A} P (m : M S A) (Q Q' : A → S → Prop) :
  results P m Q → results P m Q' → results P m (λ a s, Q a s ∧ Q' a s).
Proof. intros HQ HQ' w a w' Hw E. split; [by eapply HQ|by eapply HQ']. Qed.

Lemma results_frame {A} P (F : Prop) (m : M S A) :
  preserves P m → results (λ s, F ∧ P s) m (λ _ s, F ∧ P s).
Proof. intros Hm w a w' [HF Hw] E. split; [done|]. by eapply (results_preserves P m Hm). Qed.

(** The value of a handler of exceptions comes from the body or from the handler. *)
Lemma results_try {A} P (m : M S A) h (Q : A → S → Prop) :
  results P m Q → preserves P m → (∀ e, results P (h e) Q) → results P (try_catch m h) Q.
Proof.
  intros Hm Hp Hh w a w' Hw. specialize (Hp w Hw). unfold wp, try_catch in *.
  destruct (m w) as [[a1|e|u] w1] eqn:E; simpl in *.
  - intros [= <- <-]. by eapply Hm.
  - apply Hh. by apply Hp.
  - done.
Qed.
End Results.

(** ** The PCF handler *)

Section Specification.
Context `{CommonModels} `{Clock} `{IterationOrder} `{QodLibrary} `{!Environment} `{JsonLaws} `{!QosMapper}.
Context `{!HandlerLibrary} `{!JsonDefined} `{!ValidationLibrary} `{!PcfLibrary} `{!PcfModel} `{CoreService}.
Context {G : Type} `{!PcfGateway G} `{!PcfGatewayDefined (G:=G)}.
Implicit Types (h : QodPcfHandler (G:=G)) (session : QodSession) (K : gmap string string).

(** The ids of the PCF that the handler has for the sessions in [K]. *)
Definition known K h : Prop :=
  ∀ id p, K !! id = Some p → info_pcf_session_id <$> qod_to_pcf_sessions_ h !! id = Some p.

Lemma known_locked K mode {A} (m : M (QodPcfHandler (G:=G)) A) :
  preserves (known K) m → preserves (known K) (with_lock sessions_mutex_ mode m).
Proof. by apply preserves_with_lock. Qed.

Lemma known_change K f id h :
  (∀ info, info_pcf_session_id (f info) = info_pcf_session_id info) →
  known K h → known K (change_info f id h).
Proof.
  intros Hf Hh k p Hk. specialize (Hh k p Hk). simpl.
  destruct (decide (id = k)) as [->|]; [|by rewrite lookup_alter_ne].
  rewrite lookup_alter_eq. destruct (qod_to_pcf_sessions_ h !! k); simpl in *; by rewrite ?Hf.
Qed.

Lemma known_gateway K {A} (f : M G A) : preserves (known K) (gateway f).
Proof. by apply preserves_on_pointer. Qed.

Lemma known_state K p st : preserves (known K) (update_session_state (G:=G) p st).
Proof. apply known_locked. preserves_steps. by apply known_change. Qed.

Lemma known_request K id j :
  preserves (known K) (store_info (G:=G) (λ i, i <| last_request := j |>) id).
Proof. apply known_locked, preserves_modify. intros h. by apply known_change. Qed.

Lemma known_response K type p correlation :
  preserves (known K) (session_response (G:=G) type p correlation).
Proof. unfold session_response. preserves_steps. Qed.

Lemma known_info K id : preserves (known K) (get_pcf_session_info (G:=G) id).
Proof. apply known_locked. preserves_steps. Qed.
#[local] Hint Resolve known_gateway known_state known_request known_response known_info : preserves.

(** Nothing but a creation of the same id changes what is known. *)
Lemma known_store K id p st :
  K !! id = None ∨ K !! id = Some p →
  preserves (known K) (store_session_mapping (G:=G) id p st).
Proof.
  intros Hid. apply known_locked. preserves_steps. intros k q Hk. simpl.
  rewrite lookup_insert. case_decide as E; [subst; simpl; naive_solver|]. eauto.
Qed.
#[local] Hint Resolve known_store : preserves.

Lemma creation_keeps_known K session :
  K !! session_id session = None → preserves (known K) (create_pcf_session (G:=G) session).
Proof. intros Hid. unfold create_pcf_session, or_nothing. cbv zeta. preserves_steps. Qed.

Lemma deletion_keeps_known K session : preserves (known K) (delete_pcf_session (G:=G) session).
Proof. unfold delete_pcf_session, or_nothing. preserves_steps. Qed.

Lemma store_results id p st :
  results (λ _, True) (store_session_mapping (G:=G) id p st) (λ _, known {[id := p]}).
Proof.
  intros w a w' _. unfold store_session_mapping, with_lock. destruct (sessions_mutex_ (obj w)); [|done..].
  cbv zeta. run_steps. intros [= <- <-]. simpl. intros id' q. rewrite lookup_singleton. case_decide; [|done].
  intros [= <-]. subst id'. simpl. by rewrite lookup_insert_eq.
Qed.

(** The answers to creations: an error is not taken for a confirmation, a success carries its JSON
    value, which is read as it was written. *)
Definition created_type : string := "pcf_qod_session_created".
Definition deleted_type : string := "pcf_delete_app_session".
Definition handler_errors : list string :=
  ["pcf_request_invalid"; "pcf_request_failed"; "pcf_response_invalid"; "bad_request";
   "pcf_request_creation_failed"].
Hypothesis error_type : ∀ status code text correlation, code ∈ handler_errors →
  message_type (helper_create_error_response status code text correlation) ∉ [created_type; deleted_type].
Hypothesis success_payload : ∀ j status correlation msg,
  helper_create_success_response j status correlation = Ok msg → dump j = Ok (payload msg).
Hypothesis parse_dump : ∀ j text, dump j = Ok text → parse text = Ok j.
Hypothesis value_string_member : ∀ k d j m s,
  view_of j = VObject m → m !! k = Some (jstring s) → value_string k d j = Ok s.

Lemma error_not_created status code text correlation :
  code ∈ handler_errors →
  message_type (helper_create_error_response status code text correlation) ≠ created_type.
Proof. intros Hc. pose proof (error_type status code text correlation Hc). set_solver. Qed.

Lemma error_not_deleted status code text correlation :
  code ∈ handler_errors →
  message_type (helper_create_error_response status code text correlation) ≠ deleted_type.
Proof. intros Hc. pose proof (error_type status code text correlation Hc). set_solver. Qed.

(** The session manager reads the id [p] in the response. *)
Definition names (p : string) (response : Message) : Prop :=
  (j ← parse (payload response); value_string "pcf_session_id" "" j) = Ok p.

(** A confirmation names the id under which the handler has the session. *)
Definition confirms (id : string) (response : Message) h : Prop :=
  message_type response = created_type → ∃ p, names p response ∧ known {[id := p]} h.

Lemma response_results p correlation P :
  results P (session_response (G:=G) created_type p correlation) (λ msg _, names p msg).
Proof.
  unfold session_response. apply (results_bind _ _ (λ j _, view_of j = VObject {["pcf_session_id" := text p]})).
  { apply results_lift. intros j s _ E. destruct (builds_null "pcf_session_id" (text p)) as (j' & E' & Hj).
    by rewrite E in E'; injection E' as ->. }
  intros j. apply (results_bind _ _ (λ msg _, names p msg)).
  { apply results_lift. intros msg s Hj E. unfold names.
    rewrite (parse_dump _ _ (success_payload _ _ _ _ E)). simpl.
    eapply value_string_member; [exact Hj|apply lookup_singleton_eq]. }
  intros msg. by apply results_ret.
Qed.

Lemma creation_results session :
  results (λ _, True) (create_pcf_session (G:=G) session)
    (λ r h, from_option (λ response, confirms (session_id session) response h) True r).
Proof.
  set (Q := λ (r : option Message) h, from_option (λ response, confirms (session_id session) response h) True r).
  assert (Hno : ∀ status code text c, code ∈ handler_errors → results (λ _, True) (mret (create_error_response status code text c))
                  (confirms (session_id session))).
  { intros. apply results_ret. intros h _ Hty. by apply error_not_created in Hty. }
  unfold create_pcf_session. cbv zeta. apply (results_try); [|done|by intros; apply results_ret].
  apply (results_bind _ _ (confirms (session_id session))); [|by intros; apply results_ret].
  do 3 (apply results_skip; intros ?). case_match; [apply Hno; set_solver|].
  apply results_skip. intros [success response]. case_match; [apply Hno; set_solver|].
  do 2 (apply results_skip; intros ?). case_match; [apply Hno; set_solver|].
  eapply results_bind; [apply store_results|]. intros [].
  eapply results_bind; [apply results_and; [apply response_results|apply results_preserves, known_response]|].
  intros msg. cbv beta. eapply results_bind; [apply results_frame, known_request|]. intros [].
  apply (results_bind _ _ (λ _ h, names s msg ∧ known {[session_id session := s]} h)).
  { by apply results_lift. }
  intros _. apply results_ret. intros h Hh _. by exists s.
Qed.
(** *** The requests of the session manager *)

Hypothesis get_port_view : ∀ j z, view_of j = VInt z → is_port z → get_port j = Ok z.
Hypothesis printable : ∀ j, ∃ text, dump j = Ok text.

(** Assignments to other members leave a member unset. *)
Definition unset (k : string) (j : json) : Prop := ∃ m, writable j m ∧ m !! k = None.

Lemma assign_unset k k' path v j j' :
  unset k' j → k ≠ k' → assign_path (k :: path) v j = Ok j' → unset k' j'.
Proof.
  intros (m & Hj & Hk) Hne E. simpl in E. rewrite (writable_index _ _ _ Hj) in E. simpl in E.
  destruct (assign_path path v _) as [sub|e|u]; [|done..]. simpl in E.
  destruct (writable_assign k sub j m Hj) as (j1 & E1 & Hj1). rewrite E1 in E. injection E as <-.
  eexists. split; [exact Hj1|]. by rewrite lookup_insert_ne.
Qed.

Lemma add_unset k k' path o j j' :
  unset k' j → k ≠ k' → add_member (k :: path) o j = Ok j' → unset k' j'.
Proof. intros Hj Hk E. destruct o as [v|]; [by eapply assign_unset|by injection E as <-]. Qed.

Lemma result_ok {A B} (r : result A) (f : A → result B) b :
  (r ≫= f) = Ok b → ∃ a, r = Ok a ∧ f a = Ok b.
Proof. destruct r as [a|e|u]; [by exists a|done..]. Qed.

(** The first assignment of [E], none of which is to the member that is unset in [Hj]. *)
Ltac unset_step E Hj :=
  let E1 := fresh "E" in
  apply result_ok in E as (? & E1 & E);
  first [apply (assign_unset _ _ _ _ _ _ Hj) in E1 | apply (add_unset _ _ _ _ _ _ Hj) in E1]; [|done];
  clear Hj; rename E1 into Hj.

Lemma request_without_device session j :
  device session = None → build_pcf_request session = Ok j → unset "device" j.
Proof.
  intros Hd E. unfold build_pcf_request in E. rewrite Hd in E.
  assert (Hj : unset "device" jnull) by (exists ∅; split; [apply writable_null|done]).
  do 6 unset_step E Hj.
  apply result_ok in E as (j6 & E6 & E).
  assert (Hj6 : unset "device" j6).
  { destruct (device_ports session) as [spec|]; [|by injection E6 as <-].
    rewrite add_if in E6. apply result_ok in E6 as (j7 & E7 & E6). rewrite add_if in E6.
    by eapply add_unset; [eapply add_unset; [exact Hj| |exact E7]| |exact E6]. }
  destruct (qos_profile_mapping session); (eapply assign_unset; [exact Hj6| |exact E]; done).
Qed.

Lemma required_string_defined k j : defined (required_string k j).
Proof.
  unfold required_string, jat. destruct (jcontains k j); [|done].
  apply defined_bind; [apply jindex_defined|]. intros. apply get_string_defined.
Qed.

Lemma unread_without_device j : unset "device" j → ∃ e, parse_session false j = Throw e.
Proof.
  intros (m & Hj & Hm). unfold parse_session. pose proof (required_string_defined "session_id" j) as Hd.
  destruct (required_string "session_id" j) as [id|e|u]; [|by exists e|done]. simpl.
  rewrite (jat_missing _ _ _ Hj Hm). by eexists.
Qed.

(** What arrives of a request: its session, under the same id, or nothing. *)
Lemma request_arrives session j :
  well_typed session → build_pcf_request session = Ok j →
  (∃ s, parse_session false j = Ok s ∧ session_id s = session_id session) ∨
  (∃ e, parse_session false j = Throw e).
Proof.
  intros Hw Hb. destruct (device session) as [d|] eqn:Hd.
  - destruct (build_request get_port_view printable session d Hd Hw) as (j' & E & m & Hj & Hr).
    rewrite Hb in E. injection E as <-. destruct (request_read session d j m Hj Hr) as [-> _].
    destruct (has_server session); [left|right]; by eexists.
  - right. by eapply unread_without_device, request_without_device.
Qed.

Lemma mapping_defined j : defined (parse_mapping j).
Proof.
  unfold parse_mapping. destruct (jcontains _ j); [|done]. apply defined_bind; [apply jindex_defined|].
  intros v _. destruct (is_null v); [done|]. by do 2 case_match.
Qed.

(** The handler on a request: the creation of a session with its id, or a refusal. *)
Lemma handle_create_cases session j id text :
  well_typed session → build_pcf_request session = Ok j → dump j = Ok text →
  let message := plain_message "pcf_create_qod_session" id text in
  (∃ s, session_id s = session_id session ∧ ∀ w : world (QodPcfHandler (G:=G)),
     handle_qod_create_pcf_session message w =
     (response ← create_pcf_session s; mret (or_failed message "request" response)) w) ∨
  (∃ reason, ∀ w : world (QodPcfHandler (G:=G)),
     handle_qod_create_pcf_session message w = (Ok (bad_request message reason), w)).
Proof.
  intros Hw Hb Ht message.
  unfold handle_qod_create_pcf_session, handle_session_request, try_catch.
  cbv [mbind M_bind lift]. cbn [payload plain_message message]. rewrite (parse_dump _ _ Ht).
  destruct (request_arrives session j Hw Hb) as [(s & -> & Hs)|[e ->]]; [|right; by eexists].
  pose proof (mapping_defined j) as Hd. destruct (parse_mapping j) as [[reason|mapping]|e|u]; [right; by eexists| |right; by eexists|done].
  rewrite Ht. left. exists (with_mapping mapping s). split; [by destruct mapping|]. intros w.
  fold (with_mapping mapping s).
  destruct (create_pcf_session _ w) as [[r|e|u] w'] eqn:Ec; [done| |done].
  by apply create_pcf_session_returns in Ec.
Qed.
(** ** The handler as the service of the session manager *)

Hypothesis success_returns : ∀ j status text, gives (helper_create_success_response j status text) (λ _, True).

Lemma success_defined j status text : defined (helper_create_success_response j status text).
Proof. by destruct (success_returns j status text) as (msg & -> & _). Qed.

Lemma process_creation id text (w : world (PcfHandler (G:=G))) :
  let message := plain_message "pcf_create_qod_session" id text in
  process_message (Some message) w =
  (response ← on qod_pcf_handler_ (handle_qod_create_pcf_session message); mret (Some response)) w.
Proof. reflexivity. Qed.

Lemma process_deletion id text (w : world (PcfHandler (G:=G))) :
  let message := plain_message "pcf_delete_qod_session" id text in
  process_message (Some message) w =
  (response ← on qod_pcf_handler_ (handle_qod_delete_pcf_session message); mret (Some response)) w.
Proof. reflexivity. Qed.

(** A handler without undefined behaviour ahead, and the ids of the PCF it has at least. *)
Definition serves K (w : world (PcfHandler (G:=G))) : Prop :=
  managed ∅ (qod_pcf_handler_ (obj w)) ∧ known K (qod_pcf_handler_ (obj w)).

Lemma creation_served K session j text w :
  well_typed session → build_pcf_request session = Ok j → dump j = Ok text →
  serves K w → K !! session_id session = None →
  let '(r, w') := process_message (Some (plain_message "pcf_create_qod_session" (session_id session) text)) w in
  serves K w' ∧ ∃ response, r = Ok (Some response) ∧
    confirms (session_id session) response (qod_pcf_handler_ (obj w')).
Proof.
  intros Hw Hb Ht [Hm Hk] Hid. rewrite process_creation. unfold on, mbind, M_bind.
  set (message := plain_message _ _ _). set (w0 := World (ticks w) (qod_pcf_handler_ (obj w))).
  destruct (handle_create_cases session j (session_id session) text Hw Hb Ht) as [(s & Hs & ->)|[reason ->]].
  - pose proof (operation_total success_defined ∅ _ (creating s) w0 Hm) as Hc.
    pose proof (creation_keeps_known K s) as Hp. rewrite Hs in Hp. specialize (Hp Hid w0 Hk).
    pose proof (creation_results s w0) as He. rewrite Hs in He. unfold wp in Hc, Hp.
    unfold mbind, M_bind. destruct (create_pcf_session s w0) as [[o|e|u] w1] eqn:E; simpl in *.
    + destruct Hc as [Hc _]. split; [split; [exact Hc|by apply Hp]|]. eexists. split; [done|].
      destruct o as [response|]; [exact (He _ _ I eq_refl)|]. intros Hty. by apply error_not_created in Hty; [|set_solver].
    + by apply create_pcf_session_returns in E.
    + by destruct Hc.
  - split; [by split|]. eexists. split; [done|]. intros Hty. by apply error_not_created in Hty; [|set_solver].
Qed.

Lemma deletion_served K id text w :
  serves K w →
  let '(r, w') := process_message (Some (plain_message "pcf_delete_qod_session" id text)) w in
  serves K w' ∧ defined r.
Proof.
  intros [Hm Hk]. rewrite process_deletion. unfold on, mbind, M_bind.
  set (message := plain_message _ _ _). set (w0 := World (ticks w) (qod_pcf_handler_ (obj w))).
  assert (Ht : total (managed ∅) (handle_qod_delete_pcf_session (G:=G) message) (λ _, True)).
  { apply total_try; [|by intros; apply total_ret].
    apply (step_total ∅); [by apply total_lift; [apply parse_defined|]|]. intros j.
    destruct (negb _); [apply total_throw|].
    apply (step_total ∅); [by apply total_lift; [apply required_string_defined|]|]. intros id'.
    apply (step_total ∅); [by apply (operation_total success_defined), deleting|].
    intros. by apply total_ret. }
  assert (Hp : preserves (known K) (handle_qod_delete_pcf_session (G:=G) message)).
  { unfold handle_qod_delete_pcf_session. preserves_steps. apply deletion_keeps_known. }
  specialize (Ht w0 Hm). specialize (Hp w0 Hk). unfold wp in Ht, Hp.
  destruct (handle_qod_delete_pcf_session message w0) as [r w1]. simpl in *. destruct Ht as [Ht Hr].
  destruct r as [response|e|u]; [..|done]; (split; [split; [exact Ht|by apply Hp]|done]).
Qed.
(** *** The session manager *)

(** The handler after the requests [rs]. *)
Variable initial : world (PcfHandler (G:=G)).
Definition served (rs : list (string * Message)) : world (PcfHandler (G:=G)) :=
  foldl (λ w '(_, message), (process_message (Some message) w).2) initial rs.

(** The session manager gets the answers of the handler, in the state its requests have left. *)
Hypothesis answered : ∀ rs d message,
  match (process_message (Some message) (served rs)).1 with
  | Ok response => pcf_answer (rs ++ [(d, message)]) = inr response
  | Throw e => pcf_answer (rs ++ [(d, message)]) = inl e
  | Undefined _ => True
  end.

Lemma served_snoc rs d message :
  served (rs ++ [(d, message)]) = (process_message (Some message) (served rs)).2.
Proof. unfold served. by rewrite foldl_app. Qed.

(** No request has reached undefined behaviour. *)
Definition all_answered (rs : list (string * Message)) : Prop :=
  ∀ k d message, rs !! k = Some (d, message) →
    defined (process_message (Some message) (served (take k rs))).1.

Lemma all_answered_snoc rs d message :
  all_answered rs → defined (process_message (Some message) (served rs)).1 →
  all_answered (rs ++ [(d, message)]).
Proof.
  intros Hrs Hd k d' message' Hk. rewrite lookup_app_Some in Hk. destruct Hk as [Hk|[Hlen Hk]].
  - rewrite take_app_le by (apply lookup_lt_Some in Hk; lia). by eapply Hrs.
  - apply list_lookup_singleton_Some in Hk as [Hk [= <- <-]].
    rewrite take_app_length' by lia. exact Hd.
Qed.

Implicit Types (m : QodSessionManager).

(** A session is stored under its id, and has no id of the PCF but the one in [K]. *)
Definition agrees K (id : string) session : Prop :=
  session_id session = id ∧ ∀ p, pcf_session_id session = Some p → K !! id = Some p.

Definition handler_serves K m : Prop :=
  serves K (served (requests m)) ∧ all_answered (requests m).

(** Both sides agree on [K]. *)
Definition joint K : QodSessionManager → Prop := invariant (handler_serves K) (agrees K).

Lemma serves_independent K : independent (handler_serves K).
Proof. by split. Qed.
#[local] Hint Resolve serves_independent : core.

(** A change of a session that keeps its ids. *)
Lemma agrees_same K id s s' :
  session_id s' = session_id s → pcf_session_id s' = pcf_session_id s → agrees K id s →
  agrees K (session_id s') s'.
Proof. intros Ei Ep [<- Hp]. split; [done|]. rewrite Ep, Ei. exact Hp. Qed.

Lemma joint_terminated K p r : preserves (joint K) (handle_pcf_session_terminated p r).
Proof. by apply handle_terminated_inv. Qed.

Lemma joint_refused K id e : preserves (joint K) (handle_pcf_session_response id "" false e).
Proof.
  apply handle_response_inv; [done..|]. intros _ s Hs.
  exact (agrees_same K id s _ eq_refl eq_refl Hs).
Qed.

Lemma joint_confirmed K id p :
  K !! id = Some p → preserves (joint K) (handle_pcf_session_response id p true "").
Proof.
  intros Hk. apply handle_response_inv; [done| |done]. intros _ s t [<- Hp]. split; [done|].
  simpl. intros q [= <-]. exact Hk.
Qed.
#[local] Hint Resolve joint_terminated joint_refused : preserves.

(** A deletion at the PCF leaves both sides as they are. *)
Lemma deletion_sent K id text :
  preserves (joint K) (send_request (plain_message "pcf_delete_qod_session" id text)).
Proof.
  intros [n m] [[Hm Hall] Hs]. unfold wp, send_request. run_steps. set (message := plain_message _ _ _).
  pose proof (deletion_served K id text (served (requests m)) Hm) as Hd. fold message in Hd.
  assert (Hrs : ∀ d, serves K (served (requests m ++ [(d, message)])) ∧
                     all_answered (requests m ++ [(d, message)])).
  { intros d. rewrite served_snoc. pose proof (all_answered_snoc (requests m) d message Hall) as Hsn.
    by destruct (process_message _ (served (requests m))) as [r w']; destruct Hd; auto. }
  destruct (pcf_answer _) as [e|response]; simpl; intros _; (split; [apply Hrs|exact Hs]).
Qed.

Lemma joint_removed K s : preserves (joint K) (remove_session_from_pcf s).
Proof.
  unfold remove_session_from_pcf. preserves_steps; [apply deletion_sent|by apply unmap_inv].
Qed.

(** The two sides agree on something. *)
Definition agreement m : Prop := ∃ K, joint K m.

Lemma agreement_preserves {A} (f : M QodSessionManager A) :
  (∀ K, preserves (joint K) f) → preserves agreement f.
Proof.
  intros Hf w [K Hw]. apply (wp_mono _ _ _ _ (Hf K w Hw)). intros r w' Hr Hd. exists K. by apply Hr.
Qed.

Lemma agreement_preserves_from K {A} (f : M QodSessionManager A) w :
  joint K (obj w) → preserves (joint K) f → wp f (λ r w', defined r → agreement (obj w')) w.
Proof.
  intros Hw Hf. apply (wp_mono _ _ _ _ (Hf w Hw)). intros r w' Hr Hd. exists K. by apply Hr.
Qed.

Lemma known_insert K id p h : known K h → known {[id := p]} h → known (<[id := p]> K) h.
Proof.
  intros HK Hp k q. rewrite lookup_insert. case_decide as E; [|apply HK].
  intros [= <-]. subst k. apply Hp, lookup_singleton_eq.
Qed.

(** A confirmation extends what they agree on. *)
Lemma joint_extended K id p m :
  K !! id = None → joint K m → known {[id := p]} (qod_pcf_handler_ (obj (served (requests m)))) →
  joint (<[id := p]> K) m.
Proof.
  intros Hid [[[Hm Hk] Hall] Hs] Hp. split; [split; [split; [done|by apply known_insert]|done]|].
  intros k s Hks. destruct (Hs k s Hks) as [Hi Hq]. split; [done|]. intros q Eq.
  specialize (Hq q Eq). rewrite lookup_insert_ne; [done|]. intros ->. congruence.
Qed.

Lemma creation_sent K s j text n m :
  well_typed s → build_pcf_request s = Ok j → dump j = Ok text → K !! session_id s = None → joint K m →
  ∃ response m',
    send_request (plain_message "pcf_create_qod_session" (session_id s) text) (World n m) =
      (Ok (Some response), World n m') ∧
    joint K m' ∧ confirms (session_id s) response (qod_pcf_handler_ (obj (served (requests m')))).
Proof.
  intros Hw Hb Ht Hid [[Hm Hall] Hs]. unfold send_request. run_steps. set (message := plain_message _ _ _).
  pose proof (creation_served K s j text (served (requests m)) Hw Hb Ht Hm Hid) as Hc.
  pose proof (answered (requests m) (pcf_destination_ m) message) as Ha. fold message in Hc.
  pose proof (served_snoc (requests m) (pcf_destination_ m) message) as Es.
  pose proof (all_answered_snoc (requests m) (pcf_destination_ m) message Hall) as Hsn.
  set (rs := requests m ++ _) in *.
  destruct (process_message _ (served (requests m))) as [r w']. destruct Hc as [Hw' (response & -> & Hc)].
  simpl in Ha, Es, Hsn. rewrite Ha. eexists response, _. split; [done|]. simpl. rewrite Es.
  split; [|exact Hc]. split; [|exact Hs]. split; simpl; [by rewrite Es|by apply Hsn].
Qed.

Lemma response_processed K s response :
  K !! session_id s = None →
  ∀ w, joint K (obj w) →
    confirms (session_id s) response (qod_pcf_handler_ (obj (served (requests (obj w))))) →
    wp (process_response s (Some response)) (λ r w', defined r → agreement (obj w')) w.
Proof.
  intros Hid w Hw Hc. unfold process_response. destruct (String.eqb_spec (message_type response) "pcf_qod_session_created") as [Ety|].
  - destruct (Hc Ety) as (p & Hn & Hp). unfold names in Hn. apply result_ok in Hn as (j & Ej & Ep).
    unfold wp. rewrite (bind_run _ _ _ j w) by (unfold lift; by rewrite Ej).
    rewrite (bind_run _ _ _ p w) by (unfold lift; by rewrite Ep).
    change (wp (handle_pcf_session_response (session_id s) p true "" ;; mret true)
              (λ r w', defined r → agreement (obj w')) w).
    apply (agreement_preserves_from (<[session_id s := p]> K)); [by apply joint_extended|].
    preserves_steps. apply joint_confirmed, lookup_insert_eq.
  - apply (agreement_preserves_from K); [done|]. preserves_steps.
Qed.

Lemma agreement_apply K s w :
  well_typed s → K !! session_id s = None → joint K (obj w) →
  wp (apply_session_to_pcf s) (λ r w', (defined r → agreement (obj w')) ∧
    match r with Ok (_, s') => session_id s' = session_id s | _ => True end) w.
Proof.
  intros Hw Hid Hj. assert (Ha : agreement (obj w)) by by exists K.
  unfold apply_session_to_pcf. apply wp_get.
  destruct (negb _); [by split|]. destruct (empty _); [by split|].
  cbv [wp try_catch mbind M_bind lift mret M_ret].
  destruct (build_pcf_request s) as [j|e|u] eqn:Eb; [|by split..].
  destruct (dump j) as [text|e|u] eqn:Et; [|by split..]. destruct w as [n m].
  destruct (creation_sent K s j text n m Hw Eb Et Hid Hj) as (response & m' & -> & Hj' & Hc).
  set (s' := s <| pcf_transaction_id := Some (session_id s) |>).
  pose proof (response_processed K s' response Hid (World n m') Hj' Hc) as Hp. unfold wp in Hp.
  destruct (process_response s' (Some response) (World n m')) as [[ok|e|u] w1]; simpl in *; [..|done].
  all: split; [by apply Hp|done].
Qed.

(** ** The calls of the API *)

(** The ports of a request are 16 bits wide. *)
Definition typed_request (request : CreateSessionRequest) : Prop :=
  from_option is_port True (d ← req_device request; a ← device_ipv4_address d; public_port a) ∧
  from_option (λ spec, Forall is_port (ports spec)) True (req_device_ports request).

(** A new session takes the place of what both sides had under its id. *)
Lemma joint_without K id m : joint K m → handler_serves (delete id K) m.
Proof.
  intros [[[Hm Hk] Hall] _]. split; [split; [done|]|done]. intros k p Hp. apply Hk. by apply lookup_delete_Some in Hp as [_ ?].
Qed.

Lemma session_added K s m n :
  pcf_session_id s = None → joint K m →
  wp (qod (add_session s)) (λ r w', defined r → joint (delete (session_id s) K) (obj w')) (World n m).
Proof.
  intros Hp Hj. pose proof (joint_without K (session_id s) m Hj) as Hs. destruct Hj as [_ Hst].
  unfold wp, qod, on, add_session, with_lock. cbn [obj ticks].
  destruct (mtx_ (qod_state_manager_ m)); [|by intros []..].
  assert (Hnew : map_Forall (agrees (delete (session_id s) K)) (<[session_id s := s]> (sessions_by_id_ (qod_state_manager_ m)))).
  { intros id s' Hs'. rewrite lookup_insert in Hs'. case_decide as E.
    - simplify_eq. split; [done|]. by rewrite Hp.
    - destruct (Hst id s' Hs') as [Hi Hq]. split; [done|]. intros p Ep. by rewrite lookup_delete_ne; auto. }
  destruct (ue_supi s); intros _; (split; [exact Hs|exact Hnew]).
Qed.

Lemma agreement_create request : typed_request request → preserves agreement (create_session request).
Proof.
  intros Ht. apply preserves_bind; [apply preserves_read|]. intros m.
  destruct (negb _); [apply preserves_ret|]. destruct (_ || _); [apply preserves_ret|].
  apply preserves_bind; [apply agreement_preserves; intros; by apply profile_inv|].
  intros [mapping|]; [|apply preserves_ret].
  apply preserves_bind; [destruct (req_device request); [apply agreement_preserves; intros; by apply resolve_device_inv|apply preserves_ret]|].
  intros [x pdu].
  apply preserves_bind; [destruct (req_device request); [apply agreement_preserves; intros; by apply conflict_inv|apply preserves_ret]|].
  intros [id|]; [apply preserves_ret|].
  apply preserves_bind; [apply agreement_preserves; intros; by apply generate_inv|]. intros id.
  apply preserves_bind; [apply preserves_now|]. intros t. cbv zeta.
  set (s := new_session request id mapping t x pdu).
  intros [n m'] [K Hj]. apply wp_bind.
  apply (wp_mono _ _ _ _ (session_added K s m' n eq_refl Hj)). intros [[]|e|u] w1 Hw1; [|by eexists; apply Hw1|done].
  specialize (Hw1 I). apply wp_bind.
  apply (wp_mono _ _ _ _ (create_ue_inv _ _ (serves_independent _) s w1 Hw1)).
  intros [[]|e|u] w2 Hw2; [|by eexists; apply Hw2|done]. specialize (Hw2 I). apply wp_bind.
  apply (wp_mono _ _ _ _ (agreement_apply (delete (session_id s) K) s w2 Ht (lookup_delete_eq _ _) Hw2)).
  intros [[ok s']|e|u] w3 [Hw3 _]; [|exact Hw3|done]. specialize (Hw3 I). revert w3 Hw3.
  change (preserves agreement (if ok : bool then mret (Some s') else
    qod (update_session_status (session_id s') UNAVAILABLE (Some NETWORK_TERMINATED)) ;;
    state_session_opt ← qod (get_session_by_id (session_id s'));
    state_session ← value_of state_session_opt;
    when (has_value (req_sink request) && enable_notifications (config_ m))
      (send_status_change_notification state_session REQUESTED (Some NETWORK_TERMINATED)) ;;
    mret (Some state_session))).
  apply agreement_preserves. intros K'. preserves_steps.
  - apply qod_inv; [done|]. apply make_unavailable_inv. intros k s0 Hs0. exact Hs0.
  - by apply lookup_inv.
  - by apply send_notification_inv.
Qed.
(** The calls of the API, of the set-up and of the other threads.  The handlers of the answers of the
    PCF are called by these only. *)
Inductive api_call : ∀ {A}, M QodSessionManager A → Prop :=
  | api_initialize b d : api_call (initialize b d)
  | api_set_handler b : api_call (set_notification_handler b)
  | api_start : api_call start
  | api_stop : api_call stop
  | api_create request : typed_request request → api_call (create_session request)
  | api_get id consumer : api_call (get_session id consumer)
  | api_delete id consumer : api_call (delete_session id consumer)
  | api_extend request consumer : api_call (extend_session_duration request consumer)
  | api_retrieve request : api_call (retrieve_sessions_by_device request)
  | api_pdu_event e : api_call (handle_pdu_session_terminated_event e)
  | api_cleanup : api_call cleanup_expired_sessions.

Lemma frame_agreement (f : QodSessionManager → QodSessionManager) :
  (∀ m, requests (f m) = requests m ∧ qod_state_manager_ (f m) = qod_state_manager_ m) →
  preserves agreement (modify f).
Proof.
  intros Hf. apply preserves_modify. intros m (K & Hm & Hs). destruct (Hf m) as [E1 E2]. exists K.
  split; [unfold handler_serves; by rewrite E1|by rewrite E2].
Qed.

Lemma api_call_agrees {A} (f : M QodSessionManager A) : api_call f → preserves agreement f.
Proof.
  destruct 1; [by apply frame_agreement..| | | | | | | |].
  2: by apply agreement_create.
  all: apply agreement_preserves; intros K.
  - apply preserves_bind; [by apply preserves_modify|intros _]. by apply qod_inv, clear_inv.
  - by apply get_inv.
  - apply delete_inv; [done|intros; apply joint_removed|]. intros s t Hs.
    exact (agrees_same K id s _ eq_refl eq_refl Hs).
  - apply extend_inv; [done|]. intros m s t d _ Hs _ _.
    exact (agrees_same K _ s _ eq_refl eq_refl Hs).
  - by apply retrieve_inv.
  - by apply handle_pdu_inv.
  - by apply cleanup_inv.
Qed.

(** The managers a run reaches, from one without sessions. *)
Inductive joined : world QodSessionManager → Prop :=
  | joined_new um config n : joined (World n (QodSessionManager_new um QodStateManager_new config))
  | joined_call {A} w (f : M QodSessionManager A) :
      joined w → api_call f → defined (f w).1 → joined (f w).2.

(** The handler as it is constructed. *)
Hypothesis initially : ∃ g, usable g ∧ qod_pcf_handler_ (obj initial) = QodPcfHandler_new (Some g).

Lemma joined_agree w : joined w → agreement (obj w).
Proof.
  induction 1 as [um config n|A w f _ IH Hf Hd]; [|by apply (api_call_agrees f)].
  destruct initially as (g & Hg & E). exists ∅. unfold joint, invariant, handler_serves, serves. simpl.
  change (served []) with initial. rewrite E. split; [|by intros id s].
  split; [|by intros k]. split; [|done]. split; [|done]. split; [by exists g|]. split; [done|apply map_Forall_empty].
Qed.


(** *** Deletion *)

(** The request the handler sends to the PCF, and whether the PCF accepts it. *)
Definition deletion_request (id : string) : result json :=
  assign_members [("events", qos_notif_events); ("notifUri", text (notification_uri id))] (jobject []).
Definition accepted (r : result bool) : bool := match r with Ok b => b | _ => false end.

(** A response that confirms the deletion of [p] exactly if [b]. *)
Definition tells (b : bool) (p : string) (response : Message) : Prop :=
  if b then message_type response = deleted_type ∧
    gives (parse (payload response)) (λ j, view_of j = VObject {["pcf_session_id" := text p]})
  else message_type response ≠ deleted_type.

Lemma deleted_response p correlation (w : world (QodPcfHandler (G:=G))) :
  ∃ response, session_response deleted_type p correlation w = (Ok response, w) ∧ tells true p response.
Proof.
  destruct (builds_null "pcf_session_id" (text p)) as (j & Ej & Hj).
  destruct (success_returns j 200 correlation) as (msg & Em & _).
  exists (msg <| message_type := deleted_type |>). split.
  - unfold session_response. erewrite bind_run; [|unfold lift; by rewrite Ej].
    erewrite bind_run; [|unfold lift; by rewrite Em]. done.
  - split; [done|]. exists j. split; [|done]. apply parse_dump. exact (success_payload _ _ _ _ Em).
Qed.

Lemma state_updated p st n h :
  sessions_mutex_ h = Unlocked →
  ∃ h', update_session_state p st (World n h) = (Ok (), World n h').
Proof.
  intros Hu. unfold update_session_state, with_lock. cbn [obj ticks]. rewrite Hu.
  run_steps. simpl. destruct (pcf_to_qod_sessions_ h !! p); by eexists.
Qed.

Lemma deletion_run s n h info g request :
  sessions_mutex_ h = Unlocked → pcf_gateway_ h = Some g → usable g →
  qod_to_pcf_sessions_ h !! session_id s = Some info → deletion_request (session_id s) = Ok request →
  let p := info_pcf_session_id info in
  let b := accepted (gateway_delete_app_session p request (World n g)).1 in
  ∃ o w', delete_pcf_session s (World n h) = (Ok o, w') ∧
    if b then from_option (tells true p) False o else from_option (tells false p) True o.
Proof.
  intros Hu Hg Husable Hi Hr p b. unfold delete_pcf_session. cbv zeta.
  assert (Einfo : get_pcf_session_info (session_id s) (World n h) = (Ok (Some info), World n h)).
  { rewrite <-Hi. apply with_lock_run; [done..|]. by destruct h; simpl in *; subst. }
  rewrite (bind_run _ _ _ _ _ Einfo). unfold or_nothing, try_catch. cbv [mbind M_bind lift].
  fold (deletion_request (session_id s)). rewrite Hr.
  pose proof (delete_total p request (World n g) Husable) as Ht. unfold wp in Ht.
  unfold gateway, on_pointer. cbn [obj ticks]. rewrite Hg. fold p. unfold b.
  destruct (gateway_delete_app_session p request (World n g)) as [[ok|e|u] [n' g']]; simpl in *; [..|by destruct Ht].
  - destruct ok; simpl.
    + match goal with |- context [update_session_state _ _ (World _ ?h')] =>
        destruct (state_updated p DELETING n' h' Hu) as (h1 & ->) end.
      change "pcf_delete_app_session" with deleted_type.
      destruct (deleted_response p (session_id s) (World n' h1)) as (response & -> & Hd).
      destruct (printable request) as (t & ->). simpl. eexists _, _. split; [done|exact Hd].
    + eexists _, _. split; [done|]. apply error_not_deleted. set_solver.
  - by eexists _, _.
Qed.

(** The handler on the request of the session manager. *)
Lemma deletion_handled id c n h info g request j t :
  sessions_mutex_ h = Unlocked → pcf_gateway_ h = Some g → usable g →
  qod_to_pcf_sessions_ h !! id = Some info → deletion_request id = Ok request →
  view_of j = VObject {["pcf_session_id" := jstring (info_pcf_session_id info); "session_id" := jstring id]} →
  dump j = Ok t →
  let p := info_pcf_session_id info in
  ∃ response w', handle_qod_delete_pcf_session (plain_message "pcf_delete_qod_session" c t) (World n h) =
      (Ok response, w') ∧
    tells (accepted (gateway_delete_app_session p request (World n g)).1) p response.
Proof.
  intros Hu Hg Husable Hi Hr Hj Hd p.
  assert (Hid : ({["pcf_session_id" := jstring p; "session_id" := jstring id]} : gmap string json)
                  !! "session_id" = Some (jstring id)) by by simplify_map_eq.
  set (s := QodSession_default <| session_id := id |>).
  destruct (deletion_run s n h info g request Hu Hg Husable Hi Hr) as (o & w' & E & Ho).
  unfold handle_qod_delete_pcf_session, try_catch. cbv [mbind M_bind lift]. cbn [payload plain_message].
  rewrite (parse_dump _ _ Hd), (contains_some _ _ _ _ Hj Hid). cbn [negb].
  rewrite (required_text _ _ _ _ Hj Hid). fold s. rewrite E. eexists _, _. split; [done|].
  fold p in Ho. destruct (accepted _); destruct o as [response|]; simpl in *; [done..|].
  apply error_not_deleted. set_solver.
Qed.

(** The session manager gets the answer of the handler. *)
Lemma deletion_answered id t n m response w' :
  let message := plain_message "pcf_delete_qod_session" id t in
  let handler := served (requests m) in
  handle_qod_delete_pcf_session message (World (ticks handler) (qod_pcf_handler_ (obj handler))) = (Ok response, w') →
  send_request message (World n m) =
    (Ok (Some response), World n (m <| requests := requests m ++ [(pcf_destination_ m, message)] |>)).
Proof.
  intros message handler E. pose proof (answered (requests m) (pcf_destination_ m) message) as Ha.
  fold handler in Ha. unfold message in Ha. rewrite process_deletion in Ha.
  unfold on, mbind, M_bind in Ha. fold message in Ha. rewrite E in Ha. simpl in Ha.
  unfold send_request. run_steps. by rewrite Ha.
Qed.

(** What it makes of an answer that confirms the deletion or not. *)
Lemma answer_read b p response n m :
  tells b p response → free (qod_state_manager_ m) →
  ∃ m', (if String.eqb (message_type response) "pcf_delete_app_session" then
     response_json ← lift (parse (payload response));
     pcf_id ← lift (value_string "pcf_session_id" "" response_json);
     reason ← lift (value_string "reason" "Requested by user" response_json);
     qod (remove_pcf_to_qod_session_mapping pcf_id) ;; mret true
   else mret false : M QodSessionManager bool) (World n m) =
  (Ok b, World n m').
Proof.
  intros Ht Hf. destruct b; simpl in Ht.
  - destruct Ht as [-> (j & Ej & Hj)]. cbn [String.eqb]. rewrite String.eqb_refl.
    erewrite bind_run; [|unfold lift; by rewrite Ej].
    erewrite bind_run; [|unfold lift; by rewrite (value_string_member _ _ _ _ _ Hj (lookup_singleton_eq _ _))].
    erewrite bind_run; [|unfold lift; by rewrite (value_string_view _ _ _ _ Hj)].
    eexists. erewrite bind_run; [done|]. apply qod_run. by apply remove_pcf_to_qod_session_mapping_run.
  - destruct (String.eqb_spec (message_type response) "pcf_delete_app_session"); [done|by exists m].
Qed.

End Specification.

(** ** Witnesses *)

Section Witness.
#[local] Existing Instances unit_models tick_clock tree_order plain_library digit_json digit_laws digit_defined
  handler_helpers plain_validation plain_pcf_library plain_model accepting_pcf quiet_core.
Definition unmapped : QosMapper := λ _, jnull.
#[local] Existing Instance unmapped.

Definition first_handler : world (PcfHandler (G:=HttpPcfGateway)) :=
  let gateway := HttpPcfGateway_new true "v1" in
  World 0 (mkPcfHandler gateway PccRuleManager_new (QodPcfHandler_new (Some gateway)) true "af_core:50051" ∅
             Unlocked []).

(** The handler as the environment of the session manager. *)
Definition joint_environment : Environment := {|
  pcf_answer := λ rs,
    match last rs with
    | Some (_, message) =>
      match (process_message (Some message) (served first_handler (removelast rs))).1 with
      | Ok response => inr response
      | Throw e => inl e
      | Undefined _ => inr None
      end
    | None => inr None
    end;
  delivery_answer := λ _, inr true;
  hex_draw := λ n, (n mod 16)%nat;
  hex_draw_bound := λ n, Nat.mod_upper_bound n 16 (Nat.neq_succ_0 15) |}.
#[local] Existing Instance joint_environment.

Lemma joint_answered rs d message :
  match (process_message (Some message) (served first_handler rs)).1 with
  | Ok response => pcf_answer (rs ++ [(d, message)]) = inr response
  | Throw e => pcf_answer (rs ++ [(d, message)]) = inl e
  | Undefined _ => True
  end.
Proof.
  unfold pcf_answer, joint_environment. rewrite last_snoc, removelast_last.
  by destruct (process_message (Some message) (served first_handler rs)).1.
Qed.

Lemma digits_member k d (j : json) (m : gmap string json) s :
  view_of j = VObject m → m !! k = Some (jstring s) → value_string k d j = Ok s.
Proof.
  destruct j as [| | | | | |l]; try discriminate. intros [= <-] Hk.
  assert (E : assoc k l = Some (TString s)) by (rewrite assoc_list_to_map; exact Hk). simpl. by rewrite E.
Qed.

Lemma plain_errors status code text correlation :
  code ∈ handler_errors →
  message_type (helper_create_error_response status code text correlation) ∉ [created_type; deleted_type].
Proof.
  simpl. unfold handler_errors. rewrite !elem_of_cons, elem_of_nil. intros Hc.
  destruct_or! Hc; subst; try done; apply (bool_decide_unpack _); vm_compute; exact I.
Qed.

Definition joint_request : CreateSessionRequest :=
  mkCreateSessionRequest "consumer"
    (Some (mkQodDevice None None (Some (mkDeviceIpv4Addr (mkIpv4Addr "10.45.0.2") None None)) None))
    (mkApplicationServer (Some "203.0.113.1") None) None None "QOS_L" 600 None None.
Definition connected_world : world QodSessionManager :=
  (initialize true "pcf" (World 0
     (QodSessionManager_new (Some (UeStateManager_new None)) QodStateManager_new QodSessionConfig_default))).2.
Definition joint_world : world QodSessionManager := (create_session joint_request connected_world).2.
Definition joint_id : string := "01234567-89ab-4cde-f012-3456789abcde".

Definition joint_session : QodSession :=
  Eval vm_compute in value_or blank_session (sessions_by_id_ (qod_state_manager_ (obj joint_world)) !! joint_id).
Definition joint_deletion : json :=
  Eval vm_compute in match deletion_request joint_id with Ok j => j | _ => jnull end.
Definition joint_gateway : HttpPcfGateway :=
  Eval vm_compute in
    value_or (HttpPcfGateway_new true "v1")
      (pcf_gateway_ (qod_pcf_handler_ (obj (served first_handler (requests (obj joint_world)))))).

Lemma plain_success (j : json) status correlation msg :
  helper_create_success_response j status correlation = Ok msg → dump j = Ok (payload msg).
Proof. by intros [= <-]. Qed.

Lemma digits_read (j : json) t : dump j = Ok t → parse t = Ok j.
Proof. intros [= <-]. apply read_print_digits. Qed.

Lemma digits_printable (j : json) : ∃ t, dump j = Ok t.
Proof. by eexists. Qed.

Lemma plain_port (j : json) z : view_of j = VInt z → is_port z → get_port j = Ok z.
Proof. intros Hv _. exact (get_int_view j z Hv). Qed.

Lemma plain_returns (j : json) status t : gives (helper_create_success_response j status t) (λ _, True).
Proof. by eexists. Qed.

Lemma joint_start : ∃ g : HttpPcfGateway, usable g ∧ qod_pcf_handler_ (obj first_handler) = QodPcfHandler_new (Some g).
Proof. by exists (HttpPcfGateway_new true "v1"). Qed.

Lemma joint_joined : joined joint_world.
Proof.
  apply joined_call; [|apply api_create; by split|by vm_compute].
  apply joined_call; [apply joined_new|apply api_initialize|done].
Qed.


End Witness.
