(* ===== verification/QodHandler.v ===== *)
(** * [QodHandler]: the requests of the QoD API

    [af_core/include/qod/qod_handler.h] and [af_core/src/qod/qod_handler.cpp].  A handler reads the
    context of a message, checks and converts its JSON body, calls the session manager, and answers
    with a message.  The helpers and error codes of the common library are parameters
    ([HandlerLibrary]). *)

From S2P Require Import Prelude Effects CxxString CTime Regex UeKey UeState Events UeStateManager.
From S2P Require Import QodTypes QodStateManager Json Comms ServiceHelpers QodSessionManager.

Record QodRequestContext := mkQodRequestContext {
  context_consumer_id : string;
  context_correlation_id : string;
  is_three_legged : bool;
  device_from_token : option string }.

(** [af_core/include/qod/qod_error_codes.h] *)
Definition DURATION_OUT_OF_RANGE : string := "QUALITY_ON_DEMAND.DURATION_OUT_OF_RANGE".
Definition SESSION_EXTENSION_NOT_ALLOWED : string := "QUALITY_ON_DEMAND.SESSION_EXTENSION_NOT_ALLOWED".

(** ** Early returns

    A computation that may end the function with a response. *)

Definition Early (S A : Type) : Type := M S (Message + A).

#[global] Instance Early_ret S : MRet (Early S) := λ A a w, (Ok (inr a), w).
#[global] Instance Early_bind S : MBind (Early S) := λ A B f m w,
  match m w with
  | (Ok (inr a), w') => f a w'
  | (Ok (inl r), w') => (Ok (inl r), w')
  | (Throw e, w') => (Throw e, w')
  | (Undefined u, w') => (Undefined u, w')
  end.

Definition return_early {S A} (r : Message) : Early S A := λ w, (Ok (inl r), w).

Definition step {S A} (m : M S A) : Early S A := λ w,
  match m w with
  | (Ok a, w') => (Ok (inr a), w')
  | (Throw e, w') => (Throw e, w')
  | (Undefined u, w') => (Undefined u, w')
  end.
Definition compute {S A} (r : result A) : Early S A := step (lift r).

(** [if (error) return f( *error);] *)
Definition check {S} (error : option string) (f : string → Message) : Early S () :=
  match error with Some e => return_early (f e) | None => mret () end.

Definition finish {S} (m : Early S Message) : M S Message := λ w,
  match m w with
  | (Ok (inl r), w') | (Ok (inr r), w') => (Ok r, w')
  | (Throw e, w') => (Throw e, w')
  | (Undefined u, w') => (Undefined u, w')
  end.

Section Definitions.
Context `{CommonModels} `{Clock} `{IterationOrder} `{QodLibrary} `{!Environment} `{Json} `{!QosMapper}.
Context `{!HandlerLibrary}.
Implicit Types (message : Message) (context : QodRequestContext) (session : QodSession).

Definition extract_context message : QodRequestContext :=
  let common := helper_extract_context message in
  mkQodRequestContext (service_consumer_id common) (service_correlation_id common)
    (service_three_legged common) (service_device common).

Definition extract_session_id message : string :=
  let session_id := helper_extract_path_param message "sessionId" in
  if empty session_id then helper_extract_path_param message "session_id" else session_id.

Definition create_error_response (status : Z) (code text correlation : string) : Message :=
  helper_create_error_response status code text correlation.

Definition create_success_response (data : json) (status : Z) (correlation : string) : result Message :=
  helper_create_success_response data status correlation.

(** ** Validation *)

(** [^\+[1-9][0-9]{4,14}$] and [^https://[^\s]+$] *)
Definition phone_regex : regex :=
  Cat (chr "+") (Cat (range "1" "9") (rep_between 4 14 (range "0" "9"))).
Definition url_regex : regex :=
  let nonspace := Chr (λ c, negb (isspace c)) in
  Cat (lit "https://") (Cat nonspace (Star nonspace)).

(** The first complaint. *)
Definition first_error (l : list (bool * string)) : option string := snd <$> find_first fst l.

Definition validate_device (device : option QodDevice) context : option string :=
  if is_three_legged context && has_value device
  then Some "Device must not be provided with 3-legged authentication"
  else
    match device with
    | None => if is_three_legged context then None
              else Some "Device is required for 2-legged authentication"
    | Some d =>
      first_error
        [(match phone_number d with
          | Some number => negb (regex_match phone_regex number)
          | None => false
          end, "Invalid phone number format - must be E.164 format with + prefix");
         (match device_ipv4_address d with
          | Some a => empty (ipv4 (public_address a))
          | None => false
          end, "Public IPv4 address is required when using IPv4 identification");
         (match device_ipv4_address d with
          | Some a => negb (has_value (private_address a)) && negb (has_value (public_port a))
          | None => false
          end, "Either private address or public port must be provided with public IPv4 address");
         (negb (has_value (phone_number d)) && negb (has_value (device_ipv4_address d)) &&
          negb (has_value (device_ipv6_address d)) && negb (has_value (network_access_identifier d)),
          "At least one device identifier must be provided")]
    end.

Definition validate_application_server (server : ApplicationServer) : option string :=
  if server_is_empty server then Some "Application server must have at least one IP address" else None.

Definition port_error : string := "Port numbers must be between 0 and 65535".

Definition validate_ports (spec : option PortsSpec) : option string :=
  match spec with
  | None => None
  | Some spec =>
    first_error
      ((r ← ranges spec;
        [(to r <? from r, "Invalid port range - 'from' must be less than or equal to 'to'");
         ((65535 <? from r) || (65535 <? to r), port_error)]) ++
       ((λ p, (65535 <? p, port_error)) <$> ports spec))
  end.

Definition validate_duration (duration : Z) : option string :=
  if duration <? 1 then Some "Duration must be at least 1 second" else None.

(** The clock is read only when the token has an expiry to compare it with. *)
Definition validate_credential (credential : SinkCredential) : M QodSessionManager (option string) :=
  if negb (bool_decide (credential_type credential = ACCESSTOKEN))
  then mret (Some "Only ACCESSTOKEN credential type is supported")
  else if match access_token credential with Some token => empty token | None => true end
  then mret (Some "Access token is required for ACCESSTOKEN credential type")
  else
    match access_token_expires_utc credential with
    | None => mret (Some "Access token expiry time is required")
    | Some expires =>
      if negb (String.eqb (access_token_type credential) "bearer")
      then mret (Some "Access token type must be 'bearer'")
      else t ← now;
           mret (if expires <? t then Some "Access token has already expired" else None)
    end.

Definition validate_sink (sink : option string) (credential : option SinkCredential) :
    M QodSessionManager (option string) :=
  match sink with
  | None => mret None
  | Some url =>
    if negb (regex_match url_regex url) then mret (Some "Sink must be a valid HTTPS URL")
    else match credential with
         | Some credential => validate_credential credential
         | None => mret None
         end
  end.

(** ** From JSON *)

Definition parse_ipv4 (j : json) : result DeviceIpv4Addr :=
  public ← optional_member "publicAddress" get_string j;
  private ← optional_member "privateAddress" get_string j;
  port ← optional_member "publicPort" get_port j;
  mret (mkDeviceIpv4Addr (mkIpv4Addr (value_or "" public)) (mkIpv4Addr <$> private) port).

Definition parse_device (j : json) : result (option QodDevice) :=
  if is_null j then mret None
  else
    number ← optional_member "phoneNumber" get_string j;
    nai ← optional_member "networkAccessIdentifier" get_string j;
    ipv4 ← optional_member "ipv4Address" parse_ipv4 j;
    ipv6 ← optional_member "ipv6Address" get_string j;
    mret (Some (mkQodDevice number nai ipv4 (mkIpv6Addr <$> ipv6))).

Definition parse_application_server (j : json) : result ApplicationServer :=
  ipv4 ← optional_member "ipv4Address" get_string j;
  ipv6 ← optional_member "ipv6Address" get_string j;
  mret (mkApplicationServer ipv4 ipv6).

(** The members of a range are read from a constant value without a test that they are there. *)
Definition parse_range (j : json) : result PortRange :=
  v ← jindex_const "from" j; a ← get_port v;
  v ← jindex_const "to" j; b ← get_port v;
  mret (mkPortRange a b).

Definition parse_ports (j : json) : result (option PortsSpec) :=
  if is_null j then mret None
  else rs ← array_member "ranges" parse_range j;
       ps ← array_member "ports" get_port j;
       mret (Some (mkPortsSpec rs ps)).

Definition parse_sink_credential (j : json) : result (option SinkCredential) :=
  if is_null j then mret None
  else
    v ← jindex_const "credentialType" j;
    type ← get_string v;
    let credential := SinkCredential_default in
    if String.eqb type "ACCESSTOKEN" then
      token ← optional_member "accessToken" get_string j;
      expires ← optional_member "accessTokenExpiresUtc" get_string j;
      token_type ← optional_member "accessTokenType" get_string j;
      let credential := credential <| credential_type := ACCESSTOKEN |> in
      let credential := match token with
                        | Some s => credential <| access_token := Some s |>
                        | None => credential
                        end in
      let credential := match expires with
                        | Some s => credential <| access_token_expires_utc := Some (local_time_point s) |>
                        | None => credential
                        end in
      mret (Some (match token_type with
                  | Some s => credential <| access_token_type := s |>
                  | None => credential
                  end))
    else if String.eqb type "PLAIN" then
      identifier_text ← value_string "identifier" "" j;
      secret_text ← value_string "secret" "" j;
      mret (Some (credential <| credential_type := PLAIN |> <| identifier := Some identifier_text |>
                             <| secret := Some secret_text |>))
    else if String.eqb type "REFRESHTOKEN" then
      token ← value_string "accessToken" "" j;
      refresh ← value_string "refreshToken" "" j;
      endpoint ← value_string "refreshTokenEndpoint" "" j;
      mret (Some (credential <| credential_type := REFRESHTOKEN |> <| access_token := Some token |>
                             <| refresh_token := Some refresh |>
                             <| refresh_token_endpoint := Some endpoint |>))
    else mret (Some credential).

(** ** To JSON *)

Definition device_to_json (d : QodDevice) : result json :=
  j ← add_member ["phoneNumber"] (jstring <$> phone_number d) jnull;
  j ← add_member ["networkAccessIdentifier"] (jstring <$> network_access_identifier d) j;
  j ← match device_ipv4_address d with
      | Some a =>
        v ← assign_path ["publicAddress"] (jstring (ipv4 (public_address a))) jnull;
        v ← add_member ["privateAddress"] (jstring ∘ ipv4 <$> private_address a) v;
        v ← add_member ["publicPort"] (jint <$> public_port a) v;
        assign_path ["ipv4Address"] v j
      | None => mret j
      end;
  add_member ["ipv6Address"] (jstring ∘ ipv6 <$> device_ipv6_address d) j.

Definition ports_to_json (spec : PortsSpec) : result json :=
  let range_json := λ r, jobject [("from", jint (from r)); ("to", jint (to r))] in
  j ← (if bool_decide (ranges spec = []) then mret jnull
       else assign_path ["ranges"] (jarray (range_json <$> ranges spec)) jnull);
  if bool_decide (ports spec = []) then mret j
  else assign_path ["ports"] (jarray (jint <$> ports spec)) j.

(** An optional member whose value may fail to be built. *)
Definition add_built {A} (k : string) (o : option A) (build : A → result json) (j : json) : result json :=
  match o with
  | Some a => v ← build a; assign_path [k] v j
  | None => mret j
  end.

Definition session_to_json session (include_device : bool) : result json :=
  let server := application_server session in
  j ← assign_path ["sessionId"] (jstring (session_id session)) jnull;
  j ← assign_path ["qosStatus"] (jstring (qos_status_to_string (qos_status session))) j;
  j ← assign_path ["qosProfile"] (jstring (qos_profile session)) j;
  j ← assign_path ["duration"] (jint (duration session)) j;
  v ← add_member ["ipv4Address"] (jstring <$> server_ipv4_address server) jnull;
  v ← add_member ["ipv6Address"] (jstring <$> server_ipv6_address server) v;
  j ← assign_path ["applicationServer"] v j;
  j ← (if include_device then add_built "device" (device_response session) device_to_json j else mret j);
  j ← add_built "devicePorts" (device_ports session) ports_to_json j;
  j ← add_built "applicationServerPorts" (application_server_ports session) ports_to_json j;
  j ← add_member ["sink"] (jstring <$> sink session) j;
  j ← (if bool_decide (qos_status session = REQUESTED) then mret j
       else j ← add_member ["startedAt"] (jstring ∘ utc_text <$> started_at session) j;
            add_member ["expiresAt"] (jstring ∘ utc_text <$> expires_at session) j);
  if bool_decide (qos_status session = UNAVAILABLE)
  then add_member ["statusInfo"] (jstring ∘ status_info_to_string <$> status_info session) j
  else mret j.

(** ** Handlers *)

(** [create_error_response(status, code, text, context.correlation_id)] *)
Definition error_for context (status : Z) (code text : string) : Message :=
  create_error_response status code text (context_correlation_id context).

(** The [catch] clauses; [json] says whether parse errors have one of their own. *)
Definition catching (json_errors : bool) context (m : M QodSessionManager Message) :
    M QodSessionManager Message :=
  try_catch m (λ e, mret
    (match e with
     | json_parse_error _ =>
       if json_errors then error_for context 400 INVALID_ARGUMENT "Invalid JSON in request body"
       else error_for context 500 "INTERNAL_ERROR" "Internal server error"
     | _ => error_for context 500 "INTERNAL_ERROR" "Internal server error"
     end)).

(** The body of a request; printing it for the log can throw. *)
Definition parse_body message : Early QodSessionManager json :=
  request_json ← compute (parse (payload message));
  compute (dump request_json) ;;
  mret request_json.

(** The code for a device that is missing or must not be there. *)
Definition device_error_code context : string :=
  if is_three_legged context then UNNECESSARY_IDENTIFIER else MISSING_IDENTIFIER.

Definition missing_device context : Message :=
  error_for context 422 MISSING_IDENTIFIER "Device identifier is required for 2-legged authentication".

(** The device of a request that has the member. *)
Definition read_device context (request_json : json) : Early QodSessionManager (option QodDevice) :=
  v ← compute (jindex "device" request_json);
  device ← compute (parse_device v);
  check (validate_device device context) (error_for context 422 (device_error_code context)) ;;
  mret device.

(** A required member. *)
Definition require (k : string) context (request_json : json) : Early QodSessionManager json :=
  if jcontains k request_json then compute (jindex k request_json)
  else return_early (error_for context 400 INVALID_ARGUMENT (k +:+ " is required")).

Definition read_ports (k : string) context (request_json : json) :
    Early QodSessionManager (option PortsSpec) :=
  if jcontains k request_json then
    v ← compute (jindex k request_json);
    spec ← compute (parse_ports v);
    check (validate_ports spec) (error_for context 400 OUT_OF_RANGE) ;;
    mret spec
  else mret None.

(** The sink and its credential, which is read only when there is a sink. *)
Definition read_sink context (request_json : json) :
    Early QodSessionManager (option string * option SinkCredential) :=
  if jcontains "sink" request_json then
    v ← compute (jindex "sink" request_json);
    url ← compute (get_string v);
    credential ← (if jcontains "sinkCredential" request_json
                  then v ← compute (jindex "sinkCredential" request_json);
                       compute (parse_sink_credential v)
                  else mret None);
    error ← step (validate_sink (Some url) credential);
    check error (error_for context 400 INVALID_SINK) ;;
    mret (Some url, credential)
  else mret (None, None).

(** The request of [handle_create_session], or the response that refuses it. *)
Definition read_create_request context message : Early QodSessionManager CreateSessionRequest :=
  request_json ← parse_body message;
  device ← (if jcontains "device" request_json then read_device context request_json
            else if is_three_legged context then mret None
            else return_early (missing_device context));
  v ← require "applicationServer" context request_json;
  server ← compute (parse_application_server v);
  check (validate_application_server server) (error_for context 400 INVALID_ARGUMENT) ;;
  device_ports ← read_ports "devicePorts" context request_json;
  server_ports ← read_ports "applicationServerPorts" context request_json;
  v ← require "qosProfile" context request_json;
  profile ← compute (get_string v);
  v ← require "duration" context request_json;
  duration ← compute (get_int v);
  check (validate_duration duration) (error_for context 400 DURATION_OUT_OF_RANGE) ;;
  '(sink, credential) ← read_sink context request_json;
  mret (mkCreateSessionRequest (context_consumer_id context) device server device_ports server_ports
          profile duration sink credential).

Definition success_for context (data : result json) (status : Z) : Early QodSessionManager Message :=
  data ← compute data;
  compute (create_success_response data status (context_correlation_id context)).

Definition handle_create_session message : M QodSessionManager Message :=
  let context := extract_context message in
  catching true context (finish
    (request ← read_create_request context message;
     created ← step (create_session request);
     match created with
     | None =>
       mret (error_for context 400 INVALID_ARGUMENT
               "Failed to create session - possible conflict with existing session")
     | Some session =>
       let include_device := has_value (req_device request) && negb (is_three_legged context) in
       success_for context (session_to_json session include_device) 201
     end)).

(** Whether the device is part of the description of a stored session. *)
Definition shows_device session : bool := has_value (device session) && has_value (device_response session).

(** The check of the session id, which comes before the [try] block. *)
Definition with_session_id message context (f : string → M QodSessionManager Message) :
    M QodSessionManager Message :=
  let session_id := extract_session_id message in
  if empty session_id then mret (error_for context 400 INVALID_ARGUMENT "Session ID is required")
  else f session_id.

Definition handle_get_session message : M QodSessionManager Message :=
  let context := extract_context message in
  with_session_id message context (λ session_id,
    catching false context (finish
      (found ← step (get_session session_id (context_consumer_id context));
       match found with
       | None => mret (error_for context 404 NOT_FOUND "Session not found")
       | Some session => success_for context (session_to_json session (shows_device session)) 200
       end))).

(** "204 No Content" *)
Definition deleted_response context : Message :=
  mkMessage "qod_delete_session_response" (context_correlation_id context) ""
    (<["x-correlator" := context_correlation_id context]> {["http_status" := "204"]}).

Definition handle_delete_session message : M QodSessionManager Message :=
  let context := extract_context message in
  with_session_id message context (λ session_id,
    catching false context
      (deleted ← delete_session session_id (context_consumer_id context);
       mret (if deleted : bool then deleted_response context
             else error_for context 400 NOT_FOUND "Session deletion failed"))).

(** The response when the manager does not extend a session. *)
Definition not_extended context (existing : option QodSession) : Message :=
  match existing with
  | None => error_for context 404 NOT_FOUND "Session not found"
  | Some existing =>
    if negb (bool_decide (qos_status existing = AVAILABLE)) then
      error_for context 409 SESSION_EXTENSION_NOT_ALLOWED
        ("Extending the session duration is not allowed in the current state (" +:+
         qos_status_to_string (qos_status existing) +:+
         "). The session must be in the AVAILABLE state.")
    else error_for context 400 DURATION_OUT_OF_RANGE
           "Extension would exceed maximum duration for QoS profile"
  end.

Definition handle_extend_session message : M QodSessionManager Message :=
  let context := extract_context message in
  with_session_id message context (λ session_id,
    catching true context (finish
      (request_json ← parse_body message;
       v ← require "requestedAdditionalDuration" context request_json;
       additional ← compute (get_int v);
       check (if additional <? 1 then Some "requestedAdditionalDuration must be at least 1 second"
              else None) (error_for context 400 OUT_OF_RANGE) ;;
       extended ← step (extend_session_duration (mkExtendSessionDurationRequest session_id additional)
                          (context_consumer_id context));
       match extended with
       | None =>
         existing ← step (get_session session_id (context_consumer_id context));
         mret (not_extended context existing)
       | Some session => success_for context (session_to_json session (shows_device session)) 200
       end))).

Definition handle_retrieve_sessions message : M QodSessionManager Message :=
  let context := extract_context message in
  catching true context (finish
    (device ← (if empty (payload message) then
                 if is_three_legged context then mret None
                 else return_early (missing_device context)
               else
                 request_json ← compute (parse (payload message));
                 if jcontains "device" request_json then read_device context request_json
                 else mret None);
     sessions ← step (retrieve_sessions_by_device
                        (mkRetrieveSessionsRequest device (context_consumer_id context)));
     elements ← compute (mapM (λ s, session_to_json s (shows_device s)) sessions);
     success_for context (mret (jarray elements)) 200)).
End Definitions.
