(* ===== verification/Orchestrator.v ===== *)
(** * The AF core: managers behind the router, and the REST adapter

    [af_core/src/af_orchestrator.cpp]: the managers the orchestrator owns, the handlers it registers
    with the router and the entry of messages; and [af_core/src/qod/qod_rest_adapter.cpp], which
    answers HTTP requests through the router.  Configuration, communication services and threads are
    left out. *)

From S2P Require Import Prelude Effects UeState Events UeStateManager QodTypes QodStateManager Json.
From S2P Require Import Comms ServiceHelpers RequestRouter RestRouter PolicyManager SubscriptionManager.
From S2P Require Import QodSessionManager QodHandler.

Section Definitions.
Context `{CommonModels} `{Clock} `{IterationOrder} `{QodLibrary} `{!Environment} `{Json} `{!QosMapper}.
Context `{!HandlerLibrary} `{!PolicyEnvironment} `{!SubscriptionEnvironment} `{UrlLibrary}.

Record AfCore := mkAfCore {
  policy_manager_ : PolicyManager;
  subscription_manager_ : SubscriptionManager;
  qod_session_manager_ : QodSessionManager }.

#[global] Instance AfCore_settable : Settable AfCore := λ c,
  mkAfCore (policy_manager_ c) (subscription_manager_ c) (qod_session_manager_ c).

(** A lambda that passes the message to a method of a manager. *)
Definition through {T} (field : AfCore → T) `{!Setter field} (f : Message → M T Message) :
    MessageHandlerFunc AfCore := λ message,
  match message with
  | None => undefined null_dereference
  | Some message => response ← on field (f message); mret (Some response)
  end.

Definition configure_components : M (RequestRouter AfCore) () :=
  register_handler "qos_request" (Some (through policy_manager_ handle_qos_request)) ;;
  register_handler "get_subscriptions" (Some (through subscription_manager_ get_all_subscriptions)) ;;
  register_handler "create_subscription" (Some (through subscription_manager_ create_subscription)) ;;
  register_handler "get_subscription" (Some (through subscription_manager_ get_subscription)) ;;
  register_handler "delete_subscription" (Some (through subscription_manager_ delete_subscription)).

Definition register_qod_handlers : M (RequestRouter AfCore) () :=
  register_handler "qod_create_session" (Some (through qod_session_manager_ handle_create_session)) ;;
  register_handler "qod_get_session" (Some (through qod_session_manager_ handle_get_session)) ;;
  register_handler "qod_delete_session" (Some (through qod_session_manager_ handle_delete_session)) ;;
  register_handler "qod_extend_session" (Some (through qod_session_manager_ handle_extend_session)) ;;
  register_handler "qod_retrieve_sessions"
    (Some (through qod_session_manager_ handle_retrieve_sessions)).

(** The router after [initialize]. *)
Definition request_router_ : RequestRouter AfCore :=
  obj ((configure_components ;; register_qod_handlers) (World 0 RequestRouter_new)).2.

Definition process_message : MessageHandlerFunc AfCore := λ message,
  match message with
  | None => mret None
  | Some _ => route_message request_router_ message
  end.

(** ** The REST adapter *)

(** The handler of an endpoint; [draw] and [variant] are the draws for a fresh correlation id. *)
Definition create_handler (message_type path_pattern : string) (draw : nat → nat) (variant : nat)
    (req : HttpRequest) : M AfCore HttpServerResponse :=
  message ← lift (http_request_to_message draw variant req message_type path_pattern);
  response ← route_message request_router_ (Some message);
  mret (match response with
        | None => error_response "Handler returned no response"
        | Some _ => message_to_http_response response
        end).

(** The endpoints [register_endpoints] registers: method, path, message type and pattern. *)
Definition endpoints : list (string * string * string * string) :=
  let root := "/quality-on-demand/v1" in
  [("POST", root +:+ "/sessions", "qod_create_session", root +:+ "/sessions");
   ("GET", root +:+ "/sessions/*", "qod_get_session", root +:+ "/sessions/{sessionId}");
   ("DELETE", root +:+ "/sessions/*", "qod_delete_session", root +:+ "/sessions/{sessionId}");
   ("POST", root +:+ "/sessions/*/extend", "qod_extend_session",
      root +:+ "/sessions/{sessionId}/extend");
   ("POST", root +:+ "/retrieve-sessions", "qod_retrieve_sessions", root +:+ "/retrieve-sessions")].
End Definitions.
