(* ===== verification/ApiSpec.v ===== *)
(** * What the QoD API promises

    The requests the handlers let through to the session manager, the requests that make them reach
    undefined behaviour, and the routing and the statuses of HTTP responses. *)

From S2P Require Import Prelude Effects CxxString Regex UeKey UeState Events UeStateManager QodTypes.
From S2P Require Import QodStateManager Json Comms ServiceHelpers RequestRouter RestRouter PolicyManager.
From S2P Require Import SubscriptionManager QodSessionManager QodSessionSpec QodHandler Orchestrator.

(** ** Early returns *)

(** [ensures f P]: whatever value [f] passes on satisfies [P]; [f] does not change the object. *)
Definition ensures {S A} (f : Early S A) (P : A → Prop) : Prop :=
  ∀ w, obj (f w).2 = obj w ∧ ∀ a, (f w).1 = Ok (inr a) → P a.

Section Early.
Context {S : Type}.

Lemma ensures_mono {A} (f : Early S A) (P Q : A → Prop) :
  ensures f P → (∀ a, P a → Q a) → ensures f Q.
Proof. intros Hf HPQ w. destruct (Hf w) as [? Ha]. split; [done|]. auto. Qed.

Lemma ensures_ret {A} (a : A) (P : A → Prop) : P a → ensures (mret a : Early S A) P.
Proof. intros Ha w. split; [done|]. by intros b [= <-]. Qed.

Lemma ensures_return_early {A} r (P : A → Prop) : ensures (return_early r : Early S A) P.
Proof. by intros w. Qed.

Lemma ensures_bind {A B} (f : Early S A) (P : A → Prop) (g : A → Early S B) (Q : B → Prop) :
  ensures f P → (∀ a, P a → ensures (g a) Q) → ensures (f ≫= g) Q.
Proof.
  intros Hf Hg w. destruct (Hf w) as [Ho Ha]. unfold mbind, Early_bind.
  destruct (f w) as [[[r|a]|e|u] w']; simpl in *; try done.
  destruct (Hg a (Ha a eq_refl) w') as [Ho' Hb]. split; [congruence|done].
Qed.

Lemma ensures_compute {A} (r : result A) : ensures (compute r : Early S A) (λ a, r = Ok a).
Proof.
  intros w. unfold compute, step, lift. destruct r; simpl; (split; [done|]); intros b Hb; by simplify_eq.
Qed.

Lemma ensures_any {A} (r : result A) (P : A → Prop) : (∀ a, P a) → ensures (compute r : Early S A) P.
Proof. intros HP. eapply ensures_mono; [apply ensures_compute|auto]. Qed.

Lemma ensures_check error f : ensures (check error f : Early S ()) (λ _, error = None).
Proof. destruct error; [apply ensures_return_early|by apply ensures_ret]. Qed.
End Early.

Section Specification.
Context `{CommonModels} `{Clock} `{IterationOrder} `{QodLibrary} `{!Environment} `{Json} `{!QosMapper}.
Context `{!HandlerLibrary}.
Implicit Types (message : Message) (context : QodRequestContext).

(** ** The requests that reach the session manager *)

(** A device that identifies one UE in an accepted form. *)
Definition good_device (d : QodDevice) : Prop :=
  (∀ number, phone_number d = Some number → matches phone_regex number) ∧
  (∀ a, device_ipv4_address d = Some a →
     ipv4 (public_address a) ≠ "" ∧ (is_Some (private_address a) ∨ is_Some (public_port a))) ∧
  (is_Some (phone_number d) ∨ is_Some (network_access_identifier d) ∨
   is_Some (device_ipv4_address d) ∨ is_Some (device_ipv6_address d)).

Definition good_ports (spec : PortsSpec) : Prop :=
  Forall (λ r, from r <= to r <= 65535) (ranges spec) ∧ Forall (λ p, p <= 65535) (ports spec).

(** A credential with a bearer token that has not expired at a reading of the clock. *)
Definition good_credential (c : SinkCredential) : Prop :=
  credential_type c = ACCESSTOKEN ∧ (∃ token, access_token c = Some token ∧ token ≠ "") ∧
  access_token_type c = "bearer" ∧
  ∃ expires i, access_token_expires_utc c = Some expires ∧ clock i <= expires.

Definition good_request context (request : CreateSessionRequest) : Prop :=
  req_api_consumer_id request = context_consumer_id context ∧
  (if is_three_legged context then req_device request = None
   else ∃ d, req_device request = Some d ∧ good_device d) ∧
  server_is_empty (req_application_server request) = false ∧
  (∀ spec, req_device_ports request = Some spec → good_ports spec) ∧
  (∀ spec, req_application_server_ports request = Some spec → good_ports spec) ∧
  1 <= req_duration request ∧
  (∀ url, req_sink request = Some url → matches url_regex url) ∧
  (∀ c, req_sink_credential request = Some c → is_Some (req_sink request) ∧ good_credential c).

(** The list of complaints is clear exactly when every test is. *)
Lemma first_error_None l : first_error l = None ↔ Forall (λ x, x.1 = false) l.
Proof.
  unfold first_error. rewrite fmap_None, find_first_None, Forall_forall. done.
Qed.

Lemma read_device_good context request_json :
  ensures (read_device context request_json) (λ device,
    if is_three_legged context then device = None else ∃ d, device = Some d ∧ good_device d).
Proof.
  unfold read_device. eapply ensures_bind; [apply ensures_compute|intros v _].
  eapply ensures_bind; [apply ensures_compute|intros device _].
  eapply ensures_bind; [apply ensures_check|intros [] Hv]. apply ensures_ret. unfold validate_device in Hv.
  destruct (is_three_legged context); [by destruct device|].
  destruct device as [d|]; [|done]. exists d. split; [done|]. cbn [andb] in Hv.
  rewrite first_error_None, !Forall_cons in Hv. cbn [fst] in Hv.
  destruct Hv as (Hn & Ha & Hp & Hany & _). split_and!.
  - intros number E. rewrite E in Hn. apply negb_false_iff in Hn. by apply regex_match_spec.
  - intros a E. rewrite E in Ha, Hp. split; [by destruct (ipv4 (public_address a))|].
    destruct (private_address a), (public_port a); simpl in Hp; [eauto..|done].
  - destruct (phone_number d), (network_access_identifier d), (device_ipv4_address d),
      (device_ipv6_address d); simpl in Hany; first [done|eauto 6].
Qed.

Lemma validate_ports_good spec : validate_ports (Some spec) = None → good_ports spec.
Proof.
  unfold validate_ports. rewrite first_error_None, Forall_app, Forall_fmap, Forall_bind.
  intros [Hr Hp]. split.
  - apply (Forall_impl _ _ _ Hr). intros r Hx. unfold compose in Hx. rewrite !Forall_cons in Hx. simpl in Hx.
    destruct Hx as (Hle & Hb & _). apply orb_false_iff in Hb as [Hb1 Hb2]. lia.
  - apply (Forall_impl _ _ _ Hp). intros p Hx. simpl in Hx. lia.
Qed.

Lemma read_ports_good k context request_json :
  ensures (read_ports k context request_json) (λ o, ∀ spec, o = Some spec → good_ports spec).
Proof.
  unfold read_ports. destruct (jcontains k request_json); [|by apply ensures_ret].
  eapply ensures_bind; [apply ensures_compute|intros v _].
  eapply ensures_bind; [apply ensures_compute|intros o _].
  eapply ensures_bind; [apply ensures_check|intros [] Hv]. apply ensures_ret.
  intros spec ->. by apply validate_ports_good.
Qed.

(** The test of a credential does not change the object; it passes only good ones. *)
Lemma validate_credential_good c :
  ensures (step (validate_credential c)) (λ error, error = None → good_credential c).
Proof.
  intros w. unfold step, validate_credential. case_bool_decide as Ht; cbn [negb]; [|by split; [|naive_solver]].
  destruct (access_token c) as [token|] eqn:Ek; [|by split; [|naive_solver]].
  destruct (empty token) eqn:Et; [by split; [|naive_solver]|].
  destruct (access_token_expires_utc c) as [expires|] eqn:Ex; [|by split; [|naive_solver]].
  destruct (String.eqb_spec (access_token_type c) "bearer") as [Eb|Eb]; cbn [negb];
    [|by split; [|naive_solver]].
  rewrite bind_now. split; [done|]. intros a [= <-].
  destruct (Z.ltb_spec expires (clock (ticks w))); [done|]. intros _.
  split_and!; [done| |done|by exists expires, (ticks w)].
  exists token. split; [done|]. by intros ->.
Qed.

Lemma read_sink_good context request_json :
  ensures (read_sink context request_json) (λ '(url, credential),
    (∀ u, url = Some u → matches url_regex u) ∧
    (∀ c, credential = Some c → is_Some url ∧ good_credential c)).
Proof.
  unfold read_sink. destruct (jcontains "sink" request_json); [|by apply ensures_ret].
  eapply ensures_bind; [apply ensures_compute|intros v _].
  eapply ensures_bind; [apply ensures_compute|intros u _].
  apply (ensures_bind _ (λ _, True)).
  { destruct (jcontains "sinkCredential" request_json); [|by apply ensures_ret].
    eapply ensures_bind; [apply ensures_compute|intros v' _]. by apply ensures_any. }
  intros credential _. apply (ensures_bind _ (λ error, error = None →
    matches url_regex u ∧ ∀ c, credential = Some c → good_credential c)).
  - unfold validate_sink. destruct (regex_match url_regex u) eqn:Em; cbn [negb].
    + apply regex_match_spec in Em. destruct credential as [c|].
      * eapply ensures_mono; [apply validate_credential_good|]. naive_solver.
      * intros w. split; [done|]. intros a [= <-]. naive_solver.
    + intros w. split; [done|]. by intros a [= <-].
  - intros error He. eapply ensures_bind; [apply ensures_check|intros [] ->].
    apply ensures_ret. destruct (He eq_refl). naive_solver.
Qed.

Lemma require_pure k context request_json : ensures (require k context request_json) (λ _, True).
Proof.
  unfold require. destruct (jcontains k request_json); [by apply ensures_any|apply ensures_return_early].
Qed.

(** Reading a request touches nothing, and a request that is passed on is good. *)
Lemma read_create_request_good context message :
  ensures (read_create_request context message) (good_request context).
Proof.
  unfold read_create_request, parse_body.
  apply (ensures_bind _ (λ _, True)).
  { do 2 (eapply ensures_bind; [apply ensures_compute|intros ? _]). by apply ensures_ret. }
  intros j _. apply (ensures_bind _ (λ device,
    if is_three_legged context then device = None else ∃ d, device = Some d ∧ good_device d)).
  { destruct (jcontains "device" j); [apply read_device_good|].
    destruct (is_three_legged context); [by apply ensures_ret|apply ensures_return_early]. }
  intros device Hd. eapply ensures_bind; [apply require_pure|intros ? _].
  eapply ensures_bind; [apply ensures_compute|intros server _].
  eapply ensures_bind; [apply ensures_check|intros [] Hs].
  eapply ensures_bind; [apply read_ports_good|intros dp Hdp].
  eapply ensures_bind; [apply read_ports_good|intros sp Hsp].
  eapply ensures_bind; [apply require_pure|intros ? _].
  eapply ensures_bind; [apply ensures_compute|intros profile _].
  eapply ensures_bind; [apply require_pure|intros ? _].
  eapply ensures_bind; [apply ensures_compute|intros duration _].
  eapply ensures_bind; [apply ensures_check|intros [] Hdu].
  eapply ensures_bind; [apply read_sink_good|intros [url c] [Hu Hc]]. apply ensures_ret.
  unfold validate_application_server in Hs. unfold validate_duration in Hdu.
  split_and!; simpl; try done.
  - by destruct (server_is_empty server).
  - destruct (Z.ltb_spec duration 1); [done|lia].
Qed.

(** Computations that leave the object alone. *)
Definition pure_early {S A} (f : Early S A) : Prop := ∀ w, obj (f w).2 = obj w.

Lemma ensures_pure {S A} (f : Early S A) P : ensures f P → pure_early f.
Proof. intros Hf w. apply Hf. Qed.

Lemma success_for_pure context data status : pure_early (success_for context data status).
Proof.
  apply (ensures_pure _ (λ _, True)). unfold success_for.
  eapply ensures_bind; [apply ensures_compute|intros j _]. by apply ensures_any.
Qed.

(** The end of a handler: what the computation leaves, whatever response it makes. *)
Lemma catching_obj json_errors context (f : Early QodSessionManager Message) w :
  obj (catching json_errors context (finish f) w).2 = obj (f w).2.
Proof.
  unfold catching, try_catch, finish. by destruct (f w) as [[[r|r]|e|u] w'].
Qed.

(** C40: only good requests reach the session manager.  A call of [handle_create_session] either leaves
    the manager as it was, or does to it exactly what [create_session] does for a request that names
    the consumer of the context and has: a device that identifies a UE in an accepted form, exactly
    when the token is two-legged; an application server; ports in order and in range; a duration of
    at least a second; a sink, if any, that is an HTTPS URL; a credential, if any, that comes with a
    sink and is an unexpired bearer token. *)
Theorem only_good_requests_created message n m :
  (∃ r n', handle_create_session message (World n m) = (r, World n' m)) ∨
  ∃ request n', good_request (extract_context message) request ∧
    obj (handle_create_session message (World n m)).2 = obj (create_session request (World n' m)).2.
Proof.
  set (context := extract_context message).
  destruct (read_create_request_good context message (World n m)) as [Ho Hg].
  unfold handle_create_session. cbv zeta. fold context.
  destruct (read_create_request context message (World n m)) as [x [n' m']] eqn:E.
  cbn [fst snd obj] in Ho, Hg. subst m'. destruct x as [[r|request]|e|u].
  2:{ right. exists request, n'. split; [by apply Hg|]. rewrite catching_obj.
      unfold mbind at 1, Early_bind at 1. rewrite E. unfold step, mbind, Early_bind.
      destruct (create_session request (World n' m)) as [[[session|]|e|u] w']; try done.
      apply success_for_pure. }
  all: left; unfold catching, try_catch, finish, mbind, Early_bind; rewrite E; by do 2 eexists.
Qed.

(** A body without a member the handler relies on.  A port range without "from" or "to", and a
    credential without "credentialType", are read through a constant JSON value without a test, so
    the call of [handle_create_session] that comes to them reaches undefined behaviour: nothing the
    handlers catch. *)
Theorem missing_members_undefined j context request_json (w : world QodSessionManager) :
  is_object j = true →
  (jcontains "from" j = false → parse_range j = Undefined missing_member) ∧
  (∀ v p, jcontains "from" j = true → jindex "from" j = Ok v → get_port v = Ok p →
     jcontains "to" j = false → parse_range j = Undefined missing_member) ∧
  (jcontains "credentialType" j = false → is_null j = false →
   ∀ v url,
     jcontains "sink" request_json = true → jindex "sink" request_json = Ok v →
     get_string v = Ok url → jcontains "sinkCredential" request_json = true →
     jindex "sinkCredential" request_json = Ok j →
     read_sink context request_json w = (Undefined missing_member, w)).
Proof.
  intros Hj. split_and!.
  - intros Hf. unfold parse_range, jindex_const. by rewrite Hf, Hj.
  - intros v p Hf Hv Hp Ht. unfold parse_range, jindex_const. rewrite Hf, Hv. simpl. rewrite Hp. simpl.
    by rewrite Ht, Hj.
  - intros Hc Hn v url Hs Hv Hu Hk Hi.
    assert (E : parse_sink_credential j = Undefined missing_member)
      by (unfold parse_sink_credential, jindex_const; by rewrite Hn, Hc, Hj).
    unfold read_sink. rewrite Hs, Hv, Hk, Hi. destruct w.
    unfold compute, step, lift, mbind, Early_bind. by rewrite Hu, E.
Qed.
End Specification.

(** ** HTTP *)

Section Http.
Context `{CommonModels} `{Clock} `{IterationOrder} `{QodLibrary} `{!Environment} `{Json} `{!QosMapper}.
Context `{!HandlerLibrary} `{!PolicyEnvironment} `{!SubscriptionEnvironment} `{UrlLibrary}.

(** The router has the ten handlers of the core and no other. *)
Lemma router_handlers :
  dom (handlers_ request_router_) =
    {["qos_request"; "get_subscriptions"; "create_subscription"; "get_subscription";
      "delete_subscription"; "qod_create_session"; "qod_get_session"; "qod_delete_session";
      "qod_extend_session"; "qod_retrieve_sessions"]}.
Proof. unfold request_router_. simpl. set_solver. Qed.

(** A message of a type without handler is answered with an error that names the type. *)
Lemma process_unknown message (w : world AfCore) :
  message_type message ∉ dom (handlers_ request_router_) →
  process_message (Some message) w =
    (Ok (Some (plain_message "error.unhandled_message_type" (correlation_id message)
                 ("No handler registered for message type: " +:+ message_type message))), w).
Proof. intros Hd. unfold process_message, route_message. by rewrite (not_elem_of_dom_1 _ _ Hd). Qed.

Lemma delete_route message :
  message_type message = "qod_delete_session" →
  route_message request_router_ (Some message) =
    through qod_session_manager_ handle_delete_session (Some message).
Proof. intros E. unfold route_message. by rewrite E. Qed.

Definition with_sessions (q : QodSessionManager) (c : AfCore) : AfCore := c <| qod_session_manager_ := q |>.

Lemma handle_delete_run message (id : string) n q n' q' :
  extract_session_id message = id → id ≠ "" →
  delete_session id (context_consumer_id (extract_context message)) (World n q) = (Ok true, World n' q') →
  handle_delete_session message (World n q) =
    (Ok (deleted_response (extract_context message)), World n' q').
Proof.
  intros Hid Hne Hd. unfold handle_delete_session, with_session_id. rewrite Hid.
  destruct id as [|a s]; [done|]. cbn [empty]. unfold catching, try_catch.
  by rewrite (bind_run _ _ _ _ _ Hd).
Qed.

(** A deletion over HTTP that succeeds is answered with status 200.  The handler puts "204" under
    "http_status", which is not where the REST router looks for the status: it becomes a header. *)
Theorem rest_delete_status draw variant req message id n c n' q' :
  let pattern := "/quality-on-demand/v1/sessions/{sessionId}" in
  http_request_to_message draw variant req "qod_delete_session" pattern = Ok message →
  extract_session_id message = id → id ≠ "" →
  delete_session id (context_consumer_id (extract_context message))
    (World n (qod_session_manager_ c)) = (Ok true, World n' q') →
  ∃ response,
    create_handler "qod_delete_session" pattern draw variant req (World n c) =
      (Ok response, World n' (with_sessions q' c)) ∧
    status_code response = 200 ∧ response_headers response !! "http_status" = Some "204" ∧
    response_body response = "".
Proof.
  intros pattern Hm Hid Hne Hd. set (context := extract_context message).
  exists (message_to_http_response (Some (deleted_response context))).
  assert (Ht : message_type message = "qod_delete_session").
  { revert Hm. unfold http_request_to_message.
    destruct (if empty pattern then _ else _); [|done..]. simpl. by intros [= <-]. }
  split.
  - unfold create_handler. fold pattern. rewrite (bind_run (lift _) _ _ message (World n c))
      by (unfold lift; by rewrite Hm).
    rewrite (bind_run _ _ _ (Some (deleted_response context)) (World n' (with_sessions q' c))); [done|].
    rewrite delete_route by done. unfold through.
    rewrite (bind_run _ _ _ (deleted_response context) (World n' (with_sessions q' c))); [done|].
    unfold on. cbn [ticks obj]. by rewrite (handle_delete_run message id n _ n' q' Hid Hne Hd).
  - set (x := metadata (deleted_response context)).
    assert (Hx : x = <["x-correlator" := context_correlation_id context]> {["http_status" := "204"]})
      by done.
    assert (Hs : x !! "status" = None).
    { rewrite Hx, lookup_insert_ne, lookup_singleton_ne; done. }
    assert (Hf : filter (λ '(k, _), internal_field k = false) x !! "http_status" = Some "204").
    { apply map_lookup_filter_Some. split; [|done]. by rewrite Hx, lookup_insert_ne. }
    unfold message_to_http_response. fold x. rewrite Hs. cbn [status_code response_headers response_body].
    split_and!; [done| |done].
    destruct (filter _ x !! "content-type"); case_match;
      rewrite ?lookup_insert_ne by done; exact Hf.
Qed.
End Http.

(** ** Witnesses *)

Section Witnesses.
#[local] Existing Instances unit_models tick_clock tree_order plain_library tree_json.
#[local] Existing Instances confirming_environment null_mapper.

(** Helpers that read path parameters from the metadata; every caller is the consumer "consumer" with
    a three-legged token. *)
Definition example_helpers : HandlerLibrary := {|
  helper_extract_context := λ m, mkServiceContext "consumer" (correlation_id m) true None;
  helper_extract_path_param := λ m k, value_or "" (metadata m !! k);
  helper_create_error_response := λ status code text correlation,
    mkMessage code correlation text {["status" := pretty status]};
  helper_create_success_response := λ j status correlation,
    text ← dump j; mret (mkMessage "success" correlation text {["status" := pretty status]});
  INVALID_ARGUMENT := "INVALID_ARGUMENT"; OUT_OF_RANGE := "OUT_OF_RANGE"; NOT_FOUND := "NOT_FOUND";
  MISSING_IDENTIFIER := "MISSING_IDENTIFIER"; UNNECESSARY_IDENTIFIER := "UNNECESSARY_IDENTIFIER";
  INVALID_SINK := "INVALID_SINK";
  qos_status_to_string := λ s, match s with
                               | REQUESTED => "REQUESTED"
                               | AVAILABLE => "AVAILABLE"
                               | UNAVAILABLE => "UNAVAILABLE"
                               end;
  status_info_to_string := λ _, "";
  get_port := get_int;
  server_is_empty := λ s, negb (has_value (server_ipv4_address s) || has_value (server_ipv6_address s));
  SinkCredential_default := mkSinkCredential PLAIN None None "bearer" None None None None;
  local_time_point := λ _, 0 |}.

Definition quiet_policies : PolicyEnvironment := {|
  policy_pcf_answer := λ _, inr None;
  policy_draw := λ _, 0%nat; policy_draw_bound := λ _, Nat.lt_0_succ 15 |}.
Definition quiet_subscriptions : SubscriptionEnvironment := {|
  subscription_draw := λ _, 0%nat; subscription_draw_bound := λ _, Nat.lt_0_succ 15;
  async_answer := λ _, None |}.
(** Every path matches every pattern, with one capture. *)
Definition one_capture : UrlLibrary := {|
  parse_relative_ref := λ _, None; pct_decode := Ok; match_pattern := λ _ _, Ok (Some ["s1"]) |}.
#[local] Existing Instances example_helpers quiet_policies quiet_subscriptions one_capture.

Definition waiting_core : AfCore :=
  mkAfCore PolicyManager_new SubscriptionManager_new waiting_manager.
Definition delete_http_request : HttpRequest :=
  mkHttpRequest "DELETE" "/quality-on-demand/v1/sessions/s1" {["x-correlator" := "c1"]} "".

Lemma rest_delete_status_witness :
  ∃ response w,
    create_handler "qod_delete_session" "/quality-on-demand/v1/sessions/{sessionId}" (λ _, 0%nat) 8
      delete_http_request (World 0 waiting_core) = (Ok response, w) ∧
    status_code response = 200.
Proof.
  set (message := value_or Message_default
    match http_request_to_message (λ _, 0%nat) 8 delete_http_request "qod_delete_session"
            "/quality-on-demand/v1/sessions/{sessionId}" with Ok m => Some m | _ => None end).
  destruct (rest_delete_status (λ _, 0%nat) 8 delete_http_request message "s1" 0 waiting_core
    (ticks (delete_session "s1" "consumer" (World 0 waiting_manager)).2)
    (obj (delete_session "s1" "consumer" (World 0 waiting_manager)).2)) as (response & E & Hs & _).
  - vm_compute. reflexivity.
  - vm_compute. reflexivity.
  - discriminate.
  - vm_compute. reflexivity.
  - exists response. eexists. split; [exact E|exact Hs].
Defined.

(** A range that has only an upper end. *)
Lemma missing_members_undefined_witness :
  parse_range (TObject [("to", TInt 80)] : @json tree_json) = Undefined missing_member.
Proof.
  apply (missing_members_undefined (TObject [("to", TInt 80)] : @json tree_json)
           (mkQodRequestContext "consumer" "" true None) jnull (World 0 waiting_manager)); reflexivity.
Defined.
End Witnesses.
