(* ===== verification/ApiHandlers.v ===== *)
(** * The northbound API component

    [northbound/api_component/include/api_handlers.h], [northbound/api_component/src/api_handlers.cpp]
    and the routes of [northbound/api_component/src/api_adapter.cpp]: HTTP requests become messages
    to the AF core, its answers HTTP responses.  The communication service to the core is any type of
    the class [CoreComm]; the HTTP/2 server calls the routes, and delivers the body of a request in
    chunks, the last of which is empty. *)

From S2P Require Import Prelude Effects CxxString Json Comms.

(** [CommunicationService::send_request(destination, message)]: it may throw, or give no answer. *)
Class CoreComm (C : Type) := core_send_request : string → Message → M C (option Message).

(** [__DATE__] and [__TIME__]. *)
Class BuildTime := { build_date : string; build_time : string }.

Section Definitions.
Context `{Clock} `{Json} `{BuildTime} {C : Type} `{!CoreComm C}.

Record ApiHandlers := mkApiHandlers {
  api_core_comm_ : option C;
  api_core_destination_ : string;
  counter : Z;                        (* the static counter of [generateCorrelationId] *)
  request_body : option string        (* the local [body] of [readRequestBody], while it runs *) }.

#[global] Instance ApiHandlers_settable : Settable ApiHandlers := λ h,
  mkApiHandlers (api_core_comm_ h) (api_core_destination_ h) (counter h) (request_body h).

(** The handlers with the response of the request they work on: the heads written, with the status
    and whether they carry the content type "application/json", and the end. *)
Record Exchange := mkExchange {
  api_handlers_ : ApiHandlers;
  heads : list (Z * bool);
  ended : option string }.

#[global] Instance Exchange_settable : Settable Exchange := λ x,
  mkExchange (api_handlers_ x) (heads x) (ended x).

Record ApiRequest := mkApiRequest { request_method : string; request_path : string }.

Definition ApiHandlers_new : ApiHandlers := mkApiHandlers None "" 0 None.

Definition ApiHandlers_initialize (core_comm : option C) (core_destination : string) :
    M ApiHandlers () :=
  modify (λ h, h <| api_core_comm_ := core_comm |> <| api_core_destination_ := core_destination |>).

(** ** Responses *)

Definition write_head (status : Z) (json_content : bool) : M Exchange () :=
  modify (λ x, x <| heads ::= λ l, l ++ [(status, json_content)] |>).
Definition end_response (text : string) : M Exchange () := modify (λ x, x <| ended := Some text |>).

(** [res.write_head(status, headers); res.end(j.dump());] *)
Definition answer_json (status : Z) (j : json) : M Exchange () :=
  write_head status true ;; text ← lift (dump j); end_response text.

Definition answer_error (status : Z) (error message : string) : M Exchange () :=
  answer_json status (jobject [("error", jstring error); ("message", jstring message)]).

Definition unexpected_response : M Exchange () :=
  answer_error 500 "unexpected_response" "Received unexpected response from core service".

(** The payload of the answer of the core. *)
Definition answer_payload (status : Z) (reply : Message) : M Exchange () :=
  j ← lift (parse (payload reply)); answer_json status j.

(** ** Requests to the core *)

(** [std::time(nullptr)] *)
Definition seconds_now {S} : M S Z := t ← now; mret (t / 1000000000).

Definition generateCorrelationId : M ApiHandlers string :=
  t ← seconds_now;
  h ← get;
  modify (λ h, h <| counter ::= Z.add 1 |>) ;;
  mret ("api-" +:+ pretty t +:+ "-" +:+ pretty (counter h)).

Definition createMessage (type content : string) : M ApiHandlers Message :=
  id ← generateCorrelationId; mret (plain_message type id content).

(** [core_comm_->send_request(core_destination_, msg)] *)
Definition send_request (message : Message) : M ApiHandlers (option Message) :=
  h ← get; on_pointer api_core_comm_ (core_send_request (api_core_destination_ h) message).

Definition ask_core (type content : string) : M Exchange (option Message) :=
  on api_handlers_ (message ← createMessage type content; send_request message).

(** ** Handlers *)

Definition getHealth : M Exchange () :=
  t ← seconds_now; answer_json 200 (jobject [("status", jstring "up"); ("timestamp", jint t)]).

Definition getVersion : M Exchange () :=
  answer_json 200 (jobject [("version", jstring "1.0.0"); ("api_version", jstring "v1");
                            ("build_date", jstring build_date); ("build_time", jstring build_time)]).

(** What the handlers of requests with a body do with it. *)
Definition forward_body (type success failure : string) (status : Z) (body : string) : M Exchange () :=
  try_catch
    (json_body ← lift (parse body);
     lift (dump json_body) ;;
     content ← lift (dump json_body);
     reply ← ask_core type content;
     match reply with
     | Some reply =>
       if String.eqb (message_type reply) success then answer_payload status reply
       else if String.eqb (message_type reply) failure then answer_payload 400 reply
       else unexpected_response
     | None => unexpected_response
     end)
    (λ e, answer_error 400 "bad_request" (what e)).

(** The function that receives the chunks of a body: it refers to the local [body]. *)
Definition on_data (callback : string → M Exchange ()) (data : string) : M Exchange () :=
  x ← get;
  match request_body (api_handlers_ x) with
  | None => undefined dangling_reference
  | Some body =>
    if empty data then callback body
    else on api_handlers_ (modify (λ h, h <| request_body := Some (body +:+ data) |>))
  end.

(** [readRequestBody(req, callback)]: [req.on_data] only stores the function; then the local ends. *)
Definition readRequestBody (callback : string → M Exchange ()) : M Exchange (string → M Exchange ()) :=
  on api_handlers_ (modify (λ h, h <| request_body := Some "" |>)) ;;
  let receive := on_data callback in
  on api_handlers_ (modify (λ h, h <| request_body := None |>)) ;;
  mret receive.

Definition requestQoS : M Exchange (string → M Exchange ()) :=
  readRequestBody (forward_body "qos_request" "qos_success" "qos_error" 200).

Definition createSubscription : M Exchange (string → M Exchange ()) :=
  readRequestBody (forward_body "create_subscription" "subscription_created" "subscription_error" 201).

(** The [catch] clause of the handlers without a body. *)
Definition or_internal_error (m : M Exchange ()) : M Exchange () :=
  try_catch m (λ e, answer_error 500 "internal_error" (what e)).

Definition getSubscriptions : M Exchange () :=
  or_internal_error
    (reply ← ask_core "get_subscriptions" "";
     match reply with
     | Some reply =>
       if String.eqb (message_type reply) "subscriptions_list" then answer_payload 200 reply
       else answer_error 500 "internal_error" "Failed to retrieve subscriptions"
     | None => answer_error 500 "internal_error" "Failed to retrieve subscriptions"
     end).

(** A request for one subscription: [found] answers if the core's answer has the type [success]. *)
Definition ask_subscription (type success : string) (found : Message → M Exchange ()) (id : string) :
    M Exchange () :=
  or_internal_error
    (content ← lift (dump (jobject [("id", jstring id)]));
     reply ← ask_core type content;
     match reply with
     | Some reply =>
       if String.eqb (message_type reply) success then found reply
       else if String.eqb (message_type reply) "subscription_not_found"
       then answer_error 404 "not_found" "Subscription not found"
       else unexpected_response
     | None => unexpected_response
     end).

Definition getSubscription (id : string) : M Exchange () :=
  ask_subscription "get_subscription" "subscription" (answer_payload 200) id.

Definition deleteSubscription (id : string) : M Exchange () :=
  ask_subscription "delete_subscription" "subscription_deleted"
    (λ _, write_head 204 false ;; end_response "") id.

(** ** Routes *)

(** A literal response. *)
Definition answer_text (status : Z) (error message : string) : M Exchange () :=
  write_head status true ;;
  end_response ("{" +:+ quote "error" +:+ ":" +:+ quote error +:+ "," +:+
                quote "message" +:+ ":" +:+ quote message +:+ "}").

Definition method_not_allowed : M Exchange () :=
  answer_text 405 "method_not_allowed" "Method not allowed".

(** A route gives the function for the chunks of the body if it waits for them. *)
Definition Route : Type := ApiRequest → M Exchange (option (string → M Exchange ())).

Definition done_by (m : M Exchange ()) : M Exchange (option (string → M Exchange ())) := m ;; mret None.
Definition waits (m : M Exchange (string → M Exchange ())) : M Exchange (option (string → M Exchange ())) :=
  receive ← m; mret (Some receive).

Definition is_method (method : string) (req : ApiRequest) : bool :=
  String.eqb (request_method req) method.

Definition subscription_route : Route := λ req,
  let prefix := "/subscriptions/" in
  if (String.length (request_path req) <? String.length prefix)%nat
  then throw (out_of_range "basic_string::substr")
  else
    let id := substr (String.length prefix) (request_path req) in
    if empty id then done_by (answer_text 400 "bad_request" "Missing subscription ID")
    else if is_method "GET" req then done_by (getSubscription id)
    else if is_method "DELETE" req then done_by (deleteSubscription id)
    else done_by method_not_allowed.

(** The patterns and their handlers. *)
Definition setupRoutes : list (string * Route) :=
  [("/health", λ _, done_by getHealth);
   ("/version", λ _, done_by getVersion);
   ("/qos", λ req, if is_method "POST" req then waits requestQoS else done_by method_not_allowed);
   ("/subscriptions", λ req,
      if is_method "GET" req then done_by getSubscriptions
      else if is_method "POST" req then waits createSubscription
      else done_by method_not_allowed);
   ("/subscriptions/", subscription_route);
   ("/", λ _, done_by (answer_text 404 "not_found"
      "The requested resource or endpoint was not found on this server."))].
End Definitions.
