(* ===== verification/ApiHandlersSpec.v ===== *)
(** * What the northbound API does

    Requests with a body are never answered: the function that receives the body refers to a local
    of a call that has ended.  Subscriptions are read and deleted by anyone who knows their id. *)

From S2P Require Import Prelude Effects CxxString UeState Events UeStateManager QodTypes QodStateManager.
From S2P Require Import Json Comms ServiceHelpers RequestRouter RestRouter PolicyManager.
From S2P Require Import SubscriptionManager SubscriptionSpec QodSessionManager QodSessionSpec QodHandler.
From S2P Require Import PcfHelpers PccRuleManager PcfGateway QodPcfHandler PcfHandler PcfExamples Orchestrator ApiSpec ApiHandlers.

(** ** Requests with a body *)

Section Bodies.
Context `{Clock} `{Json} `{BuildTime} {C : Type} `{!CoreComm C}.
Implicit Types (x : Exchange (C:=C)).

(** No call of [readRequestBody] is running. *)
Definition at_rest x : Prop := request_body (api_handlers_ x) = None.

Lemma answer_json_rest status j : preserves at_rest (answer_json (C:=C) status j).
Proof. unfold answer_json, write_head, end_response. preserves_steps. Qed.

Lemma answer_payload_rest status reply : preserves at_rest (answer_payload (C:=C) status reply).
Proof. unfold answer_payload. preserves_steps. Qed.

Lemma answer_text_rest status error message : preserves at_rest (answer_text (C:=C) status error message).
Proof. unfold answer_text, write_head, end_response. preserves_steps. Qed.

Lemma ask_core_rest type content : preserves at_rest (ask_core (C:=C) type content).
Proof.
  apply (preserves_on _ _ (λ h, request_body h = None)); [done..|].
  unfold createMessage, generateCorrelationId, seconds_now, send_request. preserves_steps.
  by apply preserves_on_pointer.
Qed.
#[local] Hint Resolve answer_json_rest answer_payload_rest answer_text_rest ask_core_rest : preserves.

Lemma read_body_rest callback : preserves at_rest (readRequestBody (C:=C) callback).
Proof. by intros w Hw _. Qed.

(** Every operation but the answers of the core is a sequence of writes. *)
Lemma internal_error_rest m : preserves at_rest m → preserves at_rest (or_internal_error (C:=C) m).
Proof. intros Hm. apply preserves_try; [done|]. intros. apply answer_json_rest. Qed.

Lemma unexpected_rest : preserves at_rest (unexpected_response (C:=C)).
Proof. apply answer_json_rest. Qed.

Lemma ask_subscription_rest type success found id :
  (∀ reply, preserves at_rest (found reply)) →
  preserves at_rest (ask_subscription (C:=C) type success found id).
Proof.
  intros Hf. apply internal_error_rest. preserves_steps.
Qed.

Lemma getSubscriptions_rest : preserves at_rest (getSubscriptions (C:=C)).
Proof. apply internal_error_rest. preserves_steps. Qed.

Lemma routes_rest pattern route req :
  (pattern, route) ∈ setupRoutes → preserves at_rest (route req).
Proof.
  unfold setupRoutes. rewrite !elem_of_cons. intros Hin.
  destruct_or! Hin; simplify_eq; unfold done_by, waits, getHealth, getVersion, seconds_now; preserves_steps;
    try apply answer_json_rest; try apply answer_text_rest; try apply read_body_rest;
    try apply getSubscriptions_rest.
  - unfold subscription_route. preserves_steps; unfold done_by; preserves_steps;
      try apply answer_text_rest.
    + apply ask_subscription_rest. intros. apply answer_payload_rest.
    + apply ask_subscription_rest. intros. unfold write_head, end_response. preserves_steps.
  - by apply not_elem_of_nil in Hin.
Qed.

(** What a route leaves for the body of its request receives nothing. *)
Definition deaf (receive : string → M (Exchange (C:=C)) ()) : Prop :=
  ∀ chunk n x, at_rest x → receive chunk (World n x) = (Undefined dangling_reference, World n x).

Lemma on_data_deaf callback : deaf (on_data callback).
Proof. intros chunk n x Hx. unfold on_data. rewrite bind_get. cbn [obj]. by rewrite Hx. Qed.

Lemma read_body_run callback w : (waits (C:=C) (readRequestBody callback) w).1 = Ok (Some (on_data callback)).
Proof. done. Qed.

Lemma done_by_none (m : M (Exchange (C:=C)) ()) w receive : (done_by m w).1 ≠ Ok (Some receive).
Proof. unfold done_by, mbind, M_bind. by destruct (m w) as [[]]. Qed.

Lemma subscription_route_none req w receive : (subscription_route (C:=C) req w).1 ≠ Ok (Some receive).
Proof.
  unfold subscription_route. destruct (_ <? _)%nat; [done|]. cbv zeta.
  repeat case_match; apply done_by_none.
Qed.

Lemma routes_deaf pattern route req w receive :
  (pattern, route) ∈ setupRoutes → (route req w).1 = Ok (Some receive) → deaf receive.
Proof.
  assert (Hb : ∀ callback receive w, (waits (C:=C) (readRequestBody callback) w).1 = Ok (Some receive) →
                 deaf receive).
  { intros callback r w' Hr. rewrite read_body_run in Hr. injection Hr as <-. apply on_data_deaf. }
  unfold setupRoutes. rewrite !elem_of_cons. intros Hin.
  destruct_or! Hin; simplify_eq; try (intros Hr; by apply done_by_none in Hr).
  - case_match; [apply Hb|]. intros Hr. by apply done_by_none in Hr.
  - case_match; [intros Hr; by apply done_by_none in Hr|]. case_match; [apply Hb|].
    intros Hr. by apply done_by_none in Hr.
  - intros Hr. by apply subscription_route_none in Hr.
  - by apply not_elem_of_nil in Hin.
Qed.

(** Requests with a body are never answered.  Whatever was requested before, the POST requests for
    policies and for subscriptions leave a function for the body whose every call, at any later time,
    uses the local [body] of [readRequestBody] after its end, which is undefined behaviour; and so
    does any function that any route leaves. *)
Theorem bodies_dangle pattern route req n x :
  (pattern, route) ∈ setupRoutes → at_rest x →
  let run := route req (World n x) in
  (defined run.1 → at_rest (obj run.2)) ∧
  (∀ receive, run.1 = Ok (Some receive) → deaf receive) ∧
  (pattern ∈ ["/qos"; "/subscriptions"] → request_method req = "POST" → ∃ receive, run.1 = Ok (Some receive)).
Proof.
  intros Hin Hx run. split; [by apply (routes_rest pattern route req Hin (World n x) Hx)|]. split; [intros receive; by eapply routes_deaf|].
  unfold setupRoutes in Hin. rewrite !elem_of_cons in Hin. intros Hp Hm. subst run. unfold is_method in *.
  destruct_or! Hin; simplify_eq; rewrite ?Hm; simpl; try by eexists.
  all: try by rewrite !elem_of_cons in Hp; destruct_or! Hp; simplify_eq; apply not_elem_of_nil in Hp.
  by apply not_elem_of_nil in Hin.
Qed.
End Bodies.

(** ** Subscriptions *)

Section Subscriptions.
Context `{CommonModels} `{Clock} `{IterationOrder} `{QodLibrary} `{!Environment} `{JsonLaws} `{!QosMapper}.
Context `{!HandlerLibrary} `{!PolicyEnvironment} `{!SubscriptionEnvironment} `{UrlLibrary} `{BuildTime}.
Context `{!CoreComm AfCore}.
Implicit Types (h : ApiHandlers (C:=AfCore)) (core : AfCore) (s : Subscription).

(** The service to the core hands the message to the handler the core registers, and gives its answer. *)
Hypothesis direct : ∀ destination message,
  core_send_request destination message = process_message (Some message).

(** [text] is the text of [j]. *)
Definition text_of_json (j : json) (text : string) : Prop := dump j = Ok text ∧ parse text = Ok j.

Definition id_request (k : string) : json := jobject [("id", jstring k)].

(** A request of the API names the subscription and nobody who asks. *)
Lemma with_subscription_run action type correlation f k s text n m r m' :
  unlocked m → unlocked m' → subscriptions_ m !! k = Some s → text_of_json (id_request k) text →
  f k s (World n (locked m)) = (Ok r, World n (locked m')) →
  with_subscription action (plain_message type correlation text) f (World n m) = (Ok r, World n m').
Proof.
  intros Hu Hu' Hs [_ Hp] Hf. unfold with_subscription, try_catch. cbn [payload plain_message].
  set (data := id_request k) in *.
  assert (Hv : view_of data = VObject {["id" := jstring k]}) by (etrans; [apply view_object|]; done).
  assert (Hid : required "id" data = Ok k).
  { unfold required. rewrite contains_view, Hv. cbn. rewrite (index_view "id" data _ (jstring k) Hv); [|done].
    cbn. by rewrite (get_string_view _ _ (view_string k)). }
  assert (Hc : asking_client (plain_message type correlation text) data = Ok "").
  { unfold asking_client. rewrite contains_view, Hv. done. }
  rewrite Hp, (bind_run _ _ _ data (World n m)) by done.
  rewrite Hid, (bind_run _ _ _ k (World n m)) by done.
  rewrite Hc, (bind_run _ _ _ "" (World n m)) by done.
  rewrite (subscriptions_locked_run _ n m (Ok r) n m'); [done|done| |done].
  rewrite bind_get. cbn [obj]. change (subscriptions_ (m <| subscriptions_mutex_ := Exclusive |>)) with (subscriptions_ m).
  by rewrite Hs.
Qed.

(** The handlers after a request that left the core in [core]. *)
Definition asked core h : ApiHandlers (C:=AfCore) :=
  h <| counter ::= Z.add 1 |> <| api_core_comm_ := Some core |>.

Definition correlation_at n h : string :=
  "api-" +:+ pretty (clock n / 1000000000) +:+ "-" +:+ pretty (counter h).

Lemma ask_core_run type content h core l e n reply n' core' :
  api_core_comm_ h = Some core →
  process_message (Some (plain_message type (correlation_at n h) content)) (World (S n) core) =
    (Ok (Some reply), World n' core') →
  ask_core type content (World n (mkExchange h l e)) =
    (Ok (Some reply), World n' (mkExchange (asked core' h) l e)).
Proof.
  intros Hc E. unfold ask_core, on. cbn [obj ticks api_handlers_].
  assert (Hsend : send_request (plain_message type (correlation_at n h) content)
             (World (S n) (h <| counter ::= Z.add 1 |>)) = (Ok (Some reply), World n' (asked core' h))).
  { unfold send_request, on_pointer. rewrite bind_get. cbn [obj ticks].
    change (api_core_comm_ (h <| counter ::= Z.add 1 |>)) with (api_core_comm_ h). rewrite Hc, direct, E. done. }
  rewrite (bind_run _ _ _ (plain_message type (correlation_at n h) content)
             (World (S n) (h <| counter ::= Z.add 1 |>))) by done.
  by rewrite Hsend.
Qed.

(** The core on the messages of the API. *)
Lemma core_get correlation k s j t text n core :
  unlocked (subscription_manager_ core) → subscriptions_ (subscription_manager_ core) !! k = Some s →
  text_of_json (id_request k) text → describe true true s = Ok j → dump j = Ok t →
  process_message (Some (plain_message "get_subscription" correlation text)) (World n core) =
    (Ok (Some (plain_message "subscription" correlation t)), World n core).
Proof.
  intros Hu Hs Ht Hd Hj.
  assert (E : get_subscription (plain_message "get_subscription" correlation text)
             (World n (subscription_manager_ core)) =
           (Ok (plain_message "subscription" correlation t), World n (subscription_manager_ core))).
  { apply (with_subscription_run _ _ _ _ k s); [done..|]. unfold respond_json. run_steps. by rewrite Hd, Hj. }
  change (process_message _) with (through subscription_manager_ get_subscription
    (Some (plain_message "get_subscription" correlation text))).
  unfold through, on. rewrite (bind_run _ _ _ (plain_message "subscription" correlation t) (World n core)); [done|].
  cbn [obj ticks]. rewrite E. by destruct core.
Qed.

Definition without_subscription (k : string) core : AfCore := core <| subscription_manager_ ::= without k |>.

Lemma core_delete correlation k s t text n core :
  unlocked (subscription_manager_ core) → subscriptions_ (subscription_manager_ core) !! k = Some s →
  text_of_json (id_request k) text →
  dump (jobject [("id", jstring k); ("status", jstring "deleted")]) = Ok t →
  process_message (Some (plain_message "delete_subscription" correlation text)) (World n core) =
    (Ok (Some (plain_message "subscription_deleted" correlation t)), World n (without_subscription k core)).
Proof.
  intros Hu Hs Ht Hj.
  assert (E : delete_subscription (plain_message "delete_subscription" correlation text)
             (World n (subscription_manager_ core)) =
           (Ok (plain_message "subscription_deleted" correlation t),
            World n (without k (subscription_manager_ core)))).
  { apply (with_subscription_run _ _ _ _ k s); [done..|]. unfold respond. run_steps. cbn [fmap list_fmap prod_map fst snd].
    by rewrite Hj. }
  change (process_message _) with (through subscription_manager_ delete_subscription
    (Some (plain_message "delete_subscription" correlation text))).
  unfold through, on. rewrite (bind_run _ _ _ (plain_message "subscription_deleted" correlation t)
                                 (World n (without_subscription k core))); [done|].
  cbn [obj ticks]. by rewrite E.
Qed.

(** C23: whoever knows the id of a subscription may read and delete it through the API.  The requests of
    the API name no client, so the core does not compare any with the client of the subscription:
    reading is answered with the description of the subscription and status 200, deletion with
    status 204, after which the core has lost the subscription. *)
Theorem subscriptions_open h core k s n text j t t' :
  api_core_comm_ h = Some core → unlocked (subscription_manager_ core) →
  subscriptions_ (subscription_manager_ core) !! k = Some s →
  text_of_json (id_request k) text → describe true true s = Ok j → text_of_json j t →
  dump (jobject [("id", jstring k); ("status", jstring "deleted")]) = Ok t' →
  getSubscription k (World n (mkExchange h [] None)) =
    (Ok (), World (S n) (mkExchange (asked core h) [(200, true)] (Some t))) ∧
  deleteSubscription k (World n (mkExchange h [] None)) =
    (Ok (), World (S n) (mkExchange (asked (without_subscription k core) h) [(204, false)] (Some ""))).
Proof.
  intros Hh Hu Hs Ht Hd [Hj Hj'] Ht'.
  pose proof (ask_core_run "get_subscription" text h core [] None n _ _ _ Hh
    (core_get (correlation_at n h) k s j t text (S n) core Hu Hs Ht Hd Hj)) as Eg.
  pose proof (ask_core_run "delete_subscription" text h core [] None n _ _ _ Hh
    (core_delete (correlation_at n h) k s t' text (S n) core Hu Hs Ht Ht')) as Ed.
  unfold getSubscription, deleteSubscription, ask_subscription, or_internal_error, try_catch.
  fold (id_request k). rewrite (proj1 Ht).
  rewrite !(bind_run (lift (Ok text)) _ _ text (World n (mkExchange h [] None))) by done.
  rewrite (bind_run _ _ _ _ _ Eg), (bind_run _ _ _ _ _ Ed). cbn [message_type plain_message String.eqb Ascii.eqb Bool.eqb].
  split; [|done]. unfold answer_payload, answer_json. cbn [payload plain_message]. rewrite Hj'.
  run_steps. by rewrite Hj.
Qed.
End Subscriptions.

(** ** Witnesses *)

Section Witnesses.
#[local] Existing Instances unit_models tick_clock tree_order plain_library confirming_environment
  handler_helpers quiet_policies quiet_subscriptions one_capture.

Definition stored_subscription : Subscription :=
  Subscription_default <| SubscriptionManager.id := "sub-1" |> <| event_type := "qos" |>
    <| client_id := "alice" |> <| callback_service := "main" |>.

Definition unread (text : string) : result tree := Throw (json_parse_error "parse error").
Definition request_tree : tree := @id_request (tree_json_with unread) "sub-1".
Definition described_tree : tree :=
  Eval vm_compute in
    match @describe (tree_json_with unread) tree_order true true stored_subscription with
    | Ok j => j
    | _ => TNull
    end.
Definition api_reader (text : string) : result tree :=
  if String.eqb text (print_tree request_tree) then Ok request_tree
  else if String.eqb text (print_tree described_tree) then Ok described_tree
  else unread text.
Definition api_json : Json := tree_json_with api_reader.
Definition api_laws : @JsonLaws api_json := tree_laws api_reader.
Definition api_build : BuildTime := {| build_date := "Jan  1 2025"; build_time := "00:00:00" |}.
Definition api_mapper : @QosMapper api_json := λ _, TNull.
#[local] Existing Instances api_json api_laws api_build api_mapper.
#[local] Instance direct_core : CoreComm AfCore := λ _ message, process_message (Some message).

Definition subscribed_core : AfCore :=
  waiting_core <| subscription_manager_ ::= λ m, m <| subscriptions_ := {["sub-1" := stored_subscription]} |> |>.
Definition serving_api : ApiHandlers (C:=AfCore) := mkApiHandlers (Some subscribed_core) "af_core" 0 None.

(** The POST request for a policy, and a chunk of its body. *)
Lemma bodies_dangle_witness :
  ∃ receive, (setupRoutes !! 2%nat ≫= λ '(_, route),
                match (route (mkApiRequest "POST" "/qos") (World 0 (mkExchange serving_api [] None))).1 with
                | Ok r => r
                | _ => None
                end) = Some receive ∧
    (receive "chunk" (World 7 (mkExchange serving_api [] None))).1 = Undefined dangling_reference.
Proof.
  set (route := λ req : ApiRequest, if is_method "POST" req then waits requestQoS else done_by method_not_allowed).
  destruct (bodies_dangle "/qos" route (mkApiRequest "POST" "/qos") 0 (mkExchange serving_api [] None))
    as (_ & Hd & Hr).
  - unfold setupRoutes. right. right. left.
  - done.
  - destruct Hr as [receive E]; [left|done|]. exists receive. split; [|by rewrite (Hd receive E)].
    simpl in E. injection E as <-. done.
Defined.

(** The subscription of "alice" is described to anybody, and deleted by anybody. *)
Lemma subscriptions_open_witness :
  ∃ w, deleteSubscription "sub-1" (World 0 (mkExchange serving_api [] None)) = (Ok (), w) ∧
    heads (obj w) = [(204, false)] ∧
    (subscriptions_ ∘ subscription_manager_ <$> api_core_comm_ (api_handlers_ (obj w))) = Some ∅.
Proof.
  eexists. split.
  - refine (proj2 (subscriptions_open _ serving_api subscribed_core "sub-1" stored_subscription 0
      (print_tree request_tree) described_tree (print_tree described_tree)
      (print_tree (TObject [("id", TString "sub-1"); ("status", TString "deleted")])) _ _ _ _ _ _ _));
      try done; split; vm_compute; reflexivity.
  - split; vm_compute; reflexivity.
Defined.
End Witnesses.
