(* ===== verification/AdapterModels.v ===== *)
(** * The demonstration adapter: its data and the interface of its clients

    [adapters/demo-qod-adapter/include/qod_models.hpp], and the configuration and the interface of
    [qod_client.hpp].  The adapter has models of its own for the QoD API; [IQodClient] is the class of
    the types of clients. *)

From S2P Require Import Prelude Effects.

Record DeviceIpv4Addr := mkDeviceIpv4Addr { public_address : string; public_port : Z }.

Record Device := mkDevice {
  phone_number : option string;
  network_access_identifier : option string;
  ipv4_address : option DeviceIpv4Addr }.

(** [ApplicationServer], whose only member is its IPv4 address. *)
Record ApplicationServer := mkApplicationServer { server_ipv4_address : string }.

Record PortRange := mkPortRange { from : Z; to : Z }.
Record PortsSpec := mkPortsSpec { ranges : list PortRange; ports : list Z }.

Inductive QosStatus := REQUESTED | AVAILABLE | UNAVAILABLE.
Inductive StatusInfo := NONE | DURATION_EXPIRED | NETWORK_TERMINATED | DELETE_REQUESTED.

#[global] Instance DeviceIpv4Addr_eq_dec : EqDecision DeviceIpv4Addr. Proof. solve_decision. Defined.
#[global] Instance Device_eq_dec : EqDecision Device. Proof. solve_decision. Defined.
#[global] Instance QosStatus_eq_dec : EqDecision QosStatus. Proof. solve_decision. Defined.
#[global] Instance StatusInfo_eq_dec : EqDecision StatusInfo. Proof. solve_decision. Defined.

Record CreateSessionRequest := mkCreateSessionRequest {
  req_device : Device;
  req_application_server : ApplicationServer;
  req_device_ports : option PortsSpec;
  req_application_server_ports : option PortsSpec;
  req_qos_profile : string;
  req_duration_seconds : Z;
  req_sink : option string }.

Record ExtendSessionRequest := mkExtendSessionRequest { requested_additional_duration : Z }.

Record SessionInfo := mkSessionInfo {
  session_id : string;
  qos_status : QosStatus;
  status_info : option StatusInfo;
  duration : Z;
  qos_profile : string;
  started_at : option string;
  expires_at : option string }.

#[global] Instance SessionInfo_settable : Settable SessionInfo := λ i,
  mkSessionInfo (session_id i) (qos_status i) (status_info i) (duration i) (qos_profile i)
    (started_at i) (expires_at i).

(** [SessionInfo info;] *)
Definition SessionInfo_default : SessionInfo := mkSessionInfo "" REQUESTED None 0 "" None None.

(** ** Results *)

(** [T value{};] *)
Class ValueInitialized (T : Type) := value_initialized : T.
#[global] Instance SessionInfo_initialized : ValueInitialized SessionInfo := SessionInfo_default.
#[global] Instance string_initialized : ValueInitialized string := "".
#[global] Instance list_initialized A : ValueInitialized (list A) := [].

(** [Result<T>]; [Result<void>] is the result of the unit type. *)
Record Result (T : Type) := mkResult {
  success : bool;
  value : T;
  error_code : string;
  error_message : string }.
Arguments mkResult {T} success value error_code error_message.
Arguments success {T} r.
Arguments value {T} r.
Arguments error_code {T} r.
Arguments error_message {T} r.
#[global] Instance unit_initialized : ValueInitialized () := ().

(** [Result::ok] and [Result::error] *)
Definition ok {T} (val : T) : Result T := mkResult true val "" "".
Definition error {T} `{ValueInitialized T} (code msg : string) : Result T :=
  mkResult false value_initialized code msg.

(** ** Texts of the enumerations *)

Definition qos_status_text (s : QosStatus) : string :=
  match s with REQUESTED => "REQUESTED" | AVAILABLE => "AVAILABLE" | UNAVAILABLE => "UNAVAILABLE" end.

Definition qos_status_from_string (s : string) : QosStatus :=
  if String.eqb s "AVAILABLE" then AVAILABLE
  else if String.eqb s "UNAVAILABLE" then UNAVAILABLE
  else REQUESTED.

Definition status_info_text (s : StatusInfo) : string :=
  match s with
  | NONE => "NONE"
  | DURATION_EXPIRED => "DURATION_EXPIRED"
  | NETWORK_TERMINATED => "NETWORK_TERMINATED"
  | DELETE_REQUESTED => "DELETE_REQUESTED"
  end.

Definition status_info_from_string (s : string) : StatusInfo :=
  if String.eqb s "DURATION_EXPIRED" then DURATION_EXPIRED
  else if String.eqb s "NETWORK_TERMINATED" then NETWORK_TERMINATED
  else if String.eqb s "DELETE_REQUESTED" then DELETE_REQUESTED
  else NONE.

Lemma qos_status_round_trip s : qos_status_from_string (qos_status_text s) = s.
Proof. by destruct s. Qed.

Lemma status_info_round_trip s : status_info_from_string (status_info_text s) = s.
Proof. by destruct s. Qed.

(** ** Clients *)

Record QodClientConfig := mkQodClientConfig {
  af_core_address : string;
  transport : string;
  timeout_seconds : Z;
  max_retries : Z;
  initial_retry_delay_ms : Z }.

Definition QodClientConfig_default : QodClientConfig :=
  mkQodClientConfig "localhost:50051" "grpc" 30 3 1000.

(** The interface [SessionManager] uses.  A call may throw. *)
Class IQodClient (C : Type) := {
  client_create_session : CreateSessionRequest → M C (Result SessionInfo);
  client_get_session : string → M C (Result SessionInfo);
  client_delete_session : string → M C (Result ());
  client_extend_session : string → ExtendSessionRequest → M C (Result SessionInfo);
  client_retrieve_sessions : Device → M C (Result (list SessionInfo)) }.
