(* ===== verification/QodClient.v ===== *)
(** * The gRPC client of the demonstration adapter

    [adapters/demo-qod-adapter/include/qod_client.hpp] and
    [adapters/demo-qod-adapter/src/qod_client.cpp].  The client sends the messages of the QoD API to
    the AF core and tries again when a call fails for the time being.  The channel is a parameter: its
    answer may depend on everything sent.  [wait_for_ready], which only polls the channel, is left out. *)

From S2P Require Import Prelude Effects CxxString Json Comms AdapterModels.

(** [grpc::Status]: the code, 0 if the call succeeded, and the message. *)
Record GrpcStatus := mkGrpcStatus { grpc_code : Z; grpc_message : string }.

(** The codes the client knows. *)
Definition DEADLINE_EXCEEDED_CODE : Z := 4.
Definition RESOURCE_EXHAUSTED_CODE : Z := 8.
Definition UNAVAILABLE_CODE : Z := 14.

Class GrpcChannel := {
  (** [stub_->SendMessage]: the status and the payload, given the messages and deadlines so far. *)
  grpc_answer : list (Message * Z) → GrpcStatus * string;
  (** The draws of [std::uniform_int_distribution<uint32_t>]. *)
  grpc_draw : nat → Z;
  grpc_draw_bound : ∀ n, 0 <= grpc_draw n < 2 ^ 32 }.

(** ** Correlation ids *)

Definition hex_digit_at (v : Z) (i : nat) : ascii :=
  hex_char (Z.to_nat (Z.land (Z.shiftr v (4 * Z.of_nat i)) 15)).
Fixpoint low_hex_digits (v : Z) (n : nat) : string :=
  match n with
  | O => EmptyString
  | S n => String (hex_digit_at v n) (low_hex_digits v n)
  end.

(** [std::hex] with [std::setfill('0')] and [std::setw(width)]: at least [width] digits. *)
Definition hex (v : Z) (width : nat) : string :=
  low_hex_digits v (Nat.max width (Z.to_nat (Z.log2 v / 4 + 1))).

Section Definitions.
Context `{Clock} `{Json} `{GrpcChannel}.

Record QodClient := mkQodClient {
  config_ : QodClientConfig;
  rpcs : list (Message * Z);   (* the messages sent so far, with their deadlines *)
  sleeps : list Z;             (* the delays slept so far, in milliseconds *)
  uuid_draws : nat }.

#[global] Instance QodClient_settable : Settable QodClient := λ c,
  mkQodClient (config_ c) (rpcs c) (sleeps c) (uuid_draws c).

Definition QodClient_new (config : QodClientConfig) : QodClient := mkQodClient config [] [] 0.

Definition is_retryable (code : Z) : bool :=
  (code =? UNAVAILABLE_CODE) || (code =? DEADLINE_EXCEEDED_CODE) || (code =? RESOURCE_EXHAUSTED_CODE).

(** The id from the draws from [k] on; C++ leaves the order of the six draws open. *)
Definition correlation_id_at (k : nat) : string :=
  let dist := λ i, grpc_draw (k + i)%nat in
  hex (dist 0%nat) 8 +:+ "-" +:+ hex (Z.land (dist 1%nat) 65535) 4 +:+ "-4" +:+
  hex (Z.land (dist 2%nat) 4095) 3 +:+ "-" +:+
  hex (Z.lor (Z.land (dist 3%nat) 16383) 32768) 4 +:+ "-" +:+
  hex (dist 4%nat) 8 +:+ hex (Z.land (dist 5%nat) 65535) 4.

Definition generate_correlation_id : M QodClient string :=
  c ← get;
  modify (λ c, c <| uuid_draws ::= λ k, (k + 6)%nat |>) ;;
  mret (correlation_id_at (uuid_draws c)).

(** ** Sending *)

(** Code and message of an error of the API; whatever cannot be read as one is none. *)
Definition camara_error (resp_payload : string) : result (option (string * string)) :=
  if empty resp_payload then mret None
  else
    match (j ← parse resp_payload;
           if jcontains "status" j && jcontains "code" j && jcontains "message" j then
             v ← jindex "code" j; code ← get_string v;
             v ← jindex "message" j; message ← get_string v;
             mret (Some (code, message))
           else mret None) with
    | Throw _ => mret None
    | r => r
    end.

(** [stub_->SendMessage(&context, request, &response)] with the deadline of the context. *)
Definition call_stub (request : Message) (deadline : Z) : M QodClient (GrpcStatus * string) :=
  c ← get;
  let sent := rpcs c ++ [(request, deadline)] in
  modify (λ c, c <| rpcs := sent |>) ;;
  mret (grpc_answer sent).

Definition sleep (delay_ms : Z) : M QodClient () := modify (λ c, c <| sleeps ::= λ l, l ++ [delay_ms] |>).

(** The loop of [send_message], with [attempts] attempts left.  Its counter is an [int], which would overflow
    only if [max_retries] were the largest one; that configuration is left out. *)
Fixpoint send_attempts (attempts : nat) (delay_ms : Z) (message_type json_payload : string)
    (metadata : gmap string string) : M QodClient (Result string) :=
  match attempts with
  | O => mret (error "GRPC_RETRIES_EXHAUSTED" "All retry attempts failed")
  | S attempts =>
    id ← generate_correlation_id;
    c ← get;
    t ← now;
    '(status, resp_payload) ←
      call_stub (mkMessage message_type id json_payload metadata)
        (t + timeout_seconds (config_ c) * 1000000000);
    if grpc_code status =? 0 then
      failure ← lift (camara_error resp_payload);
      mret (match failure with
            | Some (code, message) => error code message
            | None => ok resp_payload
            end)
    else if negb (is_retryable (grpc_code status)) then
      mret (error ("GRPC_" +:+ pretty (grpc_code status)) (grpc_message status))
    else if (0 <? attempts)%nat then
      sleep delay_ms ;;
      delay_ms ← int_result (delay_ms * 2);
      send_attempts attempts delay_ms message_type json_payload metadata
    else send_attempts attempts delay_ms message_type json_payload metadata
  end.

Definition send_message (message_type json_payload : string) (metadata : gmap string string) :
    M QodClient (Result string) :=
  c ← get;
  send_attempts (Z.to_nat (max_retries (config_ c))) (initial_retry_delay_ms (config_ c))
    message_type json_payload metadata.

(** ** To JSON *)

Definition address_json (a : DeviceIpv4Addr) : result json :=
  ip ← jassign "publicAddress" (jstring (public_address a)) jnull;
  if 0 <? public_port a then jassign "publicPort" (jint (public_port a)) ip else mret ip.

Definition add_address (o : option DeviceIpv4Addr) (dev : json) : result json :=
  match o with
  | Some a => ip ← address_json a; jassign "ipv4Address" ip dev
  | None => mret dev
  end.

Definition device_json (d : Device) : result json :=
  dev ← add_member ["phoneNumber"] (jstring <$> phone_number d) jnull;
  dev ← add_member ["networkAccessIdentifier"] (jstring <$> network_access_identifier d) dev;
  add_address (ipv4_address d) dev.

(** [if (!l.empty()) j[k] = l;] *)
Definition add_array (k : string) (l : list json) (j : json) : result json :=
  if bool_decide (l = []) then mret j else jassign k (jarray l) j.

Definition range_json (r : PortRange) : json := jobject [("from", jint (from r)); ("to", jint (to r))].

Definition ports_json (spec : PortsSpec) : result json :=
  j ← add_array "ports" (jint <$> ports spec) jnull;
  add_array "ranges" (range_json <$> ranges spec) j.

(** [if (o) { ...; j[k] = build( *o); }] *)
Definition add_ports (k : string) (o : option PortsSpec) (j : json) : result json :=
  match o with Some spec => v ← ports_json spec; jassign k v j | None => mret j end.

Definition create_request_json (req : CreateSessionRequest) : result json :=
  dev ← device_json (req_device req);
  j ← jassign "device" dev jnull;
  j ← jassign "applicationServer"
        (jobject [("ipv4Address", jstring (server_ipv4_address (req_application_server req)))]) j;
  j ← add_ports "devicePorts" (req_device_ports req) j;
  j ← add_ports "applicationServerPorts" (req_application_server_ports req) j;
  j ← jassign "qosProfile" (jstring (req_qos_profile req)) j;
  j ← jassign "duration" (jint (req_duration_seconds req)) j;
  match req_sink req with Some s => jassign "sink" (jstring s) j | None => mret j end.

Definition serialise_create_request (req : CreateSessionRequest) : result string :=
  j ← create_request_json req; dump j.

Definition serialise_extend_request (req : ExtendSessionRequest) : result string :=
  j ← jassign "requestedAdditionalDuration" (jint (requested_additional_duration req)) jnull; dump j.

Definition serialise_device (dev : Device) : result string :=
  d ← device_json dev; j ← jassign "device" d jnull; dump j.

(** ** From JSON *)

(** [catch (const json::exception&)]: other exceptions pass. *)
Definition catch_json {S A} (m handler : M S A) : M S A :=
  try_catch m (λ e, match e with
                    | json_parse_error _ | json_exception _ => handler
                    | _ => throw e
                    end).

(** [if (j.contains(k)) info.field = f(j[k].get<...>());] *)
Definition read_text (k : string) (j : json) (f : string → SessionInfo → SessionInfo) : M SessionInfo () :=
  with_member k j (λ v, s ← lift (get_string v); modify (f s)).

Definition read_session_info (raw : string) : M SessionInfo () :=
  j ← lift (parse raw);
  read_text "sessionId" j (λ s i, i <| session_id := s |>) ;;
  read_text "qosStatus" j (λ s i, i <| qos_status := qos_status_from_string s |>) ;;
  read_text "statusInfo" j (λ s i, i <| status_info := Some (status_info_from_string s) |>) ;;
  with_member "duration" j (λ v, d ← lift (get_int v); modify (λ i, i <| duration := d |>)) ;;
  read_text "qosProfile" j (λ s i, i <| qos_profile := s |>) ;;
  read_text "startedAt" j (λ s i, i <| started_at := Some s |>) ;;
  read_text "expiresAt" j (λ s i, i <| expires_at := Some s |>).

(** What was read before an exception is kept. *)
Definition parse_session_info {S} (raw : string) : M S SessionInfo :=
  if empty raw then mret SessionInfo_default
  else
    '(_, info) ← local SessionInfo_default (catch_json (read_session_info raw) (mret ()));
    mret info.

(** The sessions of a list, which is extended in place. *)
Definition parse_session_list {S} (raw : string) : M S (list SessionInfo) :=
  if empty raw then mret []
  else
    '(_, sessions) ← local []
      (catch_json
         (arr ← lift (parse raw);
          if negb (is_array arr) then
            info ← parse_session_info raw; modify (λ l, l ++ [info])
          else
            for_each (jelements arr) (λ item,
              text ← lift (dump item);
              info ← parse_session_info text;
              modify (λ l, l ++ [info])))
         (mret ()));
    mret sessions.

(** ** Operations *)

Definition source : gmap string string := {["source" := "demo-qod-adapter"]}.
Definition session_metadata (session_id : string) : gmap string string :=
  <["session_id" := session_id]> source.

(** The result of an operation from the payload of the response. *)
Definition answered {S A} `{ValueInitialized A} (result : Result string) (read : string → M S A) :
    M S (Result A) :=
  if success result then a ← read (value result); mret (ok a)
  else mret (error (error_code result) (error_message result)).

Definition create_session (request : CreateSessionRequest) : M QodClient (Result SessionInfo) :=
  payload ← lift (serialise_create_request request);
  result ← send_message "qod_create_session" payload source;
  answered result parse_session_info.

Definition get_session (session_id : string) : M QodClient (Result SessionInfo) :=
  result ← send_message "qod_get_session" "" (session_metadata session_id);
  answered result parse_session_info.

Definition delete_session (session_id : string) : M QodClient (Result ()) :=
  result ← send_message "qod_delete_session" "" (session_metadata session_id);
  answered result (λ _, mret ()).

Definition extend_session (session_id : string) (request : ExtendSessionRequest) :
    M QodClient (Result SessionInfo) :=
  payload ← lift (serialise_extend_request request);
  result ← send_message "qod_extend_session" payload (session_metadata session_id);
  answered result parse_session_info.

Definition retrieve_sessions (device : Device) : M QodClient (Result (list SessionInfo)) :=
  payload ← lift (serialise_device device);
  result ← send_message "qod_retrieve_sessions" payload source;
  answered result parse_session_list.

#[global] Instance QodClient_client : IQodClient QodClient := {|
  client_create_session := create_session;
  client_get_session := get_session;
  client_delete_session := delete_session;
  client_extend_session := extend_session;
  client_retrieve_sessions := retrieve_sessions |}.
End Definitions.
