(* ===== verification/AdapterSessions.v ===== *)
(** * The session manager of the demonstration adapter

    [adapters/demo-qod-adapter/include/session_manager.hpp] and
    [adapters/demo-qod-adapter/src/session_manager.cpp]: it requests a session per traffic stream,
    follows the sessions, and deletes them in the end.  One thread calls it.  The client is any type
    of the class [IQodClient]. *)

From S2P Require Import Prelude Effects AdapterModels.

Record StreamConfig := mkStreamConfig {
  stream_name : string;
  stream_description : string;
  stream_device : Device;
  stream_app_server : ApplicationServer;
  stream_device_ports : option PortsSpec;
  stream_qos_profile : string;
  stream_duration_seconds : Z }.

Record TrackedSession := mkTrackedSession {
  tracked_stream : StreamConfig;
  tracked_info : option SessionInfo;
  tracked_created_at : Z;
  last_checked : Z;
  check_count : Z;
  cleanup_done : bool }.

#[global] Instance TrackedSession_settable : Settable TrackedSession := λ t,
  mkTrackedSession (tracked_stream t) (tracked_info t) (tracked_created_at t) (last_checked t)
    (check_count t) (cleanup_done t).

(** The keys of a [std::map] from strings, in the order of its iteration. *)
Definition string_le (s t : string) : Prop := String.leb s t = true.
#[global] Instance string_le_dec s t : Decision (string_le s t).
Proof. unfold string_le. apply _. Defined.
Definition keys_in_order {A} (m : gmap string A) : list string := merge_sort string_le (elements (dom m)).

Section Definitions.
Context `{Clock} {C : Type} `{!IQodClient C}.
Implicit Types (stream : StreamConfig) (info : SessionInfo).

Record SessionManager := mkSessionManager {
  client_ : option C;
  sessions_ : gmap string TrackedSession }.

#[global] Instance SessionManager_settable : Settable SessionManager := λ m,
  mkSessionManager (client_ m) (sessions_ m).

Definition SessionManager_new (client : option C) : SessionManager := mkSessionManager client ∅.

(** [client_->f(...)] *)
Definition client {A} (f : M C A) : M SessionManager A := on_pointer client_ f.

Definition change_session (sid : string) (f : TrackedSession → TrackedSession) : M SessionManager () :=
  modify (λ m, m <| sessions_ ::= alter f sid |>).

Definition stream_request stream : CreateSessionRequest :=
  mkCreateSessionRequest (stream_device stream) (stream_app_server stream) (stream_device_ports stream)
    None (stream_qos_profile stream) (stream_duration_seconds stream) None.

Definition request_qos_for_stream stream : M SessionManager (Result SessionInfo) :=
  result ← client (client_create_session (stream_request stream));
  if negb (success result) then mret result
  else
    t ← now;
    let tracked := mkTrackedSession stream (Some (value result)) t t 0 false in
    modify (λ m, m <| sessions_ ::= <[session_id (value result) := tracked]> |>) ;;
    mret result.

(** [check_count++], which can overflow. *)
Definition refresh (sid : string) (info : SessionInfo) (tracked : TrackedSession) : M SessionManager () :=
  t ← now;
  count ← int_result (check_count tracked + 1);
  change_session sid (λ x, x <| tracked_info := Some info |> <| last_checked := t |> <| check_count := count |>).

Definition get_session_status (sid : string) : M SessionManager (Result SessionInfo) :=
  result ← client (client_get_session sid);
  (if success result then
     m ← get;
     match sessions_ m !! sid with
     | Some tracked => refresh sid (value result) tracked
     | None => mret ()
     end
   else mret ()) ;;
  mret result.

Definition delete_session (sid : string) : M SessionManager (Result ()) :=
  result ← client (client_delete_session sid);
  (if success result then
     change_session sid (λ x, x <| cleanup_done := true |>) ;;
     modify (λ m, m <| sessions_ ::= delete sid |>)
   else mret ()) ;;
  mret result.

(** The number of sessions created is only logged. *)
Definition create_all_sessions (streams : list StreamConfig) : M SessionManager () :=
  for_each streams (λ stream, request_qos_for_stream stream ;; mret ()).

(** One turn of the loop of [monitor_sessions]. *)
Definition monitor_session (sid : string) : M SessionManager () :=
  result ← client (client_get_session sid);
  if negb (success result) then mret ()
  else
    m ← get;
    match sessions_ m !! sid with
    | Some tracked => refresh sid (value result) tracked
    | None => undefined dangling_reference
    end.

Definition monitor_sessions : M SessionManager () :=
  m ← get; for_each (keys_in_order (sessions_ m)) monitor_session.

Definition cleanup_session (sid : string) : M SessionManager () :=
  m ← get;
  match sessions_ m !! sid with
  | None => mret ()
  | Some _ =>
    result ← client (client_delete_session sid);
    if success result then modify (λ m, m <| sessions_ ::= delete sid |>)
    else change_session sid (λ x, x <| cleanup_done := false |>)
  end.

Definition cleanup_all_sessions : M SessionManager () :=
  m ← get; for_each (keys_in_order (sessions_ m)) cleanup_session.

Definition tracked_sessions (m : SessionManager) : gmap string TrackedSession := sessions_ m.

(** ** The control loop of [main] *)

(** The iterations of the monitor loop: [iterations] of them, or until a shutdown is requested before
    or after the pause ([shutdown] tells when, by the number of tests so far); a negative number of
    iterations is no bound, and [fuel] bounds the model. *)
Fixpoint monitor_loop (shutdown : nat → bool) (iterations : Z) (fuel i : nat) : M SessionManager () :=
  match fuel with
  | O => mret ()
  | S fuel =>
    if ((iterations <? 0) || (Z.of_nat i <? iterations)) && negb (shutdown (2 * i)%nat) then
      if shutdown (2 * i + 1)%nat then mret ()
      else monitor_sessions ;; monitor_loop shutdown iterations fuel (S i)
    else mret ()
  end.

(** [main] from the creation of the manager on. *)
Definition run_adapter (streams : list StreamConfig) (shutdown : nat → bool) (iterations : Z) (fuel : nat) :
    M SessionManager () :=
  create_all_sessions streams ;;
  monitor_loop shutdown iterations fuel 0 ;;
  cleanup_all_sessions.
End Definitions.
