(* ===== verification/AdapterTests.v ===== *)
(** * The unit tests of the demonstration adapter

    [adapters/demo-qod-adapter/tests/test_session_manager.cpp] and [test_qod_client.cpp], run on the
    definitions of [AdapterSessions] and [AdapterModels].  The mock client of the tests answers as it
    is told to, each answer once; a call it does not expect fails the test, and so does an answer it
    has left in the end. *)

From S2P Require Import Prelude Effects AdapterModels AdapterSessions.

(** ** The mock client *)

(** The answers still expected: to creations, in order, and to queries and deletions by session. *)
Record MockQodClient := mkMockQodClient {
  creations : list (Result SessionInfo);
  queries : list (string * Result SessionInfo);
  deletions : list (string * Result ());
  unexpected : bool }.

#[global] Instance MockQodClient_settable : Settable MockQodClient := λ m,
  mkMockQodClient (creations m) (queries m) (deletions m) (unexpected m).

Definition MockQodClient_new : MockQodClient := mkMockQodClient [] [] [] false.

(** The first answer for [k], and the others. *)
Fixpoint answer_for {A} (k : string) (l : list (string * A)) : option (A * list (string * A)) :=
  match l with
  | [] => None
  | (k', a) :: l =>
    if String.eqb k' k then Some (a, l)
    else match answer_for k l with Some (x, l) => Some (x, (k', a) :: l) | None => None end
  end.

(** A call without an expectation returns a default value. *)
Definition not_expected {T} `{ValueInitialized T} : M MockQodClient (Result T) :=
  modify (λ m, m <| unexpected := true |>) ;; mret (error "" "").

#[global] Instance MockQodClient_client : IQodClient MockQodClient := {|
  client_create_session := λ _,
    m ← get;
    match creations m with
    | r :: rs => modify (λ m, m <| creations := rs |>) ;; mret r
    | [] => not_expected
    end;
  client_get_session := λ sid,
    m ← get;
    match answer_for sid (queries m) with
    | Some (r, rs) => modify (λ m, m <| queries := rs |>) ;; mret r
    | None => not_expected
    end;
  client_delete_session := λ sid,
    m ← get;
    match answer_for sid (deletions m) with
    | Some (r, rs) => modify (λ m, m <| deletions := rs |>) ;; mret r
    | None => not_expected
    end;
  client_extend_session := λ _ _, not_expected;
  client_retrieve_sessions := λ _, not_expected |}.

(** What the mock checks when it is destroyed. *)
Definition satisfied (m : MockQodClient) : bool :=
  match m with mkMockQodClient [] [] [] false => true | _ => false end.

(** ** The tests *)

Definition make_stream (name profile : string) (port : Z) : StreamConfig :=
  mkStreamConfig name ""
    (mkDevice None None (Some (mkDeviceIpv4Addr "10.60.0.1" port)))
    (mkApplicationServer "0.0.0.0/0")
    (if 0 <? port then Some (mkPortsSpec [] [port]) else None)
    profile 3600.

Definition make_session (id : string) (status : QosStatus) : SessionInfo :=
  SessionInfo_default <| session_id := id |> <| qos_status := status |> <| duration := 3600 |>
    <| qos_profile := "QOS_L" |>.

Section Tests.
Context `{Clock}.

Definition Test : Type := M (SessionManager (C:=MockQodClient)) bool.

(** [EXPECT_CALL] for [create_session] with one answer per call, and the same for a session. *)
Definition expect_creations (rs : list (Result SessionInfo)) : M (SessionManager (C:=MockQodClient)) () :=
  client (modify (λ m, m <| creations ::= λ l, l ++ rs |>)).
Definition expect_query (sid : string) (r : Result SessionInfo) : M (SessionManager (C:=MockQodClient)) () :=
  client (modify (λ m, m <| queries ::= λ l, l ++ [(sid, r)] |>)).
Definition expect_deletion (sid : string) (r : Result ()) : M (SessionManager (C:=MockQodClient)) () :=
  client (modify (λ m, m <| deletions ::= λ l, l ++ [(sid, r)] |>)).

Definition tracked : M (SessionManager (C:=MockQodClient)) (gmap string TrackedSession) := gets tracked_sessions.

(** A test passes if its expectations hold and those of its mock are satisfied. *)
Definition passes (test : Test) : bool :=
  match test (World 0 (SessionManager_new (Some MockQodClient_new))) with
  | (Ok b, w) => b && match client_ (obj w) with Some mock => satisfied mock | None => false end
  | _ => false
  end.

Definition requested (id : string) : Result SessionInfo := ok (make_session id REQUESTED).

Definition three_streams : list StreamConfig :=
  [make_stream "video" "QOS_L" 8554; make_stream "webrtc" "QOS_E" 8443; make_stream "general" "QOS_S" 0].
Definition two_streams : list StreamConfig :=
  [make_stream "video" "QOS_L" 8554; make_stream "webrtc" "QOS_E" 8443].

Definition CreateAllSessions_Success : Test :=
  expect_creations [requested "s1"; requested "s2"; requested "s3"] ;;
  create_all_sessions three_streams ;;
  sessions ← tracked; mret (size sessions =? 3)%nat.

Definition CreateAllSessions_PartialFailure : Test :=
  expect_creations [requested "s1"; error "CONFLICT" "already exists"; requested "s3"] ;;
  create_all_sessions three_streams ;;
  sessions ← tracked; mret (size sessions =? 2)%nat.

Definition MonitorSessions_DetectsStatusChange : Test :=
  expect_creations [requested "s1"] ;;
  create_all_sessions [make_stream "video" "QOS_L" 8554] ;;
  expect_query "s1" (ok (make_session "s1" AVAILABLE)) ;;
  monitor_sessions ;;
  sessions ← tracked;
  mret match sessions !! "s1" with
       | Some it => bool_decide (qos_status <$> tracked_info it = Some AVAILABLE) && (check_count it =? 1)
       | None => false
       end.

Definition CleanupAllSessions_Success : Test :=
  expect_creations [requested "s1"; requested "s2"] ;;
  create_all_sessions two_streams ;;
  expect_deletion "s1" (ok ()) ;;
  expect_deletion "s2" (ok ()) ;;
  cleanup_all_sessions ;;
  sessions ← tracked; mret (size sessions =? 0)%nat.

Definition CleanupAllSessions_PartialFailure : Test :=
  expect_creations [requested "s1"; requested "s2"] ;;
  create_all_sessions two_streams ;;
  expect_deletion "s1" (ok ()) ;;
  expect_deletion "s2" (error "INTERNAL" "server error") ;;
  cleanup_all_sessions ;;
  sessions ← tracked;
  mret ((size sessions =? 1)%nat && bool_decide (is_Some (sessions !! "s2"))).

Definition DeleteSession_RemovesFromTracking : Test :=
  expect_creations [requested "s1"] ;;
  create_all_sessions [make_stream "video" "QOS_L" 8554] ;;
  sessions ← tracked;
  let before := (size sessions =? 1)%nat in
  expect_deletion "s1" (ok ()) ;;
  delete_session "s1" ;;
  sessions ← tracked; mret (before && (size sessions =? 0)%nat).

Definition session_manager_tests : list Test :=
  [CreateAllSessions_Success; CreateAllSessions_PartialFailure; MonitorSessions_DetectsStatusChange;
   CleanupAllSessions_Success; CleanupAllSessions_PartialFailure; DeleteSession_RemovesFromTracking].

(** Every test of the session manager passes, whatever the clock shows. *)
Theorem session_manager_tests_pass : Forall (λ test, passes test = true) session_manager_tests.
Proof. repeat apply Forall_cons_2; try apply Forall_nil_2; vm_compute; reflexivity. Qed.
End Tests.

(** ** The models *)

Definition QosStatusRoundTrip : bool :=
  bool_decide (qos_status_from_string "REQUESTED" = REQUESTED) &&
  bool_decide (qos_status_from_string "AVAILABLE" = AVAILABLE) &&
  bool_decide (qos_status_from_string "UNAVAILABLE" = UNAVAILABLE) &&
  String.eqb (qos_status_text REQUESTED) "REQUESTED" &&
  String.eqb (qos_status_text AVAILABLE) "AVAILABLE" &&
  String.eqb (qos_status_text UNAVAILABLE) "UNAVAILABLE".

Definition StatusInfoRoundTrip : bool :=
  bool_decide (status_info_from_string "DURATION_EXPIRED" = DURATION_EXPIRED) &&
  bool_decide (status_info_from_string "NETWORK_TERMINATED" = NETWORK_TERMINATED) &&
  bool_decide (status_info_from_string "DELETE_REQUESTED" = DELETE_REQUESTED) &&
  bool_decide (status_info_from_string "unknown" = NONE).

#[local] Instance Z_initialized : ValueInitialized Z := 0.

Definition ResultOk : bool :=
  let r := ok 42 in success r && (value r =? 42) && String.eqb (error_code r) "".

Definition ResultError : bool :=
  let r : Result Z := error "NOT_FOUND" "session not found" in
  negb (success r) && String.eqb (error_code r) "NOT_FOUND" &&
  String.eqb (error_message r) "session not found".

Definition VoidResultOk : bool := let r := ok () in success r.

Definition VoidResultError : bool :=
  let r : Result () := error "INTERNAL" "boom" in negb (success r) && String.eqb (error_code r) "INTERNAL".

Definition model_tests : list bool :=
  [QosStatusRoundTrip; StatusInfoRoundTrip; ResultOk; ResultError; VoidResultOk; VoidResultError].

Lemma model_tests_pass : Forall (λ test, test = true) model_tests.
Proof. repeat apply Forall_cons_2; try apply Forall_nil_2; vm_compute; reflexivity. Qed.
