(* ===== verification/AdapterSpec.v ===== *)
(** * What the session manager of the adapter promises

    The manager tracks exactly the sessions that are open at the service, whatever its client, as
    long as the client's results tell what happened there; and a complete run closes all of them. *)

From S2P Require Import Prelude Effects UeState AdapterModels AdapterSessions.

(** What the manager relies on: the sessions the service has open for the client, and that a result
    tells what the call did to them.  New sessions have new ids. *)
Class ClientLaws `{IQodClient C} := {
  open_sessions : C → gset string;
  create_law request w :
    wp (client_create_session request) (λ r w',
      match r with
      | Ok r => if success r then
                  session_id (value r) ∉ open_sessions (obj w) ∧
                  open_sessions (obj w') = {[session_id (value r)]} ∪ open_sessions (obj w)
                else open_sessions (obj w') = open_sessions (obj w)
      | Throw _ => open_sessions (obj w') = open_sessions (obj w)
      | Undefined _ => False
      end) w;
  get_law sid w :
    wp (client_get_session sid) (λ r w', defined r ∧ open_sessions (obj w') = open_sessions (obj w)) w;
  delete_law sid w :
    wp (client_delete_session sid) (λ r w',
      match r with
      | Ok r => open_sessions (obj w') =
                  if success r then open_sessions (obj w) ∖ {[sid]} else open_sessions (obj w)
      | Throw _ => open_sessions (obj w') = open_sessions (obj w)
      | Undefined _ => False
      end) w }.

(** Deletions succeed. *)
Definition reliable `{IQodClient C} : Prop :=
  ∀ sid (w : world C), match (client_delete_session sid w).1 with Ok r => success r = true | _ => False end.

Section Specification.
Context `{Clock} {C : Type} `{!IQodClient C} `{!ClientLaws (C:=C)}.
Implicit Types (m : SessionManager (C:=C)).

(** The client is set, and the open sessions are the tracked ones. *)
Definition tracks m : Prop := ∃ c, client_ m = Some c ∧ open_sessions c = dom (sessions_ m).

(** A call of the client, and what follows it. *)
Lemma client_wp {A} (f : M C A) (Q : result A → world (SessionManager (C:=C)) → Prop) c m n :
  client_ m = Some c →
  wp f (λ r w', Q r (World (ticks w') (m <| client_ := Some (obj w') |>))) (World n c) →
  wp (client f) Q (World n m).
Proof.
  intros Hc Hf. unfold wp, client, on_pointer in *. cbn [obj ticks]. rewrite Hc.
  by destruct (f (World n c)) as [r w'].
Qed.

Lemma change_keeps sid f : preserves tracks (change_session (C:=C) sid f).
Proof. apply preserves_modify. intros m (c & Hc & Ho). exists c. split; [done|]. simpl. by rewrite dom_alter_L. Qed.

Lemma refresh_keeps sid info tracked : preserves tracks (refresh (C:=C) sid info tracked).
Proof. unfold refresh, int_result. preserves_steps. apply change_keeps. Qed.

(** The query of a session changes no session. *)
Lemma query_keeps sid : preserves tracks (client (C:=C) (client_get_session sid)).
Proof.
  intros [n m] (c & Hc & Ho). eapply client_wp; [done|]. eapply wp_mono; [apply get_law|].
  intros r w' [_ Ho'] _. exists (obj w'). split; [done|]. simpl. by rewrite Ho'.
Qed.
#[local] Hint Resolve change_keeps refresh_keeps query_keeps : preserves.

Lemma request_keeps stream : preserves tracks (request_qos_for_stream (C:=C) stream).
Proof.
  intros [n m] (c & Hc & Ho). apply wp_bind. eapply client_wp; [done|]. eapply wp_mono; [apply create_law|].
  intros [r|e|u] w' Hr; [|intros _; exists (obj w'); split; [done|]; simpl; by rewrite Hr|done].
  destruct (success r) eqn:Es; cbn -[open_sessions].
  - destruct Hr as [_ Hr]. intros _. exists (obj w'). split; [done|]. simpl.
    rewrite Hr, dom_insert_L. by simpl in *; rewrite Ho.
  - intros _. exists (obj w'). split; [done|]. simpl. by rewrite Hr.
Qed.

(** Deletion at the service, and of the tracked session if it succeeds. *)
Lemma deletion_keeps {A} sid (f : Result () → M (SessionManager (C:=C)) A) :
  (∀ r m n, client_ m ≠ None →
     (if success r then ∀ c, client_ m = Some c → open_sessions c = dom (sessions_ m) ∖ {[sid]}
      else tracks m) →
     wp (f r) (λ r w', defined r → tracks (obj w')) (World n m)) →
  preserves tracks (result ← client (client_delete_session sid); f result).
Proof.
  intros Hf [n m] (c & Hc & Ho). apply wp_bind. eapply client_wp; [done|]. eapply wp_mono; [apply delete_law|].
  intros [r|e|u] w' Hr; [|intros _; exists (obj w'); split; [done|]; simpl; by rewrite Hr|done].
  apply Hf; [done|]. simpl in *. destruct (success r).
  - intros c' [= <-]. by rewrite Hr, Ho.
  - exists (obj w'). split; [done|]. simpl. by rewrite Hr.
Qed.

Lemma tracks_deleted sid m c :
  client_ m = Some c → open_sessions c = dom (sessions_ m) ∖ {[sid]} →
  tracks (m <| sessions_ ::= delete sid |>).
Proof. intros Hc Ho. exists c. split; [done|]. simpl. by rewrite dom_delete_L. Qed.

Lemma delete_keeps sid : preserves tracks (delete_session (C:=C) sid).
Proof.
  apply deletion_keeps. intros r m n Hc Hr. destruct (success r); [|by intros _].
  intros _. destruct (client_ m) as [c|] eqn:E; [|done]. cbn.
  apply (tracks_deleted sid (m <| sessions_ ::= alter _ sid |>) c); [done|]. simpl. rewrite dom_alter_L. auto.
Qed.

Lemma cleanup_keeps sid : preserves tracks (cleanup_session (C:=C) sid).
Proof.
  apply preserves_get. intros w Hw. destruct (sessions_ (obj w) !! sid); [|by intros _].
  revert w Hw. apply deletion_keeps. intros r m n Hc Hr. destruct (success r).
  - intros _. destruct (client_ m) as [c|] eqn:E; [|done]. cbn. by apply (tracks_deleted sid m c); auto.
  - by apply change_keeps.
Qed.
#[local] Hint Resolve request_keeps delete_keeps cleanup_keeps : preserves.

Lemma status_keeps sid : preserves tracks (get_session_status (C:=C) sid).
Proof. unfold get_session_status. preserves_steps. Qed.

Lemma create_all_keeps streams : preserves tracks (create_all_sessions (C:=C) streams).
Proof. unfold create_all_sessions. preserves_steps. Qed.

Lemma monitor_keeps : preserves tracks (monitor_sessions (C:=C)).
Proof. unfold monitor_sessions, monitor_session. preserves_steps. Qed.

Lemma cleanup_all_keeps : preserves tracks (cleanup_all_sessions (C:=C)).
Proof. unfold cleanup_all_sessions. preserves_steps. Qed.
#[local] Hint Resolve status_keeps create_all_keeps monitor_keeps cleanup_all_keeps : preserves.

Lemma loop_keeps shutdown iterations fuel i :
  preserves tracks (monitor_loop (C:=C) shutdown iterations fuel i).
Proof. revert i. induction fuel as [|fuel IH]; intros i; simpl; preserves_steps. Qed.

(** ** Reachable managers *)

Inductive manager_call : M (SessionManager (C:=C)) () → Prop :=
  | requesting stream : manager_call (request_qos_for_stream stream ;; mret ())
  | asking sid : manager_call (get_session_status sid ;; mret ())
  | removing sid : manager_call (delete_session sid ;; mret ())
  | creating_all streams : manager_call (create_all_sessions streams)
  | monitoring : manager_call monitor_sessions
  | cleaning : manager_call cleanup_all_sessions
  | running streams shutdown iterations fuel : manager_call (run_adapter streams shutdown iterations fuel).

(** The managers reached from a new one, on a client without open sessions. *)
Inductive driven : SessionManager (C:=C) → Prop :=
  | driven_new c : open_sessions c = ∅ → driven (SessionManager_new (Some c))
  | driven_call m n f r w : driven m → manager_call f → f (World n m) = (r, w) → defined r → driven (obj w).

Lemma call_keeps f : manager_call f → preserves tracks f.
Proof. intros []; unfold run_adapter; preserves_steps; apply loop_keeps. Qed.

Lemma driven_tracks m : driven m → tracks m.
Proof.
  induction 1 as [c Hc|m n f r w _ IH Hf E Hd]; [exists c; split; [done|by rewrite Hc]|].
  pose proof (call_keeps f Hf (World n m) IH) as Hk. unfold wp in Hk. rewrite E in Hk. by apply Hk.
Qed.

(** ** Cleanup *)

Lemma cleanup_session_run sid n m :
  reliable (C:=C) → tracks m →
  ∃ n' c, cleanup_session sid (World n m) =
            (Ok (), World n' (mkSessionManager (Some c) (delete sid (sessions_ m)))).
Proof.
  intros Hr (c & Hc & Ho). unfold cleanup_session. rewrite bind_get. cbn [obj].
  destruct (sessions_ m !! sid) as [t|] eqn:Es.
  2:{ exists n, c. rewrite delete_id by done. destruct m. simpl in *. by subst. }
  unfold client, on_pointer, mbind, M_bind. cbn [obj ticks]. rewrite Hc. specialize (Hr sid (World n c)).
  destruct (client_delete_session sid (World n c)) as [[r|e|u] w']; [|done..]. simpl in Hr. rewrite Hr.
  by eexists _, _.
Qed.

Lemma cleanup_list_run (l : list string) n m :
  reliable (C:=C) → tracks m →
  ∃ w, for_each l cleanup_session (World n m) = (Ok (), w) ∧
    ∀ sid, is_Some (sessions_ (obj w) !! sid) → is_Some (sessions_ m !! sid) ∧ sid ∉ l.
Proof.
  intros Hr. revert n m. induction l as [|sid l IH]; intros n m Hm; simpl.
  { exists (World n m). split; [done|]. intros sid Hs. split; [done|apply not_elem_of_nil]. }
  destruct (cleanup_session_run sid n m Hr Hm) as (n' & c & E).
  pose proof (cleanup_keeps sid (World n m) Hm) as Hk. unfold wp in Hk. rewrite E in Hk. specialize (Hk I).
  destruct (IH n' _ Hk) as (w & E' & Hw). exists w. split; [by rewrite (bind_run _ _ _ _ _ E)|].
  intros sid' Hs. destruct (Hw sid' Hs) as [Hd Hl]. simpl in Hd.
  destruct (decide (sid' = sid)) as [->|Hne]; [by rewrite lookup_delete_eq in Hd; destruct Hd|].
  rewrite lookup_delete_ne in Hd by done. split; [done|]. by rewrite not_elem_of_cons.
Qed.

Lemma cleanup_all_run n m :
  reliable (C:=C) → tracks m →
  ∃ w, cleanup_all_sessions (World n m) = (Ok (), w) ∧ sessions_ (obj w) = ∅.
Proof.
  intros Hr Hm. unfold cleanup_all_sessions. rewrite bind_get. cbn [obj].
  destruct (cleanup_list_run (keys_in_order (sessions_ m)) n m Hr Hm) as (w & E & Hw).
  exists w. split; [done|]. apply map_eq. intros sid. rewrite lookup_empty. apply eq_None_not_Some. intros Hs.
  destruct (Hw sid Hs) as [Hd Hl]. apply Hl. unfold keys_in_order.
  rewrite merge_sort_Permutation, elem_of_elements. by apply elem_of_dom.
Qed.

(** C26: the adapter forgets no session.  For any client whose results tell what happened at the service,
    over every sequence of calls, the manager tracks exactly the sessions that are open there; and if
    deletions succeed, a cleanup returns and closes all of them. *)
Theorem adapter_tracks m n :
  driven m →
  (∃ c, client_ m = Some c ∧ open_sessions c = dom (sessions_ m)) ∧
  (reliable (C:=C) →
   ∃ w c, cleanup_all_sessions (World n m) = (Ok (), w) ∧
     client_ (obj w) = Some c ∧ open_sessions c = ∅ ∧ sessions_ (obj w) = ∅).
Proof.
  intros Hm%driven_tracks. split; [exact Hm|]. intros Hr.
  destruct (cleanup_all_run n m Hr Hm) as (w & E & Hw).
  pose proof (cleanup_all_keeps (World n m) Hm) as Hk. unfold wp in Hk. rewrite E in Hk.
  destruct (Hk I) as (c & Hc & Ho). exists w, c. simpl in *. rewrite Hw, dom_empty_L in Ho. by split_and!.
Qed.
End Specification.

(** ** Witness *)

Section Witness.
#[local] Existing Instance tick_clock.

(** A service that gives every session an id that is not in use, and closes what it is asked to. *)
Definition fresh_client : IQodClient (gset string) := {|
  client_create_session := λ _ w,
    (Ok (ok (SessionInfo_default <| session_id := fresh (obj w) |>)),
     World (ticks w) ({[fresh (obj w)]} ∪ obj w));
  client_get_session := λ sid w, (Ok (error "NOT_FOUND" ""), w);
  client_delete_session := λ sid w, (Ok (ok ()), World (ticks w) (obj w ∖ {[sid]}));
  client_extend_session := λ _ _ w, (Ok (error "" ""), w);
  client_retrieve_sessions := λ _ w, (Ok (error "" ""), w) |}.
#[local] Existing Instance fresh_client.

#[local] Instance fresh_laws : ClientLaws (C:=gset string).
Proof.
  refine {| open_sessions := λ c : gset string, c |}; [|done..].
  intros request w. split; [apply is_fresh|done].
Defined.

Definition example_stream : StreamConfig :=
  mkStreamConfig "video" "" (mkDevice (Some "+491701234567") None None) (mkApplicationServer "0.0.0.0/0") None
    "QOS_L" 3600.

(** The manager after the request for a stream, and its cleanup. *)
Lemma adapter_tracks_witness :
  ∃ m, driven m ∧ size (sessions_ m) = 1%nat ∧
    ∃ w c, cleanup_all_sessions (World 1 m) = (Ok (), w) ∧
      client_ (obj w) = Some c ∧ c = ∅ ∧ sessions_ (obj w) = ∅.
Proof.
  set (start := World 0 (SessionManager_new (Some (∅ : gset string)))).
  exists (obj (request_qos_for_stream example_stream start).2).
  assert (Hd : driven (obj (request_qos_for_stream example_stream start).2)).
  { exact (driven_call _ 0 _ (Ok ()) _ (driven_new ∅ eq_refl) (requesting example_stream) eq_refl I). }
  split; [exact Hd|]. split; [by apply map_size_singleton|].
  exact (proj2 (adapter_tracks _ 1 Hd) (λ _ _, eq_refl)).
Defined.
End Witness.
