(* ===== verification/QodClientSpec.v ===== *)
(** * What the gRPC client of the adapter promises

    How often a message is sent and when the client gives up; correlation ids; and the session the
    client reads of the description the AF core writes. *)

From S2P Require Import Prelude Effects CxxString Regex UeState Json Comms PcfHelpers AdapterModels QodClient.

(** ** Correlation ids *)

(** [xxxxxxxx-xxxx-4xxx-yxxx-xxxxxxxxxxxx], the [x] hexadecimal digits and [y] one of 8, 9, a, b. *)
Definition uuid_v4_pattern : regex :=
  seq_of [rep 8 hex_digit; chr "-"; rep 4 hex_digit; lit "-4"; rep 3 hex_digit; chr "-";
          Cat (Chr (λ c, existsb (Ascii.eqb c) ["8"; "9"; "a"; "b"]%char)) (rep 3 hex_digit); chr "-";
          rep 12 hex_digit].

Lemma hex_digit_at_spec v i : matches hex_digit (String (hex_digit_at v i) "").
Proof.
  constructor. unfold hex_digit_at. set (x := Z.land _ 15).
  assert (Hx : 0 <= x < 16) by (unfold x; change 15 with (Z.ones 4); rewrite Z.land_ones by lia; by apply Z.mod_pos_bound).
  clearbody x. assert (Hn : (Z.to_nat x < 16)%nat) by lia. revert Hn.
  generalize (Z.to_nat x). intros n Hn. do 16 (destruct n as [|n]; [done|]). lia.
Qed.

Lemma low_hex_digits_spec v n : matches (rep n hex_digit) (low_hex_digits v n).
Proof.
  induction n as [|n IH]; [constructor|]. cbn [low_hex_digits rep].
  change (String ?c ?s) with (String c "" +:+ s).
  apply matches_cat; [apply hex_digit_at_spec|done].
Qed.

(** A number that fits has just the digits asked for. *)
Lemma hex_fits v n : (0 < n)%nat → 0 <= v < 2 ^ (4 * Z.of_nat n) → hex v n = low_hex_digits v n.
Proof.
  intros Hn [H0 Hv]. unfold hex. f_equal. apply Nat.max_l.
  assert (Z.log2 v < 4 * Z.of_nat n).
  { destruct (decide (v = 0)) as [->|]; [simpl; lia|]. apply Z.log2_lt_pow2; lia. }
  enough (Z.log2 v / 4 < Z.of_nat n) by lia. apply Z.div_lt_upper_bound; lia.
Qed.

Lemma hex_spec v n : (0 < n)%nat → 0 <= v < 2 ^ (4 * Z.of_nat n) → matches (rep n hex_digit) (hex v n).
Proof. intros Hn Hv. rewrite hex_fits by done. apply low_hex_digits_spec. Qed.

Lemma rep_app r n m s t :
  matches (rep n r) s → matches (rep m r) t → matches (rep (n + m) r) (s +:+ t).
Proof.
  revert s. induction n as [|n IH]; intros s Hs Ht; cbn [rep Nat.add] in *.
  - by apply matches_eps_iff in Hs as ->.
  - apply matches_cat_inv in Hs as (s1 & s2 & -> & H1 & H2). rewrite app_assoc_string.
    apply matches_cat; [done|by apply IH].
Qed.

Lemma land_bound v n : 0 <= n → 0 <= Z.land v (Z.ones n) < 2 ^ n.
Proof. intros Hn. rewrite Z.land_ones by done. apply Z.mod_pos_bound. lia. Qed.

(** The variant digit. *)
Lemma variant_spec v :
  matches (Cat (Chr (λ c, existsb (Ascii.eqb c) ["8"; "9"; "a"; "b"]%char)) (rep 3 hex_digit))
    (hex (Z.lor (Z.land v 16383) 32768) 4).
Proof.
  pose proof (land_bound v 14 ltac:(done)) as Hl. change (Z.ones 14) with 16383 in Hl.
  set (x := Z.land v 16383) in *. clearbody x.
  assert (E : Z.lor x 32768 = x + 32768).
  { rewrite Z.add_nocarry_lxor, Z.lxor_lor; try done.
    all: apply Z.bits_inj'; intros i Hi; rewrite Z.land_spec, Z.bits_0; change 32768 with (2 ^ 15).
    all: destruct (decide (i = 15)) as [->|]; [|rewrite Z.pow2_bits_false by lia; apply andb_false_r].
    all: rewrite <-(Z.mod_small x (2 ^ 14)), Z.mod_pow2_bits_high by lia; done. }
  rewrite E, hex_fits by lia. cbn [low_hex_digits].
  change (String ?c ?s) with (String c "" +:+ s) at 1. apply matches_cat; [|apply (low_hex_digits_spec _ 3)].
  constructor. unfold hex_digit_at. change 15 with (Z.ones 4).
  rewrite Z.shiftr_div_pow2, Z.land_ones by lia. change (2 ^ (4 * Z.of_nat 3)) with 4096.
  assert (Hq : 8 <= (x + 32768) / 4096 < 12) by (split; [apply Z.div_le_lower_bound|apply Z.div_lt_upper_bound]; lia).
  rewrite Z.mod_small by lia. generalize dependent ((x + 32768) / 4096). intros q Hq.
  by assert (q = 8 ∨ q = 9 ∨ q = 10 ∨ q = 11) as [->|[->|[->| ->]]] by lia.
Qed.


(** Every correlation id is a version 4 UUID. *)
Lemma correlation_id_spec `{GrpcChannel} k : matches uuid_v4_pattern (correlation_id_at k).
Proof.
  unfold correlation_id_at, uuid_v4_pattern, seq_of. cbn [foldr].
  pose proof grpc_draw_bound as Hd. pose proof (λ n, land_bound (grpc_draw n) 16 ltac:(done)) as H16.
  pose proof (λ n, land_bound (grpc_draw n) 12 ltac:(done)) as H12.
  rewrite <-(app_nil_r_string (hex (grpc_draw (k + 4)) 8 +:+ _)).
  apply matches_cat; [apply hex_spec; [lia|apply Hd]|].
  apply matches_cat; [by constructor|].
  apply matches_cat; [apply hex_spec; [lia|apply H16]|].
  apply matches_cat; [by apply regex_match_spec|].
  apply matches_cat; [apply hex_spec; [lia|apply H12]|].
  apply matches_cat; [by constructor|].
  apply matches_cat; [apply variant_spec|].
  apply matches_cat; [by constructor|].
  apply matches_cat; [|constructor].
  apply (rep_app _ 8 4); apply hex_spec; [lia|apply Hd|lia|apply H16].
Qed.

Section Sending.
Context `{Clock} `{JsonDefined} `{GrpcChannel}.
Implicit Types (c : QodClient).

Lemma camara_error_total resp : ∃ failure, camara_error resp = Ok failure.
Proof.
  unfold camara_error. destruct (empty resp); [by eexists|].
  set (r := j ← parse resp; _). assert (Hr : defined r); [|destruct r; [by eexists..|done]].
  apply defined_bind; [apply parse_defined|]. intros j _. destruct (_ && _); [|done].
  apply defined_bind; [apply jindex_defined|]. intros v _.
  apply defined_bind; [apply get_string_defined|]. intros code _.
  apply defined_bind; [apply jindex_defined|]. intros v' _.
  by apply defined_bind; [apply get_string_defined|].
Qed.

(** The result that an answer of the channel concludes with; none if the client tries again. *)
Definition conclusion (answer : GrpcStatus * string) : option (Result string) :=
  let '(status, resp_payload) := answer in
  if grpc_code status =? 0 then
    match camara_error resp_payload with
    | Ok (Some (code, message)) => Some (error code message)
    | _ => Some (ok resp_payload)
    end
  else if is_retryable (grpc_code status) then None
  else Some (error ("GRPC_" +:+ pretty (grpc_code status)) (grpc_message status)).

Definition exhausted : Result string := error "GRPC_RETRIES_EXHAUSTED" "All retry attempts failed".

(** The delay before the attempt number [i + 1]. *)
Definition delays (d : Z) (count : nat) : list Z := (λ i : nat, d * 2 ^ Z.of_nat i) <$> seq 0 count.

Lemma delays_cons d count : delays d (S count) = d :: delays (d * 2) count.
Proof.
  unfold delays. cbn [seq fmap list_fmap]. f_equal; [lia|]. rewrite <-fmap_S_seq, <-list_fmap_compose.
  apply list_fmap_ext. intros i x _. unfold compose. rewrite Nat2Z.inj_succ, Z.pow_succ_r by lia. lia.
Qed.

(** How a number of attempts ends: with the messages sent, and the result. *)
Record trace (type text : string) (md : gmap string string) (attempts : nat) (before : list (Message * Z))
    (sent : list (Message * Z)) (r : Result string) : Prop := {
  trace_length : (length sent <= attempts)%nat;
  trace_same : Forall (λ '(m, _), message_type m = type ∧ payload m = text ∧ metadata m = md ∧
                              matches uuid_v4_pattern (correlation_id m)) sent;
  trace_retried i : (S i < length sent)%nat → conclusion (grpc_answer (before ++ take (S i) sent)) = None;
  trace_result :
    match sent with
    | [] => attempts = 0%nat ∧ r = exhausted
    | _ => match conclusion (grpc_answer (before ++ sent)) with
           | Some r' => r = r'
           | None => length sent = attempts ∧ r = exhausted
           end
    end }.

Lemma trace_one type text md attempts before request r :
  message_type request.1 = type → payload request.1 = text → metadata request.1 = md →
  matches uuid_v4_pattern (correlation_id request.1) →
  conclusion (grpc_answer (before ++ [request])) = Some r →
  trace type text md (S attempts) before [request] r.
Proof.
  intros Ht Hp Hm Hid Hc. destruct request as [m t]. simpl in *.
  split; simpl; [lia|by constructor|intros i; lia|by rewrite Hc].
Qed.

Lemma trace_again type text md attempts before request sent r :
  message_type request.1 = type → payload request.1 = text → metadata request.1 = md →
  matches uuid_v4_pattern (correlation_id request.1) →
  conclusion (grpc_answer (before ++ [request])) = None →
  trace type text md attempts (before ++ [request]) sent r →
  trace type text md (S attempts) before (request :: sent) r.
Proof.
  intros Ht Hp Hm Hid Hc [Hl Hs Hr Hres]. destruct request as [m t]. simpl in *.
  split; simpl; [lia|by constructor| |].
  - intros [|i] Hi; [done|]. specialize (Hr i ltac:(lia)). by rewrite <-app_assoc in Hr.
  - destruct sent as [|s sent]; [destruct Hres as [-> ->]; by rewrite Hc|].
    rewrite <-app_assoc in Hres. cbn [app] in Hres. destruct (conclusion (grpc_answer (before ++ (m, t) :: s :: sent))); [done|].
    destruct Hres as [Ha ->]. split; [simpl in *; lia|done].
Qed.

Lemma int_result_run {S} z (w : world S) : 0 <= z < 2 ^ 31 → int_result z w = (Ok z, w).
Proof. intros Hz. unfold int_result. rewrite (proj2 (Z.leb_le _ _)), (proj2 (Z.ltb_lt _ _)) by lia. done. Qed.

Lemma send_attempts_run type text md attempts d n c :
  0 <= d → d * 2 ^ (Z.of_nat attempts - 1) < 2 ^ 31 →
  ∃ r sent n' c', send_attempts attempts d type text md (World n c) = (Ok r, World n' c') ∧
    trace type text md attempts (rpcs c) sent r ∧
    rpcs c' = rpcs c ++ sent ∧ sleeps c' = sleeps c ++ delays d (length sent - 1).
Proof.
  revert d n c. induction attempts as [|attempts IH]; intros d n c Hd Hb; simpl.
  { exists exhausted, [], n, c. rewrite !app_nil_r. split_and!; [done| |done..].
    split; [done|constructor|simpl; lia|done]. }
  set (request := (mkMessage type (correlation_id_at (uuid_draws c)) text md,
                   clock n + timeout_seconds (config_ c) * 1000000000)).
  assert (Hid : matches uuid_v4_pattern (correlation_id request.1)) by apply correlation_id_spec.
  set (c1 := c <| uuid_draws ::= λ k, (k + 6)%nat |> <| rpcs := rpcs c ++ [request] |>).
  unfold generate_correlation_id, call_stub. run_steps.
  change (rpcs (c <| uuid_draws ::= λ k, (k + 6)%nat |>)) with (rpcs c).
  change (config_ (c <| uuid_draws ::= λ k, (k + 6)%nat |>)) with (config_ c). fold request. fold c1.
  destruct (grpc_answer (rpcs c ++ [request])) as [status resp] eqn:Ea.
  assert (Hc : conclusion (grpc_answer (rpcs c ++ [request])) = conclusion (status, resp)) by by rewrite Ea.
  unfold conclusion in Hc at 2. destruct (grpc_code status =? 0).
  { destruct (camara_error_total resp) as [failure Ef]. rewrite Ef in Hc |- *.
    exists (match failure with Some (code, message) => error code message | None => ok resp end), [request], (S n), c1.
    rewrite app_nil_r. split_and!; [done| |done..]. apply trace_one; [done..|]. rewrite Hc. by destruct failure as [[]|]. }
  destruct (is_retryable (grpc_code status)); simpl.
  2:{ eexists _, [request], (S n), c1. rewrite app_nil_r. split_and!; [done| |done..]. by apply trace_one. }
  destruct attempts as [|attempts].
  { exists exhausted, [request], (S n), c1. rewrite app_nil_r. split_and!; [done| |done..].
    apply trace_again; [done..|]. split; [done|constructor|simpl; lia|done]. }
  assert (Hp : 1 <= 2 ^ (Z.of_nat attempts)) by (apply (Z.pow_le_mono_r 2 0); lia).
  replace (Z.of_nat (S (S attempts)) - 1) with (Z.succ (Z.of_nat attempts)) in Hb by lia.
  rewrite Z.pow_succ_r in Hb by lia.
  destruct (IH (d * 2) (S n) (c1 <| sleeps ::= λ l, l ++ [d] |>)) as (r & sent & n' & c' & E & Ht & Hs & Hl);
    [lia|replace (Z.of_nat (S attempts) - 1) with (Z.of_nat attempts) by lia; lia|].
  exists r, (request :: sent), n', c'.
  change (0 <? S attempts)%nat with true. cbv beta iota.
  rewrite (int_result_run (d * 2)) by nia. split_and!.
  - exact E.
  - by apply trace_again.
  - rewrite Hs. simpl. by rewrite <-app_assoc.
  - rewrite Hl. simpl. destruct sent as [|s sent]; [by destruct (trace_result _ _ _ _ _ _ _ Ht)|].
    simpl length. rewrite Nat.sub_0_r, !Nat.sub_succ, !Nat.sub_0_r, delays_cons, <-app_assoc. done.
Qed.
(** Attempts that are all answered with a retryable status, until the delay leaves [int]. *)
Lemma send_attempts_overflow type text md attempts d n c :
  (∀ sent, conclusion (grpc_answer sent) = None) →
  0 <= d < 2 ^ 31 → 2 ^ 31 <= d * 2 ^ (Z.of_nat attempts - 1) →
  (send_attempts attempts d type text md (World n c)).1 = Undefined signed_overflow.
Proof.
  intros Hc. revert d n c. induction attempts as [|attempts IH]; intros d n c Hd Hb; [simpl in *; lia|].
  cbn [send_attempts]. unfold generate_correlation_id, call_stub. run_steps.
  match goal with |- context [grpc_answer ?sent] => specialize (Hc sent) as Ha; destruct (grpc_answer sent) as [status resp] end.
  unfold conclusion in Ha. destruct (grpc_code status =? 0).
  { destruct (camara_error_total resp) as [failure Ef]. rewrite Ef in Ha. by destruct failure as [[]|]. }
  destruct (is_retryable (grpc_code status)); [|done]. cbn [negb].
  destruct attempts as [|attempts].
  { change (2 ^ (Z.of_nat 1 - 1)) with 1 in Hb. lia. }
  change (0 <? S attempts)%nat with true. cbv beta iota. unfold sleep. run_steps.
  destruct (decide (d * 2 < 2 ^ 31)) as [Hd'|Hd'].
  - rewrite (int_result_run (d * 2)) by lia. apply IH; [lia|].
    replace (Z.of_nat (S (S attempts)) - 1) with (Z.succ (Z.of_nat (S attempts) - 1)) in Hb by lia.
    rewrite Z.pow_succ_r in Hb by lia. lia.
  - unfold int_result. rewrite (proj2 (Z.ltb_ge _ _)) by lia. by rewrite andb_false_r.
Qed.

(** C27: the client sends a bounded number of times.  Let the delay before the first retry be d >= 0 milliseconds
    and the number of attempts be m.  If d * 2^(m-1) fits [int], a call returns: it sends the message at most
    m times, each time unchanged but for a correlation id that is a version 4 UUID; it sends again only after
    a status that is retryable; it waits d, 2d, 4d... milliseconds in between; and its result is that of the
    last answer, or that all attempts failed after m retryable ones.  If it does not fit, and the core stays
    unavailable, the doubling of the delay overflows and the call is undefined. *)
Theorem send_message_spec type text md n c :
  0 <= initial_retry_delay_ms (config_ c) < 2 ^ 31 →
  let d := initial_retry_delay_ms (config_ c) in
  let m := Z.to_nat (max_retries (config_ c)) in
  (d * 2 ^ (Z.of_nat m - 1) < 2 ^ 31 →
   ∃ r sent n' c', send_message type text md (World n c) = (Ok r, World n' c') ∧
     trace type text md m (rpcs c) sent r ∧
     rpcs c' = rpcs c ++ sent ∧ sleeps c' = sleeps c ++ delays d (length sent - 1)) ∧
  (2 ^ 31 <= d * 2 ^ (Z.of_nat m - 1) → (∀ sent, conclusion (grpc_answer sent) = None) →
   (send_message type text md (World n c)).1 = Undefined signed_overflow).
Proof.
  intros Hd d m. split.
  - intros Hb. apply send_attempts_run; [lia|done].
  - intros Hb Hc. by apply send_attempts_overflow.
Qed.
End Sending.

(** ** Witness *)

Section Witness.
#[local] Existing Instances tick_clock tree_json.
#[local] Instance tree_defined : JsonDefined.
Proof. by apply tree_json_defined. Defined.

(** A core that is never available. *)
Definition unavailable : GrpcChannel.
Proof. by refine {| grpc_answer := λ _, (mkGrpcStatus UNAVAILABLE_CODE "down", ""); grpc_draw := λ _, 1 |}. Defined.
#[local] Existing Instance unavailable.

(** With the defaults the client sends three times; with 23 attempts the delay overflows. *)
Lemma send_message_spec_witness :
  (∃ r (sent : list (Message * Z)) n' c',
     send_message "qod_get_session" "" source (World 0 (QodClient_new QodClientConfig_default)) = (Ok r, World n' c') ∧
     length sent = 3%nat ∧ r = exhausted ∧ sleeps c' = [1000; 2000]) ∧
  (send_message "qod_get_session" "" source
     (World 0 (QodClient_new (mkQodClientConfig "localhost:50051" "grpc" 30 23 1000)))).1 = Undefined signed_overflow.
Proof.
  split.
  - destruct (proj1 (send_message_spec "qod_get_session" "" source 0 (QodClient_new QodClientConfig_default)
                ltac:(done)) ltac:(done)) as (r & sent & n' & c' & E & Ht & _ & Hs).
    exists r, sent, n', c'. pose proof (trace_result _ _ _ _ _ _ _ Ht) as Hr.
    destruct sent as [|s sent]; [by destruct Hr|]. destruct Hr as [Hl ->].
    rewrite Hl in Hs. split_and!; done.
  - apply (proj2 (send_message_spec "qod_get_session" "" source 0
                    (QodClient_new (mkQodClientConfig "localhost:50051" "grpc" 30 23 1000)) ltac:(done))); done.
Defined.
End Witness.
