(* ===== verification/AdapterTransport.v ===== *)
(** * Between the adapter and the AF core

    What arrives at the adapter of a session the AF core describes, and at the AF core of a request
    the adapter writes: the readers of [QodClient] and [QodHandler] on what [QodHandler] and
    [QodClient] write. *)

From S2P Require Import Prelude Effects CxxString CTime Regex UeKey QodTypes Json JsonMembers Comms ServiceHelpers.
From S2P Require Import UeState UeStateManager QodStateManager PcfExamples QodSessionManager QodHandler AdapterModels QodClient.

(** ** From the AF core to the adapter *)

(** The status of a session and its reason, as the adapter has them. *)
Definition client_status (s : QodTypes.QosStatus) : QosStatus :=
  match s with
  | QodTypes.REQUESTED => REQUESTED
  | QodTypes.AVAILABLE => AVAILABLE
  | QodTypes.UNAVAILABLE => UNAVAILABLE
  end.
Definition client_reason (s : QodTypes.StatusInfo) : StatusInfo :=
  match s with
  | QodTypes.DURATION_EXPIRED => DURATION_EXPIRED
  | QodTypes.NETWORK_TERMINATED => NETWORK_TERMINATED
  | QodTypes.DELETE_REQUESTED => DELETE_REQUESTED
  end.

Section Sessions.
Context `{Clock} `{QodLibrary} `{JsonLaws} `{!HandlerLibrary} `{!QosMapper}.
Implicit Types (session : QodSession).

(** The texts of the API for the enumerations. *)
Hypothesis status_texts : ∀ s, qos_status_to_string s = qos_status_text (client_status s).
Hypothesis reason_texts : ∀ s, status_info_to_string s = status_info_text (client_reason s).

(** The members of a description that the adapter looks at. *)
Record tells session (m : gmap string json) : Prop := {
  d_id : m !! "sessionId" = Some (jstring (QodTypes.session_id session));
  d_status : m !! "qosStatus" = Some (jstring (qos_status_to_string (QodTypes.qos_status session)));
  d_profile : m !! "qosProfile" = Some (jstring (QodTypes.qos_profile session));
  d_duration : m !! "duration" = Some (jint (QodTypes.duration session));
  d_started : m !! "startedAt" = jstring <$>
    (if bool_decide (QodTypes.qos_status session = QodTypes.REQUESTED) then None
     else utc_text <$> QodTypes.started_at session);
  d_expires : m !! "expiresAt" = jstring <$>
    (if bool_decide (QodTypes.qos_status session = QodTypes.REQUESTED) then None
     else utc_text <$> QodTypes.expires_at session);
  d_reason : m !! "statusInfo" = jstring <$>
    (if bool_decide (QodTypes.qos_status session = QodTypes.UNAVAILABLE)
     then status_info_to_string <$> QodTypes.status_info session else None);
  d_others : Forall (λ k, m !! k = None) ["status"; "code"; "message"] }.

Lemma gives_any {A} (r : result A) (P : A → Prop) : gives r P → gives r (λ _, True).
Proof. intros Hr. by eapply gives_mono. Qed.

Lemma device_written d : gives (device_to_json d) (λ _, True).
Proof.
  unfold device_to_json. eapply gives_bind; [by apply add_member_gives, writable_null|]. intros j1 Hj1.
  eapply gives_bind; [by apply add_member_gives, Hj1|]. intros j2 Hj2.
  assert (Hip : gives (match device_ipv4_address d with
      | Some a =>
        v ← assign_path ["publicAddress"] (jstring (ipv4 (QodTypes.public_address a))) jnull;
        v ← add_member ["privateAddress"] (jstring ∘ ipv4 <$> private_address a) v;
        v ← add_member ["publicPort"] (jint <$> QodTypes.public_port a) v;
        assign_path ["ipv4Address"] v j2
      | None => mret j2
      end) (λ j, ∃ m, writable j m)).
  { destruct (device_ipv4_address d) as [a|].
    2:{ exists j2. split; [reflexivity|]. eexists. exact Hj2. }
    eapply gives_bind; [by apply assign_member, writable_null|]. intros v1 Hv1.
    eapply gives_bind; [by apply add_member_gives, Hv1|]. intros v2 Hv2.
    eapply gives_bind; [by apply add_member_gives, Hv2|]. intros v3 Hv3.
    eapply gives_mono; [by apply assign_member, Hj2|]. intros j Hj. eexists. exact Hj. }
  eapply gives_bind; [exact Hip|]. intros j3 [m3 Hj3]. eapply gives_any. by apply add_member_gives, Hj3.
Qed.

Lemma ports_written spec :
  gives (ports_to_json spec) (λ _, True).
Proof.
  unfold ports_to_json. rewrite add_if.
  eapply gives_bind; [by apply add_member_gives, writable_null|]. intros j1 Hj1. rewrite add_if.
  eapply gives_any. by apply add_member_gives, Hj1.
Qed.

Lemma add_built_gives {A} k (o : option A) (build : A → result json) j m :
  writable j m → (∀ a, gives (build a) (λ _, True)) →
  gives (add_built k o build j) (λ j', ∃ v, writable j' (insert_optional k v m)).
Proof.
  intros Hj Hb. destruct o as [a|]; [|by exists j; split; [|exists None]].
  eapply gives_bind; [apply Hb|]. intros v _. eapply gives_mono; [by apply assign_member, Hj|].
  intros j' Hj'. by exists (Some v).
Qed.

Lemma add_member_if (b : bool) k o j m :
  writable j m →
  gives (if b then add_member [k] o j else mret j)
    (λ j', writable j' (insert_optional k (if b then o else None) m)).
Proof. intros Hj. destruct b; [by apply add_member_gives|by exists j]. Qed.

Lemma session_written session b : gives (session_to_json session b) (λ j, ∃ m, writable j m ∧ tells session m).
Proof.
  unfold session_to_json.
  eapply gives_bind; [by apply assign_member, writable_null|]. intros j1 Hj1.
  eapply gives_bind; [by apply assign_member, Hj1|]. intros j2 Hj2.
  eapply gives_bind; [by apply assign_member, Hj2|]. intros j3 Hj3.
  eapply gives_bind; [by apply assign_member, Hj3|]. intros j4 Hj4.
  eapply gives_bind; [by apply add_member_gives, writable_null|]. intros v1 Hv1.
  eapply gives_bind; [by apply add_member_gives, Hv1|]. intros v2 _.
  eapply gives_bind; [by apply assign_member, Hj4|]. intros j5 Hj5.
  match type of Hj5 with ?P _ => match eval cbv beta in (P j5) with writable _ ?m => set (m5 := m) in Hj5 end end.
  eapply (gives_bind _ (λ j, ∃ v, writable j (insert_optional "device" v m5))).
  { destruct b; [apply add_built_gives; [exact Hj5|apply device_written]|]. exists j5. split; [done|].
    exists None. exact Hj5. }
  intros j6 [dev Hj6].
  eapply gives_bind; [apply add_built_gives; [exact Hj6|apply ports_written]|]. intros j7 [dp Hj7].
  eapply gives_bind; [apply add_built_gives; [exact Hj7|apply ports_written]|]. intros j8 [sp Hj8].
  eapply gives_bind; [by apply add_member_gives, Hj8|]. intros j9 Hj9.
  match type of Hj9 with ?P _ => match eval cbv beta in (P j9) with writable _ ?m => set (m9 := m) in Hj9 end end.
  clear Hj1 Hj2 Hj3 Hj4 Hj5 Hj6 Hj7 Hj8.
  eapply (gives_bind _ (λ j, writable j
    (insert_optional "expiresAt" (if bool_decide (QodTypes.qos_status session = QodTypes.REQUESTED) then None
                                  else jstring ∘ utc_text <$> QodTypes.expires_at session)
    (insert_optional "startedAt" (if bool_decide (QodTypes.qos_status session = QodTypes.REQUESTED) then None
                                  else jstring ∘ utc_text <$> QodTypes.started_at session) m9)))).
  { case_bool_decide; [by exists j9|]. eapply gives_bind; [by apply add_member_gives, Hj9|].
    intros j10 Hj10. by apply add_member_gives. }
  intros j10 Hj10.
  eapply gives_mono; [by apply add_member_if, Hj10|].
  intros j11 Hj11. eexists. split; [exact Hj11|]. clear Hj10 Hj11.
  assert (H9 : ∀ k v, m5 !! k = v → k ∉ ["device"; "devicePorts"; "applicationServerPorts"; "sink"] → m9 !! k = v).
  { intros k v <- Hk. unfold m9. rewrite !lookup_insert_optional. 
    by rewrite !(proj2 (String.eqb_neq _ k)) by set_solver. }
  assert (Hopt : ∀ k (o : option string) (o' : option json), o' = jstring <$> o → m9 !! k = None →
            match o' with Some v => Some v | None => m9 !! k end = jstring <$> o).
  { intros k [s|] o' -> Hk; [done|exact Hk]. }
  split; [..|repeat constructor]; rewrite ?lookup_insert_optional; simpl.
  5-7: apply Hopt; [case_bool_decide; try done; apply option_fmap_compose|].
  all: apply H9; [unfold m5; by simplify_map_eq|decide_names].
Qed.

(** ** The reader *)

(** The session the adapter has: its id, status, duration and profile; the times unless it is only
    requested; the reason if it is unavailable. *)
Definition client_session session : SessionInfo :=
  let status := QodTypes.qos_status session in
  mkSessionInfo (QodTypes.session_id session) (client_status status)
    (if bool_decide (status = QodTypes.UNAVAILABLE)
     then client_reason <$> QodTypes.status_info session else None)
    (QodTypes.duration session) (QodTypes.qos_profile session)
    (if bool_decide (status = QodTypes.REQUESTED) then None else utc_text <$> QodTypes.started_at session)
    (if bool_decide (status = QodTypes.REQUESTED) then None else utc_text <$> QodTypes.expires_at session).

Lemma read_text_run k j m o f n info :
  writable j m → m !! k = jstring <$> o →
  read_text k j f (World n info) = (Ok (), World n (match o with Some s => f s info | None => info end)).
Proof.
  intros Hj Hk. unfold read_text, with_member. rewrite (writable_contains _ _ _ Hj), Hk.
  destruct o as [s|]; [|done]. simpl. rewrite (writable_index _ _ _ Hj), Hk. simpl.
  rewrite (bind_run _ _ _ (jstring s) (World n info)) by done. by rewrite text_read.
Qed.

Lemma members_read session text j m n :
  parse text = Ok j → writable j m → tells session m →
  read_session_info text (World n SessionInfo_default) = (Ok (), World n (client_session session)).
Proof.
  intros Hp Hj [Hi Hs Hf Hd Hst Hex Hr _]. unfold read_session_info.
  rewrite (bind_run _ _ _ j (World n SessionInfo_default)) by (by rewrite Hp).
  rewrite (bind_run _ _ _ () _ (read_text_run "sessionId" j m (Some _) _ n _ Hj Hi)).
  rewrite (bind_run _ _ _ () _ (read_text_run "qosStatus" j m (Some _) _ n _ Hj Hs)).
  rewrite (bind_run _ _ _ () _ (read_text_run "statusInfo" j m _ _ n _ Hj Hr)).
  match goal with |- context [World n ?i] => set (info := i) end.
  rewrite (bind_run _ _ _ () (World n (info <| duration := QodTypes.duration session |>))).
  2:{ rewrite (with_member_some _ _ _ _ _ _ (writable_object _ _ _ _ Hj Hd) Hd).
      rewrite (bind_run _ _ _ (QodTypes.duration session) (World n info)); [done|].
      by rewrite (get_int_view _ _ (view_int _)). }
  rewrite (bind_run _ _ _ () _ (read_text_run "qosProfile" j m (Some _) _ n _ Hj Hf)).
  rewrite (bind_run _ _ _ () _ (read_text_run "startedAt" j m _ _ n _ Hj Hst)).
  rewrite (read_text_run "expiresAt" j m _ _ n _ Hj Hex). unfold info, client_session.
  rewrite status_texts. destruct (bool_decide (_ = QodTypes.REQUESTED)), (bool_decide (_ = QodTypes.UNAVAILABLE)),
    (QodTypes.started_at session), (QodTypes.expires_at session), (QodTypes.status_info session); cbn.
  all: by rewrite ?reason_texts, ?status_info_round_trip, qos_status_round_trip.
Qed.

Lemma session_read {S} session text j m (w : world S) :
  empty text = false → parse text = Ok j → writable j m → tells session m →
  parse_session_info text w = (Ok (client_session session), w).
Proof.
  intros He Hp Hj Hd. destruct w as [n s]. unfold parse_session_info. rewrite He.
  rewrite (bind_run _ _ _ ((), client_session session) (World n s)); [done|].
  unfold local, catch_json, try_catch. cbn [ticks obj]. by rewrite (members_read session text j m n Hp Hj Hd).
Qed.

(** ** The call *)

Context `{!GrpcChannel}.

(** The description of a session is no error. *)
Lemma tells_no_error session text j m :
  parse text = Ok j → writable j m → tells session m → camara_error text = Ok None.
Proof.
  intros Hp Hj Hd. unfold camara_error. destruct (empty text); [done|]. rewrite Hp.
  pose proof (d_others _ _ Hd) as Ho. apply Forall_cons in Ho as [Hst _].
  cbn [mbind result_bind]. by rewrite (writable_contains _ _ _ Hj), Hst.
Qed.

(** A call that succeeds at once. *)
Lemma send_answered type text md (n : nat) (c : QodClient) answer :
  1 <= max_retries (config_ c) → (∀ request, grpc_answer (rpcs c ++ [request]) = (mkGrpcStatus 0 "", answer)) →
  camara_error answer = Ok None →
  ∃ w, send_message type text md (World n c) = (Ok (ok answer), w).
Proof.
  intros Hm Ha He. unfold send_message. run_steps.
  destruct (Z.to_nat (max_retries (config_ c))) as [|k] eqn:E; [lia|]. cbn [send_attempts].
  unfold generate_correlation_id, call_stub. run_steps.
  change (rpcs (c <| uuid_draws ::= λ k, (k + 6)%nat |>)) with (rpcs c).
  rewrite Ha, Z.eqb_refl, He. by eexists.
Qed.

(** C25: what the AF core tells of a session arrives.  The core can always write the description of a session; and
    if it is what the core answers, a call of the adapter's gRPC client for the session returns the session with
    the same id, status, duration and profile, the same times to the second unless it is only requested (when
    none are sent), and the reason if it is unavailable. *)
Theorem session_transport session include_device sid n c :
  1 <= max_retries (config_ c) →
  ∃ j, session_to_json session include_device = Ok j ∧
    ∀ text, dump j = Ok text → parse text = Ok j → text ≠ "" →
      (∀ request, grpc_answer (rpcs c ++ [request]) = (mkGrpcStatus 0 "", text)) →
      (get_session sid (World n c)).1 = Ok (ok (client_session session)).
Proof.
  intros Hm. destruct (session_written session include_device) as (j & E & m & Hj & Hd).
  exists j. split; [done|]. intros text _ Hp Hne Ha. unfold get_session.
  destruct (send_answered "qod_get_session" "" (session_metadata sid) n c text Hm Ha) as [[n' c'] Hs].
  { by eapply tells_no_error. }
  rewrite (bind_run _ _ _ _ _ Hs). unfold answered. cbn [success ok value].
  rewrite (bind_run _ _ _ (client_session session) (World n' c')); [done|].
  eapply session_read; [by destruct text|done..].
Qed.
End Sessions.

(** ** From the adapter to the AF core *)

Section Requests.
Context `{CommonModels} `{Clock} `{QodLibrary} `{JsonLaws} `{!HandlerLibrary}.
Implicit Types (req : CreateSessionRequest) (context : QodRequestContext) (message : Message).
Hypothesis get_port_view : ∀ j z, view_of j = VInt z → is_port z → get_port j = Ok z.

(** The device the AF core reads.  Port 0 is not sent. *)
Definition core_address (a : DeviceIpv4Addr) : QodTypes.DeviceIpv4Addr :=
  QodTypes.mkDeviceIpv4Addr (mkIpv4Addr (public_address a)) None
    (if 0 <? public_port a then Some (public_port a) else None).
Definition core_device (d : Device) : option QodDevice :=
  match phone_number d, network_access_identifier d, ipv4_address d with
  | None, None, None => None
  | number, nai, a => Some (mkQodDevice number nai (core_address <$> a) None)
  end.

(** The ports it reads; ports without any port or range are none. *)
Definition core_range (r : PortRange) : QodTypes.PortRange := QodTypes.mkPortRange (from r) (to r).
Definition core_ports (spec : option PortsSpec) : option QodTypes.PortsSpec :=
  match spec with
  | Some spec => match ranges spec, ports spec with
                 | [], [] => None
                 | rs, ps => Some (QodTypes.mkPortsSpec (core_range <$> rs) ps)
                 end
  | None => None
  end.

Definition core_server (server : ApplicationServer) : QodTypes.ApplicationServer :=
  QodTypes.mkApplicationServer (Some (server_ipv4_address server)) None.

(** The numbers of a request are ports. *)
Definition good_spec (spec : PortsSpec) : Prop :=
  Forall (λ r, is_port (from r) ∧ is_port (to r)) (ranges spec) ∧ Forall is_port (ports spec).
Definition port_numbers req : Prop :=
  from_option (λ a, public_port a < 65536) True (ipv4_address (req_device req)) ∧
  from_option good_spec True (req_device_ports req) ∧
  from_option good_spec True (req_application_server_ports req).

Lemma assign_optional k (b : bool) v j m :
  writable j m →
  gives (if b then jassign k v j else mret j)
    (λ j', writable j' (insert_optional k (if b then Some v else None) m)).
Proof. intros Hj. destruct b; [by apply writable_assign|by exists j]. Qed.

Lemma address_arrives a :
  public_port a < 65536 →
  gives (address_json a) (λ j, QodHandler.parse_ipv4 j = Ok (core_address a)).
Proof.
  intros Hp. eapply gives_bind; [by apply writable_assign, writable_null|]. intros j1 Hj1.
  eapply gives_mono; [by apply assign_optional, Hj1|]. intros j2 Hj2.
  unfold QodHandler.parse_ipv4.
  rewrite (optional_member_read "publicAddress" jstring get_string (Some (public_address a)) j2 _ Hj2);
    [|by rewrite lookup_insert_optional|intros; apply text_read].
  cbn [mbind result_bind].
  rewrite (optional_member_read "privateAddress" jstring get_string None j2 _ Hj2);
    [|by rewrite lookup_insert_optional|done].
  cbn [mbind result_bind].
  rewrite (optional_member_read "publicPort" jint get_port
             (if 0 <? public_port a then Some (public_port a) else None) j2 _ Hj2); [done| |].
  - rewrite lookup_insert_optional. by destruct (0 <? _).
  - intros z. destruct (Z.ltb_spec 0 (public_port a)); [|done]. intros [= <-].
    apply get_port_view; [apply view_int|]. unfold is_port. lia.
Qed.

(** The reader on a device that is not empty, with the member of its address. *)
Lemma device_read number nai (sent : option (json * QodTypes.DeviceIpv4Addr)) j :
  writable j (insert_optional "ipv4Address" (fst <$> sent)
    (insert_optional "networkAccessIdentifier" (jstring <$> nai)
      (insert_optional "phoneNumber" (jstring <$> number) ∅))) →
  (∀ v a, sent = Some (v, a) → QodHandler.parse_ipv4 v = Ok a) → is_null j = false →
  QodHandler.parse_device j = Ok (Some (mkQodDevice number nai (snd <$> sent) None)).
Proof.
  intros Hj Hs Hn. unfold QodHandler.parse_device. rewrite Hn.
  rewrite (optional_member_read "phoneNumber" jstring get_string number j _ Hj);
    [|rewrite !lookup_insert_optional; simpl; by destruct number|intros; apply text_read].
  cbn [mbind result_bind].
  rewrite (optional_member_read "networkAccessIdentifier" jstring get_string nai j _ Hj);
    [|rewrite !lookup_insert_optional; simpl; by destruct nai|intros; apply text_read].
  cbn [mbind result_bind].
  assert (E4 : optional_member "ipv4Address" QodHandler.parse_ipv4 j = Ok (snd <$> sent)).
  { unfold optional_member. rewrite (writable_contains _ _ _ Hj), lookup_insert_optional. simpl.
    destruct sent as [[v a]|]; simpl; [|by rewrite !lookup_insert_optional].
    rewrite (writable_index _ _ _ Hj), lookup_insert_optional. simpl. by rewrite (Hs v a). }
  rewrite E4. cbn [mbind result_bind].
  by rewrite (optional_member_read "ipv6Address" jstring get_string None j _ Hj);
    [|rewrite !lookup_insert_optional|].
Qed.

Lemma address_added o j m :
  writable j m → from_option (λ a, public_port a < 65536) True o →
  gives (add_address o j)
    (λ j', ∃ sent : option (json * QodTypes.DeviceIpv4Addr), writable j' (insert_optional "ipv4Address" (fst <$> sent) m) ∧
       (∀ v a, sent = Some (v, a) → QodHandler.parse_ipv4 v = Ok a) ∧ snd <$> sent = core_address <$> o).
Proof.
  intros Hj Hp. destruct o as [a|]; [|by exists j; split; [|exists None]].
  eapply gives_bind; [by apply address_arrives|]. intros v Hv.
  eapply gives_mono; [by apply writable_assign, Hj|]. intros j' Hj'.
  exists (Some (v, core_address a)). split; [done|]. split; [|done]. by intros ? ? [= <- <-].
Qed.

Lemma device_arrives d :
  from_option (λ a, public_port a < 65536) True (ipv4_address d) →
  gives (device_json d) (λ j, QodHandler.parse_device j = Ok (core_device d)).
Proof.
  intros Hp. destruct (decide (d = mkDevice None None None)) as [->|Hd].
  { exists jnull. split; [done|]. unfold QodHandler.parse_device. by rewrite null_view, view_null. }
  eapply gives_bind; [by apply add_member_gives, writable_null|]. intros j1 Hj1.
  eapply gives_bind; [by apply add_member_gives, Hj1|]. intros j2 Hj2.
  eapply gives_mono; [apply (address_added (ipv4_address d) j2 _ Hj2 Hp)|].
  intros j (sent & Hj & Hs & Ha). rewrite (device_read _ _ sent j Hj Hs), Ha.
  - unfold core_device. destruct d as [[] [] []]; done.
  - assert (Hk : ∃ k v, insert_optional "ipv4Address" (fst <$> sent)
      (insert_optional "networkAccessIdentifier" (jstring <$> network_access_identifier d)
        (insert_optional "phoneNumber" (jstring <$> phone_number d) ∅)) !! k = Some v).
    { destruct d as [number nai a]. cbn in *.
      destruct sent as [[v b]|]; [by exists "ipv4Address", v; rewrite lookup_insert_optional|].
      destruct nai as [s|]; [by exists "networkAccessIdentifier", (jstring s); rewrite !lookup_insert_optional|].
      destruct number as [s|]; [by exists "phoneNumber", (jstring s); rewrite !lookup_insert_optional|].
      by destruct a. }
    destruct Hk as (k & v & Hk). by eapply writable_not_null.
Qed.

(** ** Ports *)

Lemma object_writable l : writable (jobject l) (list_to_map l).
Proof. left. apply view_object. Qed.

Lemma const_read k j m v :
  writable j m → m !! k = Some v → jindex_const k j = Ok v.
Proof.
  intros Hj Hk. unfold jindex_const. by rewrite (writable_contains _ _ _ Hj), (writable_index _ _ _ Hj), Hk.
Qed.

Lemma port_read z : is_port z → get_port (jint z) = Ok z.
Proof. apply get_port_view, view_int. Qed.

Definition core_range_json (r : QodTypes.PortRange) : json :=
  jobject [("from", jint (QodTypes.from r)); ("to", jint (QodTypes.to r))].

Lemma range_read r :
  is_port (from r) ∧ is_port (to r) →
  QodHandler.parse_range (core_range_json (core_range r)) = Ok (core_range r).
Proof.
  intros [Hf Ht]. unfold QodHandler.parse_range, core_range_json. set (j := jobject _).
  assert (Hj : writable j _) by apply object_writable.
  rewrite (const_read "from" j _ (jint (from r)) Hj) by done. cbn [mbind result_bind].
  rewrite port_read by done. cbn [mbind result_bind].
  rewrite (const_read "to" j _ (jint (to r)) Hj) by done. cbn [mbind result_bind].
  by rewrite port_read.
Qed.

Definition nonempty_array (l : list json) : option json := if bool_decide (l = []) then None else Some (jarray l).

Lemma add_array_gives k l j m :
  writable j m → gives (add_array k l j) (λ j', writable j' (insert_optional k (nonempty_array l) m)).
Proof.
  intros Hj. unfold add_array, nonempty_array. case_bool_decide; [by exists j|]. by apply writable_assign.
Qed.

Lemma ports_arrive spec :
  good_spec spec → gives (ports_json spec) (λ j, QodHandler.parse_ports j = Ok (core_ports (Some spec))).
Proof.
  intros [Hr Hp]. destruct (decide (ranges spec = [] ∧ ports spec = [])) as [[Er Ep]|Hne].
  { exists jnull. unfold ports_json. rewrite Er, Ep. split; [done|].
    unfold QodHandler.parse_ports, core_ports. by rewrite null_view, view_null, Er, Ep. }
  eapply gives_bind; [by apply add_array_gives, writable_null|]. intros j1 Hj1.
  eapply gives_mono; [by apply add_array_gives, Hj1|]. intros j Hj.
  unfold QodHandler.parse_ports.
  assert (is_null j = false) as ->.
  { destruct (ranges spec) as [|r rs] eqn:Er, (ports spec) as [|p ps] eqn:Ep; [naive_solver|..].
    - eapply (writable_not_null j _ "ports"); [exact Hj|]. by rewrite !lookup_insert_optional.
    - eapply (writable_not_null j _ "ranges"); [exact Hj|]. by rewrite !lookup_insert_optional.
    - eapply (writable_not_null j _ "ports"); [exact Hj|]. by rewrite !lookup_insert_optional. }
  rewrite (array_member_read "ranges" core_range_json QodHandler.parse_range (core_range <$> ranges spec) j _ Hj).
  2:{ rewrite !lookup_insert_optional. simpl. rewrite <-list_fmap_compose. by destruct (ranges spec). }
  2:{ apply Forall_fmap. by apply (Forall_impl _ _ _ Hr range_read). }
  cbn [mbind result_bind].
  rewrite (array_member_read "ports" jint get_port (ports spec) j _ Hj).
  - cbn [mbind result_bind mret result_ret]. unfold core_ports. by destruct (ranges spec), (ports spec); [naive_solver|..].
  - rewrite !lookup_insert_optional. simpl. by destruct (ranges spec), (ports spec).
  - by apply (Forall_impl _ _ _ Hp port_read).
Qed.

(** Members that are assigned ports. *)
Lemma add_ports_gives k o j m :
  writable j m → from_option good_spec True o →
  gives (add_ports k o j) (λ j', ∃ sent, writable j' (insert_optional k sent m) ∧
    match sent with Some v => QodHandler.parse_ports v = Ok (core_ports o) | None => core_ports o = None end).
Proof.
  intros Hj Ho. destruct o as [spec|]; [|by exists j; split; [|exists None]].
  eapply gives_bind; [by apply ports_arrive|]. intros v Hv.
  eapply gives_mono; [by apply writable_assign, Hj|]. intros j' Hj'. by exists (Some v).
Qed.

(** ** Requests *)

(** The members of a request, and how the AF core reads them. *)
Record request_members req (m : gmap string json) : Prop := {
  rm_device : ∃ v, m !! "device" = Some v ∧ QodHandler.parse_device v = Ok (core_device (req_device req));
  rm_server : ∃ v, m !! "applicationServer" = Some v ∧
                QodHandler.parse_application_server v = Ok (core_server (req_application_server req));
  rm_ports : match m !! "devicePorts" with
             | Some v => QodHandler.parse_ports v = Ok (core_ports (req_device_ports req))
             | None => core_ports (req_device_ports req) = None
             end;
  rm_server_ports : match m !! "applicationServerPorts" with
             | Some v => QodHandler.parse_ports v = Ok (core_ports (req_application_server_ports req))
             | None => core_ports (req_application_server_ports req) = None
             end;
  rm_profile : m !! "qosProfile" = Some (jstring (req_qos_profile req));
  rm_duration : m !! "duration" = Some (jint (req_duration_seconds req));
  rm_sink : m !! "sink" = jstring <$> req_sink req;
  rm_credential : m !! "sinkCredential" = None }.

Lemma add_text_gives k o j m :
  writable j m →
  gives (match o with Some s => jassign k (jstring s) j | None => mret j end)
    (λ j', writable j' (insert_optional k (jstring <$> o) m)).
Proof. intros Hj. destruct o as [s|]; [by apply writable_assign|by exists j]. Qed.

Lemma server_arrives server :
  QodHandler.parse_application_server (jobject [("ipv4Address", jstring (server_ipv4_address server))]) =
  Ok (core_server server).
Proof.
  unfold QodHandler.parse_application_server. set (j := jobject _).
  assert (Hj : writable j _) by apply object_writable.
  rewrite (optional_member_read "ipv4Address" jstring get_string (Some (server_ipv4_address server)) j _ Hj);
    [|done|intros; apply text_read].
  cbn [mbind result_bind].
  by rewrite (optional_member_read "ipv6Address" jstring get_string None j _ Hj).
Qed.

Lemma request_written req :
  port_numbers req → gives (create_request_json req) (λ j, ∃ m, writable j m ∧ request_members req m).
Proof.
  intros (Hp4 & Hdp & Hsp). unfold create_request_json.
  eapply gives_bind; [by apply device_arrives|]. intros dev Hdev.
  eapply gives_bind; [by apply writable_assign, writable_null|]. intros j1 Hj1.
  eapply gives_bind; [by apply writable_assign, Hj1|]. intros j2 Hj2.
  eapply gives_bind; [by apply add_ports_gives; [exact Hj2|]|]. intros j3 (dp & Hj3 & Hr3).
  eapply gives_bind; [by apply add_ports_gives; [exact Hj3|]|]. intros j4 (sp & Hj4 & Hr4).
  eapply gives_bind; [by apply writable_assign, Hj4|]. intros j5 Hj5.
  eapply gives_bind; [by apply writable_assign, Hj5|]. intros j6 Hj6.
  eapply gives_mono; [by apply add_text_gives, Hj6|].
  intros j7 Hj7. eexists. split; [exact Hj7|].
  split; repeat first [rewrite lookup_insert_optional | rewrite lookup_insert_eq | rewrite lookup_insert_ne by done]; simpl.
  - by exists dev.
  - eexists. split; [done|apply server_arrives].
  - by destruct dp.
  - by destruct sp.
  - done.
  - done.
  - by destruct (req_sink req).
  - done.
Qed.

(** ** The handler *)

(** What the AF core makes of the request: a refusal, or the request. *)
Definition received_request context req : Message + QodTypes.CreateSessionRequest :=
  let refuse := error_for context 400 in
  let device := core_device (req_device req) in
  let server := core_server (req_application_server req) in
  let device_ports := core_ports (req_device_ports req) in
  let server_ports := core_ports (req_application_server_ports req) in
  let duration := req_duration_seconds req in
  match validate_device device context, validate_application_server server, validate_ports device_ports,
        validate_ports server_ports, validate_duration duration with
  | Some e, _, _, _, _ => inl (error_for context 422 (device_error_code context) e)
  | None, Some e, _, _, _ => inl (refuse INVALID_ARGUMENT e)
  | None, None, Some e, _, _ | None, None, None, Some e, _ => inl (refuse OUT_OF_RANGE e)
  | None, None, None, None, Some e => inl (refuse DURATION_OUT_OF_RANGE e)
  | None, None, None, None, None =>
    if from_option (λ url, negb (regex_match url_regex url)) false (req_sink req)
    then inl (refuse INVALID_SINK "Sink must be a valid HTTPS URL")
    else inr (QodTypes.mkCreateSessionRequest (context_consumer_id context) device server device_ports
                server_ports (req_qos_profile req) duration (req_sink req) None)
  end.

Lemma early_bind {S A B} (f : Early S A) (g : A → Early S B) w :
  (f ≫= g) w = match f w with
               | (Ok (inr a), w') => g a w'
               | (Ok (inl r), w') => (Ok (inl r), w')
               | (Throw e, w') => (Throw e, w')
               | (Undefined u, w') => (Undefined u, w')
               end.
Proof. done. Qed.

Lemma compute_run {S A} (r : result A) a (w : world S) : r = Ok a → compute r w = (Ok (inr a), w).
Proof. by intros ->. Qed.

Lemma check_run {S} error f (w : world S) :
  check error f w = (Ok (match error with Some e => inl (f e) | None => inr () end), w).
Proof. by destruct error. Qed.

Section Readers.
Context (j : json) (m : gmap string json) (Hj : writable j m) (context : QodRequestContext).
Implicit Types (w : world QodSessionManager).

Lemma require_run k v w : m !! k = Some v → require k context j w = (Ok (inr v), w).
Proof.
  intros Hk. unfold require. rewrite (writable_contains _ _ _ Hj), Hk. cbn [has_value].
  apply compute_run. by rewrite (writable_index _ _ _ Hj), Hk.
Qed.

Lemma read_device_run v d w :
  m !! "device" = Some v → QodHandler.parse_device v = Ok d →
  read_device context j w =
    (Ok (match validate_device d context with
         | Some e => inl (error_for context 422 (device_error_code context) e)
         | None => inr d
         end), w).
Proof.
  intros Hk Hr. unfold read_device.
  rewrite early_bind, (compute_run _ v) by by rewrite (writable_index _ _ _ Hj), Hk.
  rewrite early_bind, (compute_run _ d) by done. rewrite early_bind, check_run.
  by destruct (validate_device d context).
Qed.

Lemma read_ports_run k o w :
  match m !! k with Some v => QodHandler.parse_ports v = Ok o | None => o = None end →
  read_ports k context j w =
    (Ok (match validate_ports o with
         | Some e => inl (error_for context 400 OUT_OF_RANGE e)
         | None => inr o
         end), w).
Proof.
  intros Hr. unfold read_ports. rewrite (writable_contains _ _ _ Hj).
  destruct (m !! k) as [v|] eqn:Hk; [|by subst]. cbn [has_value].
  rewrite early_bind, (compute_run _ v) by by rewrite (writable_index _ _ _ Hj), Hk.
  rewrite early_bind, (compute_run _ o) by done. rewrite early_bind, check_run.
  by destruct (validate_ports o).
Qed.

Lemma read_sink_run o w :
  m !! "sink" = jstring <$> o → m !! "sinkCredential" = None →
  read_sink context j w =
    (Ok (if from_option (λ url, negb (regex_match url_regex url)) false o
         then inl (error_for context 400 INVALID_SINK "Sink must be a valid HTTPS URL")
         else inr (o, None)), w).
Proof.
  intros Hs Hc. unfold read_sink. rewrite !(writable_contains _ _ _ Hj), Hs, Hc.
  destruct o as [url|]; [|done]. cbn [has_value fmap option_fmap option_map].
  rewrite early_bind, (compute_run _ (jstring url)) by by rewrite (writable_index _ _ _ Hj), Hs.
  rewrite early_bind, (compute_run _ url) by apply text_read.
  rewrite early_bind. cbn [mret Early_ret]. rewrite early_bind. unfold validate_sink, step. cbn [from_option].
  by destruct (regex_match url_regex url).
Qed.
End Readers.

(** C24: what the adapter asks for arrives.  The adapter can always write a request whose port numbers fit 16 bits,
    and the reader of the AF core on it either refuses it for what its validation says of the converted device,
    server, ports, duration and sink, or gives the session manager the same request: the same identifiers,
    addresses, ports, profile, duration and sink; a port of 0 is not sent, and ports without any are none. *)
Theorem create_request_transport req context message :
  port_numbers req →
  ∃ j, create_request_json req = Ok j ∧
    (dump j = Ok (payload message) → parse (payload message) = Ok j →
     ∀ (w : world QodSessionManager), read_create_request context message w = (Ok (received_request context req), w)).
Proof.
  intros Hp. destruct (request_written req Hp) as (j & E & m & Hj & [(dev & Hd & Hrd) (srv & Hs & Hrs) Hdp Hsp Hf Hdu Hsi Hcr]).
  exists j. split; [done|]. intros Hdump Hparse w.
  unfold read_create_request. rewrite early_bind. unfold parse_body at 1.
  rewrite early_bind, (compute_run _ j) by done.
  rewrite early_bind, (compute_run _ _ _ Hdump). cbn [mret Early_ret].
  rewrite early_bind, (writable_contains _ _ _ Hj), Hd. cbn [has_value].
  rewrite (read_device_run _ _ Hj _ _ _ _ Hd Hrd). unfold received_request.
  destruct (validate_device _ _); [done|]. rewrite early_bind, (require_run _ _ Hj _ _ _ _ Hs).
  rewrite early_bind, (compute_run _ _ _ Hrs), early_bind, check_run.
  destruct (validate_application_server _); [done|].
  rewrite early_bind, (read_ports_run _ _ Hj _ _ _ _ Hdp). destruct (validate_ports _); [done|].
  rewrite early_bind, (read_ports_run _ _ Hj _ _ _ _ Hsp). destruct (validate_ports _); [done|].
  rewrite early_bind, (require_run _ _ Hj _ _ _ _ Hf), early_bind, (compute_run _ _ _ (text_read _)).
  rewrite early_bind, (require_run _ _ Hj _ _ _ _ Hdu), early_bind, (compute_run _ _ _ (get_int_view _ _ (view_int _))).
  rewrite early_bind, check_run. destruct (validate_duration _); [done|].
  rewrite early_bind, (read_sink_run _ _ Hj _ _ _ Hsi Hcr). by destruct (from_option _ _ _).
Qed.
End Requests.

(** ** Witnesses *)

Section Witnesses.
#[local] Existing Instances unit_models tick_clock plain_library.

(** The parser knows the text of one value. *)
Definition reader_of (j : tree) (text : string) : result tree :=
  if String.eqb text (print_tree j) then Ok j else Throw (json_parse_error "parse error").
Definition wire (j : tree) : Json := tree_json_with (reader_of j).
Definition wire_laws (j : tree) : @JsonLaws (wire j) := tree_laws (reader_of j).
Definition wire_helpers (j : tree) : @HandlerLibrary (wire j) := @handler_helpers (wire j).
Definition wire_mapper (j : tree) : @QosMapper (wire j) := λ _, TNull.

(** A session in use since 1970-01-01, which is to last an hour. *)
Definition running_session : QodSession :=
  blank_session <| QodTypes.session_id := "s1" |> <| QodTypes.qos_status := QodTypes.AVAILABLE |>
    <| QodTypes.qos_profile := "QOS_L" |> <| QodTypes.duration := 3600 |>
    <| QodTypes.started_at := Some 0 |> <| QodTypes.expires_at := Some 3600000000000 |>.
Definition running_json : tree :=
  Eval vm_compute in
    match @session_to_json (wire TNull) (wire_helpers TNull) running_session false with
    | Ok j => j
    | _ => TNull
    end.

Definition answering_core : GrpcChannel.
Proof. by refine {| grpc_answer := λ _, (mkGrpcStatus 0 "", print_tree running_json); grpc_draw := λ _, 1 |}. Defined.

Lemma session_transport_witness :
  (@get_session _ (wire running_json) answering_core "s1" (World 0 (QodClient_new QodClientConfig_default))).1 =
  Ok (ok (mkSessionInfo "s1" AVAILABLE None 3600 "QOS_L" (Some "1970-01-01T00:00:00Z") (Some "1970-01-01T01:00:00Z"))).
Proof.
  destruct (@session_transport _ (wire running_json) (wire_laws running_json) (wire_helpers running_json)
    ltac:(by intros []) ltac:(by intros []) answering_core running_session false "s1" 0
    (QodClient_new QodClientConfig_default) ltac:(done)) as (j & E & Hc).
  vm_compute in E. injection E as <-. exact (Hc (print_tree running_json) eq_refl eq_refl ltac:(done) (λ _, eq_refl)).
Defined.

(** A request for the ports 5000 to 5100 and 6000 of a device. *)
Definition example_request : CreateSessionRequest :=
  mkCreateSessionRequest (mkDevice (Some "+491701234567") None (Some (mkDeviceIpv4Addr "10.45.0.2" 8080)))
    (mkApplicationServer "203.0.113.1") (Some (mkPortsSpec [mkPortRange 5000 5100] [6000])) None "QOS_L" 3600 None.
Definition request_tree : tree :=
  Eval vm_compute in
    match @create_request_json (wire TNull) example_request with Ok j => j | _ => TNull end.
Definition two_legged : QodRequestContext := mkQodRequestContext "adapter" "c1" false None.

Definition idle_manager : world QodSessionManager :=
  World 0 (QodSessionManager_new None QodStateManager_new QodSessionConfig_default).

Lemma create_request_transport_witness :
  @read_create_request _ _ _ (wire request_tree) (wire_helpers request_tree) two_legged
    (plain_message "qod_create_session" "c1" (print_tree request_tree)) idle_manager =
  (Ok (inr (QodTypes.mkCreateSessionRequest "adapter"
     (Some (mkQodDevice (Some "+491701234567") None
              (Some (QodTypes.mkDeviceIpv4Addr (mkIpv4Addr "10.45.0.2") None (Some 8080))) None))
     (QodTypes.mkApplicationServer (Some "203.0.113.1") None)
     (Some (QodTypes.mkPortsSpec [QodTypes.mkPortRange 5000 5100] [6000])) None "QOS_L" 3600 None None)), idle_manager).
Proof.
  destruct (@create_request_transport _ _ _ (wire request_tree) (wire_laws request_tree) (wire_helpers request_tree)
    ltac:(intros j z Hv _; exact (@get_int_view _ (wire_laws request_tree) j z Hv)) example_request two_legged
    (plain_message "qod_create_session" "c1" (print_tree request_tree))) as (j & E & Hc).
  - split_and!; simpl; [lia| |done]. split; repeat constructor; simpl; lia.
  - vm_compute in E. injection E as <-. rewrite (Hc eq_refl eq_refl). vm_compute. reflexivity.
Defined.
End Witnesses.
