(* ===== verification/HttpQodClient.v ===== *)
(** * The HTTP client of the demonstration adapter

    [adapters/demo-qod-adapter/include/http_qod_client.hpp] and
    [adapters/demo-qod-adapter/src/http_qod_client.cpp].  The client sends the requests of the QoD API
    over HTTP/1.1, tries again when a request fails for the time being, and reads the bytes of the
    response itself.  What the sockets do is a parameter ([HttpServer]).  [wait_for_ready], which only
    polls the server, is left out, and so is [generate_correlation_id], which nothing calls. *)

From S2P Require Import Prelude Effects CxxString Json AdapterModels.
From S2P Require QodClient.

Definition CR : ascii := "013".
Definition LF : ascii := "010".
Definition CRLF : string := String CR (String LF "").

(** ** [std::istream] over what has been received

    [text] is what can still be extracted; [good] says that none of the bits of the state is set. *)
Record Stream := mkStream { text : string; good : bool }.
#[global] Instance Stream_settable : Settable Stream := λ s, mkStream (text s) (good s).

(** [stream >> word] for a word that is not used. *)
Definition skip_word (s : Stream) : Stream :=
  if good s then
    let rest := skip_while (λ c, negb (isspace c)) (skip_while isspace (text s)) in
    mkStream rest (negb (empty rest))
  else s.

(** [stream >> n]: what is assigned to [n], if anything is.  Without digits that is 0, and a number
    that does not fit is cut; the extraction has then failed. *)
Definition extract_int (s : Stream) : option Z * Stream :=
  if good s then
    match skip_while isspace (text s) with
    | EmptyString => (None, mkStream "" false)
    | String c s' as t =>
      let '(sign, t) := if Ascii.eqb c "-" then (-1, s') else if Ascii.eqb c "+" then (1, s') else (1, t) in
      let ds := take_while isdigit t in
      let rest := skip_while isdigit t in
      let v := sign * digits_value 0 ds in
      (Some (Z.max INT_MIN (Z.min INT_MAX v)),
       mkStream rest (negb (empty rest) && negb (empty ds) && (INT_MIN <=? v) && (v <=? INT_MAX)))
    end
  else (None, s).

(** [std::getline(stream, line)]: the line, if the extraction succeeds. *)
Definition getline (s : Stream) : option string * Stream :=
  if good s then
    let line := take_while (λ c, negb (Ascii.eqb c LF)) (text s) in
    match skip_while (λ c, negb (Ascii.eqb c LF)) (text s) with
    | EmptyString => (if empty line then None else Some line, mkStream "" false)
    | String _ rest => (Some line, mkStream rest true)
    end
  else (None, s).

(** [std::stoul]: white space, an optional sign, digits; a negative number wraps around. *)
Definition stoul (s : string) : result Z :=
  let s := skip_while isspace s in
  let '(negative, s) :=
    match s with
    | String c s' => if Ascii.eqb c "-" then (true, s') else if Ascii.eqb c "+" then (false, s') else (false, s)
    | EmptyString => (false, s)
    end in
  let ds := take_while isdigit s in
  let v := digits_value 0 ds in
  if empty ds then Throw (invalid_argument "stoul")
  else if 2 ^ 64 <=? v then Throw (out_of_range "stoul")
  else Ok (if negative then - v mod 2 ^ 64 else v).

(** [s.substr(pos)], which throws beyond the end. *)
Definition substr_checked (pos : nat) (s : string) : result string :=
  if (pos <=? String.length s)%nat then Ok (substr pos s) else Throw (out_of_range "basic_string::substr").

Definition contains (pat s : string) : bool := has_value (find pat s).

(** ** Responses *)

Record HttpResult := mkHttpResult { http_status_code : Z; http_body : string; http_success : bool }.

(** [HttpResult result;] *)
Definition HttpResult_default : HttpResult := mkHttpResult (-1) "" false.

(** The length and the encoding, after a line of the headers. *)
Definition read_header (line : string) (content_length : Z) (chunked : bool) : result (Z * bool) :=
  content_length ←
    (if contains "Content-Length:" line || contains "content-length:" line then
       match find ":" line with
       | Some colon => s ← substr_checked (colon + 2) line; stoul s
       | None => mret content_length
       end
     else mret content_length);
  mret (content_length, chunked || contains "chunked" line).

(** The loop over the headers; every line takes a character, so the length of the text is enough fuel. *)
Fixpoint read_headers (fuel : nat) (s : Stream) (content_length : Z) (chunked : bool) :
    result (Z * bool * Stream) :=
  match fuel with
  | O => mret (content_length, chunked, s)
  | S fuel =>
    match getline s with
    | (Some line, s) =>
      if String.eqb line (String CR "") then mret (content_length, chunked, s)
      else '(content_length, chunked) ← read_header line content_length chunked;
           read_headers fuel s content_length chunked
    | (None, s) => mret (content_length, chunked, s)
    end
  end.

(** [std::vector<char> buf(n)]; memory is taken to be enough. *)
Definition allocate (n : Z) : result () :=
  if 2 ^ 63 <=? n then Throw (runtime_error "cannot create std::vector larger than max_size()") else mret ().

(** The body: what is left in the buffer, and what the socket has until the length is reached or, without
    a length, until its end. *)
Definition read_body (buffered : string) (content_length : Z) (chunked : bool) (rest : string) : result string :=
  if 0 <? content_length then
    let already_read := Z.of_nat (String.length buffered) in
    if already_read <? content_length then
      let remaining := content_length - already_read in
      allocate remaining ;;
      mret (buffered +:+ substr_n 0 (Z.to_nat (Z.min remaining (Z.of_nat (String.length rest)))) rest)
    else mret buffered
  else if chunked || (content_length =? 0) then mret (buffered +:+ rest)
  else mret buffered.

(** The status line in the text [first]; the status code is indeterminate if none was extracted. *)
Definition read_status (first : string) : result (Z * Stream) :=
  let '(code, s) := extract_int (skip_word (mkStream first true)) in
  let s := (getline s).2 in
  match code with Some status_code => mret (status_code, s) | None => Undefined indeterminate_value end.

(** The headers and the body, once [more] has been received as well; [rest] is still to come. *)
Definition read_content (s : Stream) (more rest : string) : result string :=
  let s := s <| text ::= λ t, t +:+ more |> in
  '(content_length, chunked, s) ← read_headers (String.length (text s)) s 0 false;
  read_body (text s) content_length chunked rest.

(** [catch (const std::exception& e)] *)
Definition request_failed (status_code : Z) (e : string) : HttpResult :=
  mkHttpResult status_code ("HTTP request failed: " +:+ e) false.

Definition read_response (first more rest : string) : result HttpResult :=
  '(status_code, s) ← read_status first;
  match read_content s more rest with
  | Ok body => mret (mkHttpResult status_code body true)
  | Throw e => mret (request_failed status_code (what e))
  | Undefined u => Undefined u
  end.

Definition in_2xx (status_code : Z) : bool := (200 <=? status_code) && (status_code <? 300).
Definition retryable (status_code : Z) : bool :=
  (status_code =? 503) || (status_code =? 502) || (status_code =? 504) || (status_code =? 429).

(** ** Connections *)

Inductive Connection :=
  | fails (e : string)                      (* to resolve, to connect or to write throws *)
  | silent (message : string)               (* no status line arrives *)
  | answers (first more rest : string).     (* received up to the status line, the headers, the end *)

Record HttpRequest := mkHttpRequest { request_host : string; request_port : string; request_str : string }.

Class HttpServer := {
  (** What becomes of the last request. *)
  http_answer : list HttpRequest → Connection }.

Section Definitions.
Context `{Json} `{HttpServer}.

Record HttpQodClient := mkHttpQodClient {
  config_ : QodClientConfig;
  base_url_ : string;
  host_ : string;
  port_ : string;
  use_tls_ : bool;
  requests : list HttpRequest;   (* the requests made so far *)
  sleeps : list Z }.             (* the delays slept so far, in milliseconds *)

#[global] Instance HttpQodClient_settable : Settable HttpQodClient := λ c,
  mkHttpQodClient (config_ c) (base_url_ c) (host_ c) (port_ c) (use_tls_ c) (requests c) (sleeps c).

(** [s.find("/", pos)] *)
Definition find_slash (pos : nat) (s : string) : option nat := String.index pos "/" s.

Definition split_scheme (base_url : string) : bool * string :=
  if String.eqb (substr_n 0 8 base_url) "https://" then (true, substr 8 base_url)
  else if String.eqb (substr_n 0 7 base_url) "http://" then (false, substr 7 base_url)
  else (false, base_url).

Definition split_host (use_tls : bool) (url : string) : string * string :=
  match find ":" url with
  | Some colon_pos =>
    (substr_n 0 colon_pos url,
     match find_slash colon_pos url with
     | Some slash_pos => substr_n (colon_pos + 1) (slash_pos - colon_pos - 1) url
     | None => substr (colon_pos + 1) url
     end)
  | None =>
    (match find_slash 0 url with Some slash_pos => substr_n 0 slash_pos url | None => url end,
     if use_tls then "443" else "80")
  end.

Definition HttpQodClient_new (config : QodClientConfig) : HttpQodClient :=
  let base_url := af_core_address config in
  let '(use_tls, url) := split_scheme base_url in
  let '(host, port) := split_host use_tls url in
  mkHttpQodClient config base_url host port use_tls [] [].

(** ** Requests *)

Definition request_text (c : HttpQodClient) (method path body : string) : string :=
  method +:+ " " +:+ path +:+ " HTTP/1.1" +:+ CRLF +:+
  "Host: " +:+ host_ c +:+ ":" +:+ port_ c +:+ CRLF +:+
  "Accept: application/json" +:+ CRLF +:+
  (if empty body then "" else
     "Content-Type: application/json" +:+ CRLF +:+
     "Content-Length: " +:+ pretty (Z.of_nat (String.length body)) +:+ CRLF) +:+
  "Connection: close" +:+ CRLF +:+
  CRLF +:+
  (if empty body then "" else body).

Definition http_exchange (request : HttpRequest) : M HttpQodClient Connection :=
  c ← get;
  let made := requests c ++ [request] in
  modify (λ c, c <| requests := made |>) ;;
  mret (http_answer made).

Definition sleep (delay_ms : Z) : M HttpQodClient () := modify (λ c, c <| sleeps ::= λ l, l ++ [delay_ms] |>).

(** The loop of [do_http_request], with [attempts] attempts left, after the result [result].  Its counter is
    an [int], which would overflow only if [max_retries] were the largest one; that configuration is left
    out.  [continue] skips the delay. *)
Fixpoint http_attempts (attempts : nat) (delay_ms : Z) (result : HttpResult) (method path body : string) :
    M HttpQodClient HttpResult :=
  match attempts with
  | O => mret (if http_success result then result
               else mkHttpResult (http_status_code result) "All retry attempts failed" false)
  | S attempts =>
    c ← get;
    connection ← http_exchange (mkHttpRequest (host_ c) (port_ c) (request_text c method path body));
    match connection with
    | silent message =>
      http_attempts attempts delay_ms (mkHttpResult (-1) ("Failed to read response status: " +:+ message) false)
        method path body
    | _ =>
      result ← (match connection with
                | answers first more rest => lift (read_response first more rest)
                | fails e | silent e => mret (request_failed (-1) e)
                end);
      if http_success result && (in_2xx (http_status_code result) || negb (retryable (http_status_code result)))
      then mret result
      else if (0 <? attempts)%nat then
        sleep delay_ms ;;
        delay_ms ← int_result (delay_ms * 2);
        http_attempts attempts delay_ms result method path body
      else http_attempts attempts delay_ms result method path body
    end
  end.

Definition do_http_request (method path body : string) : M HttpQodClient HttpResult :=
  c ← get;
  http_attempts (Z.to_nat (max_retries (config_ c))) (initial_retry_delay_ms (config_ c)) HttpResult_default
    method path body.

(** ** Answers *)

(** The error that a body describes, if it can be read as one. *)
Definition error_in (body : string) : result (option (Result string)) :=
  match (error_json ← parse body;
         if jcontains "code" error_json && jcontains "message" error_json then
           v ← jindex "code" error_json; code ← get_string v;
           v ← jindex "message" error_json; message ← get_string v;
           mret (Some (error code message))
         else if jcontains "status" error_json && jcontains "message" error_json then
           v ← jindex "status" error_json; status ← get_int v;
           v ← jindex "message" error_json; message ← get_string v;
           mret (Some (error (pretty status) message))
         else mret None) with
  | Throw _ => mret None
  | r => r
  end.

Definition parse_camara_response (result : HttpResult) : Effects.result (Result string) :=
  if negb (http_success result) then mret (error "HTTP_ERROR" (http_body result))
  else if in_2xx (http_status_code result) then
    if (http_status_code result =? 204) || empty (http_body result) then mret (ok "")
    else mret (ok (http_body result))
  else
    described ← error_in (http_body result);
    mret (match described with
          | Some e => e
          | None => error ("HTTP_" +:+ pretty (http_status_code result))
                      (if empty (http_body result) then "Request failed" else http_body result)
          end).

(** ** JSON

    These functions are written out again in [http_qod_client.cpp]; they are those of [qod_client.cpp]. *)

Definition serialise_create_request : CreateSessionRequest → result string := QodClient.serialise_create_request.
Definition serialise_extend_request : ExtendSessionRequest → result string := QodClient.serialise_extend_request.
Definition serialise_device : Device → result string := QodClient.serialise_device.
Definition parse_session_info {S} : string → M S SessionInfo := QodClient.parse_session_info.
Definition parse_session_list {S} : string → M S (list SessionInfo) := QodClient.parse_session_list.

(** ** Operations *)

Definition sessions_path : string := "/quality-on-demand/v1/sessions".

(** A request, and the result of the operation from its answer. *)
Definition request_result {A} `{ValueInitialized A} (method path body : string)
    (read : string → M HttpQodClient A) : M HttpQodClient (Result A) :=
  result ← do_http_request method path body;
  response ← lift (parse_camara_response result);
  QodClient.answered response read.

Definition create_session (request : CreateSessionRequest) : M HttpQodClient (Result SessionInfo) :=
  payload ← lift (serialise_create_request request);
  request_result "POST" sessions_path payload parse_session_info.

Definition get_session (session_id : string) : M HttpQodClient (Result SessionInfo) :=
  request_result "GET" (sessions_path +:+ "/" +:+ session_id) "" parse_session_info.

Definition delete_session (session_id : string) : M HttpQodClient (Result ()) :=
  request_result "DELETE" (sessions_path +:+ "/" +:+ session_id) "" (λ _, mret ()).

Definition extend_session (session_id : string) (request : ExtendSessionRequest) :
    M HttpQodClient (Result SessionInfo) :=
  payload ← lift (serialise_extend_request request);
  request_result "POST" (sessions_path +:+ "/" +:+ session_id +:+ "/extend") payload parse_session_info.

Definition retrieve_sessions (device : Device) : M HttpQodClient (Result (list SessionInfo)) :=
  payload ← lift (serialise_device device);
  request_result "POST" "/quality-on-demand/v1/retrieve-sessions" payload parse_session_list.

#[global] Instance HttpQodClient_client : IQodClient HttpQodClient := {|
  client_create_session := create_session;
  client_get_session := get_session;
  client_delete_session := delete_session;
  client_extend_session := extend_session;
  client_retrieve_sessions := retrieve_sessions |}.
End Definitions.
