(* ===== verification/HttpQodClientSpec.v ===== *)
(** * What the HTTP client of the adapter promises

    That it finds status and body in the bytes of a response, and how often it makes a request. *)

From S2P Require Import Prelude Effects CxxString UeState Json AdapterModels QodClientSpec HttpQodClient.

(** ** Characters *)

Lemma skip_while_app p s t : all_of p s = true → skip_while p (s +:+ t) = skip_while p t.
Proof.
  induction s as [|c s IH]; [done|]. cbn [all_of]. intros [Hc Hs]%andb_true_iff.
  rewrite app_cons_string. cbn [skip_while]. rewrite Hc. auto.
Qed.

Lemma take_while_app p s t : all_of p s = true → take_while p (s +:+ t) = s +:+ take_while p t.
Proof.
  induction s as [|c s IH]; [done|]. cbn [all_of]. intros [Hc Hs]%andb_true_iff.
  rewrite !app_cons_string. cbn [take_while]. rewrite Hc. by rewrite IH.
Qed.

(** A text of one line. *)
Definition one_line (s : string) : Prop := all_of (λ c, negb (Ascii.eqb c LF)) s = true.

Lemma getline_run s t : one_line s → getline (mkStream (s +:+ String LF t) true) = (Some s, mkStream t true).
Proof.
  intros Hs. unfold getline. cbn [good text]. rewrite take_while_app, skip_while_app by done.
  cbn. by rewrite app_nil_r_string.
Qed.

Lemma one_line_app s t : one_line s → one_line t → one_line (s +:+ t).
Proof.
  unfold one_line. induction s as [|c s IH]; [done|]. rewrite app_cons_string. cbn [all_of].
  intros [Hc Hs]%andb_true_iff Ht. rewrite Hc. auto.
Qed.

(** A number between other characters. *)
Lemma number_run z c t :
  0 <= z → isdigit c = false →
  ∃ d ds, pretty z = String d ds ∧ isdigit d = true ∧
    take_while isdigit (pretty z +:+ String c t) = pretty z ∧
    skip_while isdigit (pretty z +:+ String c t) = String c t ∧ digits_value 0 (pretty z) = z.
Proof.
  intros Hz Hc. destruct (pretty_digits z Hz) as (Hv & Hd & He).
  destruct (pretty z) as [|d ds] eqn:E; [done|]. exists d, ds. split; [done|].
  pose proof Hd as Hd'. cbn [all_of] in Hd'. apply andb_true_iff in Hd' as [Hd' _]. split; [done|].
  rewrite take_while_app, skip_while_app by done. cbn [take_while skip_while]. rewrite Hc.
  by rewrite app_nil_r_string.
Qed.

(** ** The status line *)

Definition status_line (status : Z) (reason : string) : string :=
  "HTTP/1.1 " +:+ pretty status +:+ " " +:+ reason +:+ CRLF.

Lemma extract_run z c t :
  0 <= z <= INT_MAX → isdigit c = false →
  extract_int (mkStream (" " +:+ pretty z +:+ String c t) true) = (Some z, mkStream (String c t) true).
Proof.
  intros Hz Hc. destruct (number_run z c t ltac:(lia) Hc) as (d & ds & E & Hd & Ht & Hs & Hv).
  destruct (digit_not_space d Hd) as (Hsp & Hm & Hp). unfold extract_int. cbn [good text].
  change (" " +:+ ?s) with (String " " s). cbn [skip_while isspace].
  change (isspace " ") with true. cbv iota. rewrite E in Ht, Hs, Hv |- *. rewrite app_cons_string in Ht, Hs |- *.
  cbn [skip_while]. rewrite Hsp. rewrite (proj2 (Ascii.eqb_neq d "-") Hm), (proj2 (Ascii.eqb_neq d "+") Hp).
  rewrite Ht, Hs, Z.mul_1_l, Hv. cbn [empty negb andb]. unfold INT_MIN.
  rewrite Z.min_r, Z.max_r, (proj2 (Z.leb_le _ z)), (proj2 (Z.leb_le z _)) by lia. done.
Qed.

Lemma status_read status reason x :
  0 <= status <= INT_MAX → one_line reason →
  read_status (status_line status reason +:+ x) = Ok (status, mkStream x true).
Proof.
  intros Hs Hr. unfold read_status, status_line. rewrite !app_assoc_string.
  change (skip_word _) with (mkStream (" " +:+ pretty status +:+ String " " (reason +:+ String CR (String LF x))) true).
  rewrite extract_run by done. cbn [fst snd].
  change (String " " (reason +:+ ?t)) with (String " " reason +:+ t).
  change (String CR ?t) with (String CR "" +:+ t). rewrite <-app_assoc_string.
  rewrite getline_run; [done|]. by apply one_line_app; [apply (one_line_app " ")|].
Qed.

(** ** The headers *)

Fixpoint header_lines (headers : list string) : string :=
  match headers with
  | [] => CRLF
  | h :: headers => h +:+ CRLF +:+ header_lines headers
  end.

(** What the lines say, one after the other. *)
Fixpoint scan (headers : list string) (content_length : Z) (chunked : bool) : result (Z * bool) :=
  match headers with
  | [] => mret (content_length, chunked)
  | h :: headers =>
    '(content_length, chunked) ← read_header (h +:+ String CR "") content_length chunked;
    scan headers content_length chunked
  end.

Lemma headers_read headers fuel y n chunked :
  Forall (λ h, one_line h ∧ h ≠ "") headers → (length headers < fuel)%nat →
  read_headers fuel (mkStream (header_lines headers +:+ y) true) n chunked =
  ('(n, chunked) ← scan headers n chunked; mret (n, chunked, mkStream y true)).
Proof.
  intros Hh. revert fuel n chunked. induction Hh as [|h headers [Hl Hne] Hh IH]; intros [|fuel] n chunked Hf;
    simpl in Hf; try lia.
  - cbn [read_headers header_lines]. change (CRLF +:+ y) with (String CR "" +:+ String LF y).
    by rewrite getline_run.
  - cbn [read_headers header_lines scan]. rewrite !app_assoc_string.
    change (CRLF +:+ ?t) with (String CR "" +:+ String LF t). rewrite <-(app_assoc_string h).
    rewrite getline_run by by apply one_line_app.
    destruct (String.eqb_spec (h +:+ String CR "") (String CR "")) as [E|_].
    { destruct h as [|c [|c' h]]; [done|by injection E|by injection E]. }
    destruct (read_header _ n chunked) as [[n' chunked']|e|u]; [|done..].
    cbn [mbind result_bind]. apply IH. lia.
Qed.

Lemma header_lines_length headers : (length headers < String.length (header_lines headers))%nat.
Proof.
  induction headers as [|h headers IH]; cbn [header_lines length]; [simpl; lia|].
  rewrite !app_length_string. simpl. lia.
Qed.

(** A header that does not tell the length. *)
Definition no_length (h : string) : bool :=
  negb (contains "Content-Length:" (h +:+ String CR "") || contains "content-length:" (h +:+ String CR "")).

Lemma plain_headers headers n chunked :
  forallb no_length headers = true → ∃ chunked', scan headers n chunked = Ok (n, chunked').
Proof.
  revert chunked. induction headers as [|h headers IH]; intros chunked; [by eexists|].
  cbn [forallb scan]. intros [Hh Hhs]%andb_true_iff. unfold read_header.
  unfold no_length in Hh. apply negb_true_iff in Hh. rewrite Hh. cbn [mbind result_bind mret result_ret].
  by apply IH.
Qed.

Definition length_header (n : Z) : string := "Content-Length: " +:+ pretty n.

Lemma stoul_run z : 0 <= z < 2 ^ 64 → stoul (pretty z +:+ String CR "") = Ok z.
Proof.
  intros Hz. destruct (number_run z CR "" ltac:(lia) eq_refl) as (d & ds & E & Hd & Ht & _ & Hv).
  destruct (digit_not_space d Hd) as (Hsp & Hm & Hp). unfold stoul.
  rewrite E in Ht, Hv |- *. rewrite app_cons_string in Ht |- *.
  cbn [skip_while]. rewrite Hsp, (proj2 (Ascii.eqb_neq d "-") Hm), (proj2 (Ascii.eqb_neq d "+") Hp), Ht, Hv.
  cbn [empty]. by rewrite (proj2 (Z.leb_gt _ _)) by lia.
Qed.

Lemma length_read z n chunked :
  0 <= z < 2 ^ 64 →
  ∃ chunked', read_header (length_header z +:+ String CR "") n chunked = Ok (z, chunked').
Proof.
  intros Hz. unfold read_header, length_header. rewrite app_assoc_string.
  change (contains "Content-Length:" _) with true. change (find ":" _) with (Some 14%nat).
  cbn [orb]. unfold substr_checked. rewrite app_length_string.
  change (14 + 2)%nat with (String.length "Content-Length: ").
  rewrite (proj2 (Nat.leb_le _ _)) by lia. rewrite substr_app. cbn [mbind result_bind].
  rewrite stoul_run by done. by eexists.
Qed.

Lemma scan_app hs hs' n chunked :
  scan (hs ++ hs') n chunked = ('(n, chunked) ← scan hs n chunked; scan hs' n chunked).
Proof.
  revert n chunked. induction hs as [|h hs IH]; intros n chunked; [done|]. cbn [app scan].
  destruct (read_header _ n chunked) as [[n' chunked']|e|u]; [|done..]. cbn [mbind result_bind]. apply IH.
Qed.

(** The headers of a response to [body]: one of them tells its length, or none a length. *)
Inductive response_headers (body : string) : list string → Prop :=
  | with_length hs hs' :
      forallb no_length hs = true → forallb no_length hs' = true →
      Z.of_nat (String.length body) < 2 ^ 63 →
      response_headers body (hs ++ length_header (Z.of_nat (String.length body)) :: hs')
  | without_length hs : forallb no_length hs = true → response_headers body hs.

Lemma headers_scan body headers :
  response_headers body headers →
  ∃ n chunked, scan headers 0 false = Ok (n, chunked) ∧ (n = Z.of_nat (String.length body) ∧ n < 2 ^ 63 ∨ n = 0).
Proof.
  destruct 1 as [hs hs' Hhs Hhs' Hb|hs Hhs].
  - destruct (plain_headers hs 0 false Hhs) as [c1 E1].
    destruct (length_read (Z.of_nat (String.length body)) 0 c1 ltac:(lia)) as [c2 E2].
    destruct (plain_headers hs' (Z.of_nat (String.length body)) c2 Hhs') as [c3 E3].
    exists (Z.of_nat (String.length body)), c3. split; [|by left].
    rewrite scan_app, E1. cbn [mbind result_bind scan]. by rewrite E2.
  - destruct (plain_headers hs 0 false Hhs) as [c E]. exists 0, c. by split; [|right].
Qed.

(** ** The body *)

Lemma body_read n chunked y rest body :
  y +:+ rest = body → n = Z.of_nat (String.length body) ∧ n < 2 ^ 63 ∨ n = 0 →
  read_body y n chunked rest = Ok body.
Proof.
  intros <- Hn. unfold read_body. rewrite app_length_string in Hn.
  destruct (Z.ltb_spec 0 n) as [Hpos|Hpos].
  - destruct Hn as [[En Hn]|Hn]; [|lia]. destruct (Z.ltb_spec (Z.of_nat (String.length y)) n).
    + unfold allocate. rewrite (proj2 (Z.leb_gt _ _)) by lia. cbn [mbind result_bind mret result_ret].
      do 2 f_equal. rewrite <-(app_nil_r_string rest) at 2.
      replace (Z.to_nat _) with (String.length rest) by lia. by rewrite substr_n_app.
    + destruct rest; [by rewrite app_nil_r_string|simpl in En; lia].
  - replace n with 0 by (destruct Hn; lia). by rewrite orb_true_r.
Qed.

(** C28: the HTTP client finds status and body in the bytes of a response.  For a response with a status line,
    headers of one line each, among them the length of the body or none, and the body, and however the bytes
    arrive, the status line with the first read and the headers with the second, the result is the status and
    exactly the body. *)
Theorem response_read status reason headers body first more rest x y :
  0 <= status <= INT_MAX → one_line reason →
  Forall (λ h, one_line h ∧ h ≠ "") headers → response_headers body headers →
  first = status_line status reason +:+ x → x +:+ more = header_lines headers +:+ y → y +:+ rest = body →
  read_response first more rest = Ok (mkHttpResult status body true).
Proof.
  intros Hs Hr Hh Hb -> Hx Hy. unfold read_response. rewrite (status_read _ _ _ Hs Hr).
  cbn [mbind result_bind]. unfold read_content. change ((mkStream x true) <| text ::= _ |>) with (mkStream (x +:+ more) true).
  rewrite Hx. cbn [text]. rewrite headers_read;
    [|done|rewrite app_length_string; pose proof (header_lines_length headers); lia].
  destruct (headers_scan body headers Hb) as (n & chunked & E & Hn). rewrite E.
  cbn [mbind result_bind mret result_ret text]. by rewrite (body_read n chunked y rest body Hy Hn).
Qed.

(** A response of the AF core, which arrives in three parts. *)
Lemma response_read_witness :
  read_response (status_line 200 "OK" +:+ "Content-Ty")
    ("pe: application/json" +:+ CRLF +:+ "Content-Length: 17" +:+ CRLF +:+ CRLF +:+ "{sessionId")
    ":s1234}" = Ok (mkHttpResult 200 "{sessionId:s1234}" true).
Proof.
  apply (response_read 200 "OK" ["Content-Type: application/json"; length_header 17] "{sessionId:s1234}" _ _ _
           "Content-Ty" "{sessionId"); try reflexivity.
  - done.
  - by repeat constructor.
  - by apply (with_length "{sessionId:s1234}" ["Content-Type: application/json"] []).
Defined.

(** ** Requests *)

Section Requests.
Context `{HttpServer}.
Implicit Types (c : HttpQodClient).

(** What becomes of an attempt, and whether it is the last one. *)
Definition outcome (connection : Connection) : result HttpResult :=
  match connection with
  | fails e => mret (request_failed (-1) e)
  | silent message => mret (mkHttpResult (-1) ("Failed to read response status: " +:+ message) false)
  | answers first more rest => read_response first more rest
  end.
Definition final (r : HttpResult) : bool :=
  http_success r && (in_2xx (http_status_code r) || negb (retryable (http_status_code r))).
Definition is_silent (connection : Connection) : bool := match connection with silent _ => true | _ => false end.

Lemma silent_not_final connection r :
  is_silent connection = true → outcome connection = Ok r → final r = false.
Proof. destruct connection; [done| |done]. by intros _ [= <-]. Qed.

(** After the last attempt. *)
Definition gave_up (r : HttpResult) : HttpResult :=
  if http_success r then r else mkHttpResult (http_status_code r) "All retry attempts failed" false.

(** How [attempts] attempts end after the result [r0]: with [k] requests and the result [r]. *)
Record http_trace (request : HttpRequest) (attempts : nat) (r0 : HttpResult) (before : list HttpRequest) (k : nat)
    (r : HttpResult) : Prop := {
  http_bound : (k <= attempts)%nat;
  http_retried i : (S i < k)%nat → ∃ r', outcome (http_answer (before ++ replicate (S i) request)) = Ok r' ∧ final r' = false;
  http_result :
    if (k =? 0)%nat then attempts = 0%nat ∧ r = gave_up r0
    else ∃ r', outcome (http_answer (before ++ replicate k request)) = Ok r' ∧
           if final r' then r = r' else k = attempts ∧ r = gave_up r' }.

(** The attempts among the first [k] that are followed by a delay. *)
Fixpoint delayed (request : HttpRequest) (before : list HttpRequest) (k : nat) : nat :=
  match k with
  | O => 0
  | S k => (if is_silent (http_answer (before ++ [request])) then 0 else 1) + delayed request (before ++ [request]) k
  end.

Lemma trace_last request attempts r0 before r :
  outcome (http_answer (before ++ [request])) = Ok r → final r = true →
  http_trace request (S attempts) r0 before 1 r.
Proof.
  intros Ho Hf. split; [lia|intros i; lia|]. exists r. split; [done|]. by rewrite Hf.
Qed.

Lemma trace_next request attempts r0 r1 before k r :
  outcome (http_answer (before ++ [request])) = Ok r1 → final r1 = false →
  http_trace request attempts r1 (before ++ [request]) k r →
  http_trace request (S attempts) r0 before (S k) r.
Proof.
  intros Ho Hf [Hb Hr Hres]. split; [lia| |].
  - intros [|i] Hi; [by exists r1|]. destruct (Hr i ltac:(lia)) as (r' & Ho' & Hf').
    exists r'. split; [|done]. by rewrite <-(app_assoc before [request]) in Ho'.
  - cbn [Nat.eqb]. destruct k as [|k].
    + destruct Hres as [-> ->]. exists r1. by rewrite Hf.
    + cbn [Nat.eqb] in Hres. destruct Hres as (r' & Ho' & Hres). exists r'.
      rewrite <-(app_assoc before [request]) in Ho'. split; [done|].
      destruct (final r'); [done|]. destruct Hres as [-> ->]. done.
Qed.

Context (method path body : string).

Definition request_of c : HttpRequest :=
  mkHttpRequest (host_ c) (port_ c) (request_text c method path body).

(** One attempt. *)
Lemma attempt_run attempts d r0 n c r1 :
  let made := requests c ++ [request_of c] in
  outcome (http_answer made) = Ok r1 →
  http_attempts (S attempts) d r0 method path body (World n c) =
  (if is_silent (http_answer made) then http_attempts attempts d r1 method path body
   else if final r1 then mret r1
   else if (0 <? attempts)%nat then
     sleep d ;; delay ← int_result (d * 2); http_attempts attempts delay r1 method path body
   else http_attempts attempts d r1 method path body) (World n (c <| requests := made |>)).
Proof.
  intros made Ho. cbn [http_attempts]. unfold http_exchange. run_steps. fold (request_of c). fold made.
  unfold final. destruct (http_answer made) as [e|message|first more rest]; cbn [outcome is_silent] in *.
  - by injection Ho as <-.
  - by injection Ho as <-.
  - rewrite Ho. by destruct (http_success r1 && _).
Qed.

Lemma http_attempts_run attempts d r0 n c :
  (∀ made, ∃ r, outcome (http_answer made) = Ok r) →
  0 <= d → d * 2 ^ (Z.of_nat attempts - 1) < 2 ^ 31 →
  ∃ r k c', http_attempts attempts d r0 method path body (World n c) = (Ok r, World n c') ∧
    http_trace (request_of c) attempts r0 (requests c) k r ∧
    requests c' = requests c ++ replicate k (request_of c) ∧
    sleeps c' = sleeps c ++ delays d (delayed (request_of c) (requests c) (k - 1)).
Proof.
  intros Hout. revert d r0 c. induction attempts as [|attempts IH]; intros d r0 c Hd Hb.
  { exists (gave_up r0), 0%nat, c. rewrite !app_nil_r. split_and!; [|split; [lia|intros i; lia|done]|done..].
    cbn [http_attempts]. unfold gave_up. by destruct r0 as [? ? []]. }
  destruct (Hout (requests c ++ [request_of c])) as [r1 Ho]. rewrite (attempt_run _ _ _ _ _ _ Ho).
  set (c1 := c <| requests := requests c ++ [request_of c] |>).
  assert (Hpow : attempts ≠ 0%nat → d * 2 * 2 ^ (Z.of_nat attempts - 1) < 2 ^ 31 ∧ 1 <= 2 ^ (Z.of_nat attempts - 1)).
  { intros Hz. split; [|apply (Z.pow_le_mono_r 2 0); lia].
    replace (Z.of_nat (S attempts) - 1) with (Z.succ (Z.of_nat attempts - 1)) in Hb by lia.
    rewrite Z.pow_succ_r in Hb by lia. lia. }
  assert (Hsame : d * 2 ^ (Z.of_nat attempts - 1) < 2 ^ 31).
  { destruct (decide (attempts = 0%nat)) as [->|Hz]; [simpl; lia|destruct (Hpow Hz); nia]. }
  destruct (is_silent (http_answer (requests c ++ [request_of c]))) eqn:Es; [|destruct (final r1) eqn:Ef].
  - destruct (IH d r1 c1 Hd Hsame) as (r & k & c' & E & Ht & Hr & Hs).
    exists r, (S k), c'. split; [exact E|].
    split; [eapply trace_next; [exact Ho|by eapply silent_not_final|exact Ht]|].
    rewrite Hr, Hs. simpl. rewrite <-app_assoc. split; [done|].
    destruct k as [|k]; [done|]. rewrite Nat.sub_succ, !Nat.sub_0_r. cbn [delayed]. by rewrite Es.
  - exists r1, 1%nat, c1. rewrite app_nil_r. split_and!; [done|by apply trace_last|done..].
  - destruct attempts as [|attempts].
    { destruct (IH d r1 c1 Hd Hsame) as (r & k & c' & E & Ht & Hr & Hs). exists r, (S k), c'.
      split; [exact E|]. split; [eapply trace_next; [exact Ho|done|exact Ht]|].
      rewrite Hr, Hs. simpl. rewrite <-app_assoc. split; [done|].
      destruct k as [|k]; [done|]. pose proof (http_bound _ _ _ _ _ _ Ht). lia. }
    destruct (Hpow ltac:(done)) as [Hlt Hge].
    destruct (IH (d * 2) r1 (c1 <| sleeps ::= λ l, l ++ [d] |>) ltac:(lia) Hlt) as (r & k & c' & E & Ht & Hr & Hs).
    exists r, (S k), c'. change (0 <? S attempts)%nat with true. cbv iota. split.
    { unfold sleep. run_steps. rewrite (int_result_run (d * 2)) by nia. exact E. }
    split; [eapply trace_next; [exact Ho|done|exact Ht]|].
    rewrite Hr, Hs. simpl. rewrite <-!app_assoc. split; [done|].
    destruct k as [|k]; [by pose proof (http_result _ _ _ _ _ _ Ht) as [? _]|].
    rewrite Nat.sub_succ, !Nat.sub_0_r. cbn [delayed]. rewrite Es. cbn [Nat.add]. by rewrite delays_cons.
Qed.

(** C29: the HTTP client makes a bounded number of requests.  Let the delay before the first retry be d >= 0
    milliseconds and the number of attempts be m.  If d * 2^(m-1) fits [int] and every status line carries a
    number, a request returns: it is made k <= m times, each time with the same text; it is made again
    only after an attempt that failed or was answered with status 429, 502, 503 or 504; the result is that of
    the first other answer, or that of the last attempt, with the reason of a failure forgotten; and the
    client waits d, 2d, 4d... milliseconds in between, but not after an attempt without status line. *)
Theorem do_http_request_spec n c :
  (∀ made, ∃ r, outcome (http_answer made) = Ok r) →
  let d := initial_retry_delay_ms (config_ c) in
  let m := Z.to_nat (max_retries (config_ c)) in
  0 <= d → d * 2 ^ (Z.of_nat m - 1) < 2 ^ 31 →
  ∃ r k c', do_http_request method path body (World n c) = (Ok r, World n c') ∧
    http_trace (request_of c) m HttpResult_default (requests c) k r ∧
    requests c' = requests c ++ replicate k (request_of c) ∧
    sleeps c' = sleeps c ++ delays d (delayed (request_of c) (requests c) (k - 1)).
Proof. intros Hout d m Hd Hb. by apply http_attempts_run. Qed.
End Requests.

(** A server that is first silent, then busy, and then answers. *)
Definition busy_server : HttpServer := {|
  http_answer := λ made, match length made with
                         | 1%nat => silent "End of file"
                         | 2%nat => answers (status_line 503 "Busy" +:+ CRLF) "" ""
                         | _ => answers (status_line 200 "OK" +:+ CRLF) "" "done"
                         end |}.

Lemma do_http_request_spec_witness :
  ∃ r c', @do_http_request busy_server "GET" "/" "" (World 0 (HttpQodClient_new QodClientConfig_default)) = (Ok r, World 0 c') ∧
    r = mkHttpResult 200 "done" true ∧ length (requests c') = 3%nat ∧ sleeps c' = [1000].
Proof.
  destruct (@do_http_request_spec busy_server "GET" "/" "" 0 (HttpQodClient_new QodClientConfig_default)) as (r & k & c' & E & Ht & Hr & Hs).
  - intros made. cbn. destruct (length made) as [|[|[|]]]; vm_compute; by eexists.
  - done.
  - done.
  - exists r, c'. split; [exact E|]. vm_compute in E. injection E as <- <-. done.
Defined.
