(* ===== verification/BundledRuntime.v ===== *)
(** * The life cycle of the bundled runtime

    [src/bundled_af_runtime.h] and [src/bundled_af_runtime.cpp], with [start], [stop] and [wait] of
    [af_core/src/af_orchestrator.cpp].  Several threads work on the runtime: the main thread, a thread
    per southbound handler, the cleanup thread, and any other thread that requests a shutdown (the
    signal handler runs on one).  The scopes of [lifecycle_mutex_] and of the orchestrator's
    [wait_mutex_] are single steps; the steps of the threads are interleaved in any order. *)

From S2P Require Import Prelude.

Inductive LifecycleState := stopped | starting | running | stopping.
#[global] Instance LifecycleState_eq_dec : EqDecision LifecycleState. Proof. solve_decision. Defined.

(** [parseConfigPath] of [src/main.cpp], with the default path; the last option with a value counts. *)
Fixpoint parseConfigPath (config_path : string) (args : list string) : string :=
  match args with
  | [] => config_path
  | arg :: args =>
    if String.eqb arg "--config" || String.eqb arg "-c" then
      match args with path :: args => parseConfigPath path args | [] => config_path end
    else parseConfigPath config_path args
  end.

(** Where a thread is in [requestShutdown]; the second to the fourth step are [AfOrchestrator::stop]. *)
Inductive Shutdown :=
  | requesting              (* about to test and change the state *)
  | stopping_orchestrator   (* about to test whether the orchestrator is there and running *)
  | clearing_running        (* about to set the orchestrator's flag, the components being stopped *)
  | notifying               (* about to wake the waiting threads *)
  | stopping_handlers.      (* about to stop the southbound handlers *)

(** A thread of a southbound handler: in [handler->start()], in [requestShutdown] after an exception of
    it, or at its end. *)
Inductive Southbound := serving | failing (p : Shutdown) | ended.

(** The main thread: outside a call, in [start], in [wait], in [requestShutdown], in [finalizeShutdown]. *)
Inductive Main :=
  | idle
  | spawning (i : nat)      (* [start], before the thread of the handler number [i] *)
  | checking_running        (* [AfOrchestrator::start], before its test *)
  | setting_running         (* [AfOrchestrator::start], before it sets its flag *)
  | spawning_cleanup
  | marking_running
  | waiting                 (* [AfOrchestrator::wait] *)
  | shutting (p : Shutdown)
  | joining_threads
  | joining_cleanup
  | resetting
  | marking_stopped.

Record Runtime := mkRuntime {
  state_ : LifecycleState;
  orchestrator_ : option bool;            (* whether it is running *)
  southbound_handlers_ : nat;
  southbound_threads_ : list Southbound;
  cleanup_thread_ : bool;                 (* whether it is alive *)
  main_thread : Main;
  other_threads : list (option Shutdown); (* other requests of a shutdown; [None] has returned *)
  dangling : bool }.                      (* an orchestrator that is not there has been used *)

#[global] Instance Runtime_settable : Settable Runtime := λ r,
  mkRuntime (state_ r) (orchestrator_ r) (southbound_handlers_ r) (southbound_threads_ r)
    (cleanup_thread_ r) (main_thread r) (other_threads r) (dangling r).

Definition Runtime_new : Runtime := mkRuntime stopped None 0 [] false idle [] false.

Definition isRunning (r : Runtime) : bool :=
  match state_ r with starting | running => true | _ => false end.

(** A step of [requestShutdown], and where the thread is then, if it has not returned. *)
Definition requestShutdown (p : Shutdown) (r : Runtime) : Runtime * option Shutdown :=
  match p with
  | requesting =>
    match state_ r with
    | stopping | stopped => (r, None)
    | _ => (r <| state_ := stopping |>, Some stopping_orchestrator)
    end
  | stopping_orchestrator =>
    match orchestrator_ r with
    | Some true => (r, Some clearing_running)
    | Some false | None => (r, Some stopping_handlers)
    end
  | clearing_running =>
    match orchestrator_ r with
    | Some _ => (r <| orchestrator_ := Some false |>, Some notifying)
    | None => (r <| dangling := true |>, None)
    end
  | notifying =>
    match orchestrator_ r with
    | Some _ => (r, Some stopping_handlers)
    | None => (r <| dangling := true |>, None)
    end
  | stopping_handlers => (r, None)
  end.

(** [initialize]: the runtime must be stopped; [n] handlers are configured.  An exception may prevent that
    the orchestrator is [created], or come after it. *)
Definition initialize (n : nat) (created : bool) (r : Runtime) : option Runtime :=
  match main_thread r with
  | idle =>
    if bool_decide (state_ r = stopped) then
      let r := r <| southbound_handlers_ := n |> in
      Some (if created then r <| orchestrator_ := Some false |> else r)
    else Some r
  | _ => None
  end.

(** The call of [start]: it throws unless the runtime is stopped and initialized. *)
Definition start (r : Runtime) : option Runtime :=
  match main_thread r with
  | idle =>
    if bool_decide (state_ r = stopped) && has_value (orchestrator_ r) then
      Some (r <| state_ := starting |> <| southbound_threads_ := [] |> <| main_thread := spawning 0 |>)
    else Some r
  | _ => None
  end.

(** The next step of the main thread, unless it is blocked; after [start] it calls [wait]. *)
Definition main_step (r : Runtime) : option Runtime :=
  match main_thread r with
  | idle => None
  | spawning i =>
    Some (if (i <? southbound_handlers_ r)%nat then
            r <| southbound_threads_ ::= λ l, l ++ [serving] |> <| main_thread := spawning (S i) |>
          else r <| main_thread := checking_running |>)
  | checking_running =>
    Some (match orchestrator_ r with
          | Some true => r <| main_thread := spawning_cleanup |>
          | Some false => r <| main_thread := setting_running |>
          | None => r <| dangling := true |> <| main_thread := spawning_cleanup |>
          end)
  | setting_running =>
    Some (match orchestrator_ r with
          | Some _ => r <| orchestrator_ := Some true |> <| main_thread := spawning_cleanup |>
          | None => r <| dangling := true |> <| main_thread := spawning_cleanup |>
          end)
  | spawning_cleanup => Some (r <| cleanup_thread_ := true |> <| main_thread := marking_running |>)
  | marking_running =>
    let r := if bool_decide (state_ r = starting) then r <| state_ := running |> else r in
    Some (r <| main_thread := waiting |>)
  | waiting =>
    match orchestrator_ r with
    | Some true => None
    | Some false | None => Some (r <| main_thread := shutting requesting |>)
    end
  | shutting p =>
    let '(r, p) := requestShutdown p r in
    Some (r <| main_thread := match p with Some p => shutting p | None => joining_threads end |>)
  | joining_threads =>
    if forallb (λ t, match t with ended => true | _ => false end) (southbound_threads_ r) then
      Some (r <| southbound_threads_ := [] |> <| main_thread := joining_cleanup |>)
    else None
  | joining_cleanup => if cleanup_thread_ r then None else Some (r <| main_thread := resetting |>)
  | resetting =>
    Some (r <| orchestrator_ := None |> <| southbound_handlers_ := 0%nat |> <| main_thread := marking_stopped |>)
  | marking_stopped => Some (r <| state_ := stopped |> <| main_thread := idle |>)
  end.

(** An exception in the [try] block of [start]; after the shutdown [start] throws it again. *)
Definition main_throws (r : Runtime) : option Runtime :=
  match main_thread r with
  | spawning _ | checking_running | setting_running | spawning_cleanup =>
    Some (r <| main_thread := shutting requesting |>)
  | _ => None
  end.

(** [handler->start()] returns, or throws. *)
Definition handler_returns (i : nat) (r : Runtime) : option Runtime :=
  match southbound_threads_ r !! i with
  | Some serving => Some (r <| southbound_threads_ ::= <[i := ended]> |>)
  | _ => None
  end.
Definition handler_throws (i : nat) (r : Runtime) : option Runtime :=
  match southbound_threads_ r !! i with
  | Some serving => Some (r <| southbound_threads_ ::= <[i := failing requesting]> |>)
  | _ => None
  end.

(** The shutdown that a southbound thread has requested. *)
Definition southbound_step (i : nat) (r : Runtime) : option Runtime :=
  match southbound_threads_ r !! i with
  | Some (failing p) =>
    let '(r, p) := requestShutdown p r in
    Some (r <| southbound_threads_ ::= <[i := match p with Some p => failing p | None => ended end]> |>)
  | _ => None
  end.

(** The cleanup thread ends when it sees that the runtime stops. *)
Definition cleanup_step (r : Runtime) : option Runtime :=
  match cleanup_thread_ r, state_ r with
  | true, (stopping | stopped) => Some (r <| cleanup_thread_ := false |>)
  | _, _ => None
  end.

(** Another thread requests a shutdown, and goes on with it. *)
Definition request (r : Runtime) : option Runtime :=
  Some (r <| other_threads ::= λ l, l ++ [Some requesting] |>).
Definition other_step (i : nat) (r : Runtime) : option Runtime :=
  match other_threads r !! i with
  | Some (Some p) =>
    let '(r, p) := requestShutdown p r in Some (r <| other_threads ::= <[i := p]> |>)
  | _ => None
  end.

(** ** Executions *)

Inductive Action :=
  | Initialize (n : nat) (created : bool)
  | Start
  | MainStep
  | MainThrows
  | Returns (i : nat)
  | Throws (i : nat)
  | SouthboundStep (i : nat)
  | CleanupStep
  | Request
  | OtherStep (i : nat).

Definition step (a : Action) (r : Runtime) : option Runtime :=
  match a with
  | Initialize n created => initialize n created r
  | Start => start r
  | MainStep => main_step r
  | MainThrows => main_throws r
  | Returns i => handler_returns i r
  | Throws i => handler_throws i r
  | SouthboundStep i => southbound_step i r
  | CleanupStep => cleanup_step r
  | Request => request r
  | OtherStep i => other_step i r
  end.

Fixpoint run (actions : list Action) (r : Runtime) : option Runtime :=
  match actions with
  | [] => Some r
  | a :: actions => match step a r with Some r => run actions r | None => None end
  end.
