(* ===== verification/BundledRuntimeSpec.v ===== *)
(** * What the life cycle of the bundled runtime promises

    That the orchestrator is not used after its end, when a shutdown stops everything, and when the
    request of a shutdown is lost. *)

From S2P Require Import Prelude BundledRuntime.

Lemma run_app l l' r : run (l ++ l') r = r' ← run l r; run l' r'.
Proof. revert r. induction l as [|a l IH]; intros r; simpl; [done|]. destruct (step a r); [apply IH|done]. Qed.

(** An invariant of the steps holds along a run. *)
Lemma run_invariant (P : Action → Prop) (I : Runtime → Prop) l r r' :
  (∀ a r r', P a → I r → step a r = Some r' → I r') → Forall P l → I r → run l r = Some r' → I r'.
Proof.
  intros HI Hl. revert r. induction Hl as [|a l Ha Hl IH]; intros r Hr; simpl; [by intros [= <-]|].
  destruct (step a r) as [r1|] eqn:E; [|done]. apply IH. by eapply HI.
Qed.

(** ** Objects and threads *)

Definition ends (t : Southbound) : bool := match t with ended => true | _ => false end.

(** The threads and the orchestrator that are there, by what the main thread does. *)
Definition objects_fit (r : Runtime) : Prop :=
  match main_thread r with
  | idle => southbound_threads_ r = [] ∧ cleanup_thread_ r = false ∧ state_ r = stopped
  | spawning _ | checking_running | setting_running | spawning_cleanup =>
    orchestrator_ r ≠ None ∧ cleanup_thread_ r = false ∧ state_ r ≠ stopped
  | marking_running | waiting | shutting _ | joining_threads =>
    orchestrator_ r ≠ None ∧ state_ r ≠ stopped
  | joining_cleanup => orchestrator_ r ≠ None ∧ southbound_threads_ r = [] ∧ state_ r ≠ stopped
  | resetting =>
    orchestrator_ r ≠ None ∧ southbound_threads_ r = [] ∧ cleanup_thread_ r = false ∧ state_ r ≠ stopped
  | marking_stopped => southbound_threads_ r = [] ∧ cleanup_thread_ r = false ∧ state_ r ≠ stopped
  end.

Definition safe (r : Runtime) : Prop := objects_fit r ∧ other_threads r = [] ∧ dangling r = false.

Lemma safe_new : safe Runtime_new.
Proof. done. Qed.

(** The cases of a step. *)
Ltac step_cases a :=
  destruct a; simpl in *;
  unfold initialize, start, main_step, main_throws, handler_returns, handler_throws, southbound_step,
    cleanup_step, request, other_step, requestShutdown in *;
  repeat (case_match; simplify_eq/=); simplify_eq/=.

Lemma safe_step a r r' : a ≠ Request → safe r → step a r = Some r' → safe r'.
Proof.
  intros Ha (Hf & Ho & Hd) Hs. destruct r as [st orch hs ts cl mt os dg]; simpl in *; subst.
  unfold safe, objects_fit in *. step_cases a.
  all: destruct_and?; subst; rewrite ?lookup_nil in *; naive_solver.
Qed.


(** ** Lost requests *)

Definition early (t : Southbound) : Prop :=
  match t with serving | ended | failing requesting => True | failing _ => False end.

(** The main thread waits for an orchestrator that runs, the runtime is stopping, and nobody stops the
    orchestrator any more. *)
Definition lost (r : Runtime) : Prop :=
  main_thread r = waiting ∧ state_ r = stopping ∧ orchestrator_ r = Some true ∧
  Forall early (southbound_threads_ r) ∧ Forall (λ p, p = None ∨ p = Some requesting) (other_threads r).

Lemma lost_step a r r' : lost r → step a r = Some r' → lost r'.
Proof.
  intros (Hm & Hs & Ho & Ht & Hp) E. destruct r as [st orch hs ts cl mt os dg]; simpl in *; subst.
  unfold lost. destruct a as [| | | |i|i|i| | |i]; simpl in E;
    unfold initialize, start, main_step, main_throws, handler_returns, handler_throws, southbound_step,
    cleanup_step, request, other_step in E; simpl in E; try done.
  - destruct (ts !! i) as [[]|]; simplify_eq/=; split_and!; [done..| |done]. by apply Forall_insert.
  - destruct (ts !! i) as [[]|]; simplify_eq/=; split_and!; [done..| |done]. by apply Forall_insert.
  - destruct (ts !! i) as [[|p|]|] eqn:Ei; try done.
    rewrite Forall_lookup in Ht. specialize (Ht i _ Ei) as Hq. destruct p; [|done..]. simplify_eq/=.
    split_and!; [done..| |done]. apply Forall_insert; [by rewrite Forall_lookup|done].
  - by destruct cl; simplify_eq/=.
  - simplify_eq/=. split_and!; [done..|]. apply Forall_app. split; [done|]. constructor; [by right|done].
  - destruct (os !! i) as [[p|]|] eqn:Ei; try done.
    assert (Hq : Some p = None ∨ Some p = Some requesting) by (rewrite Forall_lookup in Hp; by eapply Hp).
    destruct Hq as [|[= ->]]; [done|]. simplify_eq/=. split_and!; [done..|]. apply Forall_insert; [done|by left].
Qed.

(** Start-up with [n] more handlers after one that throws at once, before the orchestrator runs. *)
Definition failed_start (n : nat) : list Action :=
  [Initialize (S n) true; Start; MainStep; Throws 0] ++ replicate 3 (SouthboundStep 0) ++ replicate (n + 5) MainStep.

Lemma spawn_rest n k st orch ts cl os dg :
  run (replicate n MainStep) (mkRuntime st orch (k + n) ts cl (spawning k) os dg) =
  Some (mkRuntime st orch (k + n) (ts ++ replicate n serving) cl (spawning (k + n)) os dg).
Proof.
  revert k ts. induction n as [|n IH]; intros k ts; [by rewrite Nat.add_0_r, app_nil_r|].
  cbn [replicate run step]. unfold main_step. cbn [main_thread southbound_handlers_].
  rewrite (proj2 (Nat.ltb_lt k (k + S n))) by lia. replace (k + S n)%nat with (S k + n)%nat by lia.
  change (Some ?r) with (Some r). cbn -[replicate run Nat.add]. rewrite IH. by rewrite <-app_assoc.
Qed.


(** ** Shutdowns that complete *)

(** The state, by what the main thread does. *)
Definition state_fits (r : Runtime) : Prop :=
  match main_thread r with
  | idle => state_ r = stopped
  | spawning _ | checking_running | setting_running | spawning_cleanup | marking_running =>
    state_ r = starting ∨ state_ r = stopping
  | waiting => state_ r = running ∨ state_ r = stopping
  | shutting requesting => state_ r ≠ stopped
  | _ => state_ r = stopping
  end.

Lemma state_fits_step a r r' : True → state_fits r → step a r = Some r' → state_fits r'.
Proof.
  intros _ Hf Hs. destruct r as [st orch hs ts cl mt os dg]; simpl in *.
  unfold state_fits in *. step_cases a.
  all: repeat case_bool_decide; subst; naive_solver.
Qed.

(** The steps that are no calls: of the threads, and of a main thread that no exception hits. *)
Definition internal (a : Action) : Prop :=
  match a with Initialize _ _ | Start | MainThrows | Request => False | _ => True end.

(** How many steps each part can still make. *)
Definition shutdown_steps (p : Shutdown) : nat :=
  match p with
  | requesting => 5 | stopping_orchestrator => 4 | clearing_running => 3 | notifying => 2 | stopping_handlers => 1
  end.
Definition southbound_steps (t : Southbound) : nat :=
  match t with serving => 6 | failing p => shutdown_steps p | ended => 0 end.
Definition other_steps (p : option Shutdown) : nat := match p with Some p => shutdown_steps p | None => 0 end.
Definition main_steps (m : Main) : nat :=
  match m with
  | waiting => 10 | shutting p => 4 + shutdown_steps p
  | joining_threads => 4 | joining_cleanup => 3 | resetting => 2 | marking_stopped => 1
  | _ => 0
  end.
Definition steps_left (r : Runtime) : nat :=
  main_steps (main_thread r) + sum_list_with southbound_steps (southbound_threads_ r) +
  sum_list_with other_steps (other_threads r) + (if cleanup_thread_ r then 1 else 0).

(** [start] has completed. *)
Definition started (r : Runtime) : Prop :=
  match main_thread r with
  | spawning _ | checking_running | setting_running | spawning_cleanup | marking_running => False
  | _ => True
  end.

Lemma sum_insert {A} (f : A → nat) (l : list A) i x y :
  l !! i = Some x → (sum_list_with f (<[i := y]> l) + f x = sum_list_with f l + f y)%nat.
Proof.
  revert i. induction l as [|z l IH]; intros [|i] Hi; simplify_eq/=; [lia|]. specialize (IH i Hi). lia.
Qed.

Lemma sum_ended l : forallb (λ t, match t with ended => true | _ => false end) l = true →
  sum_list_with southbound_steps l = 0%nat.
Proof. induction l as [|[] l IH]; simpl; [done|done|done|auto]. Qed.

Lemma steps_decrease a r r' :
  internal a → started r → step a r = Some r' → started r' ∧ (steps_left r' < steps_left r)%nat.
Proof.
  intros Ha Hst Hs. destruct r as [st orch hs ts cl mt os dg]; simpl in *.
  unfold started, steps_left in *. step_cases a; try done.
  all: try match goal with H : forallb _ _ = true |- _ => apply sum_ended in H end.
  all: try match goal with H : ?l !! ?i = Some ?t |- context [<[?i := ?x]> ?l] =>
         first [pose proof (sum_insert southbound_steps l i t x H)|pose proof (sum_insert other_steps l i t x H)] end.
  all: split; [done|]; simpl in *; lia.
Qed.

(** A thread that is about to stop the orchestrator. *)
Definition engaged (p : Shutdown) : Prop := p = stopping_orchestrator ∨ p = clearing_running.
Definition in_progress (r : Runtime) : Prop :=
  (∃ i p, southbound_threads_ r !! i = Some (failing p) ∧ engaged p) ∨
  (∃ i p, other_threads r !! i = Some (Some p) ∧ engaged p).

(** The other thread number [j] has requested a shutdown; whoever makes the runtime stop sees to the
    orchestrator. *)
Definition heading (j : nat) (r : Runtime) : Prop :=
  started r ∧ state_fits r ∧
  (state_ r = running → other_threads r !! j = Some (Some requesting)) ∧
  (main_thread r = waiting → state_ r = stopping → orchestrator_ r = Some true → in_progress r).

(** The steps of a request. *)
Lemma request_engaged p r r' p' :
  requestShutdown p r = (r', p') →
  main_thread r' = main_thread r ∧ southbound_threads_ r' = southbound_threads_ r ∧
  other_threads r' = other_threads r ∧
  (state_ r' = running → state_ r = running ∧ p ≠ requesting) ∧
  (state_ r' = stopping → orchestrator_ r' = Some true →
     (state_ r = stopping ∧ orchestrator_ r = Some true ∧ (engaged p → ∃ q, p' = Some q ∧ engaged q)) ∨
     ∃ q, p' = Some q ∧ engaged q).
Proof.
  unfold requestShutdown, engaged. intros E. destruct p.
  - destruct (state_ r) eqn:Es; simplify_eq/=; rewrite ?Es; naive_solver.
  - destruct (orchestrator_ r) as [[]|] eqn:Eo; simplify_eq/=; naive_solver.
  - destruct (orchestrator_ r) as [[]|] eqn:Eo; simplify_eq/=; naive_solver.
  - destruct (orchestrator_ r) as [[]|] eqn:Eo; simplify_eq/=; naive_solver.
  - simplify_eq/=. naive_solver.
Qed.

(** [in_progress] after a change of one thread that stays engaged if it was. *)
Lemma in_progress_southbound i t t' r :
  southbound_threads_ r !! i = Some t →
  (∀ p, t = failing p → engaged p → ∃ q, t' = failing q ∧ engaged q) →
  in_progress r → in_progress (r <| southbound_threads_ ::= <[i := t']> |>).
Proof.
  intros Hi Ht [(k & p & Hk & Hp)|Ho]; [left|by right]. simpl.
  destruct (decide (i = k)) as [<-|Hne].
  - rewrite Hi in Hk. injection Hk as ->. destruct (Ht p eq_refl Hp) as (q & -> & Hq).
    exists i, q. split; [|done]. apply list_lookup_insert_eq. by eapply lookup_lt_Some.
  - exists k, p. by rewrite list_lookup_insert_ne.
Qed.

Lemma in_progress_other i p p' r :
  other_threads r !! i = Some (Some p) →
  (engaged p → ∃ q, p' = Some q ∧ engaged q) →
  in_progress r → in_progress (r <| other_threads ::= <[i := p']> |>).
Proof.
  intros Hi Ht [Hs|(k & q & Hk & Hq)]; [by left|right]. simpl.
  destruct (decide (i = k)) as [<-|Hne].
  - rewrite Hi in Hk. injection Hk as ->. destruct (Ht Hq) as (q' & -> & Hq').
    exists i, q'. split; [|done]. apply list_lookup_insert_eq. by eapply lookup_lt_Some.
  - exists k, q. by rewrite list_lookup_insert_ne.
Qed.

(** The main thread itself is never what keeps a shutdown going. *)
Lemma main_step_after r r' :
  started r → main_step r = Some r' →
  main_thread r' ≠ waiting ∧ other_threads r' = other_threads r ∧ (state_ r' = running → state_ r = running).
Proof.
  intros Hst Hs. destruct r as [st orch hs ts cl mt os dg]. unfold started, main_step, requestShutdown in *.
  simpl in *. repeat (case_match; simplify_eq/=); naive_solver.
Qed.

Lemma heading_step j a r r' : internal a → heading j r → step a r = Some r' → heading j r'.
Proof.
  intros Ha (Hst & Hf & Hj & Hp) Hs. split; [by eapply steps_decrease|].
  split; [by eapply state_fits_step|]. destruct a as [| | | |i|i|i| | |i]; try done; simpl in Hs.
  - destruct (main_step_after r r' Hst Hs) as (Hm & Ho & Hr). split; [rewrite Ho; auto|done].
  - unfold handler_returns in Hs. destruct (southbound_threads_ r !! i) as [[]|] eqn:Hi; simplify_eq/=.
    split; [done|]. intros. by eapply in_progress_southbound; [exact Hi|done|auto].
  - unfold handler_throws in Hs. destruct (southbound_threads_ r !! i) as [[]|] eqn:Hi; simplify_eq/=.
    split; [done|]. intros. by eapply in_progress_southbound; [exact Hi|done|auto].
  - unfold southbound_step in Hs. destruct (southbound_threads_ r !! i) as [[|p|]|] eqn:Hi; try done.
    destruct (requestShutdown p r) as [r1 p'] eqn:E. simplify_eq/=.
    destruct (request_engaged p r r1 p' E) as (Em & Et & Eo & Hr & Hd). split; [rewrite Eo; naive_solver|].
    intros Hm Hs Ho. destruct (Hd Hs Ho) as [(Hs0 & Ho0 & Hq)|(q & -> & Hq)].
    + assert (Hin : in_progress r1).
      { destruct (Hp ltac:(congruence) Hs0 Ho0) as [Hx|Hx]; [left; by rewrite Et|right; by rewrite Eo]. }
      apply (in_progress_southbound i (failing p) _ r1); [by rewrite Et| |exact Hin]. intros p0 [= <-] Hp0.
      destruct (Hq Hp0) as (q & -> & Hq'). by exists q.
    + left. exists i, q. simpl. split; [|done]. rewrite Et. apply list_lookup_insert_eq. by eapply lookup_lt_Some.
  - unfold cleanup_step in Hs. destruct (cleanup_thread_ r), (state_ r) eqn:Es; simplify_eq/=; rewrite Es; by split.
  - unfold other_step in Hs. destruct (other_threads r !! i) as [[p|]|] eqn:Hi; try done.
    destruct (requestShutdown p r) as [r1 p'] eqn:E. simplify_eq/=.
    destruct (request_engaged p r r1 p' E) as (Em & Et & Eo & Hr & Hd). split.
    + intros Hs. destruct (Hr Hs) as [Hs0 Hne]. rewrite Eo. destruct (decide (i = j)) as [->|].
      * rewrite (Hj Hs0) in Hi. by injection Hi as <-.
      * rewrite list_lookup_insert_ne by done. auto.
    + intros Hm Hs Ho. destruct (Hd Hs Ho) as [(Hs0 & Ho0 & Hq)|(q & -> & Hq)].
      * assert (Hin : in_progress r1).
        { destruct (Hp ltac:(congruence) Hs0 Ho0) as [Hx|Hx]; [left; by rewrite Et|right; by rewrite Eo]. }
        apply (in_progress_other i p _ r1); [by rewrite Eo|exact Hq|exact Hin].
      * right. exists i, q. simpl. split; [|done]. rewrite Eo. apply list_lookup_insert_eq. by eapply lookup_lt_Some.
Qed.

(** Where no step is left, everything has been stopped. *)
Lemma heading_end j r :
  heading j r → (∀ a, internal a → step a r = None) → main_thread r = idle ∧ state_ r = stopped.
Proof.
  intros (Hst & Hf & Hj & Hp) Hn.
  assert (Hthreads : ∀ i t, southbound_threads_ r !! i = Some t → t = ended).
  { intros i [|p|] Hi; [| |done].
    - pose proof (Hn (Returns i) I) as Hx. simpl in Hx. unfold handler_returns in Hx. by rewrite Hi in Hx.
    - pose proof (Hn (SouthboundStep i) I) as Hx. simpl in Hx. unfold southbound_step in Hx. rewrite Hi in Hx.
      by destruct (requestShutdown p r). }
  assert (Hothers : ∀ i p, other_threads r !! i ≠ Some (Some p)).
  { intros i p Hi. pose proof (Hn (OtherStep i) I) as Hx. simpl in Hx. unfold other_step in Hx. rewrite Hi in Hx.
    by destruct (requestShutdown p r). }
  assert (Hprog : ¬ in_progress r).
  { intros [(i & p & Hi & _)|(i & p & Hi & _)]; [by apply Hthreads in Hi|by apply Hothers in Hi]. }
  assert (Hrun : state_ r ≠ running) by (intros Hs; by apply (Hothers j requesting), Hj).
  pose proof (Hn MainStep I) as Hm. simpl in Hm. unfold main_step, started, state_fits in *.
  destruct (main_thread r) eqn:Em; try done.
  - destruct (orchestrator_ r) as [[]|] eqn:Eo; try done. destruct Hf as [Hf|Hf]; [done|].
    by destruct (Hprog (Hp eq_refl Hf eq_refl)).
  - by destruct (requestShutdown p r).
  - replace (forallb _ _) with true in Hm; [done|]. symmetry. apply forallb_forall. intros t Ht%list_elem_of_In.
    apply list_elem_of_lookup in Ht as [i Hi]. by rewrite (Hthreads i t Hi).
  - destruct (cleanup_thread_ r) eqn:Ec; [|done]. pose proof (Hn CleanupStep I) as Hx. simpl in Hx.
    unfold cleanup_step in Hx. by rewrite Ec, Hf in Hx.
Qed.

(** C18: a shutdown requested while the runtime runs completes.  From any reachable state in which the runtime is
    running, after a request and without further calls, the threads make at most a number of steps known in
    advance; and when none can make a step, the main thread has returned from [wait] and the runtime is
    stopped. *)
Theorem shutdown_completes before r more r' :
  run before Runtime_new = Some r → state_ r = running → Forall internal more →
  run (Request :: more) r = Some r' →
  (length more <= steps_left r + 5)%nat ∧
  ((∀ a, internal a → step a r' = None) → main_thread r' = idle ∧ state_ r' = stopped).
Proof.
  intros Hb Hr Hm Hrun. cbn [run step request] in Hrun. set (r1 := r <| other_threads ::= _ |>) in Hrun.
  assert (Hf : state_fits r).
  { apply (run_invariant (λ _, True) state_fits before Runtime_new r); [apply state_fits_step|by apply Forall_true|done|exact Hb]. }
  assert (Hst : started r1 ∧ main_thread r ≠ idle).
  { unfold state_fits in Hf. unfold started. simpl. rewrite Hr in Hf. destruct (main_thread r); naive_solver. }
  assert (Hh : heading (length (other_threads r)) r1).
  { split; [apply Hst|]. split; [exact Hf|]. simpl. rewrite Hr. split; [|done]. intros _.
    rewrite lookup_app_r, Nat.sub_diag by lia. done. }
  split.
  - assert (Hle : (length more + steps_left r' <= steps_left r1)%nat).
    { destruct Hst as [Hst _]. clear -Hm Hst Hrun. revert Hst Hrun. generalize r1. clear r1.
      induction Hm as [|a l Ha Hl IH]; intros r0 Hst; simpl; [intros [= <-]; lia|].
      destruct (step a r0) as [r2|] eqn:E; [|done]. intros Hrun.
      destruct (steps_decrease a r0 r2 Ha Hst E) as [Hst2 Hlt]. specialize (IH r2 Hst2 Hrun). lia. }
    assert (steps_left r1 = steps_left r + 5)%nat; [|lia].
    unfold steps_left. simpl. rewrite sum_list_with_app. simpl. lia.
  - apply (heading_end (length (other_threads r))).
    eapply (run_invariant internal (heading _)); [apply heading_step|exact Hm|exact Hh|exact Hrun].
Qed.

Definition running_actions : list Action := [Initialize 1 true; Start] ++ replicate 6 MainStep.

Definition shutdown_actions : list Action :=
  [Returns 0] ++ replicate 5 (OtherStep 0) ++ replicate 3 MainStep ++ [CleanupStep] ++ replicate 3 MainStep.

(** One handler, and a shutdown that runs to its end. *)
Lemma shutdown_completes_witness :
  ∃ r', run (running_actions ++ Request :: shutdown_actions) Runtime_new = Some r' ∧
    main_thread r' = idle ∧ state_ r' = stopped.
Proof.
  eexists. split; [vm_compute; reflexivity|].
  refine (proj2 (shutdown_completes running_actions _ shutdown_actions _ _ _ _ _) _);
    [vm_compute; reflexivity|reflexivity|by repeat constructor|vm_compute; reflexivity|].
  intros [| | | |i|i|i| | |[|i]] Ha; try done; destruct i; done.
Defined.
