(* ===== verification/OrchestratorSetup.v ===== *)
(** * The AF core: configuration, construction, start and stop

    The rest of [af_core/src/af_orchestrator.cpp]: the configuration, the creation of the managers and
    of the communication services, the registration of the message handlers, [start] and [stop].  The
    types of the configuration, its file and the factory of services belong to the common library; of
    a service the model keeps how it was created and what was registered with it. *)

From S2P Require Import Prelude Effects UeState Events UeStateManager QodTypes QodStateManager Json.
From S2P Require Import Comms ServiceHelpers RequestRouter RestRouter PolicyManager SubscriptionManager.
From S2P Require Import QodSessionManager QodNotificationManager QodHandler Orchestrator.

(** ** The common library *)

(** [af::config]: the typed configuration, as far as the code reads it. *)
Class AppConfiguration := {
  EndpointConfig : Type;
  mkEndpointConfig : string → Z → EndpointConfig;
  endpoint_host : EndpointConfig → string;
  endpoint_port : EndpointConfig → Z;
  CommunicationKind : Type;
  CommunicationKind_eq_dec :: EqDecision CommunicationKind;
  Grpc : CommunicationKind;
  Http : CommunicationKind;
  CommunicationConfig : Type;
  kind : CommunicationConfig → CommunicationKind;
  listen : CommunicationConfig → EndpointConfig;
  remote : CommunicationConfig → option EndpointConfig;
  config_base_path : CommunicationConfig → string;
  config_use_tls : CommunicationConfig → bool;
  timeout_ms : CommunicationConfig → Z;
  AppConfig : Type;
  AppConfig_default : AppConfig;
  core_communication : AppConfig → CommunicationConfig;      (* [af_core.communication] *)
  core_max_session_duration : AppConfig → Z;                 (* [af_core.qod] *)
  core_min_session_duration : AppConfig → Z;
  core_session_cleanup_interval : AppConfig → Z;
  core_unavailable_session_ttl : AppConfig → Z;
  core_enable_notifications : AppConfig → bool;
  core_api_base_url : AppConfig → string;
  pcf_handler_enabled : AppConfig → bool;                    (* [pcf_handler] *)
  pcf_communication : AppConfig → CommunicationConfig;
  pcf_base_url : AppConfig → string;
  pcf_use_tls : AppConfig → bool;
  pcf_api_version : AppConfig → string;
  load_app_config : string → result AppConfig;
  validate : AppConfig → result ();
  kind_to_string : CommunicationKind → string;
  port_to_string : Z → string;
  resolve_destination : CommunicationKind → EndpointConfig → string → string }.

(** [CommunicationFactory::create_service(kind, name, config)]: whether it returns a service; and what
    [start] of a service returns, by its name. *)
Class ServiceFactory := {
  create_service : string → string → gmap string string → result bool;
  service_start : string → result bool }.

(** What answers the messages of a type: the component the service belongs to, or the health check. *)
Inductive ServiceHandler := to_component | to_health_check.
#[global] Instance ServiceHandler_eq_dec : EqDecision ServiceHandler. Proof. solve_decision. Defined.

(** A communication service: its arguments, the handlers and HTTP endpoints registered so far, and
    whether it was started and not stopped since. *)
Record Service := mkService {
  service_kind : string;
  service_name : string;
  service_config : gmap string string;
  service_handlers : list (string * ServiceHandler);
  http_endpoints : list (string * string * string * string);
  service_started : bool }.

#[global] Instance Service_settable : Settable Service := λ s,
  mkService (service_kind s) (service_name s) (service_config s) (service_handlers s) (http_endpoints s)
    (service_started s).

(** A call of [start] or of [stop]. *)
Definition mark (b : bool) (s : Service) : Service := s <| service_started := b |>.

Section Definitions.
Context `{CommonModels} `{Clock} `{IterationOrder} `{QodLibrary} `{!Environment} `{Json} `{!QosMapper}.
Context `{!HandlerLibrary} `{!PolicyEnvironment} `{!SubscriptionEnvironment} `{UrlLibrary}.
Context `{AppConfiguration} `{ServiceFactory}.

Definition bool_text (b : bool) : string := if b then "true" else "false".

(** [result["base_path"] = ...; result["use_tls"] = ...; result["timeout_ms"] = ...;] *)
Definition http_settings (config : CommunicationConfig) (result : gmap string string) :
    gmap string string :=
  <["timeout_ms" := pretty (timeout_ms config)]>
    (<["use_tls" := bool_text (config_use_tls config)]>
       (<["base_path" := config_base_path config]> result)).

Definition http_url (config : CommunicationConfig) (endpoint : EndpointConfig) : string :=
  "http" +:+ (if config_use_tls config then "s" else "") +:+ "://" +:+ endpoint_host endpoint +:+ ":" +:+
  port_to_string (endpoint_port endpoint).

Definition make_server_config (config : CommunicationConfig) : gmap string string :=
  let result := <["server_port" := port_to_string (endpoint_port (listen config))]>
                  {["server_address" := endpoint_host (listen config)]} in
  if bool_decide (kind config = Http) then http_settings config result else result.

Definition make_client_config (config : CommunicationConfig) (endpoint : EndpointConfig) :
    gmap string string :=
  let result := <["server_port" := port_to_string (endpoint_port endpoint)]>
                  (<["server_address" := endpoint_host endpoint]> {["client_only" := "true"]}) in
  if bool_decide (kind config = Http) then
    http_settings config (<["base_url" := http_url config endpoint]> result)
  else result.

(** ** State *)

(** The managers created by [initialize_qod_components] are null before it; the QoD handler only points
    to the session manager, the REST adapter to the router. *)
Record Orchestrator := mkOrchestrator {
  config_path_ : string;
  app_config_ : AppConfig;
  core_pcf_destination_ : string;
  core_policy_manager_ : PolicyManager;
  core_subscription_manager_ : SubscriptionManager;
  core_session_manager_ : option QodSessionManager;
  core_notification_manager_ : option QodNotificationManager;
  core_request_router_ : RequestRouter AfCore;
  core_services_ : gmap string (option Service);       (* [communication_services_] *)
  running : bool                                       (* [isRunning()] of [AfComponent] *) }.

#[global] Instance Orchestrator_settable : Settable Orchestrator := λ o,
  mkOrchestrator (config_path_ o) (app_config_ o) (core_pcf_destination_ o) (core_policy_manager_ o)
    (core_subscription_manager_ o) (core_session_manager_ o) (core_notification_manager_ o)
    (core_request_router_ o) (core_services_ o) (running o).

Definition AfOrchestrator_new (config_path : string) : Orchestrator :=
  mkOrchestrator config_path AppConfig_default "pcf_handler:50055" PolicyManager_new
    SubscriptionManager_new None None RequestRouter_new ∅ false.

(** What the policy and subscription managers see through their pointer [orchestrator_], and the
    update of it when the orchestrator changes. *)
Definition seen (o : Orchestrator) : AfOrchestrator :=
  mkAfOrchestrator (has_value <$> core_services_ o) (core_pcf_destination_ o).

Definition see (v : AfOrchestrator) (p : raw_pointer AfOrchestrator) : raw_pointer AfOrchestrator :=
  match p with pointer _ => pointer v | indeterminate => indeterminate | null => null end.

Definition share (o : Orchestrator) : Orchestrator :=
  o <| core_policy_manager_ ::= λ m, m <| PolicyManager.orchestrator_ ::= see (seen o) |> |>
    <| core_subscription_manager_ ::= λ m, m <| SubscriptionManager.orchestrator_ ::= see (seen o) |> |>.

Definition change (f : Orchestrator → Orchestrator) : M Orchestrator () := modify (λ o, share (f o)).

(** ** Configuration *)

(** A configuration that is loaded but not valid stays. *)
Definition load_config : M Orchestrator () :=
  o ← get;
  try_catch
    (config ← lift (load_app_config (config_path_ o));
     change (λ o, o <| app_config_ := config |>) ;;
     lift (validate config))
    (λ _, mret ()) ;;
  change (λ o,
    let pcf_comm := pcf_communication (app_config_ o) in
    o <| core_pcf_destination_ :=
         if pcf_handler_enabled (app_config_ o) then
           resolve_destination (kind pcf_comm) (value_or (listen pcf_comm) (remote pcf_comm)) "pcf_handler"
         else "" |>).

Definition qod_config_of (config : AppConfig) : QodSessionConfig :=
  QodSessionConfig_default
    <| max_session_duration := core_max_session_duration config |>
    <| min_session_duration := core_min_session_duration config |>
    <| session_cleanup_interval := core_session_cleanup_interval config |>
    <| unavailable_session_ttl := core_unavailable_session_ttl config |>
    <| enable_notifications := core_enable_notifications config |>
    <| api_base_url := core_api_base_url config |>.

(** The state managers of the sessions and of the UEs are fresh. *)
Definition initialize_qod_components : M Orchestrator () :=
  o ← get;
  change (λ o, o
    <| core_session_manager_ := Some (QodSessionManager_new (Some (UeStateManager_new (Some (mkEventDispatcher [] []))))
                                        QodStateManager_new (qod_config_of (app_config_ o))) |>
    <| core_notification_manager_ := Some (QodNotificationManager_new NotificationConfig_default) |>) ;;
  on_pointer core_session_manager_ (set_notification_handler true).

(** ** Communication *)

(** [CommunicationFactory::create_service(...)]; the pointer may be null. *)
Definition new_service (kind name : string) (config : gmap string string) : result (option Service) :=
  created ← create_service kind name config;
  mret (if created : bool then Some (mkService kind name config [] [] false) else None).

Definition put_service (name : string) (service : option Service) : M Orchestrator () :=
  change (λ o, o <| core_services_ ::= <[name := service]> |>).

(** [communication_services_[name]]: a missing entry is inserted, as a null pointer. *)
Definition index_service (name : string) : M Orchestrator (option Service) :=
  o ← get;
  match core_services_ o !! name with
  | Some service => mret service
  | None => put_service name None ;; mret None
  end.

(** A call of a method of the service that [index_service] has returned. *)
Definition call_service (name : string) (f : Service → Service) : M Orchestrator () :=
  change (λ o, o <| core_services_ ::= alter (fmap f) name |>).

Definition initialize_rest_endpoints : M Orchestrator () :=
  main_comm ← index_service "main";
  match main_comm with
  | Some _ => call_service "main" (λ s, s <| http_endpoints ::= λ l, l ++ endpoints |>)
  | None => mret ()
  end.

(** The arguments of the service to the PCF handler: none unless it is reached over a network. *)
Definition pcf_service_config (pcf_comm : CommunicationConfig) : gmap string string :=
  if bool_decide (kind pcf_comm = Grpc) || bool_decide (kind pcf_comm = Http)
  then make_client_config pcf_comm (value_or (listen pcf_comm) (remote pcf_comm)) else ∅.

Definition initialize_communication : M Orchestrator () :=
  o ← get;
  let core_comm := core_communication (app_config_ o) in
  let pcf_comm := pcf_communication (app_config_ o) in
  main_comm ← lift (new_service (kind_to_string (kind core_comm)) "af_core" (make_server_config core_comm));
  match main_comm with
  | None => throw (runtime_error "Failed to create main communication service")
  | Some _ => put_service "main" main_comm
  end ;;
  when (pcf_handler_enabled (app_config_ o))
    (pcf_service ← lift (new_service (kind_to_string (kind pcf_comm)) "af_core_pcf" (pcf_service_config pcf_comm));
     match pcf_service with Some _ => put_service "pcf" pcf_service | None => mret () end) ;;
  when (bool_decide (kind core_comm = Http)) initialize_rest_endpoints.

(** [HealthCheckHandler::handle_message] *)
Definition health_check (message : option Message) : result (option Message) :=
  match message with
  | None => Undefined null_dereference
  | Some msg => Ok (Some (plain_message "health_check_response" (correlation_id msg) "OK"))
  end.

(** The registrations with the main service, in their order. *)
Definition main_handlers : list (string * ServiceHandler) :=
  [("*", to_component); ("health_check", to_health_check); ("qos_request", to_component);
   ("get_subscriptions", to_component); ("create_subscription", to_component);
   ("get_subscription", to_component); ("delete_subscription", to_component);
   ("qod_create_session", to_component); ("qod_get_session", to_component);
   ("qod_delete_session", to_component); ("qod_extend_session", to_component);
   ("qod_retrieve_sessions", to_component)].

Definition register_handlers : M Orchestrator () :=
  main_comm ← index_service "main";
  match main_comm with
  | Some _ => call_service "main" (λ s, s <| service_handlers ::= λ l, l ++ main_handlers |>)
  | None => mret ()
  end.

(** What [handle_message] of a registered handler answers. *)
Definition handle_message (h : ServiceHandler) : MessageHandlerFunc AfCore := λ message,
  match h with
  | to_component => Orchestrator.process_message message
  | to_health_check => lift (health_check message)
  end.

(** ** Life cycle *)

Definition initialize : M Orchestrator () :=
  load_config ;;
  initialize_qod_components ;;
  o ← get;
  on core_policy_manager_ (PolicyManager.initialize (pointer (seen o))) ;;
  on core_subscription_manager_ (SubscriptionManager.initialize (pointer (seen o))) ;;
  initialize_communication ;;
  o ← get;
  (if has_value (core_services_ o !! "pcf") then
     service ← index_service "pcf";
     o ← get;
     on_pointer core_session_manager_
       (QodSessionManager.initialize (has_value service) (core_pcf_destination_ o))
   else on_pointer core_session_manager_ (QodSessionManager.initialize false "")) ;;
  on core_request_router_ configure_components ;;
  register_handlers ;;
  on core_request_router_ register_qod_handlers.

(** [for (const auto& [name, service] : communication_services_) if (service) { ... }] *)
Definition each_service (f : string → M Orchestrator ()) : M Orchestrator () :=
  o ← get;
  for_each (visit (core_services_ o)) (λ '(name, service),
    match service with Some _ => f name | None => mret () end).

(** A method of a manager that may be null. *)
Definition if_there {T} (field : Orchestrator → option T) `{!Setter field} (f : M T ()) : M Orchestrator () :=
  o ← get; if has_value (field o) then on_pointer field f else mret ().

(** Starting a service may fail, which is only logged, or throw. *)
Definition start_service (name : string) : M Orchestrator () :=
  lift (service_start name) ;; call_service name (mark true).

Definition start : M Orchestrator () :=
  o ← get;
  if running o then mret () else
  each_service start_service ;;
  if_there core_session_manager_ QodSessionManager.start ;;
  if_there core_notification_manager_ QodNotificationManager.start ;;
  modify (λ o, o <| running := true |>).

Definition stop : M Orchestrator () :=
  o ← get;
  if negb (running o) then mret () else
  if_there core_notification_manager_ QodNotificationManager.stop ;;
  if_there core_session_manager_ QodSessionManager.stop ;;
  each_service (λ name, call_service name (mark false)) ;;
  modify (λ o, o <| running := false |>).

(** The managers as the handlers of the router see them. *)
Definition core_of (o : Orchestrator) : option AfCore :=
  mkAfCore (core_policy_manager_ o) (core_subscription_manager_ o) <$> core_session_manager_ o.
End Definitions.
