(* ===== verification/OrchestratorSetupSpec.v ===== *)
(** * What the set-up of the AF core promises

    The state [initialize] leaves for every configuration, the wiring of the message types, and what
    [start] and [stop] do with the services. *)

From S2P Require Import Prelude Effects UeState Events UeStateManager QodTypes QodStateManager Json.
From S2P Require Import Comms ServiceHelpers RequestRouter RestRouter PolicyManager SubscriptionManager.
From S2P Require Import QodSessionManager QodSessionSpec QodNotificationManager QodHandler Orchestrator ApiSpec.
From S2P Require Import OrchestratorSetup.

Section Initialize.
Context `{CommonModels} `{Clock} `{IterationOrder} `{QodLibrary} `{!Environment} `{Json} `{!QosMapper}.
Context `{!HandlerLibrary} `{!PolicyEnvironment} `{!SubscriptionEnvironment} `{UrlLibrary}.
Context `{AppConfiguration} `{ServiceFactory}.

(** ** The state after [initialize] *)

(** The configuration in force: the loaded one, even if it is not valid, else the default one. *)
Definition config_in_force (path : string) : AppConfig :=
  match load_app_config path with Ok config => config | _ => AppConfig_default end.

Definition pcf_destination_of (config : AppConfig) : string :=
  let pcf_comm := pcf_communication config in
  if pcf_handler_enabled config then
    resolve_destination (kind pcf_comm) (value_or (listen pcf_comm) (remote pcf_comm)) "pcf_handler"
  else "".

(** The main service, with the HTTP endpoints if it is an HTTP service. *)
Definition main_service (config : AppConfig) : Service :=
  let comm := core_communication config in
  mkService (kind_to_string (kind comm)) "af_core" (make_server_config comm) main_handlers
    (if bool_decide (kind comm = Http) then endpoints else []) false.

Definition expected_pcf_service (config : AppConfig) : result (option Service) :=
  let comm := pcf_communication config in
  if pcf_handler_enabled config then
    new_service (kind_to_string (kind comm)) "af_core_pcf" (pcf_service_config comm)
  else mret None.

(** The services of a configuration, or the exception of [initialize]. *)
Definition expected_services (config : AppConfig) : result (gmap string (option Service)) :=
  let comm := core_communication config in
  created ← create_service (kind_to_string (kind comm)) "af_core" (make_server_config comm);
  if created : bool then
    pcf ← expected_pcf_service config;
    let services := {["main" := Some (main_service config)]} in
    mret (match pcf with Some s => <["pcf" := Some s]> services | None => services end)
  else Throw (runtime_error "Failed to create main communication service").

(** The orchestrator then: the managers see the services, and the session manager has the PCF service
    and its destination if there is one. *)
Definition initialized (path : string) (services : gmap string (option Service)) : Orchestrator :=
  let config := config_in_force path in
  let destination := pcf_destination_of config in
  let view := pointer (mkAfOrchestrator (has_value <$> services) destination) in
  let pcf := has_value (services !! "pcf") in
  mkOrchestrator path config destination
    (PolicyManager_new <| PolicyManager.orchestrator_ := view |>)
    (SubscriptionManager_new <| SubscriptionManager.orchestrator_ := view |>)
    (Some ((QodSessionManager_new (Some (UeStateManager_new (Some (mkEventDispatcher [] [])))) QodStateManager_new
              (qod_config_of config))
           <| pcf_service_ := pcf |> <| pcf_destination_ := if pcf then destination else "" |>
           <| notification_handler_ := true |>))
    (Some (QodNotificationManager_new NotificationConfig_default))
    request_router_ services false.

Lemma load_config_run n path :
  (∀ u, load_app_config path ≠ Undefined u) → (∀ config u, validate config ≠ Undefined u) →
  load_config (World n (AfOrchestrator_new path)) =
    (Ok (), World n ((AfOrchestrator_new path) <| app_config_ := config_in_force path |>
                       <| core_pcf_destination_ := pcf_destination_of (config_in_force path) |>)).
Proof.
  intros Hl Hv. unfold load_config, config_in_force, pcf_destination_of. rewrite bind_get.
  cbn [obj AfOrchestrator_new config_path_].
  destruct (load_app_config path) as [config|e|u] eqn:Ec; [|reflexivity|by destruct (Hl u)].
  unfold try_catch, lift, mbind, M_bind. cbn.
  destruct (validate config) as [?|e|u] eqn:Ev; [reflexivity..|by destruct (Hv config u)].
Qed.

Lemma bind_throws {S A B} (m : M S A) (f : A → M S B) w e :
  (m w).1 = Throw e → ((m ≫= f) w).1 = Throw e.
Proof. unfold mbind, M_bind. destruct (m w) as [[] ?]; simpl; congruence. Qed.
Lemma bind_is_undefined {S A B} (m : M S A) (f : A → M S B) w u :
  (m w).1 = Undefined u → ((m ≫= f) w).1 = Undefined u.
Proof. unfold mbind, M_bind. destruct (m w) as [[] ?]; simpl; congruence. Qed.

(** The orchestrator with managers that see it. *)
Definition communicating (path : string) (config : AppConfig) (destination : string) (q : QodSessionManager)
    (l : QodNotificationManager) (services : gmap string (option Service)) : Orchestrator :=
  let view := pointer (mkAfOrchestrator (has_value <$> services) destination) in
  mkOrchestrator path config destination
    (PolicyManager_new <| PolicyManager.orchestrator_ := view |>)
    (SubscriptionManager_new <| SubscriptionManager.orchestrator_ := view |>)
    (Some q) (Some l) RequestRouter_new services false.

(** The services before the handlers are registered. *)
Definition created_services (config : AppConfig) : result (gmap string (option Service)) :=
  services ← expected_services config;
  mret (alter (fmap (λ s, s <| service_handlers := [] |>)) "main" services).

Lemma initialize_communication_run n path config destination q l :
  let o := communicating path config destination q l in
  match created_services config with
  | Ok services => initialize_communication (World n (o ∅)) = (Ok (), World n (o services))
  | Throw e => (initialize_communication (World n (o ∅))).1 = Throw e
  | Undefined u => (initialize_communication (World n (o ∅))).1 = Undefined u
  end.
Proof.
  intros o. unfold created_services, expected_services, expected_pcf_service, main_service.
  unfold initialize_communication. rewrite !bind_get. unfold new_service. cbn [obj o communicating app_config_].
  set (core := core_communication config). set (comm := pcf_communication config).
  set (args := make_server_config core). clearbody args. set (pcf_args := pcf_service_config comm). clearbody pcf_args.
  destruct (create_service (kind_to_string (kind core)) "af_core" args) as [[]|e|u] eqn:E1; [|reflexivity..].
  destruct (pcf_handler_enabled config); [|by destruct (bool_decide (kind core = Http))].
  destruct (create_service (kind_to_string (kind comm)) "af_core_pcf" pcf_args) as [[]|e|u] eqn:E3;
    [by destruct (bool_decide (kind core = Http))..|reflexivity|reflexivity].
Qed.

(** [initialize] on every configuration.  Whatever the configuration file says, the AF core is set
    up as the specification says, with the loaded configuration in force even if it is not valid, or the
    exception of the failing service ends the initialization; undefined behaviour is out of question unless
    the library has it. *)
Theorem initialize_spec n path :
  (∀ u, load_app_config path ≠ Undefined u) → (∀ config u, validate config ≠ Undefined u) →
  match expected_services (config_in_force path) with
  | Ok services => initialize (World n (AfOrchestrator_new path)) = (Ok (), World n (initialized path services))
  | Throw e => (initialize (World n (AfOrchestrator_new path))).1 = Throw e
  | Undefined u => (initialize (World n (AfOrchestrator_new path))).1 = Undefined u
  end.
Proof.
  intros Hl Hv. unfold initialize. rewrite (bind_run _ _ _ _ _ (load_config_run n path Hl Hv)).
  unfold initialized. set (config := config_in_force path). clearbody config. clear Hl Hv.
  set (q := QodSessionManager_new _ _ _). set (l := QodNotificationManager_new _).
  set (destination := pcf_destination_of config).
  rewrite (bind_run initialize_qod_components _ _ () (World n (mkOrchestrator path config destination
    PolicyManager_new SubscriptionManager_new (Some (q <| notification_handler_ := true |>)) (Some l) RequestRouter_new ∅ false)))
    by reflexivity.
  rewrite bind_get. cbn [obj]. set (q' := q <| notification_handler_ := true |>).
  set (v := seen _).
  rewrite (bind_run (on core_policy_manager_ _) _ _ () (World n (mkOrchestrator path config destination
    (PolicyManager_new <| PolicyManager.orchestrator_ := pointer v |>) SubscriptionManager_new (Some q') (Some l)
    RequestRouter_new ∅ false))) by reflexivity.
  rewrite (bind_run (on core_subscription_manager_ _) _ _ () (World n (communicating path config destination q' l ∅)))
    by reflexivity.
  pose proof (initialize_communication_run n path config destination q' l) as Hc. cbv zeta in Hc.
  unfold created_services in Hc. revert Hc.
  unfold expected_services, expected_pcf_service, new_service. generalize (make_server_config (core_communication config)) as args.
  generalize (pcf_service_config (pcf_communication config)) as pcf_args. intros pcf_args args.
  destruct (create_service _ "af_core" args) as [[]|e|u];
    cbn [mbind mret result_bind result_ret]; [|apply bind_throws|apply bind_throws|apply bind_is_undefined].
  destruct (pcf_handler_enabled config); [|intros Hc; by rewrite (bind_run _ _ _ _ _ Hc)].
  destruct (create_service _ "af_core_pcf" pcf_args) as [[]|e|u];
    [..|apply bind_throws|apply bind_is_undefined]; intros Hc; by rewrite (bind_run _ _ _ _ _ Hc).
Qed.

(** ** Starting and stopping *)

Definition with_services (services : gmap string (option Service)) (o : Orchestrator) : Orchestrator :=
  o <| core_services_ := services |>.

(** The managers see the services, but not what they do with them. *)
Lemma share_services services services' o :
  share (with_services services o) = with_services services o → has_value <$> services = has_value <$> services' →
  share (with_services services' o) = with_services services' o.
Proof. destruct o. unfold share, with_services, seen. simpl. intros Hs <-. simpl in Hs. by injection Hs as -> ->. Qed.

Lemma has_value_alter {V} (f : V → V) k (m : gmap string (option V)) :
  has_value <$> alter (fmap f) k m = has_value <$> m.
Proof.
  apply map_eq. intros i. rewrite !lookup_fmap. destruct (decide (i = k)) as [->|?].
  - rewrite lookup_alter_eq. by destruct (m !! k) as [[]|].
  - by rewrite lookup_alter_ne by done.
Qed.

Lemma call_service_run n services o name f :
  share (with_services services o) = with_services services o →
  call_service name f (World n (with_services services o)) =
    (Ok (), World n (with_services (alter (fmap f) name services) o)).
Proof.
  intros Hs. unfold call_service, change, modify. cbn [ticks obj].
  change (upd core_services_ _ (with_services services o)) with (with_services (alter (fmap f) name services) o).
  rewrite (share_services services); [done|done|by rewrite has_value_alter].
Qed.

(** The services after [f] was called on those of a list. *)
Definition called (f : Service → Service) (names : list string) (services : gmap string (option Service)) :
    gmap string (option Service) :=
  foldl (λ m k, alter (fmap f) k m) services names.

Lemma has_value_called f names services : has_value <$> called f names services = has_value <$> services.
Proof.
  unfold called. revert services. induction names as [|k names IH]; intros services; [done|].
  simpl. by rewrite IH, has_value_alter.
Qed.

Definition there (l : list (string * option Service)) : list string := (filter (λ '(_, s), is_Some s) l).*1.

Lemma there_cons name s l : there ((name, s) :: l) = if s then name :: there l else there l.
Proof.
  unfold there. destruct s; [by rewrite filter_cons_True by done|].
  rewrite filter_cons_False; [done|]. by intros [? [=]].
Qed.

(** A loop whose body calls [f] on the service. *)
Lemma for_services_run n (g : string → M Orchestrator ()) f l services o :
  share (with_services services o) = with_services services o →
  (∀ name w, name ∈ there l → g name w = call_service name f w) →
  for_each l (λ '(name, service), match service with Some _ => g name | None => mret () end)
    (World n (with_services services o)) = (Ok (), World n (with_services (called f (there l) services) o)).
Proof.
  revert services. induction l as [|[name s] l IH]; intros services Hs Hg; [done|].
  cbn [for_each]. rewrite there_cons in *. destruct s as [s|]; [|by rewrite (bind_run _ _ _ () (World n (with_services services o))) by done; apply IH].
  rewrite (bind_run _ _ _ () (World n (with_services (alter (fmap f) name services) o)))
    by (rewrite Hg by set_solver; by apply call_service_run).
  rewrite IH; [done| |intros; apply Hg; set_solver].
  apply (share_services services); [done|by rewrite has_value_alter].
Qed.

Lemma called_lookup f names services k :
  NoDup names → called f names services !! k =
    if bool_decide (k ∈ names) then (λ s : option Service, f <$> s) <$> services !! k else services !! k.
Proof.
  unfold called. revert services. induction names as [|k' names IH]; intros services Hn; [done|].
  apply NoDup_cons in Hn as [Hk Hn]. simpl. rewrite IH by done. destruct (decide (k = k')) as [->|Hne].
  - rewrite (bool_decide_eq_false_2 _ Hk), bool_decide_eq_true_2 by set_solver. by rewrite lookup_alter_eq.
  - rewrite lookup_alter_ne by done. by rewrite (bool_decide_ext (k ∈ k' :: names) (k ∈ names)) by set_solver.
Qed.

Lemma there_visit services :
  NoDup (there (visit services)) ∧ ∀ k, k ∈ there (visit services) ↔ ∃ s, services !! k = Some (Some s).
Proof.
  pose proof (visit_perm services) as Hp. split.
  - apply NoDup_fmap_fst; [|apply NoDup_filter; rewrite Hp; apply NoDup_map_to_list].
    intros k s1 s2 [_ Hs1]%list_elem_of_filter [_ Hs2]%list_elem_of_filter. rewrite Hp in Hs1, Hs2.
    by apply (map_to_list_unique services k).
  - intros k. unfold there. rewrite list_elem_of_fmap. setoid_rewrite list_elem_of_filter. setoid_rewrite Hp.
    split.
    + intros [[k' s] (-> & [s' ->] & Hin)]. exists s'. by apply elem_of_map_to_list in Hin.
    + intros [s Hs]. exists (k, Some s). split_and!; [done|by eexists|by apply elem_of_map_to_list].
Qed.

(** A call on every service. *)
Lemma called_all f services : called f (there (visit services)) services = (λ s : option Service, f <$> s) <$> services.
Proof.
  destruct (there_visit services) as [Hn Hk]. apply map_eq. intros k. rewrite called_lookup by done.
  rewrite lookup_fmap. case_bool_decide as Hin; [done|]. rewrite Hk in Hin.
  destruct (services !! k) as [[s|]|] eqn:E; [|done..]. destruct Hin. by exists s.
Qed.

Definition marked (b : bool) (services : gmap string (option Service)) : gmap string (option Service) :=
  (λ s : option Service, mark b <$> s) <$> services.

(** The orchestrator with the managers [q] and [l], all services started or none. *)
Definition in_state (b : bool) (q : QodSessionManager) (l : QodNotificationManager) (o : Orchestrator) :
    Orchestrator :=
  o <| core_services_ ::= marked b |> <| core_session_manager_ := Some q |>
    <| core_notification_manager_ := Some l |> <| running := b |>.

Lemma with_services_id o : with_services (core_services_ o) o = o.
Proof. by destruct o. Qed.

Lemma each_service_run n (g : string → M Orchestrator ()) f o :
  share o = o →
  (∀ name w, name ∈ there (visit (core_services_ o)) → g name w = call_service name f w) →
  each_service g (World n o) =
    (Ok (), World n (with_services ((λ s : option Service, f <$> s) <$> core_services_ o) o)).
Proof.
  intros Hs Hg. unfold each_service. rewrite bind_get. cbn [obj].
  rewrite <- (with_services_id o) at 2. rewrite (for_services_run n g f); [|by rewrite with_services_id|done].
  by rewrite called_all.
Qed.

Lemma if_there_run {T} (field : Orchestrator → option T) `{!Setter field} (f : M T ()) n o t t' :
  field o = Some t → f (World n t) = (Ok (), World n t') →
  if_there field f (World n o) = (Ok (), World n (upd field (λ _, Some t') o)).
Proof.
  intros Ht Hf. unfold if_there. rewrite bind_get. cbn [obj]. rewrite Ht. cbn [has_value].
  unfold on_pointer. cbn [obj ticks]. by rewrite Ht, Hf.
Qed.

Lemma notification_stop_run n l :
  queue_mutex_ l = Unlocked →
  QodNotificationManager.stop (World n (l <| running_ := true |>)) =
    (Ok (), World n (l <| running_ := false |> <| task_queue_ := [] |>)).
Proof. destruct l. simpl. by intros ->. Qed.

Lemma session_stop_run n q :
  free (qod_state_manager_ q) →
  QodSessionManager.stop (World n (q <| cleanup_running_ := true |>)) =
    (Ok (), World n (q <| cleanup_running_ := false |>
                       <| qod_state_manager_ ::= λ s, s <| sessions_by_id_ := ∅ |> <| sessions_by_supi_ := ∅ |> |>)).
Proof.
  intros Hf. unfold QodSessionManager.stop. rewrite (bind_run (modify _) _ _ () (World n (q <| cleanup_running_ := false |>))).
  2: by destruct q.
  unfold on. cbn [ticks obj]. rewrite clear_all_sessions_run by done. by destruct q.
Qed.

Lemma share_marked b q l o : share o = o → share (in_state b q l o) = in_state b q l o.
Proof.
  destruct o as [? ? ? p u ? ? ? services ?]. unfold share, in_state, seen. simpl.
  assert (has_value <$> marked b services = has_value <$> services) as ->.
  { unfold marked. apply map_eq. intros k. rewrite !lookup_fmap. by destruct (services !! k) as [[]|]. }
  intros Hs. by injection Hs as -> ->.
Qed.

Lemma restopped q l o :
  with_services ((λ s : option Service, mark false <$> s) <$> core_services_ (in_state true q l o))
    (in_state true q l o) <| running := false |> = in_state false q l o.
Proof.
  destruct o as [? ? ? p u ? ? ? services ?]. unfold in_state, with_services. simpl. f_equal. unfold marked.
  apply map_eq. intros k. rewrite !lookup_fmap. by destruct (services !! k) as [[]|].
Qed.

(** Starting and stopping.  An orchestrator that does not run starts all its services and its two
    managers if no start of a service throws (one that fails is only logged), and runs then; [stop] stops
    the services and the managers, empties the store of QoD sessions and the queue of notifications, and the
    orchestrator does not run any more.  A second [start], and a second [stop], do nothing. *)
Theorem start_stop n o q l :
  share o = o → running o = false → core_session_manager_ o = Some q → core_notification_manager_ o = Some l →
  free (qod_state_manager_ q) → queue_mutex_ l = Unlocked →
  (∀ name s, core_services_ o !! name = Some (Some s) → ∃ b, service_start name = Ok b) →
  let q1 := q <| cleanup_running_ := true |> in
  let l1 := l <| running_ := true |> in
  let q2 := q <| cleanup_running_ := false |>
              <| qod_state_manager_ ::= λ s, s <| sessions_by_id_ := ∅ |> <| sessions_by_supi_ := ∅ |> |> in
  let l2 := l <| running_ := false |> <| task_queue_ := [] |> in
  let o1 := in_state true q1 l1 o in
  let o2 := in_state false q2 l2 o in
  start (World n o) = (Ok (), World n o1) ∧ start (World n o1) = (Ok (), World n o1) ∧
  stop (World n o1) = (Ok (), World n o2) ∧ stop (World n o2) = (Ok (), World n o2).
Proof.
  intros Hs Hr Hq Hl Hf Hm Hstart q1 l1 q2 l2 o1 o2.
  assert (Hs1 : share o1 = o1) by by apply share_marked.
  assert (Hcalls : ∀ name w, name ∈ there (visit (core_services_ o)) →
                     start_service name w = call_service name (mark true) w).
  { intros name w [s Hin]%there_visit. destruct (Hstart name s Hin) as [b Eb].
    unfold start_service. by rewrite (bind_run _ _ w b w) by (unfold lift; by rewrite Eb). }
  split_and!; [|done| |done].
  - unfold start. rewrite bind_get. cbn [obj]. rewrite Hr.
    rewrite (bind_run _ _ _ _ _ (each_service_run n _ (mark true) o Hs Hcalls)).
    set (o' := with_services _ o).
    rewrite (bind_run _ _ _ _ _ (if_there_run core_session_manager_ _ n o' q q1 Hq eq_refl)).
    set (o'' := upd core_session_manager_ _ o').
    by rewrite (bind_run _ _ _ _ _ (if_there_run core_notification_manager_ _ n o'' l l1 Hl eq_refl)).
  - unfold stop. rewrite bind_get. cbn [obj]. change (running o1) with true. cbn [negb].
    rewrite (bind_run _ _ _ _ _ (if_there_run core_notification_manager_ QodNotificationManager.stop n o1 l1 l2 eq_refl (notification_stop_run n l Hm))).
    set (o' := upd core_notification_manager_ _ o1).
    rewrite (bind_run _ _ _ _ _ (if_there_run core_session_manager_ QodSessionManager.stop n o' q1 q2 eq_refl (session_stop_run n q Hf))).
    subst o'. set (o' := upd core_session_manager_ _ _). assert (o' = in_state true q2 l2 o) as -> by by destruct o.
    rewrite (bind_run _ _ _ _ _ (each_service_run n _ (mark false) _ (share_marked true q2 l2 o Hs) (λ _ _ _, eq_refl))).
    unfold modify. cbn [ticks obj]. subst o2. do 2 f_equal. apply restopped.
Qed.

Lemma for_each_app {S A} (f : A → M S ()) l1 l2 w :
  for_each (l1 ++ l2) f w = (for_each l1 f ;; for_each l2 f) w.
Proof.
  revert w. induction l1 as [|x l1 IH]; intros w; [done|]. simpl. unfold mbind, M_bind.
  destruct (f x w) as [[[]|e|u] w']; [apply IH|done..].
Qed.

(** A service whose start throws ends [start]: the services visited before it have been started, the
    orchestrator does not run, and so [stop], the destructor's too, does not stop them. *)
Theorem failed_start n o before name s after e :
  share o = o → running o = false → visit (core_services_ o) = before ++ (name, Some s) :: after →
  (∀ k, k ∈ there before → ∃ b, service_start k = Ok b) → service_start name = Throw e →
  let o' := with_services (called (mark true) (there before) (core_services_ o)) o in
  start (World n o) = (Throw e, World n o') ∧ stop (World n o') = (Ok (), World n o') ∧
  (∀ k, k ∈ there before → ∃ s', core_services_ o' !! k = Some (Some s') ∧ service_started s' = true).
Proof.
  intros Hs Hr Hv Hb He o'.
  assert (Hf : each_service start_service (World n o) = (Throw e, World n o')).
  { unfold each_service. rewrite bind_get. cbn [obj]. rewrite Hv, for_each_app.
    rewrite <- (with_services_id o) at 1.
    erewrite (bind_run (for_each before _));
      [|apply (for_services_run n _ (mark true)); [by rewrite with_services_id|]].
    - cbn [for_each]. unfold start_service, lift, mbind, M_bind. by rewrite He.
    - intros k w [b Eb]%Hb. unfold start_service. by rewrite (bind_run _ _ w b w) by (unfold lift; by rewrite Eb). }
  split_and!.
  - unfold start. rewrite bind_get. cbn [obj]. rewrite Hr. unfold mbind, M_bind. by rewrite Hf.
  - unfold stop. rewrite bind_get. cbn [obj o']. unfold with_services. destruct o; simpl in *. by rewrite Hr.
  - intros k Hk. pose proof (there_visit (core_services_ o)) as [Hn Ht]. rewrite Hv in Hn, Ht.
    unfold there in Hn, Ht. rewrite filter_app, fmap_app in Hn, Ht. fold (there before) in Hn, Ht.
    destruct (proj1 (Ht k)) as [s' Hs']; [set_solver|]. exists (mark true s'). split; [|done].
    change (core_services_ o') with (called (mark true) (there before) (core_services_ o)).
    rewrite called_lookup by (by apply NoDup_app in Hn as [? _]). by rewrite bool_decide_eq_true_2, Hs' by done.
Qed.
End Initialize.

(** ** Witnesses *)

Section Witnesses.
#[local] Existing Instances unit_models tick_clock tree_order plain_library tree_json.
#[local] Existing Instances confirming_environment null_mapper.
#[local] Existing Instances example_helpers quiet_policies quiet_subscriptions one_capture.

(** A core reached over HTTP and a PCF handler in the same process; a configuration tells whether the PCF
    handler is enabled. *)
Definition bundled_configuration : AppConfiguration := {|
  EndpointConfig := string * Z; mkEndpointConfig := pair; endpoint_host := fst; endpoint_port := snd;
  CommunicationKind := string; Grpc := "grpc"; Http := "http";
  CommunicationConfig := string; kind := λ k, k; listen := λ _, ("0.0.0.0", 8080);
  remote := λ _, None; config_base_path := λ _, ""; config_use_tls := λ _, false; timeout_ms := λ _, 5000;
  AppConfig := bool; AppConfig_default := true;
  core_communication := λ _, "http"; core_max_session_duration := λ _, 86400;
  core_min_session_duration := λ _, 60; core_session_cleanup_interval := λ _, 60;
  core_unavailable_session_ttl := λ _, 360; core_enable_notifications := λ _, true;
  core_api_base_url := λ _, "https://api.example.com/quality-on-demand/v1";
  pcf_handler_enabled := λ c, c; pcf_communication := λ _, "direct";
  pcf_base_url := λ _, "http://pcf:80"; pcf_use_tls := λ _, false; pcf_api_version := λ _, "v1";
  load_app_config := λ path, if String.eqb path "af.yaml" then Ok true
                             else Throw (runtime_error "bad file");
  validate := λ _, Ok ();
  kind_to_string := λ k, k; port_to_string := pretty;
  resolve_destination := λ k e service,
    if String.eqb k "direct" then service else e.1 +:+ ":" +:+ pretty e.2 |}.

Definition all_services : ServiceFactory := {|
  create_service := λ _ _ _, Ok true; service_start := λ name, Ok (String.eqb name "main") |}.
#[local] Existing Instances bundled_configuration all_services.

Lemma initialize_spec_witness :
  ∃ services, expected_services (config_in_force "af.yaml") = Ok services ∧
    initialize (World 0 (AfOrchestrator_new "af.yaml")) = (Ok (), World 0 (initialized "af.yaml" services)).
Proof.
  eexists. split; [reflexivity|]. refine (initialize_spec 0 "af.yaml" _ _); [discriminate|discriminate].
Defined.

Definition bundled_services : gmap string (option Service) :=
  match expected_services (config_in_force "af.yaml") with Ok services => services | _ => ∅ end.

(** The initialized orchestrator starts and stops. *)
Lemma start_stop_witness :
  (start (World 0 (initialized "af.yaml" bundled_services))).1 = Ok () ∧
  running (obj (start (World 0 (initialized "af.yaml" bundled_services))).2) = true.
Proof.
  destruct (start_stop 0 (initialized "af.yaml" bundled_services)
    ((QodSessionManager_new (Some (UeStateManager_new (Some (mkEventDispatcher [] [])))) QodStateManager_new
       (qod_config_of (config_in_force "af.yaml"))) <| pcf_service_ := true |> <| pcf_destination_ := "pcf_handler" |>
       <| notification_handler_ := true |>)
    (QodNotificationManager_new NotificationConfig_default)) as (E & _);
    [reflexivity..|by constructor|reflexivity|by eexists|].
  rewrite E. split; reflexivity.
Defined.
End Witnesses.
