(* ===== verification/PcfSetup.v ===== *)
(** * The PCF handler: configuration, construction, start and stop

    The rest of [southbound/pcf_handler/src/pcf_handler.cpp]: the configuration, the constructor with
    the HTTP services of its two gateways, the communication service, the registration of the message
    types, [start] and [stop]; and the factory of the bundle, [src/southbound_handler_factory.cpp]. *)

From S2P Require Import Prelude Effects UeState Events UeStateManager QodTypes QodStateManager Json.
From S2P Require Import Comms ServiceHelpers RequestRouter RestRouter PolicyManager SubscriptionManager.
From S2P Require Import PcfHelpers PccRuleManager PcfGateway QodPcfHandler PcfHandler.
From S2P Require Import QodSessionManager QodNotificationManager QodHandler Orchestrator.
From S2P Require Import OrchestratorSetup.

(** [create_service("http", name, config)], cast to the type of HTTP services: whether there is one. *)
Class HttpServiceFactory := create_http_service : string → gmap string string → result bool.

Section Definitions.
Context `{Clock} `{HandlerLibrary} `{!ValidationLibrary} `{!PcfLibrary} `{HttpService}.
Context `{!PcfModel} `{CoreService} `{AppConfiguration} `{ServiceFactory} `{HttpServiceFactory}.

(** Unlike the server of the AF core, an HTTP server is told the address of the other side. *)
Definition pcf_server_config (config : CommunicationConfig) : gmap string string :=
  let result := make_server_config config in
  match remote config with
  | Some endpoint =>
    if bool_decide (kind config = Http) then <["base_url" := http_url config endpoint]> result else result
  | None => result
  end.

(** [load_config()]: the configuration, invalid or not, and the destination of messages to the core. *)
Definition pcf_load_config (config_path : string) : result (AppConfig * string) :=
  config ← match load_app_config config_path with
           | Ok config => match validate config with Undefined u => Undefined u | _ => Ok config end
           | Throw _ => Ok AppConfig_default
           | Undefined u => Undefined u
           end;
  let communication := pcf_communication config in
  let remote_endpoint := value_or (mkEndpointConfig "af_core" 50051) (remote communication) in
  mret (config, resolve_destination (kind communication) remote_endpoint "af_core").

Definition pcf_sbi_config (config : AppConfig) : gmap string string :=
  <["client_only" := "true"]> (<["timeout_ms" := "5000"]>
    (<["use_tls" := bool_text (pcf_use_tls config)]> {["base_url" := pcf_base_url config]})).

(** A gateway to the PCF over a service of its own; none without the service. *)
Definition pcf_gateway (name : string) (config : AppConfig) : result (option HttpPcfGateway) :=
  created ← create_http_service name (pcf_sbi_config config);
  mret (if created : bool then Some (HttpPcfGateway_new true (pcf_api_version config)) else None).

(** The handler with its configuration and its communication service, which may be null. *)
Record PcfService := mkPcfService {
  pcf_app_config_ : AppConfig;
  handler : PcfHandler (G:=HttpPcfGateway);
  pcf_core_comm_ : option Service }.

#[global] Instance PcfService_settable : Settable PcfService := λ s,
  mkPcfService (pcf_app_config_ s) (handler s) (pcf_core_comm_ s).

(** [PcfHandler::PcfHandler(config_path)]; the constructor of the QoD handler initializes its gateway. *)
Definition PcfService_new (config_path : string) : result PcfService :=
  '(config, destination) ← pcf_load_config config_path;
  qod_gateway ← pcf_gateway "qod_pcf_sbi" config;
  gateway ← pcf_gateway "pcf_sbi" config;
  h ← PcfHandler_new destination qod_gateway gateway;
  mret (mkPcfService config h None).

Definition pcf_initialize_communication : M PcfService () :=
  s ← get;
  let communication := pcf_communication (pcf_app_config_ s) in
  service ← lift (new_service (kind_to_string (kind communication)) "pcf_handler" (pcf_server_config communication));
  modify (λ s, s <| pcf_core_comm_ := service |>) ;;
  on handler (PcfHandler.initialize_communication (has_value service)).

Definition pcf_register_handlers : M PcfService () :=
  modify (λ s, s <| pcf_core_comm_ ::= fmap (λ c, c
    <| service_handlers ::= λ l, l ++ ((λ type, (type, to_component)) <$> PcfHandler.register_handlers) |>) |>).

Definition pcf_initialize : M PcfService () :=
  on handler (on handler_gateway_ gateway_initialize) ;;
  pcf_initialize_communication ;;
  pcf_register_handlers.

(** A start that fails is only logged. *)
Definition pcf_start : M PcfService () :=
  s ← get;
  match pcf_core_comm_ s with
  | Some c => lift (service_start (service_name c)) ;; modify (λ s, s <| pcf_core_comm_ := Some (mark true c) |>)
  | None => mret ()
  end.

Definition pcf_stop : M PcfService () := modify (λ s, s <| pcf_core_comm_ ::= fmap (mark false) |>).

(** ** The handlers of the bundle: [src/southbound_handler_factory.cpp] *)

Record SouthboundHandlerDescriptor := mkSouthboundHandlerDescriptor {
  display_name : string;
  is_enabled : AppConfig → bool;
  create : string → result PcfService }.

(** [built] tells whether [AF_ENABLE_PCF_HANDLER] is defined; the other handlers do not exist yet. *)
Definition make_handler_registry (built : bool) : list SouthboundHandlerDescriptor :=
  if built then [mkSouthboundHandlerDescriptor "pcf_handler" pcf_handler_enabled PcfService_new] else [].

Fixpoint create_enabled (config_path : string) (app_config : AppConfig) (registry : list SouthboundHandlerDescriptor) :
    result (list PcfService) :=
  match registry with
  | [] => mret []
  | descriptor :: registry =>
    if is_enabled descriptor app_config then
      h ← create descriptor config_path;
      handlers ← create_enabled config_path app_config registry;
      mret (h :: handlers)
    else create_enabled config_path app_config registry
  end.

(** Unlike the components themselves, it does not go on without a configuration. *)
Definition create_southbound_handlers (built : bool) (config_path : string) : result (list PcfService) :=
  app_config ← load_app_config config_path;
  create_enabled config_path app_config (make_handler_registry built).
End Definitions.
