(* ===== verification/PcfSetupSpec.v ===== *)
(** * How the AF core and the PCF handler find each other

    Both components are set up from one configuration.  The addresses they use are compared with the
    services the other side creates. *)

From S2P Require Import Prelude Effects UeState Events UeStateManager QodTypes QodStateManager Json.
From S2P Require Import Comms ServiceHelpers RequestRouter RestRouter PolicyManager SubscriptionManager.
From S2P Require Import PcfHelpers PccRuleManager PcfGateway QodPcfHandler PcfHandler PcfExamples PcfHandlerSpec.
From S2P Require Import QodSessionManager QodNotificationManager QodHandler Orchestrator.
From S2P Require Import OrchestratorSetup OrchestratorSetupSpec PcfSetup.

Section Meeting.
Context `{Clock} `{HandlerLibrary} `{!ValidationLibrary} `{!PcfLibrary} `{HttpService}.
Context `{!PcfModel} `{CoreService} `{AppConfiguration} `{ServiceFactory} `{HttpServiceFactory}.

Lemma pcf_load_config_run path :
  (∀ u, load_app_config path ≠ Undefined u) → (∀ config u, validate config ≠ Undefined u) →
  let config := config_in_force path in
  let comm := pcf_communication config in
  pcf_load_config path =
    Ok (config, resolve_destination (kind comm) (value_or (mkEndpointConfig "af_core" 50051) (remote comm)) "af_core").
Proof.
  intros Hl Hv. unfold pcf_load_config, config_in_force.
  destruct (load_app_config path) as [config|e|u] eqn:E; [|done|by destruct (Hl u)].
  destruct (validate config) as [|e|u] eqn:Ev; [done..|by destruct (Hv config u)].
Qed.

Lemma PcfService_new_inv path s :
  (∀ u, load_app_config path ≠ Undefined u) → (∀ config u, validate config ≠ Undefined u) →
  PcfService_new path = Ok s →
  let comm := pcf_communication (config_in_force path) in
  pcf_app_config_ s = config_in_force path ∧ pcf_core_comm_ s = None ∧
  core_destination_ (handler s) =
    resolve_destination (kind comm) (value_or (mkEndpointConfig "af_core" 50051) (remote comm)) "af_core".
Proof.
  intros Hl Hv. unfold PcfService_new. rewrite pcf_load_config_run by done.
  cbn [mbind mret result_bind result_ret].
  destruct (pcf_gateway "qod_pcf_sbi" _) as [q|?|?]; [|done..]. cbn [result_bind].
  destruct (pcf_gateway "pcf_sbi" _) as [[g|]|?|?]; [|done..]. cbn. by intros [= <-].
Qed.

(** [initialize] of the handler: its service, with the message types registered. *)
Lemma pcf_initialize_inv n s n' s' :
  pcf_initialize (World n s) = (Ok (), World n' s') →
  let comm := pcf_communication (pcf_app_config_ s) in
  pcf_app_config_ s' = pcf_app_config_ s ∧ core_destination_ (handler s') = core_destination_ (handler s) ∧
  pcf_core_comm_ s' =
    Some (mkService (kind_to_string (kind comm)) "pcf_handler" (pcf_server_config comm)
            ((λ type, (type, to_component)) <$> PcfHandler.register_handlers) [] false).
Proof.
  unfold pcf_initialize, pcf_initialize_communication, new_service. destruct s as [config h c].
  destruct h as [g ? ? ? ? ? ? ?]. unfold mbind, M_bind, result_bind, lift, on. cbn.
  destruct (create_service _ "pcf_handler" _) as [[]|e|u]; cbn; [|done..]. by intros [= <- <-].
Qed.

(** The bundle has the one handler if it is built and enabled; if the configuration cannot be loaded it does not
    start, whereas the core and the handler would start with the default configuration. *)
Theorem create_southbound_handlers_spec built path :
  match load_app_config path with
  | Ok config =>
    if built && pcf_handler_enabled config
    then create_southbound_handlers built path = (h ← PcfService_new path; mret [h])
    else create_southbound_handlers built path = Ok []
  | Throw e => create_southbound_handlers built path = Throw e ∧ config_in_force path = AppConfig_default
  | Undefined u => create_southbound_handlers built path = Undefined u
  end.
Proof.
  unfold create_southbound_handlers, config_in_force. destruct (load_app_config path) as [config|e|u]; [|done..].
  cbn [mbind result_bind]. destruct built; [|done]. cbn. by destruct (pcf_handler_enabled config).
Qed.

(** The services the AF core creates. *)
Lemma expected_services_lookup config services name s :
  expected_services config = Ok services → services !! name = Some (Some s) →
  (name = "main" ∧ s = main_service config) ∨
  (name = "pcf" ∧ service_kind s = kind_to_string (kind (pcf_communication config)) ∧ service_name s = "af_core_pcf").
Proof.
  unfold expected_services, expected_pcf_service, new_service.
  destruct (create_service _ "af_core" _) as [[]|?|?]; [|done..]. cbn [mbind result_bind].
  assert (Hmain : ({["main" := Some (main_service config)]} : gmap string (option Service)) !! name = Some (Some s) →
                  name = "main" ∧ s = main_service config).
  { intros [<- [= <-]]%lookup_singleton_Some. done. }
  destruct (pcf_handler_enabled config); [|intros [= <-]; auto].
  destruct (create_service _ "af_core_pcf" _) as [[]|?|?]; [| |done..]; intros [= <-]; [|auto].
  intros [[<- [= <-]]|[_ Hs]]%lookup_insert_Some; [|auto]. right. split_and!; done.
Qed.

End Meeting.

(** ** Witness *)

Section Witness.
#[local] Existing Instances handler_json tick_clock handler_helpers plain_validation plain_pcf_library plain_model
  accepting_pcf quiet_core bundled_configuration all_services.
#[local] Instance http_services : HttpServiceFactory := λ _ _, Ok true.

Definition bundled_pcf : PcfService :=
  match PcfService_new "af.yaml" with
  | Ok s => s
  | _ => mkPcfService (config_in_force "af.yaml") example_handler None
  end.

End Witness.
