(* ===== verification/AdapterConfig.v ===== *)
(** * The configuration and the programs of the demonstration adapter

    [adapters/demo-qod-adapter/include/adapter_config.hpp], [adapters/demo-qod-adapter/src/adapter_config.cpp],
    and the two programs that use it: [main] of [adapters/demo-qod-adapter/src/main.cpp] and the worker of
    [adapters/demo-qod-adapter/src/bundled_entry.cpp].  yaml-cpp and the configuration class of the common
    library are parameters, as are the environment and the files. *)

From S2P Require Import Prelude Effects CxxString Json AdapterModels QodClient AdapterSessions HttpQodClient.

(** ** Libraries *)

(** yaml-cpp: [YAML::LoadFile], [YAML::Node{}], [n] in a condition, [n.IsSequence()], the elements a loop visits,
    [n[k]], [n.as<T>()] and [n.as<T>(fallback)]. *)
Class Yaml := {
  node : Type;
  load_file : string → result node;
  empty_node : node;
  is_defined : node → bool;
  is_sequence : node → bool;
  elements_of : node → result (list node);
  child : node → string → result node;
  as_string : node → result string;
  as_int : node → result Z;
  as_string_or : string → node → result string;
  as_int_or : Z → node → result Z;
  as_bool_or : bool → node → result bool }.

(** [af::config::Configuration]: [load(path)], [get<std::string>(key, fallback)], [get<int>(key, fallback)]; and
    [af::config::port_to_string]. *)
Class ConfigurationFile := {
  Configuration : Type;
  configuration_load : string → result Configuration;
  get_text : Configuration → string → string → result string;
  get_integer : Configuration → string → Z → result Z;
  port_text : Z → string }.

(** [std::getenv], and whether a file can be opened. *)
Class ProcessEnvironment := { getenv : string → option string; file_exists : string → bool }.

Record MonitorConfig := mkMonitorConfig { interval_seconds : Z; iterations : Z }.
Definition MonitorConfig_default : MonitorConfig := mkMonitorConfig 10 6.

Record AdapterRuntimeConfig := mkAdapterRuntimeConfig {
  runtime_client : QodClientConfig; runtime_monitor : MonitorConfig; runtime_streams : list StreamConfig }.
Record AdapterRuntimeDefaults := mkAdapterRuntimeDefaults {
  default_client : QodClientConfig; default_monitor : MonitorConfig }.

(** ** Keys *)

Definition join_key (root_prefix key : string) : string :=
  if empty root_prefix then key else root_prefix +:+ "." +:+ key.

(** The tokens of the loop of [resolve_root_node]: the parts between dots, [token] being read; what follows
    a last dot is a part only if it is not empty. *)
Fixpoint prefix_tokens (token s : string) : list string :=
  match s with
  | EmptyString => if empty token then [] else [token]
  | String c s => if Ascii.eqb c "." then token :: prefix_tokens "" s else prefix_tokens (token +:+ String c "") s
  end.

Section Definitions.
Context `{Yaml} `{ConfigurationFile} `{ProcessEnvironment}.

Fixpoint descend (tokens : list string) (current : node) : result node :=
  match tokens with
  | [] => mret current
  | token :: tokens =>
    current ← child current token;
    if is_defined current then descend tokens current else mret empty_node
  end.

Definition resolve_root_node (root : node) (root_prefix : string) : result node :=
  if empty root_prefix then mret root else descend (prefix_tokens "" root_prefix) root.

(** The port is converted to [std::uint16_t]. *)
Definition build_endpoint_address (config : Configuration) (root_prefix endpoint_prefix fallback_value : string) :
    result string :=
  host ← get_text config (join_key root_prefix (endpoint_prefix +:+ ".host")) "";
  port ← get_integer config (join_key root_prefix (endpoint_prefix +:+ ".port")) 0;
  if empty host || (port <=? 0) then mret fallback_value
  else mret (host +:+ ":" +:+ port_text (port mod 2 ^ 16)).

(** ** Streams *)

(** [n[k].as<T>(fallback)] *)
Definition text_or (n : node) (k fallback : string) : result string := v ← child n k; as_string_or fallback v.
Definition int_or (n : node) (k : string) (fallback : Z) : result Z := v ← child n k; as_int_or fallback v.

(** [for (const auto& x : n) l.push_back(f(x));] *)
Fixpoint push_all {A} (f : node → result A) (l : list node) : result (list A) :=
  match l with
  | [] => mret []
  | n :: l => a ← f n; rest ← push_all f l; mret (a :: rest)
  end.

(** [if (n[k] && n[k].IsSequence()) for (...) ...] *)
Definition sequence_of {A} (n : node) (k : string) (f : node → result A) : result (list A) :=
  v ← child n k;
  if is_defined v && is_sequence v then l ← elements_of v; push_all f l else mret [].

Definition parse_address (ip : node) : result DeviceIpv4Addr :=
  public_address ← text_or ip "public_address" "";
  public_port ← int_or ip "public_port" 0;
  mret (mkDeviceIpv4Addr public_address public_port).

(** [if (auto x = n[k]) ...] *)
Definition if_defined {A} (n : node) (k : string) (d : A) (f : node → result A) : result A :=
  v ← child n k; if is_defined v then f v else mret d.

Definition parse_device (dev : node) : result Device :=
  address ← if_defined dev "ipv4_address" None (λ ip, a ← parse_address ip; mret (Some a));
  phone_number ← if_defined dev "phone_number" None (λ v, s ← as_string v; mret (Some s));
  mret (mkDevice phone_number None address).

Definition parse_range (range : node) : result PortRange :=
  a ← int_or range "from" 0; b ← int_or range "to" 0; mret (mkPortRange a b).

Definition parse_device_ports (dp : node) : result PortsSpec :=
  ports ← sequence_of dp "ports" as_int;
  ranges ← sequence_of dp "ranges" parse_range;
  mret (mkPortsSpec ranges ports).

Definition parse_stream (s : node) : result StreamConfig :=
  name ← text_or s "name" "";
  description ← text_or s "description" "";
  qos_profile ← text_or s "qos_profile" "QOS_S";
  duration_seconds ← int_or s "duration_seconds" 3600;
  device ← if_defined s "device" (mkDevice None None None) parse_device;
  server ← if_defined s "application_server" (mkApplicationServer "")
             (λ v, a ← text_or v "ipv4_address" "0.0.0.0/0"; mret (mkApplicationServer a));
  device_ports ← if_defined s "device_ports" None (λ dp, spec ← parse_device_ports dp; mret (Some spec));
  mret (mkStreamConfig name description device server device_ports qos_profile duration_seconds).

Definition parse_streams (root : node) : result (list StreamConfig) := sequence_of root "streams" parse_stream.

(** ** Loading *)

Definition load_client_config (config : Configuration) (defaults : QodClientConfig) (root_prefix : string) :
    result QodClientConfig :=
  fallback ← build_endpoint_address config root_prefix "af_core.communication.remote" (af_core_address defaults);
  address ← get_text config (join_key root_prefix "af_core.address") fallback;
  transport ← get_text config (join_key root_prefix "af_core.transport") (transport defaults);
  timeout ← get_integer config (join_key root_prefix "af_core.timeout_seconds") (timeout_seconds defaults);
  retries ← get_integer config (join_key root_prefix "retry.max_retries") (max_retries defaults);
  delay ← get_integer config (join_key root_prefix "retry.initial_delay_ms") (initial_retry_delay_ms defaults);
  mret (mkQodClientConfig address transport timeout retries delay).

Definition load_monitor_config (config : Configuration) (defaults : MonitorConfig) (root_prefix : string) :
    result MonitorConfig :=
  interval ← get_integer config (join_key root_prefix "monitor.interval_seconds") (interval_seconds defaults);
  n ← get_integer config (join_key root_prefix "monitor.iterations") (iterations defaults);
  mret (mkMonitorConfig interval n).

Definition load_adapter_runtime_config (path : string) (defaults : AdapterRuntimeDefaults) (root_prefix : string) :
    result AdapterRuntimeConfig :=
  config ← configuration_load path;
  client ← load_client_config config (default_client defaults) root_prefix;
  monitor ← load_monitor_config config (default_monitor defaults) root_prefix;
  yaml_root ← load_file path;
  adapter_root ← resolve_root_node yaml_root root_prefix;
  if is_defined adapter_root then
    streams ← parse_streams adapter_root; mret (mkAdapterRuntimeConfig client monitor streams)
  else Throw (runtime_error ("Adapter configuration root not found: " +:+ root_prefix)).

(** The configuration of the bundled adapter and the prefix of its root; no path if there is none. *)
Definition load_bundle_config_location : string * string :=
  match getenv "PHINE_DEMO_QOD_ADAPTER_CONFIG" with
  | Some env_path => (env_path, "")
  | None =>
    if file_exists "/etc/phine.af/demo_qod_adapter.yaml" then ("/etc/phine.af/demo_qod_adapter.yaml", "")
    else if file_exists "/etc/phine.af/af.yaml" then ("/etc/phine.af/af.yaml", "demo_qod_adapter")
    else ("", "")
  end.
End Definitions.

(** ** Programs *)

(** Whether the attempt number [k] of the client of a configuration finds the channel ready, or connects. *)
Class Readiness := probe : QodClientConfig → nat → bool.

Section Programs.
Context `{Clock} `{Json} `{GrpcChannel} `{HttpServer} `{Yaml} `{ConfigurationFile} `{ProcessEnvironment} `{Readiness}.

(** [std::shared_ptr<IQodClient>] *)
Inductive AnyClient := grpc_client (c : QodClient) | http_client (c : HttpQodClient).

(** A virtual call. *)
Definition dispatch {A} (f : M QodClient A) (g : M HttpQodClient A) : M AnyClient A := λ w,
  match obj w with
  | grpc_client c => let '(r, w') := f (World (ticks w) c) in (r, World (ticks w') (grpc_client (obj w')))
  | http_client c => let '(r, w') := g (World (ticks w) c) in (r, World (ticks w') (http_client (obj w')))
  end.

#[global] Instance AnyClient_client : IQodClient AnyClient := {|
  client_create_session request := dispatch (client_create_session request) (client_create_session request);
  client_get_session sid := dispatch (client_get_session sid) (client_get_session sid);
  client_delete_session sid := dispatch (client_delete_session sid) (client_delete_session sid);
  client_extend_session sid request := dispatch (client_extend_session sid request) (client_extend_session sid request);
  client_retrieve_sessions device := dispatch (client_retrieve_sessions device) (client_retrieve_sessions device) |}.

Definition make_client (config : QodClientConfig) : AnyClient :=
  if String.eqb (transport config) "http" || String.eqb (transport config) "http2"
  then http_client (HttpQodClient_new config) else grpc_client (QodClient_new config).

(** The loop of [wait_for_ready] of both clients; an attempt that fails takes up to a second. *)
Fixpoint poll (config : QodClientConfig) (deadline : Z) (fuel k : nat) : M () bool :=
  match fuel with
  | O => mret false
  | S fuel =>
    t ← now;
    if t <? deadline then if probe config k then mret true else poll config deadline fuel (S k) else mret false
  end.

Definition wait_for_ready (config : QodClientConfig) (fuel : nat) : M () bool :=
  t ← now; poll config (t + timeout_seconds config * 1000000000) fuel 0.

(** How the two programs go on with a configuration: nothing to do, a core that is not reachable, or the end of
    a run with the manager then. *)
Inductive Outcome := no_streams | not_reachable | finished (m : SessionManager (C:=AnyClient)).

Definition run_configured (runtime : AdapterRuntimeConfig) (shutdown : nat → bool) (fuel n : nat) : result Outcome :=
  match runtime_streams runtime with
  | [] => mret no_streams
  | streams =>
    let '(ready, w) := wait_for_ready (runtime_client runtime) fuel (World n ()) in
    ready ← ready;
    if ready : bool then
      let '(r, w) := run_adapter streams shutdown (iterations (runtime_monitor runtime)) fuel
                       (World (ticks w) (SessionManager_new (Some (make_client (runtime_client runtime))))) in
      r ;; mret (finished (obj w))
    else mret not_reachable
  end.

(** [main(argc, argv)] without the name of the program: the exit status, and the outcome if the configuration
    could be loaded.  Exceptions after that are not caught. *)
Definition main (args : list string) (shutdown : nat → bool) (fuel n : nat) : result (Z * option Outcome) :=
  let config_path := value_or "config.yaml" (head args) in
  match load_adapter_runtime_config config_path
          (mkAdapterRuntimeDefaults QodClientConfig_default (mkMonitorConfig 10 6)) "" with
  | Throw _ => Ok (1, None)
  | Undefined u => Undefined u
  | Ok runtime =>
    outcome ← run_configured runtime shutdown fuel n;
    mret (match outcome with finished _ => 0 | _ => 1 end, Some outcome)
  end.

(** [BundledAdapterRuntime::run]: exceptions are logged. *)
Definition bundled_run (shutdown : nat → bool) (fuel n : nat) : result (option Outcome) :=
  let '(config_path, root_prefix) := load_bundle_config_location in
  if empty config_path then mret None else
  match
    runtime ← load_adapter_runtime_config config_path
                (mkAdapterRuntimeDefaults QodClientConfig_default (mkMonitorConfig 10 (-1))) root_prefix;
    run_configured runtime shutdown fuel n
  with
  | Ok outcome => Ok (Some outcome)
  | Throw _ => Ok None
  | Undefined u => Undefined u
  end.
End Programs.

(** ** What the configuration promises *)

(** [join_key] and the loop over the tokens agree: the tokens of joined keys are the keys. *)
Lemma prefix_tokens_no_dot token s rest :
  (∀ c, c ∈ list_ascii_of_string s → c ≠ "."%char) →
  prefix_tokens token (s +:+ String "." rest) = (token +:+ s) :: prefix_tokens "" rest.
Proof.
  revert token. induction s as [|c s IH]; intros token Hs; [by rewrite app_nil_string, app_nil_r_string|].
  rewrite app_cons_string. cbn [prefix_tokens]. destruct (Ascii.eqb_spec c ".") as [->|_].
  { destruct (Hs "."%char); [by left|done]. }
  rewrite IH by (intros c' Hc'; apply Hs; by right). by rewrite app_assoc_string.
Qed.

Lemma prefix_tokens_last token s :
  (∀ c, c ∈ list_ascii_of_string s → c ≠ "."%char) → token +:+ s ≠ "" → prefix_tokens token s = [token +:+ s].
Proof.
  revert token. induction s as [|c s IH]; intros token Hs Hne.
  { rewrite app_nil_r_string in *. by destruct token. }
  cbn [prefix_tokens]. destruct (Ascii.eqb_spec c ".") as [->|_].
  { destruct (Hs "."%char); [by left|done]. }
  rewrite IH; [by rewrite app_assoc_string|intros c' Hc'; apply Hs; by right|by destruct token].
Qed.

Theorem prefix_tokens_join keys :
  keys ≠ [] → (∀ k, k ∈ keys → k ≠ "" ∧ ∀ c, c ∈ list_ascii_of_string k → c ≠ "."%char) →
  prefix_tokens "" (foldr (λ k rest, if empty rest then k else k +:+ "." +:+ rest) "" keys) = keys.
Proof.
  induction keys as [|k keys IH]; intros Hne Hk; [done|]. cbn [foldr]. set (rest := foldr _ _ _) in *.
  destruct (Hk k) as [Hk1 Hk2]; [by left|]. destruct keys as [|k' keys].
  { subst rest. cbn. by rewrite prefix_tokens_last. }
  assert (Hrest : empty rest = false).
  { subst rest. cbn [foldr]. destruct (Hk k') as [Hk' _]; [by right; left|].
    set (tail := foldr _ _ keys). destruct k'; [done|]. by destruct (empty tail). }
  rewrite Hrest. change ("." +:+ rest) with (String "." rest). rewrite prefix_tokens_no_dot by done.
  rewrite app_nil_string. f_equal. apply IH; [done|]. intros k'' Hk''. apply Hk. by right.
Qed.

(** The address of the core: a port above 65535 is not refused, but reduced to 16 bits. *)
Theorem endpoint_address `{ConfigurationFile} config prefix endpoint fallback host port :
  get_text config (join_key prefix (endpoint +:+ ".host")) "" = Ok host →
  get_integer config (join_key prefix (endpoint +:+ ".port")) 0 = Ok port →
  build_endpoint_address config prefix endpoint fallback =
    Ok (if empty host || (port <=? 0) then fallback
        else host +:+ ":" +:+ port_text (if port <? 65536 then port else port mod 65536)).
Proof.
  intros Hh Hp. unfold build_endpoint_address. rewrite Hh. cbn [mbind result_bind]. rewrite Hp. cbn [mbind result_bind].
  destruct (empty host); [done|]. cbn [orb]. destruct (Z.leb_spec port 0); [done|].
  destruct (Z.ltb_spec port 65536); [|done]. by rewrite Z.mod_small by lia.
Qed.

(** [wait_for_ready] ends: if a failed attempt takes a second, as many steps as there are seconds and one more
    are enough, and more fuel changes nothing. *)
Lemma poll_fuel `{Clock} `{Readiness} config deadline fuel k n :
  (∀ n, clock n + 1000000000 <= clock (S n)) → deadline <= clock n + Z.of_nat fuel * 1000000000 →
  poll config deadline (S fuel) k (World n ()) = poll config deadline (S (S fuel)) k (World n ()).
Proof.
  intros Hc. revert k n. induction fuel as [|fuel IH]; intros k n Hd; cbn [poll]; rewrite !bind_now.
  - destruct (Z.ltb_spec (clock (ticks (World n ()))) deadline); [simpl in *; lia|done].
  - destruct (Z.ltb_spec (clock (ticks (World n ()))) deadline); [|done]. destruct (probe config k); [done|].
    apply IH. cbn [ticks] in *. pose proof (Hc n). lia.
Qed.

Theorem wait_for_ready_fuel `{Clock} `{Readiness} config n fuel :
  (∀ n, clock n + 1000000000 <= clock (S n)) → (Z.to_nat (timeout_seconds config) < fuel)%nat →
  wait_for_ready config fuel (World n ()) = wait_for_ready config (S (Z.to_nat (timeout_seconds config))) (World n ()).
Proof.
  intros Hc Hf. induction Hf as [|fuel Hf IH]; [done|]. rewrite <- IH. unfold wait_for_ready. rewrite !bind_now.
  cbn [obj ticks]. destruct fuel as [|fuel]; [lia|]. symmetry. apply poll_fuel; [done|].
  pose proof (Hc n). lia.
Qed.

(** The exit status of [main]: 0 if and only if sessions were managed to the end. *)
Theorem main_status `{Clock} `{Json} `{GrpcChannel} `{HttpServer} `{Yaml} `{ConfigurationFile}
    `{Readiness} args shutdown fuel n status outcome :
  main args shutdown fuel n = Ok (status, outcome) →
  (status = 0 ↔ ∃ m, outcome = Some (finished m)) ∧ (status = 0 ∨ status = 1).
Proof.
  unfold main. destruct (load_adapter_runtime_config _ _ _) as [runtime|e|u]; [|intros [= <- <-]|done].
  - destruct (run_configured runtime shutdown fuel n) as [o|?|?]; [|done..]. cbn. intros [= <- <-].
    destruct o; (split; [|auto]; split; [|by intros [? [=]]]); try done. by eexists.
  - split; [|auto]. split; [done|by intros [? [=]]].
Qed.
