(* ===== verification/ApiAdapter.v ===== *)
(** * The northbound API component: configuration and start-up

    The rest of [northbound/api_component/src/api_adapter.cpp]: the constructor, [loadConfig], [configure],
    [initialize], [start] and [stop].  yaml-cpp, the factory of services and the HTTP/2 server are parameters. *)

From S2P Require Import Prelude Effects CxxString Json Comms AdapterModels AdapterSessions AdapterConfig OrchestratorSetup.

(** A server to listen: the certificate and key files of TLS, if any, the host and the port. *)
Record Listening := mkListening { tls_files : option (string * string); listen_host : string; listen_port : string }.

(** [listen_and_serve]: whether it reports an error, when it returns; a TLS context may throw. *)
Class Http2Server := listen_and_serve : Listening → result bool.

Record ApiAdapter := mkApiAdapter {
  host_ : string;
  port_ : Z;
  threads_ : Z;
  tls_enabled_ : bool;
  cert_file_ : string;
  key_file_ : string;
  core_comm_type_ : string;
  core_address_ : string;
  core_port_ : string;
  core_destination_ : string;
  adapter_core_comm_ : option Service;
  handlers_initialized : option (bool * string);   (* the arguments of [ApiHandlers::initialize] *)
  io_context_ : bool;                              (* whether the pointers are set *)
  server_ : bool;
  served : list Listening                          (* so far *) }.

#[global] Instance ApiAdapter_settable : Settable ApiAdapter := λ a,
  mkApiAdapter (host_ a) (port_ a) (threads_ a) (tls_enabled_ a) (cert_file_ a) (key_file_ a) (core_comm_type_ a)
    (core_address_ a) (core_port_ a) (core_destination_ a) (adapter_core_comm_ a) (handlers_initialized a)
    (io_context_ a) (server_ a) (served a).

Section Definitions.
Context `{Yaml} `{ServiceFactory} `{Http2Server}.

(** The [catch] clause of [loadConfig]. *)
Definition default_settings (a : ApiAdapter) : ApiAdapter :=
  a <| host_ := "0.0.0.0" |> <| port_ := 8080 |> <| threads_ := 4 |> <| tls_enabled_ := false |>
    <| cert_file_ := "" |> <| key_file_ := "" |> <| core_comm_type_ := "grpc" |>
    <| core_address_ := "localhost" |> <| core_port_ := "50051" |>
    <| core_destination_ := "localhost" +:+ ":" +:+ "50051" |>.

(** [config["api_adapter"] ? config["api_adapter"] : config["api_component"]] *)
Definition adapter_node (config : node) : result node :=
  v ← child config "api_adapter"; if is_defined v then mret v else child config "api_component".

Definition communication_node (config adapter_config : node) : result node :=
  v ← (if is_defined adapter_config then child adapter_config "communication" else mret adapter_config);
  if is_defined adapter_config && is_defined v then mret v else child config "communication".

Definition read_address (comm_config : node) : result string :=
  v ← child comm_config "core_address";
  if is_defined v then as_string v else
  v ← child comm_config "af_core_host";
  if is_defined v then as_string v else mret "localhost".

Definition read_port (comm_config : node) : result string :=
  v ← child comm_config "core_port";
  if is_defined v then as_string v else
  v ← child comm_config "af_core_port";
  if is_defined v then z ← as_int v; mret (pretty z) else mret "50051".

(** [field = r;] *)
Definition assign {A} (r : result A) (f : A → ApiAdapter → ApiAdapter) : M ApiAdapter () := v ← lift r; modify (f v).

Definition read_config (config_path : string) : M ApiAdapter () :=
  config ← lift (load_file config_path);
  adapter_config ← lift (adapter_node config);
  comm_config ← lift (communication_node config adapter_config);
  assign (text_or adapter_config "host" "0.0.0.0") (λ v a, a <| host_ := v |>) ;;
  assign (int_or adapter_config "port" 8080) (λ v a, a <| port_ := v |>) ;;
  assign (int_or adapter_config "threads" 4) (λ v a, a <| threads_ := v |>) ;;
  assign (v ← child adapter_config "tls_enabled"; as_bool_or false v) (λ v a, a <| tls_enabled_ := v |>) ;;
  assign (text_or adapter_config "cert_file" "") (λ v a, a <| cert_file_ := v |>) ;;
  assign (text_or adapter_config "key_file" "") (λ v a, a <| key_file_ := v |>) ;;
  assign (text_or comm_config "type" "grpc") (λ v a, a <| core_comm_type_ := v |>) ;;
  assign (read_address comm_config) (λ v a, a <| core_address_ := v |>) ;;
  assign (read_port comm_config) (λ v a, a <| core_port_ := v |>) ;;
  a ← get;
  if String.eqb (core_comm_type_ a) "direct" then
    assign (text_or comm_config "af_core_service" "af_core") (λ v a, a <| core_destination_ := v |>)
  else modify (λ a, a <| core_destination_ := core_address_ a +:+ ":" +:+ core_port_ a |>).

Definition loadConfig (config_path : string) : M ApiAdapter () :=
  try_catch (read_config config_path) (λ _, modify default_settings).

(** The members before the constructor's body; the integers and the flag are not initialized. *)
Definition blank_adapter : ApiAdapter := mkApiAdapter "" 0 0 false "" "" "" "" "" "" None None false false [].

(** [comm_config] of the constructor. *)
Definition core_comm_config (a : ApiAdapter) : gmap string string :=
  let config := if empty (core_address_ a) then ∅ else {["core_address" := core_address_ a]} in
  let config := if empty (core_port_ a) then config else <["core_port" := core_port_ a]> config in
  if String.eqb (core_comm_type_ a) "grpc" then <["client_only" := "true"]> config else config.

Definition ApiAdapter_new (config_path : string) : M ApiAdapter () :=
  loadConfig config_path ;;
  a ← get;
  service ← lift (new_service (core_comm_type_ a) "api_adapter" (core_comm_config a));
  modify (λ a, a <| adapter_core_comm_ := service |>).

(** [configure(settings)]: the keys in their order; [std::stoi] may throw. *)
Definition configure_one (key value : string) : M ApiAdapter () :=
  if String.eqb key "host" then modify (λ a, a <| host_ := value |>)
  else if String.eqb key "port" then assign (stoi value) (λ v a, a <| port_ := v |>)
  else if String.eqb key "threads" then assign (stoi value) (λ v a, a <| threads_ := v |>)
  else if String.eqb key "tls_enabled" then
    modify (λ a, a <| tls_enabled_ := String.eqb value "true" || String.eqb value "1" |>)
  else if String.eqb key "cert_file" then modify (λ a, a <| cert_file_ := value |>)
  else if String.eqb key "key_file" then modify (λ a, a <| key_file_ := value |>)
  else mret ().

Definition configure (settings : gmap string string) : M ApiAdapter () :=
  for_each (keys_in_order settings) (λ key,
    match settings !! key with Some value => configure_one key value | None => mret () end).

(** Without a certificate or a key the server does not use TLS. *)
Definition listening (a : ApiAdapter) : Listening :=
  mkListening
    (if tls_enabled_ a && negb (empty (cert_file_ a)) && negb (empty (key_file_ a))
     then Some (cert_file_ a, key_file_ a) else None)
    (host_ a) (pretty (port_ a)).

(** [core_comm_->start()] *)
Definition start_core_comm : M ApiAdapter () :=
  a ← get;
  match adapter_core_comm_ a with
  | None => undefined null_dereference
  | Some s => lift (service_start (service_name s)) ;; modify (λ a, a <| adapter_core_comm_ := Some (mark true s) |>)
  end.

Definition initialize : M ApiAdapter () :=
  modify (λ a, a <| io_context_ := true |>) ;;
  modify (λ a, a <| handlers_initialized := Some (has_value (adapter_core_comm_ a), core_destination_ a) |>) ;;
  start_core_comm ;;
  modify (λ a, a <| server_ := true |>) ;;
  a ← get;
  failed ← lift (listen_and_serve (listening a));
  if failed : bool then throw (runtime_error "Failed to start HTTP/2 server")
  else modify (λ a, a <| served ::= λ l, l ++ [listening a] |>).

(** Whether the pool of threads is started.  It runs the I/O context, which the server does not use, and [start]
    returns when the threads end. *)
Definition start : M ApiAdapter bool := gets server_.

Definition stop : M ApiAdapter () :=
  a ← get;
  when (io_context_ a) (modify (λ a, a <| server_ := false |>)) ;;
  modify (λ a, a <| adapter_core_comm_ ::= fmap (mark false) |>).
End Definitions.

(** ** What the configuration promises *)

Section Specification.
Context `{Yaml} `{ServiceFactory} `{Http2Server}.

(** Reading the configuration changes the settings only. *)
Definition same_but_settings (a a' : ApiAdapter) : Prop := default_settings a' = default_settings a.

Lemma assign_keeps {A} a (r : result A) f :
  (∀ v a', default_settings (f v a') = default_settings a') → preserves (same_but_settings a) (assign r f).
Proof.
  intros Hf. apply preserves_bind; [apply preserves_lift|]. intros v. apply preserves_modify.
  intros a' Ha. unfold same_but_settings. by rewrite Hf.
Qed.

Lemma read_config_keeps a path : preserves (same_but_settings a) (read_config path).
Proof.
  unfold read_config. repeat (apply preserves_bind; [apply preserves_lift|intros ?]).
  repeat (apply preserves_bind; [by apply assign_keeps|intros ?]).
  apply preserves_get. intros w Hw. destruct (String.eqb _ _); [by apply assign_keeps|].
  revert w Hw. apply preserves_modify. by intros a' Ha.
Qed.

(** A fact that the end of a computation establishes, whatever comes before. *)
Lemma wp_last {A B} (m : M ApiAdapter A) (f : A → M ApiAdapter B) (P : world ApiAdapter → Prop) w :
  (∀ a w', wp (f a) (λ r w'', is_ok r = true → P w'') w') → wp (m ≫= f) (λ r w'', is_ok r = true → P w'') w.
Proof. intros Hf. apply wp_bind. unfold wp at 1. by destruct (m w) as [[a|e|u] w']; [apply Hf|..]. Qed.

(** The destination of messages to the core, unless the core is in the same process. *)
Definition dials (a : ApiAdapter) : Prop :=
  core_comm_type_ a ≠ "direct" → core_destination_ a = core_address_ a +:+ ":" +:+ core_port_ a.

Lemma read_config_dials path w : wp (read_config path) (λ r w', is_ok r = true → dials (obj w')) w.
Proof.
  unfold read_config. do 12 (apply wp_last; clear w; intros ? w). apply wp_get.
  destruct (String.eqb_spec (core_comm_type_ (obj w)) "direct") as [Ht|Ht]; [|by intros _ Hd].
  unfold wp, assign, mbind, M_bind, lift. destruct (text_or _ _ _); [|done..]. by intros _ Hd.
Qed.

(** The configuration is read completely or not at all.  If [loadConfig] returns, either the file could be
    read to the end, or an exception has interrupted the reading and every setting has its default, also those
    that were assigned before; in both cases messages to a core in another process go to its configured address
    and port. *)
Theorem loadConfig_spec path n a w :
  loadConfig path (World n a) = (Ok (), w) →
  (read_config path (World n a) = (Ok (), w) ∨
   ((∃ e, (read_config path (World n a)).1 = Throw e) ∧ obj w = default_settings a)) ∧
  dials (obj w).
Proof.
  unfold loadConfig, try_catch. pose proof (read_config_keeps a path (World n a) eq_refl) as Hk.
  pose proof (read_config_dials path (World n a)) as Hd. unfold wp in *.
  destruct (read_config path (World n a)) as [[[]|e|u] [n' a']]; simpl in *.
  - intros [= <-]. split; [by left|by apply Hd].
  - intros [= <-]. split; [|by intros _]. right. split; [by exists e|]. by apply Hk.
  - done.
Qed.

(** The service to the core is used without a test of the pointer. *)
Lemma initialize_without_core n a :
  adapter_core_comm_ a = None → (initialize (World n a)).1 = Undefined null_dereference.
Proof.
  intros Ha. unfold initialize, start_core_comm, mbind, M_bind, modify, get. cbn. by rewrite Ha.
Qed.
End Specification.

(** ** Witness *)

Section Witness.
(** Documents of maps and scalars; a file whose port of the core is not a number. *)
Inductive document := mapping (l : list (string * document)) | scalar (s : string) | missing.

Definition member (n : document) (k : string) : result document :=
  match n with
  | mapping l => Ok (match find_first (λ p, String.eqb p.1 k) l with Some p => p.2 | None => missing end)
  | scalar _ => Throw (runtime_error "bad subscript")
  | missing => Ok missing
  end.

Definition text_of (n : document) : result string :=
  match n with scalar s => Ok s | _ => Throw (runtime_error "bad conversion") end.

Definition broken_file : document :=
  mapping [("api_adapter", mapping [("host", scalar "10.0.0.1")]);
           ("communication", mapping [("type", scalar "grpc"); ("af_core_port", scalar "none")])].

Definition or_fallback {A} (fallback : A) (r : result A) : result A :=
  match r with Ok a => Ok a | Throw _ => Ok fallback | Undefined u => Undefined u end.

Definition document_yaml : Yaml := {|
  node := document; load_file := λ _, Ok broken_file; empty_node := missing;
  is_defined := λ n, match n with missing => false | _ => true end; is_sequence := λ _, false;
  elements_of := λ _, Ok []; child := member; as_string := text_of; as_int := λ n, s ← text_of n; stoi s;
  as_string_or := λ d n, or_fallback d (text_of n); as_int_or := λ d n, or_fallback d (s ← text_of n; stoi s);
  as_bool_or := λ d n, or_fallback d (s ← text_of n; mret (String.eqb s "true")) |}.
#[local] Existing Instance document_yaml.

(** The host of the file has been read, but is not used. *)
Lemma loadConfig_spec_witness :
  host_ (obj (read_config "api_adapter.yaml" (World 0 blank_adapter)).2) = "10.0.0.1" ∧
  obj (loadConfig "api_adapter.yaml" (World 0 blank_adapter)).2 = default_settings blank_adapter.
Proof.
  split; [reflexivity|].
  destruct (loadConfig_spec "api_adapter.yaml" 0 blank_adapter (loadConfig "api_adapter.yaml" (World 0 blank_adapter)).2)
    as [[Hr|[_ E]] _]; [reflexivity|discriminate|exact E].
Defined.
End Witness.
