(* ===== verification/Programs.v ===== *)
(** * The standalone programs

    [main.cpp] of [af_core], of [southbound/pcf_handler] and of [northbound/api_component]: each builds the object
    of its part in a [try] block, initializes and starts it, and waits; a signal handler stops the object through
    a global pointer and ends the process.  A process is a state machine whose steps are the statements of
    [main]; signals and the requests that the services serve come between them.  The exit status of a process
    that a signal ends is the number of the signal, as the handlers call [exit(signum)]. *)

From S2P Require Import Prelude Effects UeState Events UeStateManager QodTypes QodStateManager Json.
From S2P Require Import Comms ServiceHelpers RequestRouter RestRouter PolicyManager SubscriptionManager SubscriptionSpec.
From S2P Require Import PcfHelpers PccRuleManager PcfGateway QodPcfHandler PcfHandler.
From S2P Require Import QodSessionManager QodSessionSpec QodNotificationManager QodHandler Orchestrator ApiSpec.
From S2P Require Import BundledRuntime OrchestratorSetup OrchestratorSetupSpec PcfSetup AdapterConfig ApiAdapter.

(** ** Programs and processes *)

(** A statement of [main] after the construction of the object: a call; the wait for a thread that repeats
    [pass] and never ends; an endless loop that sleeps. *)
Inductive Statement (A : Type) :=
  | call (m : M A ())
  | join (pass : M A ())
  | sleep_forever.
Arguments call {A} m.
Arguments join {A} pass.
Arguments sleep_forever {A}.

Record Program (A : Type) := mkProgram {
  default_path : string;
  construct : string → nat → result (world A);   (* at a reading of the clock *)
  body : list (Statement A);
  stop_object : M A () }.
Arguments mkProgram {A}.
Arguments default_path {A} _.
Arguments construct {A} _ _ _.
Arguments body {A} _.
Arguments stop_object {A} _.

(** A process, from the registration of the signal handler on. *)
Inductive Process (A : Type) :=
  | registered (config_path : string) (n : nat)
  | executing (rest : list (Statement A)) (w : world A)   (* the object lives, and the global pointer leads to it *)
  | leaving (status : Z) (global : bool)   (* the object is destroyed; whether the pointer still has its address *)
  | exited (status : Z)
  | aborted                                (* [std::terminate] *)
  | broken (u : ub).
Arguments registered {A} _ _.
Arguments executing {A} _ _.
Arguments leaving {A} _ _.
Arguments exited {A} _.
Arguments aborted {A}.
Arguments broken {A} _.

Inductive Event (A : Type) :=
  | Step
  | Serve (m : M A ())        (* a thread of a service serves a request *)
  | Signal (signum : Z).
Arguments Step {A}.
Arguments Serve {A} m.
Arguments Signal {A} signum.

Section Processes.
Context {A : Type} (program : Program A).

Definition begin (args : list string) (n : nat) : Process A :=
  registered (parseConfigPath (default_path program) args) n.

Definition after (rw : result () * world A) (returned thrown : world A → Process A) : Process A :=
  match rw with
  | (Ok _, w) => returned w
  | (Throw _, w) => thrown w
  | (Undefined u, _) => broken u
  end.

(** The next statement.  The [catch] clauses return 1; the object is destroyed before they run, and no program
    clears its global pointer.  An exception that leaves a thread ends the process. *)
Definition main_step (p : Process A) : Process A :=
  match p with
  | registered config_path n =>
    match construct program config_path n with
    | Ok w => executing (body program) w
    | Throw _ => leaving 1 false
    | Undefined u => broken u
    end
  | executing [] _ => leaving 0 true
  | executing (call m :: rest) w => after (m w) (executing rest) (λ _, leaving 1 true)
  | executing (join pass as statement :: rest) w => after (pass w) (executing (statement :: rest)) (λ _, aborted)
  | executing (sleep_forever :: _) _ => p
  | leaving status _ => exited status
  | exited _ | aborted | broken _ => p
  end.

(** A request changes the object; an exception is answered by the service. *)
Definition serve (m : M A ()) (p : Process A) : Process A :=
  match p with
  | executing rest w => after (m w) (executing rest) (executing rest)
  | _ => p
  end.

Definition signalHandler (signum : Z) (p : Process A) : Process A :=
  match p with
  | registered _ _ | leaving _ false => exited signum
  | executing _ w => after (stop_object program w) (λ _, exited signum) (λ _, aborted)
  | leaving _ true => broken dangling_reference
  | exited _ | aborted | broken _ => p
  end.

Definition happen (p : Process A) (e : Event A) : Process A :=
  match e with
  | Step => main_step p
  | Serve m => serve m p
  | Signal signum => signalHandler signum p
  end.

Definition execute (events : list (Event A)) (p : Process A) : Process A := foldl happen p events.
End Processes.

(** ** The three programs *)

Section Core.
Context `{CommonModels} `{Clock} `{IterationOrder} `{QodLibrary} `{!Environment} `{Json} `{!QosMapper}.
Context `{!HandlerLibrary} `{!PolicyEnvironment} `{!SubscriptionEnvironment} `{UrlLibrary}.
Context `{AppConfiguration} `{ServiceFactory}.

(** The cleanup thread: an iteration per ten minutes; [running] stays [true]. *)
Definition cleanup_pass : M Orchestrator () := on core_subscription_manager_ cleanup_expired_subscriptions ;; mret ().

Definition core_main : Program Orchestrator := {|
  default_path := "/etc/phine.af/af_core.yaml";
  construct := λ config_path n, Ok (World n (AfOrchestrator_new config_path));
  body := [call OrchestratorSetup.initialize; call OrchestratorSetup.start; join cleanup_pass];
  stop_object := OrchestratorSetup.stop |}.
End Core.

Section Pcf.
Context `{Clock} `{HandlerLibrary} `{!ValidationLibrary} `{!PcfLibrary} `{HttpService}.
Context `{!PcfModel} `{CoreService} `{AppConfiguration} `{ServiceFactory} `{HttpServiceFactory}.

Definition pcf_main : Program PcfService := {|
  default_path := "/etc/phine.af/southbound/pcf_handler.yaml";
  construct := λ config_path n, s ← PcfService_new config_path; mret (World n s);
  body := [call pcf_initialize; call pcf_start; sleep_forever];
  stop_object := pcf_stop |}.
End Pcf.

Section Api.
Context `{Yaml} `{ServiceFactory} `{Http2Server}.

(** The server serves in [initialize]; the threads that [start] waits for find nothing to do and end. *)
Definition api_main : Program ApiAdapter := {|
  default_path := "/etc/phine.af/api_adapter.yaml";
  construct := λ config_path n, let '(r, w) := ApiAdapter_new config_path (World n blank_adapter) in r ;; mret w;
  body := [call ApiAdapter.initialize; call (ApiAdapter.start ;; mret ())];
  stop_object := ApiAdapter.stop |}.
End Api.

(** ** How the processes end *)

Section Ends.
Context {A : Type} (program : Program A).

(** The last statement does not return. *)
Definition waits_forever (rest : list (Statement A)) : Prop :=
  ∃ statement, last rest = Some statement ∧ match statement with call _ => False | _ => True end.

(** A process can end with the statuses in [allowed]. *)
Definition ends_within (allowed : Z → Prop) (p : Process A) : Prop :=
  match p with
  | registered _ _ => waits_forever (body program)
  | executing rest _ => waits_forever rest
  | leaving status _ => status = 1
  | exited status => allowed status
  | aborted | broken _ => True
  end.

Lemma after_ends (P : Process A → Prop) rw returned thrown :
  (∀ w, P (returned w)) → (∀ w, P (thrown w)) → (∀ u, P (broken u)) → P (after rw returned thrown).
Proof. destruct rw as [[[]|e|u] w]; simpl; auto. Qed.

Lemma happen_ends (allowed : Z → Prop) p e :
  allowed 1 → match e with Signal signum => allowed signum | _ => True end →
  ends_within allowed p → ends_within allowed (happen program p e).
Proof.
  intros H1 He Hp. destruct e as [|m|signum]; destruct p as [path n|rest w|status global|status| |u]; simpl in *;
    try done; try by subst.
  - by destruct (construct _ _ _).
  - destruct Hp as (s & Hl & Hs). destruct rest as [|[m|pass|] rest]; [done|..].
    + apply after_ends; [|done..]. intros w'. destruct rest as [|s' rest]; [by simplify_eq/=|by exists s].
    + apply after_ends; [|done..]. by intros w'; exists s.
    + by exists s.
  - by apply after_ends.
  - by apply after_ends.
  - by destruct global.
Qed.

(** A program that waits for ever ends with status 1, or by a signal, whatever happens. *)
Theorem never_returns_zero events args n status :
  waits_forever (body program) →
  execute program events (begin program args n) = exited status →
  status = 1 ∨ Signal status ∈ events.
Proof.
  intros Hw E. set (allowed z := z = 1 ∨ Signal z ∈ events).
  enough (∀ l p, (∀ e, e ∈ l → e ∈ events) → ends_within allowed p → ends_within allowed (execute program l p)) as Hall.
  { specialize (Hall events (begin program args n) (λ _ He, He) Hw). by rewrite E in Hall. }
  induction l as [|e l IH]; intros p Hl Hp; [done|]. apply IH; [intros e' He'; apply Hl; by right|].
  apply happen_ends; [by left| |done]. destruct e; try done. right. apply Hl. by left.
Qed.

(** The step of a call, by its outcome. *)
Lemma call_returns m w w' rest events :
  m w = (Ok (), w') →
  execute program (Step :: events) (executing (call m :: rest) w) = execute program events (executing rest w').
Proof. intros E. unfold execute, foldl at 1, happen at 2, main_step. by rewrite E. Qed.
Lemma call_throws m w e rest events :
  (m w).1 = Throw e →
  execute program (Step :: events) (executing (call m :: rest) w) = execute program events (leaving 1 true).
Proof. unfold execute, foldl at 1, happen at 2, main_step. destruct (m w). by intros [= ->]. Qed.
Lemma call_breaks m w u rest :
  (m w).1 = Undefined u → execute program [Step] (executing (call m :: rest) w) = broken u.
Proof. unfold execute, foldl at 1, happen, main_step. destruct (m w). by intros [= ->]. Qed.
End Ends.

(** ** The AF core as a process *)

Section Serving.
Context `{CommonModels} `{Clock} `{IterationOrder} `{QodLibrary} `{!Environment} `{Json} `{!QosMapper}.
Context `{!HandlerLibrary} `{!PolicyEnvironment} `{!SubscriptionEnvironment} `{UrlLibrary}.
Context `{AppConfiguration} `{ServiceFactory}.

(** The last statement of the core: a joined thread that cleans up for ever. *)
Definition serving (n : nat) (o : Orchestrator) : Process Orchestrator := executing [join cleanup_pass] (World n o).

(** The core after [initialize] and [start]: services and managers run. *)
Definition started (path : string) (services : gmap string (option Service)) : Orchestrator :=
  (initialized path services) <| core_services_ ::= marked true |>
    <| core_session_manager_ ::= fmap (λ q, q <| cleanup_running_ := true |>) |>
    <| core_notification_manager_ ::= fmap (λ l, l <| running_ := true |>) |>
    <| running := true |>.

(** An iteration of the cleanup thread keeps exactly the subscriptions that have not expired, whatever has been
    served before, and changes nothing else. *)
Lemma cleanup_iteration n o :
  unlocked (core_subscription_manager_ o) →
  execute core_main [Step] (serving n o) =
    serving (S n) (o <| core_subscription_manager_ := keeping (clock n) (core_subscription_manager_ o) |>).
Proof.
  intros Hu. unfold execute, foldl, happen, serving, main_step, cleanup_pass, mbind, M_bind, on. cbn [ticks obj].
  destruct (cleanup_expired_subscriptions_run n _ Hu) as [E _]. by rewrite E.
Qed.

Lemma started_stops n path services :
  (∀ name, ∃ b, service_start name = Ok b) →
  OrchestratorSetup.start (World n (initialized path services)) = (Ok (), World n (started path services)) ∧
  (OrchestratorSetup.stop (World n (started path services))).1 = Ok ().
Proof.
  intros Hs. destruct (start_stop n (initialized path services) _ _ eq_refl eq_refl eq_refl eq_refl) as (E1 & _ & E3 & _);
    [by constructor|done|by intros|]. split; [exact E1|]. pose proof (f_equal fst E3) as E. exact E.
Qed.

End Serving.

(** ** The other programs *)

(** The core and the PCF handler end with status 1 or by a signal: the [return 0] of their [main] is dead code. *)
Lemma core_waits `{CommonModels} `{Clock} `{IterationOrder} `{QodLibrary} `{!Environment} `{Json} `{!QosMapper}
    `{!HandlerLibrary} `{!PolicyEnvironment} `{!SubscriptionEnvironment} `{UrlLibrary}
    `{AppConfiguration} `{ServiceFactory} : waits_forever (body core_main).
Proof. by eexists. Qed.

Lemma pcf_waits `{Clock} `{HandlerLibrary} `{!ValidationLibrary} `{!PcfLibrary} `{HttpService}
    `{!PcfModel} `{CoreService} `{AppConfiguration} `{ServiceFactory} `{HttpServiceFactory} :
  waits_forever (body pcf_main).
Proof. by eexists. Qed.

(** The API adapter, which serves in [initialize], returns 0 as soon as the server has ended without a failure. *)
Lemma api_returns_zero `{Yaml} `{ServiceFactory} `{Http2Server} w w' :
  ApiAdapter.initialize w = (Ok (), w') →
  execute api_main [Step; Step; Step; Step] (executing (body api_main) w) = exited 0.
Proof. intros E. cbn [body api_main]. by rewrite (call_returns _ _ _ _ _ _ E). Qed.

(** ** Witness *)

Section Witness.
#[local] Existing Instances unit_models tick_clock tree_order plain_library tree_json.
#[local] Existing Instances confirming_environment null_mapper.
#[local] Existing Instances example_helpers quiet_policies quiet_subscriptions one_capture.
#[local] Existing Instances bundled_configuration all_services.

End Witness.
